(** * Escape Island: the dungeon generator and the simulation core

    A shallow embedding of the generators ([mulberry32], [generateWorldMap],
    [generateRoomLayout], [generateBuilding]) and of the resource logic of
    the frame update, with the properties the design document states about
    them.

    Numbers.  Every quantity the generators compute is an integer that fits
    the 53 bits a JavaScript double holds exactly, so integers are [Z].  A
    draw of the seeded generator is the double [n / 2^32] for a 32-bit
    [n]; the model carries the numerator [n].  With [k] below [2^21]
    the product [n / 2^32 * k] is exact, so [Math.floor (rng() * k)] is
    [n * k / 2^32] in integer arithmetic, and [rng() < p/q] is
    [n * q < p * 2^32] for the constants used (0.15, 0.3, 0.5). *)

From Stdlib Require Import ZArith QArith Qround Qabs List Bool Lia Lqa FinFun Permutation.
From Stdlib Require Uint63 String.
Import String.StringSyntax.
Delimit Scope string_scope with string.
Import ListNotations.
Local Open Scope Z_scope.

(** ** Constants *)

Definition TILE_SIZE : Z := 48.
Definition PLAYER_SIZE : Z := 32.
Definition BOMB_COST : Z := 1.
Definition HIDDEN_BUILDING_ID : Z := 999.

Module Size.
Record t := { w : Z; h : Z }.
End Size.

Definition ROOM_VARIANTS : list Size.t :=
  [ {| Size.w := 15; Size.h := 11 |}; {| Size.w := 11; Size.h := 9 |};
    {| Size.w := 19; Size.h := 13 |}; {| Size.w := 15; Size.h := 15 |} ].

(** ** The seeded generator *)

Definition two32 : Z := 4294967296.

Definition toUint32 (z : Z) : Z := z mod two32.

(** [Math.imul], as the unsigned representative of its 32-bit result. *)
Definition imul (a b : Z) : Z := toUint32 (a * b).

(** One call of the closure [mulberry32 a] returns: the numerator of the
    draw and the new value of the captured variable [a].  The variable is
    a double that is never truncated; the 32-bit operators read it modulo
    [2^32]. *)
Definition mulberry32 (a : Z) : Z * Z :=
  let a1 := a + 0x6D2B79F5 in
  let t0 := toUint32 a1 in
  let t1 := imul (Z.lxor t0 (Z.shiftr t0 15)) (Z.lor t0 1) in
  let t2 := Z.lxor t1 (toUint32 (t1 + imul (Z.lxor t1 (Z.shiftr t1 7)) (Z.lor t1 61))) in
  (Z.lxor t2 (Z.shiftr t2 14), a1).

(** Code that draws from one generator: the state is the captured [a]. *)
Definition Gen (A : Type) : Type := Z -> A * Z.

Definition ret {A} (x : A) : Gen A := fun a => (x, a).

Definition bind {A B} (m : Gen A) (k : A -> Gen B) : Gen B :=
  fun a => let (x, a1) := m a in k x a1.

Notation "x <- m ;; k" := (bind m (fun x => k))
  (at level 61, m at next level, right associativity).

Definition rng : Gen Z := mulberry32.

(** [getSeededInt rng min max = Math.floor(rng() * (max - min + 1)) + min]. *)
Definition getSeededInt (min max : Z) : Gen Z :=
  n <- rng ;; ret (n * (max - min + 1) / two32 + min).

(** [rng() < num/den]. *)
Definition lessThan (n num den : Z) : bool := n * den <? num * two32.

Fixpoint forEachM {A B} (f : A -> Gen B) (l : list A) : Gen (list B) :=
  match l with
  | [] => ret []
  | x :: l' => y <- f x ;; ys <- forEachM f l' ;; ret (y :: ys)
  end.

(** [0, 1, ..., n-1], the values of a counting [for] loop. *)
Definition upto (n : Z) : list Z := map Z.of_nat (seq 0 (Z.to_nat n)).

(** ** Tiles, doors, rooms *)

Inductive TileType := floor | wall | furniture.

Module Tile.
Record t := { type : TileType; x : Z; y : Z }.
End Tile.

Definition Grid := list (list Tile.t).

(** The [doors] object: a neighbouring room id, or [null]. *)
Module Doors.
Record t := { top : option Z; right : option Z; bottom : option Z; left : option Z }.
End Doors.

Definition noDoors : Doors.t := Doors.Build_t None None None None.

Definition notNull (d : option Z) : bool :=
  match d with Some _ => true | None => false end.

Definition TileType_eqb (s t : TileType) : bool :=
  match s, t with
  | floor, floor | wall, wall | furniture, furniture => true
  | _, _ => false
  end.

(** ** generateRoomLayout *)

Section RoomLayout.
Variables (width height : Z) (doors : Doors.t) (isBossRoom : bool).

Definition midX : Z := width / 2.
Definition midY : Z := height / 2.

Definition isBorder (x y : Z) : bool :=
    (x =? 0) || (x =? width - 1) || (y =? 0) || (y =? height - 1).

  (** The safe zones: the centre box, the axes towards the doors and, in
      a boss room, the corridor to the boss door. *)
Definition isSafe (x y : Z) : bool :=
    ((Z.abs (x - midX) <=? 1) && (Z.abs (y - midY) <=? 1))
    || (notNull (Doors.top doors) && (x =? midX) && (y <? midY))
    || (notNull (Doors.bottom doors) && (x =? midX) && (y >? midY))
    || (notNull (Doors.left doors) && (y =? midY) && (x <? midX))
    || (notNull (Doors.right doors) && (y =? midY) && (x >? midX))
    || (isBossRoom &&
        (let bossDoorX := midX + 2 in
         ((y =? midY) && (x >? midX) && (x <=? bossDoorX))
         || ((x =? bossDoorX) && (y <? midY)))).

Definition genTile (y x : Z) : Gen Tile.t :=
    if isBorder x y then ret (Tile.Build_t wall x y)
    else if isSafe x y then ret (Tile.Build_t floor x y)
    else
      n <- rng ;;
      ret (Tile.Build_t (if lessThan n 15 100 then furniture else floor) x y).

Definition genRow (y : Z) : Gen (list Tile.t) := forEachM (genTile y) (upto width).

Definition genGrid : Gen Grid := forEachM genRow (upto height).
End RoomLayout.

(** [grid[y][x]]. *)
Definition tileAt (grid : Grid) (x y : Z) : option Tile.t :=
  if (x <? 0) || (y <? 0) then None
  else match nth_error grid (Z.to_nat y) with
       | Some row => nth_error row (Z.to_nat x)
       | None => None
       end.

Definition Pt := (Z * Z)%type.

Definition Pt_eqb (p q : Pt) : bool := (fst p =? fst q) && (snd p =? snd q).

Definition has (visited : list Pt) (p : Pt) : bool := existsb (Pt_eqb p) visited.

Definition floodDirs : list Pt := [(0, 1); (0, -1); (1, 0); (-1, 0)].

Section Flood.
Variables (width height : Z) (grid : Grid).

Definition isFloorAt (nx ny : Z) : bool :=
    match tileAt grid nx ny with
    | Some t => TileType_eqb (Tile.type t) floor
    | None => false
    end.

  (** One pass of the [for (let d of dirs)] loop for the tile [curr]. *)
Definition visitNeighbour (curr : Pt) (st : list Pt * list Pt) (d : Pt) : list Pt * list Pt :=
    let (queue, visited) := st in
    let nx := fst curr + fst d in
    let ny := snd curr + snd d in
    if (nx >=? 0) && (ny >=? 0) && (nx <? width) && (ny <? height)
       && isFloorAt nx ny && negb (has visited (nx, ny))
    then (queue ++ [(nx, ny)], (nx, ny) :: visited)
    else (queue, visited).

  (** The [while (queue.length > 0)] loop; [None] when the fuel is spent
      before the queue is empty. *)
Fixpoint floodLoop (fuel : nat) (queue visited reachable : list Pt) : option (list Pt) :=
    match queue with
    | [] => Some reachable
    | curr :: rest =>
        match fuel with
        | O => None
        | S fuel' =>
            let (queue', visited') := fold_left (visitNeighbour curr) floodDirs (rest, visited) in
            floodLoop fuel' queue' visited' (reachable ++ [curr])
        end
    end.

Definition floodFuel : nat := S (Z.to_nat (width * height)).

Definition floodFill : option (list Pt) :=
    let start := (midX width, midY height) in
    floodLoop floodFuel [start] [start] [].
End Flood.

Module Layout.
Record t := { grid : Grid; reachable : list Pt }.
End Layout.

(** The flood fill visits every tile at most once, so the fuel is never
    spent (lemma [floodFill_total]); the default is never taken. *)
Definition generateRoomLayout (width height seed : Z) (doors : Doors.t) (isBossRoom : bool) : Layout.t :=
  let g := fst (genGrid width height doors isBossRoom seed) in
  {| Layout.grid := g;
     Layout.reachable := match floodFill width height g with Some r => r | None => [] end |}.

(** ** generateBuilding *)

Inductive Theme := bathroom | ballroom | living_room | warehouse | dungeon | garden.

Inductive ItemType :=
  pizza | soda | pizzaBox | sodaCarrier | rollerSkates | cookieBag | file | key.

Module Item.
Record t := { id : Z; type : ItemType; x : Z; y : Z; w : Z; h : Z; isUnlimited : bool }.
End Item.

Inductive RoomType := normal | boss.

Module DoorStyles.
Record t := { top : Z; bottom : Z; left : Z; right : Z }.
End DoorStyles.

Module Room.
Record t := {
    id : Z; x : Z; y : Z; width : Z; height : Z;
    doors : Doors.t; doorStyles : DoorStyles.t;
    layout : Layout.t; seed : Z; type : RoomType;
    cleared : bool; explored : bool;
    items : list Item.t }.
End Room.

Module Building.
Record t := { rooms : list Room.t; startRoomId : Z; theme : Theme }.
End Building.

(** An entry of [roomPositions]. *)
Module Pos.
Record t := { id : Z; x : Z; y : Z }.
End Pos.

(** Code that draws from the building's generator and may throw (an
    index that yields [undefined] whose field is then read). *)
Definition Build (A : Type) : Type := Z -> option (A * Z).

Definition retB {A} (v : A) : Build A := fun a => Some (v, a).

Definition bindB {A B} (m : Build A) (k : A -> Build B) : Build B :=
  fun a => match m a with Some (v, a1) => k v a1 | None => None end.

Definition throw {A} : Build A := fun _ => None.

Definition lift {A} (m : Gen A) : Build A := fun a => Some (m a).

Definition orThrow {A} (o : option A) : Build A :=
  match o with Some v => retB v | None => throw end.

Notation "x <~ m ;; k" := (bindB m (fun x => k))
  (at level 61, m at next level, right associativity).

Fixpoint forEachB {A B} (f : A -> Build B) (l : list A) : Build (list B) :=
  match l with
  | [] => retB []
  | v :: l' => r <~ f v ;; rs <~ forEachB f l' ;; retB (r :: rs)
  end.

Definition len {A} (l : list A) : Z := Z.of_nat (length l).

(** [l[i]], [undefined] as [None]. *)
Definition index {A} (l : list A) (i : Z) : option A :=
  if i <? 0 then None else nth_error l (Z.to_nat i).

(** The state of the grid phase.  [occupied] is the [Map] from the key
    [`${x},${y}`] to a room id and [connections] the [Set] of the keys
    [`${a}-${b}`]; both keys are injective encodings of the pair for the
    non-negative ids and the integers used, so the model keeps the pair. *)
Module Placement.
Record t := {
    roomPositions : list Pos.t;
    occupied : list (Pt * Z);
    connections : list (Z * Z) }.
End Placement.

Definition occupiedHas (occ : list (Pt * Z)) (p : Pt) : bool :=
  existsb (fun e => Pt_eqb (fst e) p) occ.

Definition link_eqb (c d : Z * Z) : bool := (fst c =? fst d) && (snd c =? snd d).

(** [Set.add]: insertion order, no duplicate. *)
Definition setAdd (c : Z * Z) (s : list (Z * Z)) : list (Z * Z) :=
  if existsb (link_eqb c) s then s else s ++ [c].

Definition dirs : list Pt := [(0, -1); (1, 0); (0, 1); (-1, 0)].

Definition linkId (a b : Z) : Z * Z := if a <? b then (a, b) else (b, a).

Definition freeDir (occ : list (Pt * Z)) (parent : Pos.t) (d : Pt) : bool :=
  negb (occupiedHas occ (Pos.x parent + fst d, Pos.y parent + snd d)).

(** Room [i] is put beside [parent] in direction [move]. *)
Definition place (i : Z) (parent : Pos.t) (move : Pt) (g : Placement.t) : Placement.t :=
  let newX := Pos.x parent + fst move in
  let newY := Pos.y parent + snd move in
  {| Placement.roomPositions := Placement.roomPositions g ++ [Pos.Build_t i newX newY];
     Placement.occupied := Placement.occupied g ++ [((newX, newY), i)];
     Placement.connections := setAdd (linkId (Pos.id parent) i) (Placement.connections g) |}.

(** The [while (attempts < 50 && !placed)] loop, [n] attempts left. *)
Fixpoint tryPlace (n : nat) (i : Z) (g : Placement.t) : Build (Placement.t * bool) :=
  match n with
  | O => retB (g, false)
  | S n' =>
      parentId <~ lift (getSeededInt 0 (len (Placement.roomPositions g) - 1)) ;;
      parent <~ orThrow (index (Placement.roomPositions g) parentId) ;;
      let validDirs := filter (freeDir (Placement.occupied g) parent) dirs in
      if len validDirs >? 0 then
        k <~ lift (getSeededInt 0 (len validDirs - 1)) ;;
        move <~ orThrow (index validDirs k) ;;
        retB (place i parent move g, true)
      else tryPlace n' i g
  end.

(** The fallback scan [for (let parent of roomPositions)]. *)
Fixpoint scanPlace (i : Z) (parents : list Pos.t) (g : Placement.t) : Placement.t :=
  match parents with
  | [] => g
  | parent :: rest =>
      match find (freeDir (Placement.occupied g) parent) dirs with
      | Some valid => place i parent valid g
      | None => scanPlace i rest g
      end
  end.

Definition placeRoom (g : Placement.t) (i : Z) : Build Placement.t :=
  r <~ tryPlace 50 i g ;;
  let (g1, placed) := r : Placement.t * bool in
  if placed then retB g1 else retB (scanPlace i (Placement.roomPositions g1) g1).

Fixpoint foldB {A B} (f : A -> B -> Build A) (l : list B) (acc : A) : Build A :=
  match l with
  | [] => retB acc
  | v :: l' => acc1 <~ f acc v ;; foldB f l' acc1
  end.

Definition grid0 : Placement.t :=
  {| Placement.roomPositions := [Pos.Build_t 0 0 0];
     Placement.occupied := [((0, 0), 0)];
     Placement.connections := [] |}.

(** The grid phase: rooms [1 .. numRooms - 1] in turn. *)
Definition gridPhase (numRooms : Z) : Build Placement.t :=
  foldB placeRoom (map (Z.add 1) (upto (numRooms - 1))) grid0.

(** The object phase. *)

Definition roomIdsForItems (numRooms : Z) (roomPositions : list Pos.t) : list Z :=
  let ids := filter (fun id => negb (id =? 0) && negb (id =? numRooms - 1))
                    (map Pos.id roomPositions) in
  if len ids =? 0 then ids ++ [0] else ids.

(** [itemsPerRoom]: an object whose keys are room ids ([undefined] is
    [None]); an absent key reads as the empty list, never stored. *)
Definition ItemsPerRoom := option Z -> list ItemType.

Definition key_eqb (a b : option Z) : bool :=
  match a, b with
  | Some u, Some v => u =? v
  | None, None => true
  | _, _ => false
  end.

Definition assignItem (ids : list Z) (m : ItemsPerRoom) (it : ItemType) : Gen ItemsPerRoom :=
  rIdx <- getSeededInt 0 (len ids - 1) ;;
  let roomId := index ids rIdx in
  ret (fun k => if key_eqb k roomId then m k ++ [it] else m k).

Fixpoint foldM {A B} (f : A -> B -> Gen A) (l : list B) (acc : A) : Gen A :=
  match l with
  | [] => ret acc
  | v :: l' => acc1 <- f acc v ;; foldM f l' acc1
  end.

(** [while (itemsToPlace.length > 0) ... itemsToPlace.pop()]: the copy of
    the assigned items is consumed from its end. *)
Definition distribute (ids : list Z) (assignedSpecialItems : list ItemType) : Gen ItemsPerRoom :=
  foldM (assignItem ids) (rev assignedSpecialItems) (fun _ => []).

Definition setTop (v : Z) (d : Doors.t) : Doors.t :=
  Doors.Build_t (Some v) (Doors.right d) (Doors.bottom d) (Doors.left d).
Definition setRight (v : Z) (d : Doors.t) : Doors.t :=
  Doors.Build_t (Doors.top d) (Some v) (Doors.bottom d) (Doors.left d).
Definition setBottom (v : Z) (d : Doors.t) : Doors.t :=
  Doors.Build_t (Doors.top d) (Doors.right d) (Some v) (Doors.left d).
Definition setLeft (v : Z) (d : Doors.t) : Doors.t :=
  Doors.Build_t (Doors.top d) (Doors.right d) (Doors.bottom d) (Some v).

(** The body of [myConns.forEach]. *)
Definition linkDoor (roomPositions : list Pos.t) (pos : Pos.t) (doors : Doors.t) (conn : Z * Z)
  : option Doors.t :=
  match find (fun i => negb (i =? Pos.id pos)) [fst conn; snd conn] with
  | None => None
  | Some otherId =>
      match find (fun p => Pos.id p =? otherId) roomPositions with
      | None => None
      | Some otherPos =>
          let d1 := if Pos.y otherPos <? Pos.y pos then setTop (Pos.id otherPos) doors else doors in
          let d2 := if Pos.y otherPos >? Pos.y pos then setBottom (Pos.id otherPos) d1 else d1 in
          let d3 := if Pos.x otherPos <? Pos.x pos then setLeft (Pos.id otherPos) d2 else d2 in
          let d4 := if Pos.x otherPos >? Pos.x pos then setRight (Pos.id otherPos) d3 else d3 in
          Some d4
      end
  end.

Fixpoint foldO {A B} (f : A -> B -> option A) (l : list B) (acc : A) : option A :=
  match l with
  | [] => Some acc
  | v :: l' => match f acc v with Some acc1 => foldO f l' acc1 | None => None end
  end.

Definition doorsOf (g : Placement.t) (pos : Pos.t) : option Doors.t :=
  let myConns := filter (fun c => (fst c =? Pos.id pos) || (snd c =? Pos.id pos))
                        (Placement.connections g) in
  foldO (linkDoor (Placement.roomPositions g) pos) myConns noDoors.

(** [reachableTiles.splice(idx, 1)]. *)
Definition splice1 {A} (idx : Z) (l : list A) : list A :=
  let start := if idx <? 0 then Z.max (len l + idx) 0 else idx in
  firstn (Z.to_nat start) l ++ skipn (S (Z.to_nat start)) l.

Definition pickItemLocation (reachableTiles : list Pt) : Gen (option Pt * list Pt) :=
  if len reachableTiles =? 0 then ret (None, reachableTiles)
  else
    idx <- getSeededInt 0 (len reachableTiles - 1) ;;
    ret (index reachableTiles idx, splice1 idx reachableTiles).

Definition itemOn (id : Z) (ty : ItemType) (spot : Pt) (unlimited : bool) : Item.t :=
  Item.Build_t id ty (fst spot * TILE_SIZE + 12) (snd spot * TILE_SIZE + 12) 24 24 unlimited.

(** The fallback position [(size.w/2) * TILE_SIZE + 12]: the division is
    a real one, and [TILE_SIZE] is even. *)
Definition itemAtCentre (id : Z) (ty : ItemType) (size : Size.t) : Item.t :=
  Item.Build_t id ty (Size.w size * TILE_SIZE / 2 + 12) (Size.h size * TILE_SIZE / 2 + 12)
               24 24 false.

(** The state of the item phase of one room: [items] and the shared
    array [reachable], which [pickItemLocation] shortens. *)
Definition ItemState := (list Item.t * list Pt)%type.

Definition placeSpecial (size : Size.t) (st : ItemState) (specialType : ItemType) : Gen ItemState :=
  r <- pickItemLocation (snd st) ;;
  n <- rng ;;
  let id := n * 100000 / two32 in
  match fst r with
  | Some spot => ret (fst st ++ [itemOn id specialType spot false], snd r)
  | None => ret (fst st ++ [itemAtCentre id specialType size], snd r)
  end.

Definition placeConsumable (isBoss : bool) (st : ItemState) : Gen ItemState :=
  if isBoss then ret st
  else
    p <- rng ;;
    if lessThan p 3 10 then
      r <- pickItemLocation (snd st) ;;
      match fst r with
      | Some spot =>
          rand <- rng ;;
          n <- rng ;;
          let ty := if lessThan rand 1 2 then pizza else soda in
          ret (fst st ++ [itemOn (n * 100000 / two32) ty spot true], snd r)
      | None => ret (fst st, snd r)
      end
    else ret st.

Definition roomItems (size : Size.t) (isBoss : bool) (special : list ItemType)
    (reachable : list Pt) : Gen ItemState :=
  st <- foldM (placeSpecial size) special ([], reachable) ;;
  placeConsumable isBoss st.

Definition makeRoom (numRooms : Z) (itemsPerRoom : ItemsPerRoom) (g : Placement.t) (pos : Pos.t)
  : Build Room.t :=
  s <~ lift rng ;;
  let roomSeed := s * 1000000 / two32 in
  k <~ lift (getSeededInt 0 (len ROOM_VARIANTS - 1)) ;;
  size <~ orThrow (index ROOM_VARIANTS k) ;;
  doors <~ orThrow (doorsOf g pos) ;;
  let isBoss := Pos.id pos =? numRooms - 1 in
  let layoutData := generateRoomLayout (Size.w size) (Size.h size) roomSeed doors isBoss in
  let st := fst (roomItems size isBoss (itemsPerRoom (Some (Pos.id pos)))
                           (Layout.reachable layoutData) (roomSeed + 999)) in
  sTop <~ lift (getSeededInt 1 5) ;;
  sBottom <~ lift (getSeededInt 1 5) ;;
  sLeft <~ lift (getSeededInt 1 5) ;;
  sRight <~ lift (getSeededInt 1 5) ;;
  retB {| Room.id := Pos.id pos; Room.x := Pos.x pos; Room.y := Pos.y pos;
          Room.width := Size.w size; Room.height := Size.h size;
          Room.doors := doors;
          Room.doorStyles := DoorStyles.Build_t sTop sBottom sLeft sRight;
          Room.layout := {| Layout.grid := Layout.grid layoutData; Layout.reachable := snd st |};
          Room.seed := roomSeed;
          Room.type := if isBoss then boss else normal;
          Room.cleared := false; Room.explored := false;
          Room.items := fst st |}.

Definition numRoomsOf (difficulty : Z) : Z := Z.max 2 (4 + 3 * difficulty / 2).

Definition generateBuilding (buildingId difficulty : Z) (theme : Theme) (rootSeed : Z)
    (assignedSpecialItems : list ItemType) : option Building.t :=
  let buildingSeed := rootSeed + buildingId * 777 in
  let numRooms := numRoomsOf difficulty in
  let run :=
    g <~ gridPhase numRooms ;;
    itemsPerRoom <~ lift (distribute (roomIdsForItems numRooms (Placement.roomPositions g))
                                     assignedSpecialItems) ;;
    rooms <~ forEachB (makeRoom numRooms itemsPerRoom g) (Placement.roomPositions g) ;;
    retB {| Building.rooms := rooms; Building.startRoomId := 0; Building.theme := theme |} in
  match run buildingSeed with
  | Some (b, _) => Some b
  | None => None
  end.

(** ** generateWorldMap *)

(** [Math.random] is an oracle: the [i]-th call of a session returns the
    double [(draws i mod 2^53) / 2^53].  For the small [k] used,
    [Math.floor(Math.random() * k)] is then an index below [k]. *)
Definition two53 : Z := 9007199254740992.

Definition Oracle := nat -> Z.

(** Code that calls [Math.random]: the state is the number of calls made. *)
Definition Rand (A : Type) : Type := Oracle -> nat -> A * nat.

Definition retR {A} (v : A) : Rand A := fun _ c => (v, c).

Definition bindR {A B} (m : Rand A) (k : A -> Rand B) : Rand B :=
  fun o c => let (v, c1) := m o c in k v o c1.

Notation "x <| m ;; k" := (bindR m (fun x => k))
  (at level 61, m at next level, right associativity).

(** [Math.floor(Math.random() * k)]. *)
Definition randomBelow (k : Z) : Rand Z :=
  fun o c => ((o c mod two53) * k / two53, S c).

Definition themeOf (i : Z) : Theme :=
  nth (Z.to_nat (i mod 6)) [bathroom; ballroom; living_room; warehouse; dungeon; garden] dungeon.

Definition GLOBAL_ITEM_LIMITS : list (ItemType * Z) :=
  [(pizzaBox, 3); (sodaCarrier, 3); (rollerSkates, 2); (cookieBag, 2); (file, 5); (key, 1)].

Definition isKey (t : ItemType) : bool :=
  match t with key => true | _ => false end.

Module Node.
Record t := {
  id : Z; column : Z; level : Z; theme : Theme;
  cleared : bool; locked : bool; hidden : bool;
  specialItems : list ItemType; x : Z; y : Z }.
End Node.

(** [b.specialItems.push(t)]. *)
Definition pushItem (t : ItemType) (b : Node.t) : Node.t :=
  {| Node.id := Node.id b; Node.column := Node.column b; Node.level := Node.level b;
     Node.theme := Node.theme b; Node.cleared := Node.cleared b;
     Node.locked := Node.locked b; Node.hidden := Node.hidden b;
     Node.specialItems := Node.specialItems b ++ [t];
     Node.x := Node.x b; Node.y := Node.y b |}.

(** The pool of special items, the key left out. *)
Definition initialPool : list ItemType :=
  flat_map (fun e => if isKey (fst e) then [] else repeat (fst e) (Z.to_nat (snd e)))
           GLOBAL_ITEM_LIMITS.

(** [l[i] = v] on an array ([i] within the array). *)
Fixpoint setNth {A} (i : nat) (v : A) (l : list A) : list A :=
  match l, i with
  | [], _ => []
  | _ :: l', O => v :: l'
  | u :: l', S i' => u :: setNth i' v l'
  end.

(** [[l[i], l[j]] = [l[j], l[i]]]. *)
Definition swap {A} (i j : nat) (l : list A) : list A :=
  match nth_error l i, nth_error l j with
  | Some u, Some v => setNth j u (setNth i v l)
  | _, _ => l
  end.

(** The shuffle [for (let i = length - 1; i > 0; i--)]; [i] is the
    current index. *)
Fixpoint shuffle (i : nat) (pool : list ItemType) : Rand (list ItemType) :=
  match i with
  | O => retR pool
  | S i' =>
      j <| randomBelow (Z.of_nat i + 1) ;;
      shuffle i' (swap i (Z.to_nat j) pool)
  end.

Definition columnsConfig : list Z := [1; 2; 2; 2; 1].

Definition standardNode (id colIndex i : Z) : Node.t :=
  {| Node.id := id; Node.column := colIndex; Node.level := colIndex + 1;
     Node.theme := themeOf (colIndex + i);
     Node.cleared := false; Node.locked := negb (colIndex =? 0); Node.hidden := false;
     Node.specialItems := []; Node.x := 0; Node.y := 0 |}.

(** The standard columns: [idCounter] runs over the nodes in order. *)
Fixpoint standardColumns (cols : list Z) (colIndex idCounter : Z) : list Node.t :=
  match cols with
  | [] => []
  | count :: rest =>
      map (fun i => standardNode (idCounter + i) colIndex i) (upto count)
      ++ standardColumns rest (colIndex + 1) (idCounter + Z.max 0 count)
  end.

Definition hiddenNode : Node.t :=
  {| Node.id := HIDDEN_BUILDING_ID; Node.column := -1; Node.level := 6;
     Node.theme := dungeon;
     Node.cleared := false; Node.locked := true; Node.hidden := true;
     Node.specialItems := []; Node.x := 0; Node.y := 0 |}.

(** [buildings[i].specialItems.push(t)]: the nodes are shared objects,
    named here by their index in [buildings]. *)
Definition pushAt (i : nat) (t : ItemType) (buildings : list Node.t) : list Node.t :=
  match nth_error buildings i with
  | Some b => setNth i (pushItem t b) buildings
  | None => buildings
  end.

(** [keyCandidates]: the indices of the nodes that pass the filter. *)
Definition keyCandidates (buildings : list Node.t) : list nat :=
  let lastColIdx := len columnsConfig - 1 in
  filter (fun i => match nth_error buildings i with
                   | Some b => negb (Node.id b =? HIDDEN_BUILDING_ID)
                               && (Node.column b <? lastColIdx)
                   | None => false
                   end)
         (seq 0 (length buildings)).

Definition placeKey (buildings : list Node.t) : Rand (list Node.t) :=
  let cands := keyCandidates buildings in
  if len cands >? 0 then
    kIdx <| randomBelow (len cands) ;;
    match index cands kIdx with
    | Some i => retR (pushAt i key buildings)
    | None => retR buildings
    end
  else retR buildings.

(** The round robin [while (itemPool.length > 0)]; [itemPool.pop()]
    takes the last element, so the pool is kept reversed.  [None] when
    the fuel is spent first. *)
Fixpoint roundRobin (fuel : nat) (buildings : list Node.t) (poolRev : list ItemType) (bIdx : nat)
  : option (list Node.t) :=
  match poolRev with
  | [] => Some buildings
  | t :: rest =>
      match fuel with
      | O => None
      | S fuel' =>
          match nth_error buildings bIdx with
          | None => None
          | Some b =>
              let next := (S bIdx mod length buildings)%nat in
              if negb (Node.id b =? HIDDEN_BUILDING_ID)
              then roundRobin fuel' (pushAt bIdx t buildings) rest next
              else roundRobin fuel' buildings poolRev next
          end
      end
  end.

Definition generateWorldMap : Rand (option (list Node.t)) :=
  pool <| shuffle (length initialPool - 1) initialPool ;;
  let buildings := standardColumns columnsConfig 0 0 ++ [hiddenNode] in
  withKey <| placeKey buildings ;;
  retR (roundRobin (2 * length pool + 1) withKey (rev pool) 0).

(** ** The simulation engine

    Coordinates are rationals: the comparisons of the engine are then
    exact ([Math.hypot(dx, dy) < c] is [dx^2 + dy^2 < c^2]).  The one
    irrational operation, the unit vector [(cos t, sin t)] for
    [t = Math.atan2(dy, dx)], is the parameter [aim] of the engine.
    Particles, shock waves, animation frames and the aiming reticle are
    drawn but never read back, and are left out; the calls of
    [Math.random] that [createParticles] makes are counted. *)

Inductive GameState := START | CHAR_SELECT | MAP | PLAYING | GAMEOVER | ENDING | MESSAGE.

Module Stats.
Record t := {
  hp : Z; maxHp : Z; mp : Z; maxMp : Z; score : Z; speed : Z; damage : Z;
  keys : Z; files : Z }.
End Stats.

Module Character.
Record t := { speed : Z; maxHp : Z; maxMp : Z; fireRate : Z; damage : Z }.
End Character.

Definition CHARACTERS : list Character.t :=
  [ {| Character.speed := 4; Character.maxHp := 3; Character.maxMp := 3;
       Character.fireRate := 400; Character.damage := 1 |};
    {| Character.speed := 3; Character.maxHp := 5; Character.maxMp := 2;
       Character.fireRate := 600; Character.damage := 1 |} ].

Inductive EnemyState := CHASE | PREPARE | ATTACK | STUNNED.

Module Enemy.
Record t := {
  x : Q; y : Q; hp : Z; maxHp : Z; state : EnemyState; timer : Z; speed : Q }.
End Enemy.

Module Projectile.
Record t := { x : Q; y : Q; vx : Q; vy : Q; life : Z }.
End Projectile.

Module Player.
Record t := { x : Q; y : Q; cooldown : Q; bombCooldown : Z; facing : Q * Q }.
End Player.

Module Input.
Record t := { x : Q; y : Q; fire : bool; bomb : bool }.
End Input.

(** [gameData.current]. *)
Module Game.
Record t := {
  player : Player.t;
  building : option Building.t;
  projectiles : list Projectile.t;
  enemies : list Enemy.t;
  items : list Item.t }.
End Game.

(** The state of a session.  [playerStats] is the React state.
    [seenStats] is the [playerStats] that the running frame callback
    reads: [tick] is memoised with the dependencies
    [[gameState, activeRoomId, currentBuildingId]], so [update] keeps the
    [playerStats] of the render in which one of these last changed, while
    the updaters given to [setPlayerStats] act on the React state.
    [collected] is [collectedItemsRef.current] and [randomCalls] the
    number of calls of [Math.random] made so far. *)
Module Session.
Record t := {
  gameState : GameState;
  selectedChar : Character.t;
  worldMap : list Node.t;
  currentBuildingId : Z;
  playerStats : Stats.t;
  seenStats : Stats.t;
  activeRoomId : Z;
  rootSeed : Z;
  highScore : Z;
  collected : list Z;
  randomCalls : nat;
  g : Game.t }.
End Session.

(** The outcome of a handler: a new state, a [TypeError] (a field of
    [undefined] or [null] is read), or the spawn loop still running when
    the draws that were granted are used up. *)
Inductive Result (A : Type) := Ok (v : A) | TypeError | Spinning.
Arguments Ok {A} v.
Arguments TypeError {A}.
Arguments Spinning {A}.

Definition andThen {A B} (r : Result A) (k : A -> Result B) : Result B :=
  match r with
  | Ok v => k v
  | TypeError => TypeError
  | Spinning => Spinning
  end.

Notation "x <! r ;; k" := (andThen r (fun x => k))
  (at level 61, r at next level, right associativity).

Definition defined {A} (o : option A) : Result A :=
  match o with Some v => Ok v | None => TypeError end.

Definition Q48 : Q := inject_Z TILE_SIZE.

(** [a < b] on rationals. *)
Definition Qltb (a b : Q) : bool := (Qnum a * QDen b <? Qnum b * QDen a)%Z.

(** [checkCollision(rect1, rect2)] on rectangles [(x, y, w, h)]. *)
Definition checkCollision (r1 r2 : Q * Q * Q * Q) : bool :=
  let '(x1, y1, w1, h1) := r1 in
  let '(x2, y2, w2, h2) := r2 in
  (Qltb x1 (x2 + w2) && Qltb x2 (x1 + w1)
   && Qltb y1 (y2 + h2) && Qltb y2 (y1 + h1))%Q.

Definition isBossRoomType (t : RoomType) : bool :=
  match t with boss => true | normal => false end.

(** The test [isDoor] of [checkWallCollision]: the tile is the wall tile
    of a door that leads to a room. *)
Definition isDoorTile (room : Room.t) (gridX gridY : Z) : bool :=
  let d := Room.doors room in
  (notNull (Doors.top d) && (gridY =? 0) && (gridX =? Room.width room / 2))
  || (notNull (Doors.right d) && (gridX =? Room.width room - 1)
      && (gridY =? Room.height room / 2))
  || (notNull (Doors.bottom d) && (gridY =? Room.height room - 1)
      && (gridX =? Room.width room / 2))
  || (notNull (Doors.left d) && (gridX =? 0) && (gridY =? Room.height room / 2)).

(** [checkWallCollision] on the tile [(gridX, gridY)]. *)
Definition wallAt (gridX gridY : Z) (room : Room.t) : option bool :=
  if (gridY <? 0) || (gridY >=? Room.height room) || (gridX <? 0) || (gridX >=? Room.width room)
  then Some true
  else
    match tileAt (Layout.grid (Room.layout room)) gridX gridY with
    | None => None
    | Some tile =>
        match Tile.type tile with
        | floor => Some false
        | _ =>
            let isDoor := isDoorTile room gridX gridY in
            let bossDoorX := Room.width room / 2 + 2 in
            if isBossRoomType (Room.type room) && (gridY =? 0) && (gridX =? bossDoorX)
            then Some false
            else Some (negb isDoor)
        end
    end.

Definition tileOf (v : Q) : Z := Qfloor ((v + 16) / Q48).

Definition checkWallCollision (x y : Q) (room : Room.t) : option bool :=
  wallAt (tileOf x) (tileOf y) room.

Inductive DoorHit := hitTop | hitBottom | hitLeft | hitRight | hitBoss.

Definition DoorHit_eqb (a b : DoorHit) : bool :=
  match a, b with
  | hitTop, hitTop | hitBottom, hitBottom | hitLeft, hitLeft | hitRight, hitRight
  | hitBoss, hitBoss => true
  | _, _ => false
  end.

Definition Qabs_lt (v bound : Q) : bool :=
  (Qltb v bound && Qltb (- bound) v)%Q.

Definition checkDoorCollision (x y : Q) (room : Room.t) : option DoorHit :=
  let cx := (x + 16)%Q in
  let cy := (y + 16)%Q in
  let width := inject_Z (Room.width room) in
  let height := inject_Z (Room.height room) in
  let midX := (width * Q48 / 2)%Q in
  let d := Room.doors room in
  if notNull (Doors.top d) && Qltb cy Q48 && Qabs_lt (cx - midX) Q48 then Some hitTop
  else if notNull (Doors.bottom d) && Qltb ((height - 1) * Q48) cy
          && Qabs_lt (cx - midX) Q48 then Some hitBottom
  else if notNull (Doors.left d) && Qltb cx Q48 then Some hitLeft
  else if notNull (Doors.right d) && Qltb ((width - 1) * Q48) cx then Some hitRight
  else if isBossRoomType (Room.type room) then
    let bossDoorPixelX := (inject_Z (Room.width room / 2 + 2) * Q48 + Q48 / 2)%Q in
    if Qltb cy Q48 && Qabs_lt (cx - bossDoorPixelX) Q48 then Some hitBoss else None
  else None.

(** [building.rooms.find(r => r.id === roomId)]. *)
Definition findRoom (b : Building.t) (roomId : Z) : option Room.t :=
  find (fun r => Room.id r =? roomId) (Building.rooms b).

(** A change of the room object that [find] returns; the object is
    shared with [building.rooms]. *)
Fixpoint updateRoom (roomId : Z) (f : Room.t -> Room.t) (rooms : list Room.t) : list Room.t :=
  match rooms with
  | [] => []
  | r :: rest =>
      if Room.id r =? roomId then f r :: rest else r :: updateRoom roomId f rest
  end.

Definition inBuilding (roomId : Z) (f : Room.t -> Room.t) (b : Building.t) : Building.t :=
  {| Building.rooms := updateRoom roomId f (Building.rooms b);
     Building.startRoomId := Building.startRoomId b;
     Building.theme := Building.theme b |}.

Definition setItems (its : list Item.t) (r : Room.t) : Room.t :=
  {| Room.id := Room.id r; Room.x := Room.x r; Room.y := Room.y r;
     Room.width := Room.width r; Room.height := Room.height r;
     Room.doors := Room.doors r; Room.doorStyles := Room.doorStyles r;
     Room.layout := Room.layout r; Room.seed := Room.seed r; Room.type := Room.type r;
     Room.cleared := Room.cleared r; Room.explored := Room.explored r;
     Room.items := its |}.

Definition setCleared (r : Room.t) : Room.t :=
  {| Room.id := Room.id r; Room.x := Room.x r; Room.y := Room.y r;
     Room.width := Room.width r; Room.height := Room.height r;
     Room.doors := Room.doors r; Room.doorStyles := Room.doorStyles r;
     Room.layout := Room.layout r; Room.seed := Room.seed r; Room.type := Room.type r;
     Room.cleared := true; Room.explored := Room.explored r;
     Room.items := Room.items r |}.

Definition setExplored (r : Room.t) : Room.t :=
  {| Room.id := Room.id r; Room.x := Room.x r; Room.y := Room.y r;
     Room.width := Room.width r; Room.height := Room.height r;
     Room.doors := Room.doors r; Room.doorStyles := Room.doorStyles r;
     Room.layout := Room.layout r; Room.seed := Room.seed r; Room.type := Room.type r;
     Room.cleared := Room.cleared r; Room.explored := true;
     Room.items := Room.items r |}.

(** Field updates. *)

Definition withPlayer (p : Player.t) (g : Game.t) : Game.t :=
  {| Game.player := p; Game.building := Game.building g;
     Game.projectiles := Game.projectiles g; Game.enemies := Game.enemies g;
     Game.items := Game.items g |}.

Definition withBuilding (b : Building.t) (g : Game.t) : Game.t :=
  {| Game.player := Game.player g; Game.building := Some b;
     Game.projectiles := Game.projectiles g; Game.enemies := Game.enemies g;
     Game.items := Game.items g |}.

Definition withProjectiles (ps : list Projectile.t) (g : Game.t) : Game.t :=
  {| Game.player := Game.player g; Game.building := Game.building g;
     Game.projectiles := ps; Game.enemies := Game.enemies g;
     Game.items := Game.items g |}.

Definition withEnemies (es : list Enemy.t) (g : Game.t) : Game.t :=
  {| Game.player := Game.player g; Game.building := Game.building g;
     Game.projectiles := Game.projectiles g; Game.enemies := es;
     Game.items := Game.items g |}.

Definition withItems (its : list Item.t) (g : Game.t) : Game.t :=
  {| Game.player := Game.player g; Game.building := Game.building g;
     Game.projectiles := Game.projectiles g; Game.enemies := Game.enemies g;
     Game.items := its |}.

Definition movePlayer (x y : Q) (p : Player.t) : Player.t :=
  {| Player.x := x; Player.y := y; Player.cooldown := Player.cooldown p;
     Player.bombCooldown := Player.bombCooldown p; Player.facing := Player.facing p |}.

Definition withG (g : Game.t) (s : Session.t) : Session.t :=
  {| Session.gameState := Session.gameState s; Session.selectedChar := Session.selectedChar s;
     Session.worldMap := Session.worldMap s;
     Session.currentBuildingId := Session.currentBuildingId s;
     Session.playerStats := Session.playerStats s; Session.seenStats := Session.seenStats s;
     Session.activeRoomId := Session.activeRoomId s; Session.rootSeed := Session.rootSeed s;
     Session.highScore := Session.highScore s; Session.collected := Session.collected s;
     Session.randomCalls := Session.randomCalls s; Session.g := g |}.

Definition withStats (st : Stats.t) (s : Session.t) : Session.t :=
  {| Session.gameState := Session.gameState s; Session.selectedChar := Session.selectedChar s;
     Session.worldMap := Session.worldMap s;
     Session.currentBuildingId := Session.currentBuildingId s;
     Session.playerStats := st; Session.seenStats := Session.seenStats s;
     Session.activeRoomId := Session.activeRoomId s; Session.rootSeed := Session.rootSeed s;
     Session.highScore := Session.highScore s; Session.collected := Session.collected s;
     Session.randomCalls := Session.randomCalls s; Session.g := Session.g s |}.

Definition withSeen (st : Stats.t) (s : Session.t) : Session.t :=
  {| Session.gameState := Session.gameState s; Session.selectedChar := Session.selectedChar s;
     Session.worldMap := Session.worldMap s;
     Session.currentBuildingId := Session.currentBuildingId s;
     Session.playerStats := Session.playerStats s; Session.seenStats := st;
     Session.activeRoomId := Session.activeRoomId s; Session.rootSeed := Session.rootSeed s;
     Session.highScore := Session.highScore s; Session.collected := Session.collected s;
     Session.randomCalls := Session.randomCalls s; Session.g := Session.g s |}.

Definition withGameState (gs : GameState) (s : Session.t) : Session.t :=
  {| Session.gameState := gs; Session.selectedChar := Session.selectedChar s;
     Session.worldMap := Session.worldMap s;
     Session.currentBuildingId := Session.currentBuildingId s;
     Session.playerStats := Session.playerStats s; Session.seenStats := Session.seenStats s;
     Session.activeRoomId := Session.activeRoomId s; Session.rootSeed := Session.rootSeed s;
     Session.highScore := Session.highScore s; Session.collected := Session.collected s;
     Session.randomCalls := Session.randomCalls s; Session.g := Session.g s |}.

Definition withWorldMap (m : list Node.t) (s : Session.t) : Session.t :=
  {| Session.gameState := Session.gameState s; Session.selectedChar := Session.selectedChar s;
     Session.worldMap := m;
     Session.currentBuildingId := Session.currentBuildingId s;
     Session.playerStats := Session.playerStats s; Session.seenStats := Session.seenStats s;
     Session.activeRoomId := Session.activeRoomId s; Session.rootSeed := Session.rootSeed s;
     Session.highScore := Session.highScore s; Session.collected := Session.collected s;
     Session.randomCalls := Session.randomCalls s; Session.g := Session.g s |}.

Definition withBuildingId (i : Z) (s : Session.t) : Session.t :=
  {| Session.gameState := Session.gameState s; Session.selectedChar := Session.selectedChar s;
     Session.worldMap := Session.worldMap s;
     Session.currentBuildingId := i;
     Session.playerStats := Session.playerStats s; Session.seenStats := Session.seenStats s;
     Session.activeRoomId := Session.activeRoomId s; Session.rootSeed := Session.rootSeed s;
     Session.highScore := Session.highScore s; Session.collected := Session.collected s;
     Session.randomCalls := Session.randomCalls s; Session.g := Session.g s |}.

Definition withActiveRoom (i : Z) (s : Session.t) : Session.t :=
  {| Session.gameState := Session.gameState s; Session.selectedChar := Session.selectedChar s;
     Session.worldMap := Session.worldMap s;
     Session.currentBuildingId := Session.currentBuildingId s;
     Session.playerStats := Session.playerStats s; Session.seenStats := Session.seenStats s;
     Session.activeRoomId := i; Session.rootSeed := Session.rootSeed s;
     Session.highScore := Session.highScore s; Session.collected := Session.collected s;
     Session.randomCalls := Session.randomCalls s; Session.g := Session.g s |}.

Definition withHighScore (v : Z) (s : Session.t) : Session.t :=
  {| Session.gameState := Session.gameState s; Session.selectedChar := Session.selectedChar s;
     Session.worldMap := Session.worldMap s;
     Session.currentBuildingId := Session.currentBuildingId s;
     Session.playerStats := Session.playerStats s; Session.seenStats := Session.seenStats s;
     Session.activeRoomId := Session.activeRoomId s; Session.rootSeed := Session.rootSeed s;
     Session.highScore := v; Session.collected := Session.collected s;
     Session.randomCalls := Session.randomCalls s; Session.g := Session.g s |}.

Definition withCollected (l : list Z) (s : Session.t) : Session.t :=
  {| Session.gameState := Session.gameState s; Session.selectedChar := Session.selectedChar s;
     Session.worldMap := Session.worldMap s;
     Session.currentBuildingId := Session.currentBuildingId s;
     Session.playerStats := Session.playerStats s; Session.seenStats := Session.seenStats s;
     Session.activeRoomId := Session.activeRoomId s; Session.rootSeed := Session.rootSeed s;
     Session.highScore := Session.highScore s; Session.collected := l;
     Session.randomCalls := Session.randomCalls s; Session.g := Session.g s |}.

Definition withRandomCalls (c : nat) (s : Session.t) : Session.t :=
  {| Session.gameState := Session.gameState s; Session.selectedChar := Session.selectedChar s;
     Session.worldMap := Session.worldMap s;
     Session.currentBuildingId := Session.currentBuildingId s;
     Session.playerStats := Session.playerStats s; Session.seenStats := Session.seenStats s;
     Session.activeRoomId := Session.activeRoomId s; Session.rootSeed := Session.rootSeed s;
     Session.highScore := Session.highScore s; Session.collected := Session.collected s;
     Session.randomCalls := c; Session.g := Session.g s |}.

(** [setPlayerStats(prev => f prev)]. *)
Definition setPlayerStats (f : Stats.t -> Stats.t) (s : Session.t) : Session.t :=
  withStats (f (Session.playerStats s)) s.

Definition GameState_eqb (a b : GameState) : bool :=
  match a, b with
  | START, START | CHAR_SELECT, CHAR_SELECT | MAP, MAP | PLAYING, PLAYING
  | GAMEOVER, GAMEOVER | ENDING, ENDING | MESSAGE, MESSAGE => true
  | _, _ => false
  end.

(** After a handler React renders again.  When one of the dependencies
    of [tick] has changed, the frame callback is made anew and from then
    on reads the [playerStats] of this render. *)
Definition rerender (before after : Session.t) : Session.t :=
  if GameState_eqb (Session.gameState before) (Session.gameState after)
     && (Session.activeRoomId before =? Session.activeRoomId after)
     && (Session.currentBuildingId before =? Session.currentBuildingId after)
  then after
  else withSeen (Session.playerStats after) after.

(** [createParticles]: five particles, two calls of [Math.random] each. *)
Definition createParticles (s : Session.t) : Session.t :=
  withRandomCalls (Session.randomCalls s + 10) s.

Definition saveScore (score : Z) (s : Session.t) : Session.t :=
  if score >? Session.highScore s then withHighScore score s else s.

Definition difficultyOf (node : Node.t) : Z :=
  if Node.id node =? HIDDEN_BUILDING_ID then 5 else Node.column node.

Definition findNode (worldMap : list Node.t) (buildingId : Z) : option Node.t :=
  find (fun b => Node.id b =? buildingId) worldMap.

Definition sq (v : Q) : Q := (v * v)%Q.

(** [Math.hypot(x1 - x2, y1 - y2) < c] and [> c], for [c >= 0]. *)
Definition distLt (x1 y1 x2 y2 : Q) (c : Z) : bool :=
  Qltb (sq (x1 - x2) + sq (y1 - y2)) (inject_Z (c * c)).

Definition distGt (x1 y1 x2 y2 : Q) (c : Z) : bool :=
  Qltb (inject_Z (c * c)) (sq (x1 - x2) + sq (y1 - y2)).

Definition withHp (v : Z) (st : Stats.t) : Stats.t :=
  {| Stats.hp := v; Stats.maxHp := Stats.maxHp st; Stats.mp := Stats.mp st;
     Stats.maxMp := Stats.maxMp st; Stats.score := Stats.score st;
     Stats.speed := Stats.speed st; Stats.damage := Stats.damage st;
     Stats.keys := Stats.keys st; Stats.files := Stats.files st |}.

Definition withMaxHp (v : Z) (st : Stats.t) : Stats.t :=
  {| Stats.hp := Stats.hp st; Stats.maxHp := v; Stats.mp := Stats.mp st;
     Stats.maxMp := Stats.maxMp st; Stats.score := Stats.score st;
     Stats.speed := Stats.speed st; Stats.damage := Stats.damage st;
     Stats.keys := Stats.keys st; Stats.files := Stats.files st |}.

Definition withMp (v : Z) (st : Stats.t) : Stats.t :=
  {| Stats.hp := Stats.hp st; Stats.maxHp := Stats.maxHp st; Stats.mp := v;
     Stats.maxMp := Stats.maxMp st; Stats.score := Stats.score st;
     Stats.speed := Stats.speed st; Stats.damage := Stats.damage st;
     Stats.keys := Stats.keys st; Stats.files := Stats.files st |}.

Definition withMaxMp (v : Z) (st : Stats.t) : Stats.t :=
  {| Stats.hp := Stats.hp st; Stats.maxHp := Stats.maxHp st; Stats.mp := Stats.mp st;
     Stats.maxMp := v; Stats.score := Stats.score st;
     Stats.speed := Stats.speed st; Stats.damage := Stats.damage st;
     Stats.keys := Stats.keys st; Stats.files := Stats.files st |}.

Definition withScore (v : Z) (st : Stats.t) : Stats.t :=
  {| Stats.hp := Stats.hp st; Stats.maxHp := Stats.maxHp st; Stats.mp := Stats.mp st;
     Stats.maxMp := Stats.maxMp st; Stats.score := v;
     Stats.speed := Stats.speed st; Stats.damage := Stats.damage st;
     Stats.keys := Stats.keys st; Stats.files := Stats.files st |}.

Definition withSpeed (v : Z) (st : Stats.t) : Stats.t :=
  {| Stats.hp := Stats.hp st; Stats.maxHp := Stats.maxHp st; Stats.mp := Stats.mp st;
     Stats.maxMp := Stats.maxMp st; Stats.score := Stats.score st;
     Stats.speed := v; Stats.damage := Stats.damage st;
     Stats.keys := Stats.keys st; Stats.files := Stats.files st |}.

Definition withDamage (v : Z) (st : Stats.t) : Stats.t :=
  {| Stats.hp := Stats.hp st; Stats.maxHp := Stats.maxHp st; Stats.mp := Stats.mp st;
     Stats.maxMp := Stats.maxMp st; Stats.score := Stats.score st;
     Stats.speed := Stats.speed st; Stats.damage := v;
     Stats.keys := Stats.keys st; Stats.files := Stats.files st |}.

Definition withKeys (v : Z) (st : Stats.t) : Stats.t :=
  {| Stats.hp := Stats.hp st; Stats.maxHp := Stats.maxHp st; Stats.mp := Stats.mp st;
     Stats.maxMp := Stats.maxMp st; Stats.score := Stats.score st;
     Stats.speed := Stats.speed st; Stats.damage := Stats.damage st;
     Stats.keys := v; Stats.files := Stats.files st |}.

Definition withFiles (v : Z) (st : Stats.t) : Stats.t :=
  {| Stats.hp := Stats.hp st; Stats.maxHp := Stats.maxHp st; Stats.mp := Stats.mp st;
     Stats.maxMp := Stats.maxMp st; Stats.score := Stats.score st;
     Stats.speed := Stats.speed st; Stats.damage := Stats.damage st;
     Stats.keys := Stats.keys st; Stats.files := v |}.

Definition hurt (hp : Z) (st : EnemyState) (timer : Z) (e : Enemy.t) : Enemy.t :=
  {| Enemy.x := Enemy.x e; Enemy.y := Enemy.y e; Enemy.hp := hp;
     Enemy.maxHp := Enemy.maxHp e; Enemy.state := st; Enemy.timer := timer;
     Enemy.speed := Enemy.speed e |}.

Definition moveEnemy (x y : Q) (e : Enemy.t) : Enemy.t :=
  {| Enemy.x := x; Enemy.y := y; Enemy.hp := Enemy.hp e;
     Enemy.maxHp := Enemy.maxHp e; Enemy.state := Enemy.state e;
     Enemy.timer := Enemy.timer e; Enemy.speed := Enemy.speed e |}.

Definition setClearedNode (b : Node.t) : Node.t :=
  {| Node.id := Node.id b; Node.column := Node.column b; Node.level := Node.level b;
     Node.theme := Node.theme b; Node.cleared := true;
     Node.locked := Node.locked b; Node.hidden := Node.hidden b;
     Node.specialItems := Node.specialItems b; Node.x := Node.x b; Node.y := Node.y b |}.

Definition unlockNode (hidden : bool) (b : Node.t) : Node.t :=
  {| Node.id := Node.id b; Node.column := Node.column b; Node.level := Node.level b;
     Node.theme := Node.theme b; Node.cleared := Node.cleared b;
     Node.locked := false; Node.hidden := hidden;
     Node.specialItems := Node.specialItems b; Node.x := Node.x b; Node.y := Node.y b |}.

(** [newMap[newMap.findIndex(p)] = f(...)], when the index is not -1. *)
Fixpoint updateFirst {A} (p : A -> bool) (f : A -> A) (l : list A) : list A :=
  match l with
  | [] => []
  | v :: rest => if p v then f v :: rest else v :: updateFirst p f rest
  end.

Section Engine.
Variable aim : Q -> Q -> Q * Q.
Variable random : Oracle.

(** [getRandomInt(min, max)] at the call number [c]. *)
Definition getRandomInt (min max : Z) (c : nat) : Z * nat :=
  ((random c mod two53) * (max - min + 1) / two53 + min, S c).

(** The test of the spawn loop on the grid cell [(gx, gy)]. *)
Definition validSpawn (room : Room.t) (player : Player.t) (gx gy : Z) : option bool :=
  let ex := inject_Z (gx * TILE_SIZE) in
  let ey := inject_Z (gy * TILE_SIZE) in
  match checkWallCollision ex ey room with
  | None => None
  | Some hit => Some (negb hit && distGt ex ey (Player.x player) (Player.y player) 150)
  end.

(** The loop [while (!valid)], granted [fuel] rounds. *)
Fixpoint spawnPoint (fuel : nat) (room : Room.t) (player : Player.t) (c : nat)
  : Result (Q * Q * nat) :=
  match fuel with
  | O => Spinning
  | S fuel' =>
      let (gx, c1) := getRandomInt 2 (Room.width room - 2) c in
      let (gy, c2) := getRandomInt 2 (Room.height room - 2) c1 in
      valid <! defined (validSpawn room player gx gy) ;;
      if valid then Ok (inject_Z (gx * TILE_SIZE), inject_Z (gy * TILE_SIZE), c2)
      else spawnPoint fuel' room player c2
  end.

Definition newEnemy (ex ey : Q) (difficulty : Z) : Enemy.t :=
  {| Enemy.x := ex; Enemy.y := ey; Enemy.hp := 2 + difficulty; Enemy.maxHp := 2 + difficulty;
     Enemy.state := CHASE; Enemy.timer := 0;
     Enemy.speed := ((1 + inject_Z difficulty * (1 # 4)) * (6 # 5))%Q |}.

Fixpoint spawnEnemies (fuel count : nat) (difficulty : Z) (room : Room.t) (player : Player.t)
    (es : list Enemy.t) (c : nat) : Result (list Enemy.t * nat) :=
  match count with
  | O => Ok (es, c)
  | S n =>
      r <! spawnPoint fuel room player c ;;
      let '(ex, ey, c1) := r in
      spawnEnemies fuel n difficulty room player (es ++ [newEnemy ex ey difficulty]) c1
  end.

(** [setupRoom(roomId, buildingData)]; [buildingData] is always
    [gameData.current.building].  [closureBuildingId] is the
    [currentBuildingId] of the closure that calls it. *)
Definition setupRoom (fuel : nat) (closureBuildingId roomId : Z) (s : Session.t)
  : Result Session.t :=
  b <! defined (Game.building (Session.g s)) ;;
  room <! defined (findRoom b roomId) ;;
  let g1 := withItems (Room.items room)
              (withEnemies [] (withBuilding (inBuilding roomId setExplored b) (Session.g s))) in
  node <! defined (findNode (Session.worldMap s) closureBuildingId) ;;
  let difficulty := difficultyOf node in
  let isStartRoom := (roomId =? Building.startRoomId b) && (difficulty =? 0) in
  if negb (Room.cleared room) && negb isStartRoom && negb (isBossRoomType (Room.type room))
  then
    let enemyCount := 2 + 6 * difficulty / 5 in
    r <! spawnEnemies fuel (Z.to_nat enemyCount) difficulty room (Game.player g1) []
                      (Session.randomCalls s) ;;
    Ok (withRandomCalls (snd r) (withG (withEnemies (fst r) g1) s))
  else Ok (withG g1 s).

(** Where [transitionRoom] puts the player in the room it enters. *)
Definition arrive (direction : DoorHit) (nextRoom : Room.t) (p : Player.t) : Player.t :=
  let midX := inject_Z (Room.width nextRoom / 2) in
  let midY := inject_Z (Room.height nextRoom / 2) in
  let centerOffset := inject_Z ((TILE_SIZE - PLAYER_SIZE) / 2) in
  match direction with
  | hitTop => movePlayer (midX * Q48 + centerOffset)
                         ((inject_Z (Room.height nextRoom) - 2) * Q48 + centerOffset) p
  | hitBottom => movePlayer (midX * Q48 + centerOffset) ((3 # 2) * Q48) p
  | hitLeft => movePlayer ((inject_Z (Room.width nextRoom) - 2) * Q48 + centerOffset)
                          (midY * Q48 + centerOffset) p
  | hitRight => movePlayer ((3 # 2) * Q48) (midY * Q48 + centerOffset) p
  | hitBoss => p
  end%Q.

(** Where [enterBuilding] puts the player: the centre of the start room. *)
Definition arriveAtStart (startRoom : Room.t) (p : Player.t) : Player.t :=
  let centerOffset := inject_Z ((TILE_SIZE - PLAYER_SIZE) / 2) in
  movePlayer (inject_Z (Room.width startRoom / 2) * Q48 + centerOffset)%Q
             (inject_Z (Room.height startRoom / 2) * Q48 + centerOffset)%Q p.

Definition transitionRoom (fuel : nat) (direction : DoorHit) (nextRoomId : Z) (s : Session.t)
  : Result Session.t :=
  b <! defined (Game.building (Session.g s)) ;;
  nextRoom <! defined (findRoom b nextRoomId) ;;
  let p1 := arrive direction nextRoom (Game.player (Session.g s)) in
  setupRoom fuel (Session.currentBuildingId s) nextRoomId
    (withActiveRoom nextRoomId (withG (withProjectiles [] (withPlayer p1 (Session.g s))) s)).

(** The ledger filter of [enterBuilding]. *)
Definition notCollected (collected : list Z) (item : Item.t) : bool :=
  negb (existsb (Z.eqb (Item.id item)) collected).

Definition dropCollected (collected : list Z) (b : Building.t) : Building.t :=
  {| Building.rooms := map (fun room => setItems (filter (notCollected collected) (Room.items room)) room)
                           (Building.rooms b);
     Building.startRoomId := Building.startRoomId b;
     Building.theme := Building.theme b |}.

Definition enterBuilding (fuel : nat) (buildingId : Z) (s : Session.t) : Result Session.t :=
  buildingNode <! defined (findNode (Session.worldMap s) buildingId) ;;
  let theme := Node.theme buildingNode in
  let difficulty := difficultyOf buildingNode in
  generated <! defined (generateBuilding buildingId difficulty theme (Session.rootSeed s)
                                         (Node.specialItems buildingNode)) ;;
  let building := dropCollected (Session.collected s) generated in
  startRoom <! defined (findRoom building (Building.startRoomId building)) ;;
  let p := arriveAtStart startRoom (Game.player (Session.g s)) in
  let g1 := withProjectiles [] (withPlayer p (withBuilding building (Session.g s))) in
  s1 <! setupRoom fuel (Session.currentBuildingId s) (Building.startRoomId building)
                  (withActiveRoom (Building.startRoomId building) (withG g1 s)) ;;
  Ok (rerender s (withGameState PLAYING (withBuildingId buildingId s1))).

Definition completeLevel (s : Session.t) : Result Session.t :=
  let worldMap := Session.worldMap s in
  let currentBuildingId := Session.currentBuildingId s in
  currentBuilding <! defined (findNode worldMap currentBuildingId) ;;
  let nextCol := Node.column currentBuilding + 1 in
  let maxCol := fold_left (fun m b => if Node.column b >? m then Node.column b else m)
                          worldMap 0 in
  let newMap :=
    map (fun b =>
           if Node.id b =? currentBuildingId then setClearedNode b
           else if (Node.column b =? nextCol) && negb (Node.id b =? HIDDEN_BUILDING_ID)
                then unlockNode (Node.hidden b) b
                else b) worldMap in
  if Node.id currentBuilding =? 0 then
    let hasKey := Stats.keys (Session.seenStats s) >? 0 in
    let newMap1 :=
      if hasKey
      then updateFirst (fun b => Node.id b =? HIDDEN_BUILDING_ID) (unlockNode false) newMap
      else newMap in
    Ok (withGameState MESSAGE (withWorldMap newMap1 s))
  else
    let s1 := withWorldMap newMap s in
    if Node.column currentBuilding =? maxCol
    then Ok (withGameState ENDING (saveScore (Stats.score (Session.seenStats s)) s1))
    else Ok (withGameState MAP s1).

End Engine.

(** ** The frame update *)

Section Frame.
Variable aim : Q -> Q -> Q * Q.
Variable random : Oracle.

Definition Qnonzero (v : Q) : bool := negb (Qeq_bool v 0).

Definition withFacing (f : Q * Q) (p : Player.t) : Player.t :=
  {| Player.x := Player.x p; Player.y := Player.y p; Player.cooldown := Player.cooldown p;
     Player.bombCooldown := Player.bombCooldown p; Player.facing := f |}.

Definition withCooldown (c : Q) (p : Player.t) : Player.t :=
  {| Player.x := Player.x p; Player.y := Player.y p; Player.cooldown := c;
     Player.bombCooldown := Player.bombCooldown p; Player.facing := Player.facing p |}.

Definition withBombCooldown (c : Z) (p : Player.t) : Player.t :=
  {| Player.x := Player.x p; Player.y := Player.y p; Player.cooldown := Player.cooldown p;
     Player.bombCooldown := c; Player.facing := Player.facing p |}.

Definition onPlayer (f : Player.t -> Player.t) (s : Session.t) : Session.t :=
  withG (withPlayer (f (Game.player (Session.g s))) (Session.g s)) s.

Definition onEnemies (es : list Enemy.t) (s : Session.t) : Session.t :=
  withG (withEnemies es (Session.g s)) s.

(** The player moves, each axis on its own, and turns. *)
Definition stepPlayer (input : Input.t) (currentRoom : Room.t) (s : Session.t)
  : Result Session.t :=
  let p := Game.player (Session.g s) in
  let speed := inject_Z (Stats.speed (Session.seenStats s)) in
  let nextX := (Player.x p + Input.x input * speed)%Q in
  let nextY := (Player.y p + Input.y input * speed)%Q in
  hitX <! defined (checkWallCollision nextX (Player.y p) currentRoom) ;;
  let x1 := if hitX then Player.x p else nextX in
  hitY <! defined (checkWallCollision x1 nextY currentRoom) ;;
  let y1 := if hitY then Player.y p else nextY in
  let p1 := movePlayer x1 y1 p in
  let p2 := if Qnonzero (Input.x input) || Qnonzero (Input.y input)
            then withFacing (Input.x input, Input.y input) p1 else p1 in
  Ok (onPlayer (fun _ => p2) s).

Definition doorOf (hit : DoorHit) (d : Doors.t) : option Z :=
  match hit with
  | hitTop => Doors.top d
  | hitBottom => Doors.bottom d
  | hitLeft => Doors.left d
  | hitRight => Doors.right d
  | hitBoss => None
  end.

(** The nearest enemy within the targeting range of 1000. *)
Definition closestEnemy (p : Player.t) (enemies : list Enemy.t) : option Enemy.t :=
  snd (fold_left
         (fun (acc : Q * option Enemy.t) e =>
            let d2 := (sq (Enemy.x e - Player.x p) + sq (Enemy.y e - Player.y p))%Q in
            if Qltb d2 (fst acc) then (d2, Some e) else acc)
         enemies (inject_Z (1000 * 1000), None)).

Definition fire (input : Input.t) (s : Session.t) : Session.t :=
  let p := Game.player (Session.g s) in
  let s1 :=
    if Input.fire input && negb (Qltb 0 (Player.cooldown p)) then
      let dir :=
        match closestEnemy p (Game.enemies (Session.g s)) with
        | Some e => aim (Enemy.y e - Player.y p)%Q (Enemy.x e - Player.x p)%Q
        | None =>
            let f := Player.facing p in
            if Qnonzero (fst f) || Qnonzero (snd f) then aim (snd f) (fst f) else (0, 0)%Q
        end in
      let shot := {| Projectile.x := (Player.x p + 16)%Q; Projectile.y := (Player.y p + 16)%Q;
                     Projectile.vx := (fst dir * 10)%Q; Projectile.vy := (snd dir * 10)%Q;
                     Projectile.life := 60 |} in
      let cooldown := (inject_Z (Character.fireRate (Session.selectedChar s)) * (60 # 1000))%Q in
      withG (withPlayer (withCooldown cooldown p)
               (withProjectiles (Game.projectiles (Session.g s) ++ [shot]) (Session.g s))) s
    else s in
  onPlayer (fun p => if Qltb 0 (Player.cooldown p)
                     then withCooldown (Player.cooldown p - 1)%Q p else p) s1.

(** The bomb attack: the guard reads the captured [playerStats], the
    updater acts on the React state. *)
Definition bombAttack (input : Input.t) (s : Session.t) : Session.t :=
  let p := Game.player (Session.g s) in
  if Input.bomb input && (Player.bombCooldown p <=? 0) then
    if Stats.mp (Session.seenStats s) >=? BOMB_COST then
      let s1 := setPlayerStats (fun prev => withMp (Stats.mp prev - BOMB_COST) prev) s in
      let s2 := onPlayer (withBombCooldown 60) s1 in
      fold_left (fun acc _ => createParticles acc) (Game.enemies (Session.g s))
        (onEnemies (map (fun e => hurt (Enemy.hp e - 2) STUNNED 120 e)
                        (Game.enemies (Session.g s))) s2)
    else s
  else s.

Definition bombTick (s : Session.t) : Session.t :=
  onPlayer (fun p => if Player.bombCooldown p >? 0
                     then withBombCooldown (Player.bombCooldown p - 1) p else p) s.

Definition enemyRect (e : Enemy.t) : Q * Q * Q * Q := (Enemy.x e, Enemy.y e, 32, 32)%Q.

(** One projectile against the enemies: every enemy it overlaps is hit. *)
Definition hitEnemies (damage : Z) (p : Projectile.t) (enemies : list Enemy.t)
  : Projectile.t * list Enemy.t * nat :=
  fold_left
    (fun (acc : Projectile.t * list Enemy.t * nat) e =>
       let '(q, done, hits) := acc in
       if checkCollision (Projectile.x q, Projectile.y q, 10, 10)%Q (enemyRect e)
       then ({| Projectile.x := Projectile.x q; Projectile.y := Projectile.y q;
                Projectile.vx := Projectile.vx q; Projectile.vy := Projectile.vy q;
                Projectile.life := 0 |},
             done ++ [hurt (Enemy.hp e - damage) STUNNED 60 e], S hits)
       else (q, done ++ [e], hits))
    enemies (p, [], O).

Definition stepProjectile (currentRoom : Room.t) (acc : Result (list Projectile.t * Session.t))
    (p : Projectile.t) : Result (list Projectile.t * Session.t) :=
  a <! acc ;;
  let (done, s) := a : list Projectile.t * Session.t in
  let x1 := (Projectile.x p + Projectile.vx p)%Q in
  let y1 := (Projectile.y p + Projectile.vy p)%Q in
  hit <! defined (checkWallCollision x1 y1 currentRoom) ;;
  let p1 := {| Projectile.x := x1; Projectile.y := y1;
               Projectile.vx := Projectile.vx p; Projectile.vy := Projectile.vy p;
               Projectile.life := if hit then 0 else Projectile.life p - 1 |} in
  let '(p2, es, hits) := hitEnemies (Stats.damage (Session.seenStats s)) p1
                                    (Game.enemies (Session.g s)) in
  Ok (done ++ [p2],
      withRandomCalls (Session.randomCalls s + 10 * hits) (onEnemies es s)).

Definition stepProjectiles (currentRoom : Room.t) (s : Session.t) : Result Session.t :=
  let live := filter (fun p => Projectile.life p >? 0) (Game.projectiles (Session.g s)) in
  r <! fold_left (stepProjectile currentRoom) live (Ok ([], s)) ;;
  Ok (withG (withProjectiles (fst r) (Session.g (snd r))) (snd r)).

(** The dead are counted and removed. *)
Definition checkDeaths (s : Session.t) : Session.t :=
  let enemies := Game.enemies (Session.g s) in
  let deadEnemies := filter (fun e => Enemy.hp e <=? 0) enemies in
  let alive := filter (fun e => Enemy.hp e >? 0) enemies in
  let s1 :=
    if len deadEnemies >? 0 then
      let s2 := setPlayerStats
                  (fun prev => withScore (Stats.score prev + len deadEnemies * 100) prev) s in
      if len alive =? 0 then
        match Game.building (Session.g s2) with
        | Some b => withG (withBuilding (inBuilding (Session.activeRoomId s2) setCleared b)
                                        (Session.g s2)) s2
        | None => s2
        end
      else s2
    else s in
  onEnemies alive s1.

Definition takeDamage (s : Session.t) : Session.t :=
  let prev := Session.playerStats s in
  let newHp := Stats.hp prev - 1 in
  let s1 := if newHp <=? 0 then withGameState GAMEOVER (saveScore (Stats.score prev) s) else s in
  let s2 := createParticles (withStats (withHp newHp prev) s1) in
  onPlayer (fun p => let f := Player.facing p in
                     movePlayer (Player.x p - fst f * 50)%Q (Player.y p - snd f * 50)%Q p) s2.

(** One enemy of the [forEach] of the enemy AI. *)
Definition stepEnemy (currentRoom : Room.t) (acc : Result (list Enemy.t * Session.t)) (e : Enemy.t)
  : Result (list Enemy.t * Session.t) :=
  a <! acc ;;
  let (done, s) := a : list Enemy.t * Session.t in
  let p := Game.player (Session.g s) in
  match Enemy.state e with
  | STUNNED =>
      let t := Enemy.timer e - 1 in
      Ok (done ++ [hurt (Enemy.hp e) (if t <=? 0 then CHASE else STUNNED) t e], s)
  | CHASE =>
      if distLt (Player.x p) (Player.y p) (Enemy.x e) (Enemy.y e) 40
      then Ok (done ++ [hurt (Enemy.hp e) PREPARE (30 + Session.currentBuildingId s * 5) e], s)
      else
        let dir := aim (Player.y p - Enemy.y e)%Q (Player.x p - Enemy.x e)%Q in
        let nextEX := (Enemy.x e + fst dir * (Enemy.speed e * (1 # 2)))%Q in
        let nextEY := (Enemy.y e + snd dir * (Enemy.speed e * (1 # 2)))%Q in
        hitX <! defined (checkWallCollision nextEX (Enemy.y e) currentRoom) ;;
        let x1 := if hitX then Enemy.x e else nextEX in
        hitY <! defined (checkWallCollision x1 nextEY currentRoom) ;;
        let y1 := if hitY then Enemy.y e else nextEY in
        Ok (done ++ [moveEnemy x1 y1 e], s)
  | PREPARE =>
      let t := Enemy.timer e - 1 in
      if t <=? 0 then
        let s1 := if distLt (Player.x p) (Player.y p) (Enemy.x e) (Enemy.y e) 50
                  then takeDamage s else s in
        Ok (done ++ [hurt (Enemy.hp e) ATTACK 60 e], s1)
      else Ok (done ++ [hurt (Enemy.hp e) PREPARE t e], s)
  | ATTACK =>
      let t := Enemy.timer e - 1 in
      Ok (done ++ [hurt (Enemy.hp e) (if t <=? 0 then CHASE else ATTACK) t e], s)
  end.

Definition stepEnemies (currentRoom : Room.t) (s : Session.t) : Result Session.t :=
  r <! fold_left (stepEnemy currentRoom) (Game.enemies (Session.g s)) (Ok ([], s)) ;;
  Ok (onEnemies (fst r) (snd r)).

(** What touching an item does: [None] when it is not consumed. *)
Definition itemEffect (seen : Stats.t) (ty : ItemType) : option (Stats.t -> Stats.t) :=
  match ty with
  | pizza =>
      if Stats.hp seen <? Stats.maxHp seen
      then Some (fun prev => withHp (Z.min (Stats.hp prev + 1) (Stats.maxHp prev)) prev)
      else None
  | pizzaBox => Some (fun prev => withHp (Stats.hp prev + 1) (withMaxHp (Stats.maxHp prev + 1) prev))
  | soda =>
      if Stats.mp seen <? Stats.maxMp seen
      then Some (fun prev => withMp (Z.min (Stats.mp prev + 1) (Stats.maxMp prev)) prev)
      else None
  | sodaCarrier => Some (fun prev => withMp (Stats.mp prev + 1) (withMaxMp (Stats.maxMp prev + 1) prev))
  | rollerSkates => Some (fun prev => withSpeed (Stats.speed prev + 1) prev)
  | cookieBag => Some (fun prev => withDamage (Stats.damage prev + 1) prev)
  | file => Some (fun prev => withFiles (Stats.files prev + 1) prev)
  | key => Some (fun prev => withKeys (Stats.keys prev + 1) prev)
  end.

(** [collectedItemsRef.current.add(id)]. *)
Definition ledgerAdd (id : Z) (collected : list Z) : list Z :=
  if existsb (Z.eqb id) collected then collected else collected ++ [id].

(** The item is consumed: its id enters the ledger and the items with
    this id leave the list of the room. *)
Definition consume (item : Item.t) (effect : Stats.t -> Stats.t) (s : Session.t) : Session.t :=
  let s1 := createParticles (setPlayerStats effect s) in
  let s2 := withCollected (ledgerAdd (Item.id item) (Session.collected s1)) s1 in
  match Game.building (Session.g s2) with
  | Some b =>
      let keep := fun r => setItems (filter (fun i => negb (Item.id i =? Item.id item))
                                            (Room.items r)) r in
      withG (withBuilding (inBuilding (Session.activeRoomId s2) keep b) (Session.g s2)) s2
  | None => s2
  end.

Definition itemRect (item : Item.t) : Q * Q * Q * Q :=
  (inject_Z (Item.x item), inject_Z (Item.y item), inject_Z (Item.w item), inject_Z (Item.h item)).

(** The callback of [g.items.filter]. *)
Definition stepItem (acc : list Item.t * Session.t) (item : Item.t) : list Item.t * Session.t :=
  let (kept, s) := acc in
  let p := Game.player (Session.g s) in
  if checkCollision (itemRect item) (Player.x p, Player.y p, 32, 32)%Q then
    match itemEffect (Session.seenStats s) (Item.type item) with
    | Some effect => (kept, consume item effect s)
    | None => (kept ++ [item], s)
    end
  else (kept ++ [item], s).

Definition stepItems (s : Session.t) : Session.t :=
  let r := fold_left stepItem (Game.items (Session.g s)) ([], s) in
  withG (withItems (fst r) (Session.g (snd r))) (snd r).

(** [update(dt)]: one frame, with the [input] of the frame; the spawn
    loops of a room change are granted [fuel] rounds each. *)
Definition update (fuel : nat) (input : Input.t) (s : Session.t) : Result Session.t :=
  if negb (GameState_eqb (Session.gameState s) PLAYING) then Ok s
  else
    building <! defined (Game.building (Session.g s)) ;;
    currentRoom <! defined (findRoom building (Session.activeRoomId s)) ;;
    s1 <! stepPlayer input currentRoom s ;;
    let p := Game.player (Session.g s1) in
    let continue :=
      let s2 := bombTick (bombAttack input (fire input s1)) in
      s3 <! stepProjectiles currentRoom s2 ;;
      s4 <! stepEnemies currentRoom (checkDeaths s3) ;;
      Ok (stepItems s4) in
    r <! match checkDoorCollision (Player.x p) (Player.y p) currentRoom with
         | Some hitBoss => completeLevel s1
         | Some doorHit =>
             match doorOf doorHit (Room.doors currentRoom) with
             | Some nextRoomId => transitionRoom random fuel doorHit nextRoomId s1
             | None => continue
             end
         | None => continue
         end ;;
    Ok (rerender s r).

End Frame.

(** ** The earlier engine (App.jsx)

    The first listing of the engine has rooms of one size and chooses the
    side of the boss exit by the doors of the room. *)

Module Earlier.

Definition ROOM_WIDTH : Z := 15.
Definition ROOM_HEIGHT : Z := 11.

(** [bossDir], as [checkWallCollision] and [checkDoorCollision] compute it. *)
Definition bossDir (d : Doors.t) : DoorHit :=
  let dir0 := hitTop in
  let dir1 := if notNull (Doors.top d) then hitRight else dir0 in
  let dir2 := if DoorHit_eqb dir1 hitRight && notNull (Doors.right d) then hitBottom else dir1 in
  if DoorHit_eqb dir2 hitBottom && notNull (Doors.bottom d) then hitLeft else dir2.

(** The wall tile that the boss rule of [checkWallCollision] lets pass. *)
Definition bossTile (d : Doors.t) : Pt :=
  let midX := ROOM_WIDTH / 2 in
  let midY := ROOM_HEIGHT / 2 in
  match bossDir d with
  | hitTop => (midX, 0)
  | hitRight => (ROOM_WIDTH - 1, midY)
  | hitBottom => (midX, ROOM_HEIGHT - 1)
  | _ => (0, midY)
  end.

(** A room of this listing, as the collision tests read it; every room
    has [ROOM_WIDTH] x [ROOM_HEIGHT] tiles. *)
Module Room.
Record t := { doors : Doors.t; grid : Grid; type : RoomType }.
End Room.

(** The test [isDoor] of [checkWallCollision]. *)
Definition isDoorTile (room : Room.t) (gridX gridY : Z) : bool :=
  let d := Room.doors room in
  (notNull (Doors.top d) && (gridY =? 0) && (gridX =? ROOM_WIDTH / 2))
  || (notNull (Doors.right d) && (gridX =? ROOM_WIDTH - 1) && (gridY =? ROOM_HEIGHT / 2))
  || (notNull (Doors.bottom d) && (gridY =? ROOM_HEIGHT - 1) && (gridX =? ROOM_WIDTH / 2))
  || (notNull (Doors.left d) && (gridX =? 0) && (gridY =? ROOM_HEIGHT / 2)).

(** The four tests [bossDir === ... && ...] of [checkWallCollision]. *)
Definition isBossTile (d : Doors.t) (gridX gridY : Z) : bool :=
  let midX := ROOM_WIDTH / 2 in
  let midY := ROOM_HEIGHT / 2 in
  match bossDir d with
  | hitTop => (gridY =? 0) && (gridX =? midX)
  | hitRight => (gridX =? ROOM_WIDTH - 1) && (gridY =? midY)
  | hitBottom => (gridY =? ROOM_HEIGHT - 1) && (gridX =? midX)
  | hitLeft => (gridX =? 0) && (gridY =? midY)
  | hitBoss => false
  end.

Definition checkWallCollision (x y : Q) (room : Room.t) : option bool :=
  let gridX := tileOf x in
  let gridY := tileOf y in
  if (gridY <? 0) || (gridY >=? ROOM_HEIGHT) || (gridX <? 0) || (gridX >=? ROOM_WIDTH)
  then Some true
  else
    match tileAt (Room.grid room) gridX gridY with
    | None => None
    | Some tile =>
        match Tile.type tile with
        | floor => Some false
        | _ =>
            let isDoor := isDoorTile room gridX gridY in
            if isBossRoomType (Room.type room) && isBossTile (Room.doors room) gridX gridY
            then Some false
            else Some (negb isDoor)
        end
    end.

Definition checkDoorCollision (x y : Q) (room : Room.t) : option DoorHit :=
  let cx := (x + 16)%Q in
  let cy := (y + 16)%Q in
  let midX := (inject_Z (ROOM_WIDTH * TILE_SIZE) / 2)%Q in
  let midY := (inject_Z (ROOM_HEIGHT * TILE_SIZE) / 2)%Q in
  let lowLine := inject_Z ((ROOM_HEIGHT - 1) * TILE_SIZE) in
  let rightLine := inject_Z ((ROOM_WIDTH - 1) * TILE_SIZE) in
  let d := Room.doors room in
  if notNull (Doors.top d) && Qltb cy Q48 then Some hitTop
  else if notNull (Doors.bottom d) && Qltb lowLine cy then Some hitBottom
  else if notNull (Doors.left d) && Qltb cx Q48 then Some hitLeft
  else if notNull (Doors.right d) && Qltb rightLine cx then Some hitRight
  else if isBossRoomType (Room.type room) then
    match bossDir d with
    | hitTop => if Qltb cy Q48 && Qabs_lt (cx - midX) Q48 then Some hitBoss else None
    | hitRight => if Qltb rightLine cx && Qabs_lt (cy - midY) Q48 then Some hitBoss else None
    | hitBottom => if Qltb lowLine cy && Qabs_lt (cx - midX) Q48 then Some hitBoss else None
    | hitLeft => if Qltb cx Q48 && Qabs_lt (cy - midY) Q48 then Some hitBoss else None
    | hitBoss => None
    end
  else None.

End Earlier.

(** ** The draws of a layout, counted

    The generator of a layout is a counter: its state after [k] draws is
    [seed + k * 0x6D2B79F5], so the draw that decides a tile is known
    from the number of tiles that drew before it. *)

Definition increment : Z := 0x6D2B79F5.

(** One when the tile draws (it is inside the border and not safe). *)
Definition tileCost (width height : Z) (doors : Doors.t) (isBossRoom : bool) (y x : Z) : Z :=
  if isBorder width height x y then 0
  else if isSafe width height doors isBossRoom x y then 0 else 1.

Definition total {A} (cost : A -> Z) (l : list A) : Z :=
  fold_right (fun v s => cost v + s) 0 l.

Definition rowCost (width height : Z) (doors : Doors.t) (isBossRoom : bool) (y : Z) : Z :=
  total (tileCost width height doors isBossRoom y) (upto width).

(** The number of draws made before the tile [(x, y)] is generated. *)
Definition drawsBefore (width height : Z) (doors : Doors.t) (isBossRoom : bool) (x y : Z) : Z :=
  total (rowCost width height doors isBossRoom) (firstn (Z.to_nat y) (upto height))
  + total (tileCost width height doors isBossRoom y) (firstn (Z.to_nat x) (upto width)).

(** The 32-bit scrambling of [mulberry32] on machine integers. *)
Definition mask32 : Uint63.int := Eval vm_compute in Uint63.of_Z 4294967295.
Definition i1 : Uint63.int := Eval vm_compute in Uint63.of_Z 1.
Definition i7 : Uint63.int := Eval vm_compute in Uint63.of_Z 7.
Definition i14 : Uint63.int := Eval vm_compute in Uint63.of_Z 14.
Definition i15 : Uint63.int := Eval vm_compute in Uint63.of_Z 15.
Definition i61 : Uint63.int := Eval vm_compute in Uint63.of_Z 61.
Definition threshold63 : Uint63.int := Eval vm_compute in Uint63.of_Z 644245095.

Definition draw63 (a1 : Uint63.int) : Uint63.int :=
  let t0 := Uint63.land a1 mask32 in
  let t1 := Uint63.land
              (Uint63.mul (Uint63.lxor t0 (Uint63.lsr t0 i15)) (Uint63.lor t0 i1))
              mask32 in
  let t2 := Uint63.lxor t1
              (Uint63.land
                 (Uint63.add t1
                    (Uint63.land
                       (Uint63.mul (Uint63.lxor t1 (Uint63.lsr t1 i7)) (Uint63.lor t1 i61))
                       mask32))
                 mask32) in
  Uint63.lxor t2 (Uint63.lsr t2 i14).

(** Some draw of the generator seeded [seed] does not make furniture;
    [ks] holds the states of the generator at these draws, less the seed. *)
Fixpoint anyFloor63 (seed : Uint63.int) (ks : list Uint63.int) : bool :=
  match ks with
  | [] => false
  | k :: rest =>
      if Uint63.ltb (draw63 (Uint63.add seed k)) threshold63
      then anyFloor63 seed rest
      else true
  end.

Definition anyFloor (ks : list Uint63.int) (seed : Z) : bool :=
  anyFloor63 (Uint63.of_Z seed) ks.

Definition states63 (ks : list Z) : list Uint63.int :=
  map (fun k => Uint63.of_Z (increment * k)) ks.

(** The draws that decide the nine cells (2,2), (8,2), (9,2), (2,3),
    (9,3), (2,4), (9,4), (2,5), (9,5) of an 11 x 9 room with no side
    door: with a top door, and without. *)
Definition drawsWithTop : list Z := [10; 15; 16; 18; 22; 24; 28; 30; 34].
Definition drawsWithoutTop : list Z := [11; 17; 18; 20; 24; 26; 30; 32; 36].

Definition statesWithTop : list Uint63.int := Eval vm_compute in states63 drawsWithTop.
Definition statesWithoutTop : list Uint63.int := Eval vm_compute in states63 drawsWithoutTop.

(** [P] holds on [lo, lo + 2^k). *)
Fixpoint allRange (k : nat) (lo : Z) (P : Z -> bool) : bool :=
  match k with
  | O => P lo
  | S k' => if allRange k' lo P then allRange k' (lo + 2 ^ Z.of_nat k') P else false
  end.

(** ** The input handlers

    [e.key] is a string; the axes of [gameData.current.input] hold -1, 0
    or 1 from the keyboard and any value from the joystick. *)

Definition withInputX (v : Q) (i : Input.t) : Input.t :=
  {| Input.x := v; Input.y := Input.y i; Input.fire := Input.fire i; Input.bomb := Input.bomb i |}.

Definition withInputY (v : Q) (i : Input.t) : Input.t :=
  {| Input.x := Input.x i; Input.y := v; Input.fire := Input.fire i; Input.bomb := Input.bomb i |}.

Definition withFire (v : bool) (i : Input.t) : Input.t :=
  {| Input.x := Input.x i; Input.y := Input.y i; Input.fire := v; Input.bomb := Input.bomb i |}.

Definition withBomb (v : bool) (i : Input.t) : Input.t :=
  {| Input.x := Input.x i; Input.y := Input.y i; Input.fire := Input.fire i; Input.bomb := v |}.

(** [k === a || k === b]. *)
Definition keyIs (k a b : String.string) : bool := String.eqb k a || String.eqb k b.

Definition isUpKey (k : String.string) : bool := keyIs k "ArrowUp"%string "w"%string.
Definition isDownKey (k : String.string) : bool := keyIs k "ArrowDown"%string "s"%string.
Definition isLeftKey (k : String.string) : bool := keyIs k "ArrowLeft"%string "a"%string.
Definition isRightKey (k : String.string) : bool := keyIs k "ArrowRight"%string "d"%string.
Definition isFireKey (k : String.string) : bool := keyIs k " "%string "Enter"%string.
Definition isBombKey (k : String.string) : bool :=
  String.eqb k "Shift"%string || String.eqb k "b"%string || String.eqb k "e"%string.

Definition handleKeyDown (k : String.string) (i : Input.t) : Input.t :=
  let i1 := if isUpKey k then withInputY (-1) i else i in
  let i2 := if isDownKey k then withInputY 1 i1 else i1 in
  let i3 := if isLeftKey k then withInputX (-1) i2 else i2 in
  let i4 := if isRightKey k then withInputX 1 i3 else i3 in
  let i5 := if isFireKey k then withFire true i4 else i4 in
  if isBombKey k then withBomb true i5 else i5.

Definition handleKeyUp (k : String.string) (i : Input.t) : Input.t :=
  let i1 := if isUpKey k && Qeq_bool (Input.y i) (-1) then withInputY 0 i else i in
  let i2 := if isDownKey k && Qeq_bool (Input.y i1) 1 then withInputY 0 i1 else i1 in
  let i3 := if isLeftKey k && Qeq_bool (Input.x i2) (-1) then withInputX 0 i2 else i2 in
  let i4 := if isRightKey k && Qeq_bool (Input.x i3) 1 then withInputX 0 i3 else i3 in
  let i5 := if isFireKey k then withFire false i4 else i4 in
  if isBombKey k then withBomb false i5 else i5.

(** [handleJoystick({x, y})]: the dead zone of one tenth. *)
Definition handleJoystick (x y : Q) (i : Input.t) : Input.t :=
  let tx := if Qltb (Qabs x) (1 # 10) then 0%Q else x in
  let ty := if Qltb (Qabs y) (1 # 10) then 0%Q else y in
  withInputY ty (withInputX tx i).

Definition handleFireBtn (active : bool) (i : Input.t) : Input.t := withFire active i.
Definition handleBombBtn (active : bool) (i : Input.t) : Input.t := withBomb active i.

(** ** The ending sequence *)

Inductive EndingTitle :=
  EscapedTogether | EscapedAlone | Savior | TruthExposed | IslandRemains | NobelPeacePrize.

Module Content.
Record t := { title : EndingTitle; next : bool }.
End Content.

(** [worldMap.find(b => b.id === HIDDEN_BUILDING_ID)?.cleared], as the
    conditions read it ([undefined] is falsy). *)
Definition hiddenCleared (worldMap : list Node.t) : bool :=
  match findNode worldMap HIDDEN_BUILDING_ID with
  | Some b => Node.cleared b
  | None => false
  end.

Definition getEndingContent (worldMap : list Node.t) (playerStats : Stats.t) (endingPage : Z)
  : option Content.t :=
  let hidden := hiddenCleared worldMap in
  let allFiles := Stats.files playerStats >=? 5 in
  let hasKey := Stats.keys playerStats >? 0 in
  if endingPage =? 0 then
    Some {| Content.title := if hasKey then EscapedTogether else EscapedAlone;
            Content.next := hidden |}
  else if (endingPage =? 1) && hidden then
    Some {| Content.title := Savior; Content.next := true |}
  else if ((endingPage =? 2) && hidden) || ((endingPage =? 1) && negb hidden) then
    Some {| Content.title := if allFiles then TruthExposed else IslandRemains;
            Content.next := hidden && allFiles |}
  else if hidden && allFiles then
    Some {| Content.title := NobelPeacePrize; Content.next := false |}
  else None.

(** The button of the ending screen: the page it leads to, or [None] for
    the return to the title screen.  Of the two [setEndingPage] calls of
    the handler the second, which sets [nextVal], is the one that counts. *)
Definition endingClick (worldMap : list Node.t) (content : Content.t) (endingPage : Z)
  : option Z :=
  if Content.next content then
    Some (if (endingPage =? 0) && negb (hiddenCleared worldMap) then 2 else endingPage + 1)
  else None.

(** The titles shown from [endingPage] on, clicking the button at most
    [clicks] times; the flag tells that the title screen was reached. *)
Fixpoint endingPages (clicks : nat) (worldMap : list Node.t) (playerStats : Stats.t)
    (endingPage : Z) : list EndingTitle * bool :=
  match getEndingContent worldMap playerStats endingPage with
  | None => ([], false)
  | Some content =>
      match endingClick worldMap content endingPage with
      | None => ([Content.title content], true)
      | Some page =>
          match clicks with
          | O => ([Content.title content], false)
          | S n =>
              let (rest, done) := endingPages n worldMap playerStats page in
              (Content.title content :: rest, done)
          end
      end
  end.

(** ** The screens

    The handlers of the buttons, and the application as the sequence of
    the events that its screens offer. *)

Definition withRootSeed (v : Z) (s : Session.t) : Session.t :=
  {| Session.gameState := Session.gameState s; Session.selectedChar := Session.selectedChar s;
     Session.worldMap := Session.worldMap s;
     Session.currentBuildingId := Session.currentBuildingId s;
     Session.playerStats := Session.playerStats s; Session.seenStats := Session.seenStats s;
     Session.activeRoomId := Session.activeRoomId s; Session.rootSeed := v;
     Session.highScore := Session.highScore s; Session.collected := Session.collected s;
     Session.randomCalls := Session.randomCalls s; Session.g := Session.g s |}.

Definition withSelectedChar (c : Character.t) (s : Session.t) : Session.t :=
  {| Session.gameState := Session.gameState s; Session.selectedChar := c;
     Session.worldMap := Session.worldMap s;
     Session.currentBuildingId := Session.currentBuildingId s;
     Session.playerStats := Session.playerStats s; Session.seenStats := Session.seenStats s;
     Session.activeRoomId := Session.activeRoomId s; Session.rootSeed := Session.rootSeed s;
     Session.highScore := Session.highScore s; Session.collected := Session.collected s;
     Session.randomCalls := Session.randomCalls s; Session.g := Session.g s |}.

(** The values of [useState] and [useRef] at the first render; [now] is
    [Date.now()] and [saved] the high score read from the local storage
    (0 when there is none). *)
Definition initialStats : Stats.t :=
  {| Stats.hp := 3; Stats.maxHp := 3; Stats.mp := 3; Stats.maxMp := 3; Stats.score := 0;
     Stats.speed := 4; Stats.damage := 1; Stats.keys := 0; Stats.files := 0 |}.

Definition initialSession (now saved : Z) : Session.t :=
  {| Session.gameState := START;
     Session.selectedChar := nth 0 CHARACTERS (Character.Build_t 0 0 0 0 0);
     Session.worldMap := [];
     Session.currentBuildingId := 0;
     Session.playerStats := initialStats; Session.seenStats := initialStats;
     Session.activeRoomId := 0; Session.rootSeed := now;
     Session.highScore := saved; Session.collected := [];
     Session.randomCalls := 0;
     Session.g := {| Game.player := {| Player.x := 0; Player.y := 0; Player.cooldown := 0;
                                       Player.bombCooldown := 0; Player.facing := (1, 0)%Q |};
                     Game.building := None; Game.projectiles := []; Game.enemies := [];
                     Game.items := [] |} |}.

Definition initGameSession (s : Session.t) : Session.t := withGameState CHAR_SELECT s.

(** The stats with which [startGame] begins a run. *)
Definition freshStats (c : Character.t) : Stats.t :=
  {| Stats.hp := Character.maxHp c; Stats.maxHp := Character.maxHp c;
     Stats.mp := Character.maxMp c; Stats.maxMp := Character.maxMp c; Stats.score := 0;
     Stats.speed := Character.speed c; Stats.damage := Character.damage c;
     Stats.keys := 0; Stats.files := 0 |}.

(** What the screens send to the handlers. *)
Inductive Event :=
| ClickBegin
| ClickCharacter (i : nat)
| ClickEnterIsland (now : Z)
| ClickNode (i : nat)
| Tick (input : Input.t)
| ClickReturn
| ClickContinue
| ClickEnding.

Module App.
Record t := { session : Session.t; endingPage : Z }.
End App.

Section Screens.
Variable aim : Q -> Q -> Q * Q.
Variable random : Oracle.

(** [startGame()], with [Date.now() = now]; [Spinning] when the round
    robin of [generateWorldMap] has not ended. *)
Definition startGame (now : Z) (s : Session.t) : Result Session.t :=
  let (map, c) := generateWorldMap random (Session.randomCalls s) in
  match map with
  | None => Spinning
  | Some m =>
      Ok (withGameState MAP
            (withStats (freshStats (Session.selectedChar s))
               (withWorldMap m
                  (withCollected [] (withRootSeed now (withRandomCalls c s))))))
  end.

Definition onSession (app : App.t) (r : Result Session.t) : Result App.t :=
  s <! r ;;
  Ok {| App.session := rerender (App.session app) s; App.endingPage := App.endingPage app |}.

(** One event.  A button that the current screen does not show cannot be
    clicked: the event is then ignored.  The map shows a button for each
    node that is not hidden, disabled while the node is locked. *)
Definition dispatch (fuel : nat) (e : Event) (app : App.t) : Result App.t :=
  let s := App.session app in
  let st := Session.gameState s in
  match e with
  | ClickBegin =>
      if GameState_eqb st START then onSession app (Ok (initGameSession s)) else Ok app
  | ClickCharacter i =>
      if GameState_eqb st CHAR_SELECT then
        match nth_error CHARACTERS i with
        | Some c => onSession app (Ok (withSelectedChar c s))
        | None => Ok app
        end
      else Ok app
  | ClickEnterIsland now =>
      if GameState_eqb st CHAR_SELECT then onSession app (startGame now s) else Ok app
  | ClickNode i =>
      if GameState_eqb st MAP then
        match nth_error (Session.worldMap s) i with
        | Some node =>
            if Node.hidden node || Node.locked node then Ok app
            else onSession app (enterBuilding random fuel (Node.id node) s)
        | None => Ok app
        end
      else Ok app
  | Tick input =>
      s1 <! update aim random fuel input s ;;
      Ok {| App.session := s1;
            App.endingPage :=
              if GameState_eqb st PLAYING && GameState_eqb (Session.gameState s1) ENDING
              then 0 else App.endingPage app |}
  | ClickReturn =>
      if GameState_eqb st GAMEOVER then onSession app (Ok (withGameState START s)) else Ok app
  | ClickContinue =>
      if GameState_eqb st MESSAGE then onSession app (Ok (withGameState MAP s)) else Ok app
  | ClickEnding =>
      if GameState_eqb st ENDING then
        match getEndingContent (Session.worldMap s) (Session.playerStats s)
                               (App.endingPage app) with
        | None => Ok app
        | Some content =>
            match endingClick (Session.worldMap s) content (App.endingPage app) with
            | Some page => Ok {| App.session := s; App.endingPage := page |}
            | None => onSession app (Ok (withGameState START s))
            end
        end
      else Ok app
  end.

(** The events of a session, in order. *)
Fixpoint run (fuel : nat) (events : list Event) (app : App.t) : Result App.t :=
  match events with
  | [] => Ok app
  | e :: rest => app1 <! dispatch fuel e app ;; run fuel rest app1
  end.

End Screens.

Definition initialApp (now saved : Z) : App.t :=
  {| App.session := initialSession now saved; App.endingPage := 0 |}.

(** A session inside the start room of a generated building, on the
    world map before any item is dealt. *)
Definition exampleMap : list Node.t := standardColumns columnsConfig 0 0 ++ [hiddenNode].

Definition exampleSession : Session.t :=
  {| Session.gameState := PLAYING;
     Session.selectedChar := nth 0 CHARACTERS (Character.Build_t 0 0 0 0 0);
     Session.worldMap := exampleMap;
     Session.currentBuildingId := 0;
     Session.playerStats := initialStats; Session.seenStats := initialStats;
     Session.activeRoomId := 0; Session.rootSeed := 1;
     Session.highScore := 0; Session.collected := [];
     Session.randomCalls := 0;
     Session.g := {| Game.player := {| Player.x := 344; Player.y := 248; Player.cooldown := 0;
                                       Player.bombCooldown := 0; Player.facing := (1, 0)%Q |};
                     Game.building := generateBuilding 0 0 bathroom 1 [];
                     Game.projectiles := []; Game.enemies := []; Game.items := [] |} |}.

Definition idle : Input.t :=
  {| Input.x := 0; Input.y := 0; Input.fire := false; Input.bomb := false |}.

(** ** Specification predicates *)

Definition cell (p : Pos.t) : Pt := (Pos.x p, Pos.y p).

(** [d] is the cell next to [c] in one of the four directions. *)
Definition adjacentCells (c d : Pt) : Prop :=
  exists m, In m dirs /\ d = (fst c + fst m, snd c + snd m).

(** What the grid phase keeps true while [n] rooms are placed. *)
Record GridInv (n : Z) (g : Placement.t) : Prop := {
  inv_ids : map Pos.id (Placement.roomPositions g) = upto n;
  inv_occ : map fst (Placement.occupied g) = map cell (Placement.roomPositions g);
  inv_nodup : NoDup (map cell (Placement.roomPositions g));
  inv_conn : forall a b, In (a, b) (Placement.connections g) ->
    a < b /\ exists pa pb,
      In pa (Placement.roomPositions g) /\ In pb (Placement.roomPositions g) /\
      Pos.id pa = a /\ Pos.id pb = b /\ adjacentCells (cell pa) (cell pb);
  inv_parent : forall i, 1 <= i < n ->
    exists p, 0 <= p < i /\ In (p, i) (Placement.connections g) }.

(** The door targets of a room, in the order top, right, bottom, left. *)
Definition doorList (d : Doors.t) : list (option Z) :=
  [Doors.top d; Doors.right d; Doors.bottom d; Doors.left d].

(** [doorStep b i j]: a door of room [i] leads to room [j]. *)
Definition doorStep (b : Building.t) (i j : Z) : Prop :=
  exists r, In r (Building.rooms b) /\ Room.id r = i /\ In (Some j) (doorList (Room.doors r)).

(** Reachable by walking through doors. *)
Inductive walk (b : Building.t) (i : Z) : Z -> Prop :=
| walk_here : walk b i i
| walk_door : forall j k, walk b i j -> doorStep b j k -> walk b i k.

(** An edge of the undirected graph of the door links. *)
Definition doorLink (b : Building.t) (i j : Z) : Prop := doorStep b i j \/ doorStep b j i.

Inductive connectedTo (b : Building.t) (i : Z) : Z -> Prop :=
| conn_here : connectedTo b i i
| conn_link : forall j k, connectedTo b i j -> doorLink b j k -> connectedTo b i k.

(** The room [q] lies beside [pos]. *)
Definition towards (pos q : Pos.t) : Prop :=
  exists m, In m dirs /\ cell q = (Pos.x pos + fst m, Pos.y pos + snd m).

(** A door value names the room on the cell beside [pos] in direction
    [m], and the two rooms are connected. *)
Definition leadsTo (g : Placement.t) (pos : Pos.t) (m : Pt) (dv : option Z) : Prop :=
  forall v, dv = Some v ->
    exists q, In q (Placement.roomPositions g) /\ Pos.id q = v /\
              cell q = (Pos.x pos + fst m, Pos.y pos + snd m) /\
              In (linkId (Pos.id pos) v) (Placement.connections g).

Definition DoorsOK (g : Placement.t) (pos : Pos.t) (d : Doors.t) : Prop :=
  leadsTo g pos (0, -1) (Doors.top d) /\
  leadsTo g pos (1, 0) (Doors.right d) /\
  leadsTo g pos (0, 1) (Doors.bottom d) /\
  leadsTo g pos (-1, 0) (Doors.left d).

(** The other end of a connection of room [i]. *)
Definition otherEnd (i : Z) (conn : Z * Z) : Z :=
  if fst conn =? i then snd conn else fst conn.

(** How [makeRoom] builds the room [r] of the placed position [pos]. *)
Definition MadeFrom (numRooms : Z) (itemsPerRoom : ItemsPerRoom) (g : Placement.t)
    (pos : Pos.t) (r : Room.t) : Prop :=
  exists roomSeed size doors,
    0 <= roomSeed < 1000000 /\ In size ROOM_VARIANTS /\ doorsOf g pos = Some doors /\
    let isBoss := Pos.id pos =? numRooms - 1 in
    let layoutData := generateRoomLayout (Size.w size) (Size.h size) roomSeed doors isBoss in
    let st := fst (roomItems size isBoss (itemsPerRoom (Some (Pos.id pos)))
                             (Layout.reachable layoutData) (roomSeed + 999)) in
    Room.id r = Pos.id pos /\ Room.x r = Pos.x pos /\ Room.y r = Pos.y pos /\
    Room.width r = Size.w size /\ Room.height r = Size.h size /\
    Room.doors r = doors /\ Room.seed r = roomSeed /\
    Room.type r = (if isBoss then boss else normal) /\
    Layout.grid (Room.layout r) = Layout.grid layoutData /\
    Room.items r = fst st /\ Room.cleared r = false.

(** The tiles reached from the centre tile by steps in the four
    directions onto floor tiles inside the grid. *)
Inductive reachableFromCentre (width height : Z) (grid : Grid) : Pt -> Prop :=
| reach_centre : reachableFromCentre width height grid (midX width, midY height)
| reach_step : forall c d,
    reachableFromCentre width height grid c ->
    In d floodDirs ->
    0 <= fst c + fst d < width -> 0 <= snd c + snd d < height ->
    isFloorAt grid (fst c + fst d) (snd c + snd d) = true ->
    reachableFromCentre width height grid (fst c + fst d, snd c + snd d).

(** The tile an item lies on. *)
Definition itemTile (it : Item.t) : Pt := (Item.x it / TILE_SIZE, Item.y it / TILE_SIZE).

(** The tiles of a [width] x [height] grid and those the flood fill has
    not marked. *)
Definition allTiles (width height : Z) : list Pt := list_prod (upto width) (upto height).

Definition unvisited (width height : Z) (visited : list Pt) : nat :=
  length (filter (fun p => negb (has visited p)) (allTiles width height)).

(** The number of key tokens a node holds, and a world map holds. *)
Definition keysOf (b : Node.t) : nat := length (filter isKey (Node.specialItems b)).

Definition keyTokens (m : list Node.t) : nat := list_sum (map keysOf m).

(** What the distribution of the special items keeps true. *)
Record WorldInv (bs : list Node.t) : Prop := {
  wi_ids : map Node.id bs = [0; 1; 2; 3; 4; 5; 6; 7; HIDDEN_BUILDING_ID];
  wi_keys : keyTokens bs = 1%nat;
  wi_hid : forall b, In b bs -> Node.hidden b = true -> Node.id b = HIDDEN_BUILDING_ID;
  wi_hidden : forall b, In b bs ->
    Node.id b = HIDDEN_BUILDING_ID -> Node.specialItems b = [];
  wi_key : forall b, In b bs -> In key (Node.specialItems b) ->
    Node.column b < len columnsConfig - 1 /\ Node.hidden b = false /\
    Node.id b <> HIDDEN_BUILDING_ID }.

(** The rule of the design document for the side of the boss exit: the
    first of top, right, bottom, left that no normal door uses (left when
    all four are used). *)
Definition priorityBossDir (d : Doors.t) : DoorHit :=
  if negb (notNull (Doors.top d)) then hitTop
  else if negb (notNull (Doors.right d)) then hitRight
  else if negb (notNull (Doors.bottom d)) then hitBottom
  else hitLeft.

(** The player's centre is in the strip along a wall in which
    [checkDoorCollision] looks for the door of that side. *)
Definition inDoorZone (side : DoorHit) (room : Room.t) (x y : Q) : bool :=
  let cx := (x + 16)%Q in
  let cy := (y + 16)%Q in
  match side with
  | hitTop => Qltb cy Q48
  | hitBottom => Qltb ((inject_Z (Room.height room) - 1) * Q48) cy
  | hitLeft => Qltb cx Q48
  | hitRight => Qltb ((inject_Z (Room.width room) - 1) * Q48) cx
  | hitBoss => false
  end.

(** The checks of one generated building, by evaluation. *)
Definition roomCheck (ob : option Building.t) (roomId : Z) (check : Room.t -> bool) : bool :=
  match ob with
  | Some b => match findRoom b roomId with Some r => check r | None => false end
  | None => false
  end.

Definition RoomType_eqb (a b : RoomType) : bool :=
  match a, b with
  | normal, normal | boss, boss => true
  | _, _ => false
  end.

(** The spawn loop of [setupRoom] has a cell to stop on: a cell of the
    sampled range that passes its test. *)
Definition hasSpawnCell (room : Room.t) (player : Player.t) : Prop :=
  exists gx gy,
    2 <= gx <= Room.width room - 2 /\ 2 <= gy <= Room.height room - 2 /\
    validSpawn room player gx gy = Some true.

(** The test of the flood fill on the tile [n]: inside the grid and floor. *)
Definition openTile (width height : Z) (grid : Grid) (n : Pt) : Prop :=
  0 <= fst n < width /\ 0 <= snd n < height /\ isFloorAt grid (fst n) (snd n) = true.

Definition stepTo (c d : Pt) : Pt := (fst c + fst d, snd c + snd d).

(** What the inner loop of the flood fill keeps: [done] are the tiles
    already taken from the queue, [st] the queue and the visited set. *)
Definition Tracked (done : list Pt) (st : list Pt * list Pt) : Prop :=
  (forall p, In p (snd st) <-> In p (fst st) \/ In p done) /\ NoDup (done ++ fst st).

(** What the outer loop of the flood fill keeps. *)
Record FloodInv (width height : Z) (grid : Grid) (queue visited reachable : list Pt) : Prop := {
  fi_tracked : Tracked reachable (queue, visited);
  fi_start : In (midX width, midY height) visited;
  fi_closed : forall c d, In c reachable -> In d floodDirs ->
                          openTile width height grid (stepTo c d) ->
                          In (stepTo c d) visited }.

(** The side of the next room on which [transitionRoom] puts the player
    is the one facing the door [d] of the room left. *)
Definition opposite (d : DoorHit) : DoorHit :=
  match d with
  | hitTop => hitBottom
  | hitBottom => hitTop
  | hitLeft => hitRight
  | hitRight => hitLeft
  | hitBoss => hitBoss
  end.

(** The step on the building grid through the door [d]. *)
Definition offset (d : DoorHit) : Pt :=
  match d with
  | hitTop => (0, -1)
  | hitRight => (1, 0)
  | hitBottom => (0, 1)
  | hitLeft => (-1, 0)
  | hitBoss => (0, 0)
  end.

(** The types of the special items among [items], in order, and the
    random consumables among them. *)
Definition specialTypes (items : list Item.t) : list ItemType :=
  map Item.type (filter (fun i => negb (Item.isUnlimited i)) items).

Definition consumables (items : list Item.t) : list Item.t :=
  filter Item.isUnlimited items.

(** What the distribution loop keeps: [m] is empty outside the rooms
    [ids], and holds the items [placed], each once. *)
Definition Assigned (ids : list Z) (m : ItemsPerRoom) (placed : list ItemType) : Prop :=
  (forall k, (forall id, In id ids -> k <> Some id) -> m k = []) /\
  forall all, NoDup all -> incl ids all ->
              Permutation (flat_map (fun id => m (Some id)) all) placed.

(** The special items of a node that come from the shuffled pool. *)
Definition poolItems (b : Node.t) : list ItemType :=
  filter (fun t => negb (isKey t)) (Node.specialItems b).

(** The fields of a node that the distribution of the items leaves alone. *)
Definition nodeFrame (b : Node.t) : Z * Z * Z * Theme * bool * bool * bool :=
  (Node.id b, Node.column b, Node.level b, Node.theme b,
   Node.cleared b, Node.locked b, Node.hidden b).

(** An axis as the keyboard sets it. *)
Definition unitAxis (v : Q) : Prop := (v == -1 \/ v == 0 \/ v == 1)%Q.

(** Every tile inside the bounds of the room is there: [grid[y][x]] is
    never [undefined]. *)
Definition gridTotal (r : Room.t) : Prop :=
  forall gx gy, 0 <= gx < Room.width r -> 0 <= gy < Room.height r ->
    tileAt (Layout.grid (Room.layout r)) gx gy <> None.

(** Every room has its grid, and every door leads to a room of the
    building. *)
Definition BuildingOK (b : Building.t) : Prop :=
  forall r, In r (Building.rooms b) ->
    gridTotal r /\
    forall dir v, doorOf dir (Room.doors r) = Some v -> In v (map Room.id (Building.rooms b)).

Definition Bounded (st : Stats.t) : Prop :=
  Stats.hp st <= Stats.maxHp st /\ Stats.mp st <= Stats.maxMp st.

(** The screens on which the player is alive: the game, the map and the
    message after the first building. *)
Definition inPlay (st : GameState) : bool :=
  match st with
  | PLAYING | MAP | MESSAGE => true
  | _ => false
  end.

(** The ids of the nodes of every world map. *)
Definition nodeIds : list Z := [0; 1; 2; 3; 4; 5; 6; 7; HIDDEN_BUILDING_ID].

(** The session is inside a building that is in good order. *)
Record Core (s : Session.t) : Prop := {
  ok_bounded : Bounded (Session.playerStats s);
  ok_alive : inPlay (Session.gameState s) = true -> 1 <= Stats.hp (Session.playerStats s);
  ok_building : exists b, Game.building (Session.g s) = Some b /\ BuildingOK b /\
                          In (Session.activeRoomId s) (map Room.id (Building.rooms b));
  ok_node : exists n, findNode (Session.worldMap s) (Session.currentBuildingId s) = Some n;
  ok_columns : Forall (fun n => -1 <= Node.column n) (Session.worldMap s);
  ok_ids : map Node.id (Session.worldMap s) = nodeIds;
  ok_char : In (Session.selectedChar s) CHARACTERS }.

Definition EnemiesAlive (es : list Enemy.t) : Prop := Forall (fun e => 1 <= Enemy.hp e) es.

Definition SessionOK (s : Session.t) : Prop :=
  Core s /\ EnemiesAlive (Game.enemies (Session.g s)).

(** The fields that [Core] reads. *)
Definition coreView (s : Session.t)
  : Stats.t * GameState * option Building.t * Z * list Node.t * Z * Character.t :=
  (Session.playerStats s, Session.gameState s, Game.building (Session.g s),
   Session.activeRoomId s, Session.worldMap s, Session.currentBuildingId s,
   Session.selectedChar s).

(** A change of a room that leaves its place in the building alone. *)
Definition Cosmetic (f : Room.t -> Room.t) : Prop :=
  forall r, Room.id (f r) = Room.id r /\ Room.width (f r) = Room.width r /\
            Room.height (f r) = Room.height r /\ Room.layout (f r) = Room.layout r /\
            Room.doors (f r) = Room.doors r /\ Room.type (f r) = Room.type r.

(** What holds of the application between two events. *)
Record AppOK (app : App.t) : Prop := {
  ao_bounded : Bounded (Session.playerStats (App.session app));
  ao_char : In (Session.selectedChar (App.session app)) CHARACTERS;
  ao_cur : In (Session.currentBuildingId (App.session app)) nodeIds;
  ao_map : inPlay (Session.gameState (App.session app)) = true ->
           map Node.id (Session.worldMap (App.session app)) = nodeIds /\
           Forall (fun n => -1 <= Node.column n) (Session.worldMap (App.session app)) /\
           1 <= Stats.hp (Session.playerStats (App.session app));
  ao_playing : Session.gameState (App.session app) = PLAYING -> SessionOK (App.session app) }.

(** An enemy as [setupRoom] spawns it in [room] for the difficulty [d]:
    on the corner of a tile that [checkWallCollision] lets pass, more
    than 150 pixels from the player. *)
Record Spawned (room : Room.t) (player : Player.t) (d : Z) (e : Enemy.t) : Prop := {
  sp_hp : Enemy.hp e = 2 + d;
  sp_maxHp : Enemy.maxHp e = 2 + d;
  sp_state : Enemy.state e = CHASE;
  sp_speed : Enemy.speed e = ((1 + inject_Z d * (1 # 4)) * (6 # 5))%Q;
  sp_cell : exists gx gy, Enemy.x e = inject_Z (gx * TILE_SIZE) /\
                          Enemy.y e = inject_Z (gy * TILE_SIZE);
  sp_free : checkWallCollision (Enemy.x e) (Enemy.y e) room = Some false;
  sp_far : distGt (Enemy.x e) (Enemy.y e) (Player.x player) (Player.y player) 150 = true }.

(** The rooms in which [setupRoom] spawns nobody. *)
Definition quietRoom (b : Building.t) (room : Room.t) (difficulty : Z) : bool :=
  Room.cleared room || isBossRoomType (Room.type room)
  || ((Room.id room =? Building.startRoomId b) && (difficulty =? 0)).
(** What a step of a frame leaves alone: the world map, the building
    entered and the stats of the closure; and no key is lost. *)
Definition Steady (s s' : Session.t) : Prop :=
  Session.worldMap s' = Session.worldMap s /\
  Session.currentBuildingId s' = Session.currentBuildingId s /\
  Session.seenStats s' = Session.seenStats s /\
  Stats.keys (Session.playerStats s) <= Stats.keys (Session.playerStats s').
(** What the world map has to show for itself: a building is cleared
    only if it was open and shown; a building past the first column is
    open only if a building of the column before is cleared; the hidden
    building is open or shown only if building 0 is cleared and the
    player holds a key; and the building that is played is open and
    shown. *)
Record Earned (s : Session.t) : Prop := {
  er_ids : NoDup (map Node.id (Session.worldMap s));
  er_cleared : forall n, In n (Session.worldMap s) -> Node.cleared n = true ->
               Node.locked n = false /\ Node.hidden n = false;
  er_unlocked : forall n, In n (Session.worldMap s) ->
               Node.id n <> HIDDEN_BUILDING_ID -> Node.locked n = false ->
               Node.column n = 0 \/
               exists c, In c (Session.worldMap s) /\ Node.cleared c = true /\
                         Node.column c + 1 = Node.column n;
  er_hidden : forall n, In n (Session.worldMap s) -> Node.id n = HIDDEN_BUILDING_ID ->
               Node.locked n = false \/ Node.hidden n = false ->
               (exists c, In c (Session.worldMap s) /\ Node.id c = 0 /\
                          Node.cleared c = true) /\
               1 <= Stats.keys (Session.playerStats s);
  er_seen : Stats.keys (Session.seenStats s) <= Stats.keys (Session.playerStats s);
  er_playing : Session.gameState s = PLAYING ->
               exists n, findNode (Session.worldMap s) (Session.currentBuildingId s) = Some n /\
                         Node.locked n = false /\ Node.hidden n = false }.

(** What [completeLevel] makes of a node: [cur] is the building
    completed, [nextCol] the column after it, and [reveal] tells that
    the hidden building is revealed. *)
Definition completedNode (cur nextCol : Z) (reveal : bool) (b : Node.t) : Node.t :=
  let b1 := if Node.id b =? cur then setClearedNode b
            else if (Node.column b =? nextCol) && negb (Node.id b =? HIDDEN_BUILDING_ID)
                 then unlockNode (Node.hidden b) b
                 else b in
  if reveal && (Node.id b =? HIDDEN_BUILDING_ID) then unlockNode false b1 else b1.
(** Two states of a room with the same walls. *)
Definition sameWalls (r r' : Room.t) : Prop :=
  Room.width r' = Room.width r /\ Room.height r' = Room.height r /\
  Room.layout r' = Room.layout r /\ Room.doors r' = Room.doors r /\
  Room.type r' = Room.type r.

(** The enemies stand where [checkWallCollision] finds no wall. *)
Definition Clear (room : Room.t) (es : list Enemy.t) : Prop :=
  Forall (fun e => checkWallCollision (Enemy.x e) (Enemy.y e) room = Some false) es.

(** The active room of the session has the walls of [room]. *)
Definition Walls (room : Room.t) (s : Session.t) : Prop :=
  exists b r, Game.building (Session.g s) = Some b /\
              findRoom b (Session.activeRoomId s) = Some r /\ sameWalls room r.

(** No enemy of the active room is in a wall or outside the room. *)
Definition EnemiesFree (s : Session.t) : Prop :=
  exists b room, Game.building (Session.g s) = Some b /\
                 findRoom b (Session.activeRoomId s) = Some room /\
                 Clear room (Game.enemies (Session.g s)).
(** The state of the item phase of a room in good order: the tiles left
    are distinct, the items lie on distinct tiles, and no item lies on a
    tile that is left. *)
Record Spread (st : ItemState) : Prop := {
  sd_pool : NoDup (snd st);
  sd_tiles : NoDup (map itemTile (fst st));
  sd_taken : forall it, In it (fst st) -> ~ In (itemTile it) (snd st) }.

(** In the earlier engine: the player's centre is past the line of the
    wall of [side], where [checkDoorCollision] looks for a door. *)
Definition earlierPastLine (side : DoorHit) (x y : Q) : bool :=
  match side with
  | hitTop => Qltb (y + 16) Q48
  | hitBottom => Qltb (inject_Z ((Earlier.ROOM_HEIGHT - 1) * TILE_SIZE)) (y + 16)
  | hitLeft => Qltb (x + 16) Q48
  | hitRight => Qltb (inject_Z ((Earlier.ROOM_WIDTH - 1) * TILE_SIZE)) (x + 16)
  | hitBoss => false
  end.

(** Where the player can get to in a building.  [enterBuilding] puts the
    player in the start room; from a tile the player gets to a
    neighbouring tile that [checkWallCollision] lets pass; and where
    [checkDoorCollision] answers with a door that leads to a room,
    [update] calls [transitionRoom], which puts the player in that
    room. *)
Inductive canReach (b : Building.t) : Z -> Pt -> Prop :=
| reach_start : forall start p,
    findRoom b (Building.startRoomId b) = Some start ->
    canReach b (Building.startRoomId b)
             (tileOf (Player.x (arriveAtStart start p)),
              tileOf (Player.y (arriveAtStart start p)))
| reach_tile : forall i room c d,
    canReach b i c -> findRoom b i = Some room -> In d floodDirs ->
    wallAt (fst c + fst d) (snd c + snd d) room = Some false ->
    canReach b i (fst c + fst d, snd c + snd d)
| reach_door : forall i room c x y dir j next p,
    canReach b i c -> findRoom b i = Some room ->
    tileOf x = fst c -> tileOf y = snd c ->
    checkDoorCollision x y room = Some dir ->
    doorOf dir (Room.doors room) = Some j ->
    findRoom b j = Some next ->
    canReach b j (tileOf (Player.x (arrive dir next p)),
                  tileOf (Player.y (arrive dir next p))).

(** The position of a player whose square is centred on the tile
    [(gx, gy)]. *)
Definition onTile (g : Z) : Q := inject_Z (g * TILE_SIZE + (TILE_SIZE - PLAYER_SIZE) / 2).

(** What [generateBuilding] leaves in a room, as far as walking through
    it goes: one of the four sizes, and the grid of [generateRoomLayout]
    for its doors and its type. *)
Record Laid (r : Room.t) : Prop := {
  ld_size : In {| Size.w := Room.width r; Size.h := Room.height r |} ROOM_VARIANTS;
  ld_grid : exists seed,
    Layout.grid (Room.layout r)
    = fst (genGrid (Room.width r) (Room.height r) (Room.doors r)
                   (isBossRoomType (Room.type r)) seed) }.

(** The tile of the border that [checkWallCollision] opens for the door
    of a side, and for the exit of a boss room. *)
Definition doorTile (dir : DoorHit) (r : Room.t) : Pt :=
  match dir with
  | hitTop => (Room.width r / 2, 0)
  | hitBottom => (Room.width r / 2, Room.height r - 1)
  | hitLeft => (0, Room.height r / 2)
  | hitRight => (Room.width r - 1, Room.height r / 2)
  | hitBoss => (Room.width r / 2 + 2, 0)
  end.

(** Nothing that the player has gained is lost between two values of
    the stats: the score, the keys, the files, the sizes of the two
    bars, the speed and the damage. *)
Definition StatsKept (st st' : Stats.t) : Prop :=
  Stats.score st <= Stats.score st' /\
  Stats.keys st <= Stats.keys st' /\
  Stats.files st <= Stats.files st' /\
  Stats.maxHp st <= Stats.maxHp st' /\
  Stats.maxMp st <= Stats.maxMp st' /\
  Stats.speed st <= Stats.speed st' /\
  Stats.damage st <= Stats.damage st'.

Definition Kept (s s' : Session.t) : Prop :=
  StatsKept (Session.playerStats s) (Session.playerStats s') /\
  Session.highScore s <= Session.highScore s'.

(** The click that begins a new game. *)
Definition beginsGame (e : Event) : bool :=
  match e with ClickEnterIsland _ => true | _ => false end.

(** * Properties *)

(** ** The seeded generator stays in range *)

Lemma lxor_range (n a b : Z) :
  0 <= n -> 0 <= a < 2 ^ n -> 0 <= b < 2 ^ n -> 0 <= Z.lxor a b < 2 ^ n.
Proof.
  intros Hn Ha Hb. split.
  - apply Z.lxor_nonneg. lia.
  - destruct (Z.eq_dec (Z.lxor a b) 0) as [E | E].
    + rewrite E. lia.
    + assert (Hpos : 0 < Z.lxor a b).
      { assert (0 <= Z.lxor a b) by (apply Z.lxor_nonneg; lia). lia. }
      apply Z.log2_lt_pow2; [exact Hpos |].
      pose proof (Z.log2_lxor a b (proj1 Ha) (proj1 Hb)) as Hl.
      assert (Hn0 : 0 < n).
      { destruct (Z.eq_dec n 0) as [-> | Nn]; [| lia].
        assert (a = 0) by (simpl in Ha; lia). assert (b = 0) by (simpl in Hb; lia).
        subst. simpl in E. lia. }
      assert (La : Z.log2 a < n).
      { destruct (Z.eq_dec a 0) as [-> | Na]; [simpl; lia |].
        apply Z.log2_lt_pow2; lia. }
      assert (Lb : Z.log2 b < n).
      { destruct (Z.eq_dec b 0) as [-> | Nb]; [simpl; lia |].
        apply Z.log2_lt_pow2; lia. }
      lia.
Qed.

Lemma toUint32_range (z : Z) : 0 <= toUint32 z < two32.
Proof. unfold toUint32, two32. apply Z.mod_pos_bound. lia. Qed.

Lemma shiftr_range (t k : Z) : 0 <= k -> 0 <= t < two32 -> 0 <= Z.shiftr t k < two32.
Proof.
  intros Hk Ht. rewrite Z.shiftr_div_pow2 by exact Hk.
  assert (0 < 2 ^ k) by (apply Z.pow_pos_nonneg; lia).
  split.
  - apply Z.div_pos; lia.
  - apply Z.le_lt_trans with t; [| lia].
    apply Z.div_le_upper_bound; nia.
Qed.

Lemma mulberry32_range (a : Z) : 0 <= fst (mulberry32 a) < two32.
Proof.
  unfold mulberry32. cbv zeta. simpl fst.
  set (t0 := toUint32 _).
  set (t1 := imul _ _).
  set (t2 := Z.lxor t1 _).
  assert (H1 : 0 <= t1 < two32) by (unfold t1, imul; apply toUint32_range).
  assert (H2 : 0 <= t2 < two32).
  { unfold t2. change two32 with (2 ^ 32). apply lxor_range; [lia | exact H1 |].
    apply toUint32_range. }
  change two32 with (2 ^ 32). apply lxor_range; [lia | exact H2 |].
  apply shiftr_range; [lia | exact H2].
Qed.

(** [Math.floor(rng() * k)] is an index below [k]. *)
Lemma scaled_range (n k : Z) : 0 <= n < two32 -> 0 < k -> 0 <= n * k / two32 < k.
Proof.
  intros Hn Hk. split.
  - apply Z.div_pos; [apply Z.mul_nonneg_nonneg; lia | reflexivity].
  - apply Z.div_lt_upper_bound; [reflexivity |].
    apply Z.mul_lt_mono_pos_r; lia.
Qed.

Lemma getSeededInt_range (lo hi a : Z) :
  lo <= hi -> lo <= fst (getSeededInt lo hi a) <= hi.
Proof.
  intros H. unfold getSeededInt, bind, rng, ret.
  destruct (mulberry32 a) as [n a1] eqn:E. simpl.
  pose proof (mulberry32_range a) as R. rewrite E in R. simpl in R.
  pose proof (scaled_range n (hi - lo + 1) R ltac:(lia)). lia.
Qed.

Lemma len_nonneg {A} (l : list A) : 0 <= len l.
Proof. unfold len. lia. Qed.

Lemma index_Some {A} (l : list A) (i : Z) :
  0 <= i < len l -> exists v, index l i = Some v /\ In v l.
Proof.
  intros H. unfold index, len in *.
  destruct (i <? 0) eqn:E; [apply Z.ltb_lt in E; lia |].
  destruct (nth_error l (Z.to_nat i)) as [v |] eqn:N.
  - exists v. split; [reflexivity | eapply nth_error_In; exact N].
  - apply nth_error_None in N. lia.
Qed.

Lemma index_In {A} (l : list A) (i : Z) (v : A) : index l i = Some v -> In v l.
Proof.
  unfold index. destruct (i <? 0); [discriminate |].
  apply nth_error_In.
Qed.

(** ** The grid phase *)

Lemma upto_succ (n : Z) : 0 <= n -> upto (n + 1) = upto n ++ [n].
Proof.
  intros H. unfold upto.
  replace (Z.to_nat (n + 1)) with (Z.to_nat n + 1)%nat by lia.
  rewrite seq_app, map_app. simpl. rewrite Z2Nat.id by exact H. reflexivity.
Qed.

Lemma in_upto (n i : Z) : In i (upto n) <-> 0 <= i < n.
Proof.
  unfold upto. rewrite in_map_iff. split.
  - intros [k [E Hk]]. apply in_seq in Hk. lia.
  - intros H. exists (Z.to_nat i). split; [lia |]. apply in_seq. lia.
Qed.

Lemma occupiedHas_In (occ : list (Pt * Z)) (p : Pt) :
  occupiedHas occ p = true <-> In p (map fst occ).
Proof.
  unfold occupiedHas. rewrite existsb_exists, in_map_iff. split.
  - intros [e [He E]]. exists e. split; [| exact He].
    unfold Pt_eqb in E. apply andb_true_iff in E. destruct E as [E1 E2].
    apply Z.eqb_eq in E1, E2. destruct (fst e), p. simpl in *. congruence.
  - intros [e [E He]]. exists e. split; [exact He |].
    rewrite E. unfold Pt_eqb. rewrite !Z.eqb_refl. reflexivity.
Qed.

Lemma in_setAdd (c d : Z * Z) (s : list (Z * Z)) :
  In d (setAdd c s) <-> d = c \/ In d s.
Proof.
  unfold setAdd. destruct (existsb (link_eqb c) s) eqn:E.
  - split; [auto |]. intros [-> | H]; [| exact H].
    apply existsb_exists in E. destruct E as [e [He E]].
    unfold link_eqb in E. apply andb_true_iff in E. destruct E as [E1 E2].
    apply Z.eqb_eq in E1, E2. destruct c, e. simpl in *. subst. exact He.
  - rewrite in_app_iff. simpl. intuition.
Qed.

Lemma pos_id_range (n : Z) (g : Placement.t) (p : Pos.t) :
  GridInv n g -> In p (Placement.roomPositions g) -> 0 <= Pos.id p < n.
Proof.
  intros I H. apply in_upto. rewrite <- (inv_ids n g I). apply in_map. exact H.
Qed.

Lemma GridInv_grid0 : GridInv 1 grid0.
Proof.
  constructor; simpl.
  - reflexivity.
  - reflexivity.
  - constructor; [simpl; tauto | constructor].
  - intros a b [].
  - intros i H. lia.
Qed.

Lemma NoDup_snoc {A} (l : list A) (v : A) : NoDup l -> ~ In v l -> NoDup (l ++ [v]).
Proof.
  induction l as [| u l IH]; intros Hd Hn; simpl.
  - constructor; [simpl; tauto | constructor].
  - inversion Hd as [| ? ? Hu Hl]; subst. constructor.
    + rewrite in_app_iff. simpl. intros [H | [H | []]]; [tauto |].
      apply Hn. left. symmetry. exact H.
    + apply IH; [exact Hl |]. intros H. apply Hn. right. exact H.
Qed.

(** Putting room [n] on a free cell beside a placed room keeps the
    invariant. *)
Lemma place_inv (n : Z) (g : Placement.t) (parent : Pos.t) (move : Pt) :
  0 <= n -> GridInv n g ->
  In parent (Placement.roomPositions g) -> In move dirs ->
  freeDir (Placement.occupied g) parent move = true ->
  GridInv (n + 1) (place n parent move g).
Proof.
  intros Hn I Hp Hm Hf.
  pose proof (pos_id_range n g parent I Hp) as Hid.
  set (c := (Pos.x parent + fst move, Pos.y parent + snd move)).
  assert (Hfree : ~ In c (map cell (Placement.roomPositions g))).
  { rewrite <- (inv_occ n g I). rewrite <- occupiedHas_In.
    unfold freeDir in Hf. fold c in Hf. destruct (occupiedHas _ c); [discriminate | congruence]. }
  assert (Hl : linkId (Pos.id parent) n = (Pos.id parent, n)).
  { unfold linkId. destruct (Pos.id parent <? n) eqn:E; [reflexivity |].
    apply Z.ltb_ge in E. lia. }
  constructor; unfold place; simpl.
  - rewrite map_app, (inv_ids n g I). simpl. symmetry. apply upto_succ. exact Hn.
  - rewrite !map_app, (inv_occ n g I). reflexivity.
  - rewrite map_app. simpl. apply NoDup_snoc; [exact (inv_nodup n g I) | exact Hfree].
  - intros a b Hab. rewrite Hl in Hab. apply in_setAdd in Hab.
    destruct Hab as [E | Hab].
    + inversion E; subst a b. split; [lia |].
      exists parent, (Pos.Build_t n (Pos.x parent + fst move) (Pos.y parent + snd move)).
      rewrite !in_app_iff. simpl. repeat split; auto.
      exists move. split; [exact Hm | reflexivity].
    + destruct (inv_conn n g I a b Hab) as [Hlt [pa [pb [Ha [Hb [Ea [Eb Hadj]]]]]]].
      split; [exact Hlt |]. exists pa, pb. rewrite !in_app_iff. auto 10.
  - intros i Hi. rewrite Hl.
    destruct (Z.eq_dec i n) as [-> | Ne].
    + exists (Pos.id parent). split; [lia |]. apply in_setAdd. left. reflexivity.
    + destruct (inv_parent n g I i ltac:(lia)) as [p [Hp1 Hp2]].
      exists p. split; [exact Hp1 |]. apply in_setAdd. right. exact Hp2.
Qed.

(** Some placed room has a free neighbouring cell: the cell to the right
    of a room with the largest [x] is free. *)
Lemma max_x_exists (l : list Pos.t) :
  l <> [] -> exists p, In p l /\ forall q, In q l -> Pos.x q <= Pos.x p.
Proof.
  induction l as [| u l IH]; intros Hne; [congruence |].
  destruct l as [| v l'].
  - exists u. split; [left; reflexivity |]. intros q [<- | []]. lia.
  - destruct IH as [p [Hp Hmax]]; [discriminate |].
    destruct (Z_le_gt_dec (Pos.x u) (Pos.x p)) as [Hle | Hgt].
    + exists p. split; [right; exact Hp |].
      intros q [<- | Hq]; [exact Hle | apply Hmax; exact Hq].
    + exists u. split; [left; reflexivity |].
      intros q [<- | Hq]; [lia |]. specialize (Hmax q Hq). lia.
Qed.

Lemma free_parent_exists (n : Z) (g : Placement.t) :
  1 <= n -> GridInv n g ->
  exists parent, In parent (Placement.roomPositions g) /\
                 find (freeDir (Placement.occupied g) parent) dirs <> None.
Proof.
  intros Hn I.
  destruct (max_x_exists (Placement.roomPositions g)) as [p [Hp Hmax]].
  { intros E. pose proof (inv_ids n g I) as Hids. rewrite E in Hids. simpl in Hids.
    assert (In 0 (upto n)) by (apply in_upto; lia). rewrite <- Hids in H. exact H. }
  exists p. split; [exact Hp |]. intros Hnone.
  pose proof (find_none _ _ Hnone (1, 0)) as Hf.
  assert (Hin : In (1, 0) dirs) by (simpl; auto).
  specialize (Hf Hin). unfold freeDir in Hf. apply negb_false_iff in Hf.
  apply occupiedHas_In in Hf. rewrite (inv_occ n g I) in Hf.
  apply in_map_iff in Hf. destruct Hf as [q [Eq Hq]].
  specialize (Hmax q Hq). unfold cell in Eq. simpl in Eq. inversion Eq. lia.
Qed.

(** [placed i g g']: room [i] was put beside a placed room on a free cell. *)
Lemma scanPlace_places (n : Z) (g : Placement.t) (parents : list Pos.t) :
  (forall p, In p parents -> In p (Placement.roomPositions g)) ->
  (exists parent, In parent parents /\
                  find (freeDir (Placement.occupied g) parent) dirs <> None) ->
  exists parent move,
    In parent (Placement.roomPositions g) /\ In move dirs /\
    freeDir (Placement.occupied g) parent move = true /\
    scanPlace n parents g = place n parent move g.
Proof.
  induction parents as [| u rest IH]; intros Hsub [parent [Hin Hfind]].
  - destruct Hin.
  - cbn [scanPlace].
    destruct (find (freeDir (Placement.occupied g) u) dirs) as [valid |] eqn:E.
    + apply find_some in E. destruct E as [Hd Hf].
      exists u, valid.
      split; [apply Hsub; left; reflexivity |].
      split; [exact Hd |]. split; [exact Hf | reflexivity].
    + apply IH.
      * intros p Hp. apply Hsub. right. exact Hp.
      * destruct Hin as [<- | Hin]; [congruence |]. exists parent. auto.
Qed.

Lemma len_roomPositions (n : Z) (g : Placement.t) :
  0 <= n -> GridInv n g -> len (Placement.roomPositions g) = n.
Proof.
  intros Hn I. unfold len.
  rewrite <- (length_map Pos.id), (inv_ids n g I). unfold upto.
  rewrite length_map, length_seq. lia.
Qed.

Lemma tryPlace_ok (k : nat) (n : Z) (g : Placement.t) :
  1 <= n -> GridInv n g ->
  forall a, exists g1 placed a1,
    tryPlace k n g a = Some ((g1, placed), a1) /\
    (placed = false /\ g1 = g \/
     placed = true /\ exists parent move,
       In parent (Placement.roomPositions g) /\ In move dirs /\
       freeDir (Placement.occupied g) parent move = true /\
       g1 = place n parent move g).
Proof.
  intros Hn I. induction k as [| k IH]; intros a.
  - exists g, false, a. split; [reflexivity | left; auto].
  - cbn [tryPlace]. unfold bindB at 1. unfold lift at 1.
    pose proof (len_roomPositions n g ltac:(lia) I) as Hlen.
    pose proof (getSeededInt_range 0 (len (Placement.roomPositions g) - 1) a ltac:(lia)) as R.
    destruct (getSeededInt 0 (len (Placement.roomPositions g) - 1) a) as [parentId a1].
    simpl in R.
    destruct (index_Some (Placement.roomPositions g) parentId ltac:(lia)) as [parent [Ep Hp]].
    unfold bindB at 1. rewrite Ep. cbn [orThrow retB].
    set (validDirs := filter (freeDir (Placement.occupied g) parent) dirs).
    destruct (len validDirs >? 0) eqn:Ev.
    + apply Z.gtb_lt in Ev.
      unfold bindB at 1. unfold lift at 1.
      pose proof (getSeededInt_range 0 (len validDirs - 1) a1 ltac:(lia)) as R2.
      destruct (getSeededInt 0 (len validDirs - 1) a1) as [j a2]. simpl in R2.
      destruct (index_Some validDirs j ltac:(lia)) as [move [Em Hm]].
      unfold bindB. rewrite Em. cbn [orThrow retB].
      exists (place n parent move g), true, a2. split; [reflexivity |].
      right. split; [reflexivity |]. exists parent, move.
      unfold validDirs in Hm. apply filter_In in Hm. destruct Hm as [Hd Hf].
      auto.
    + apply IH.
Qed.

Lemma placeRoom_ok (n : Z) (g : Placement.t) :
  1 <= n -> GridInv n g ->
  forall a, exists g1 a1, placeRoom g n a = Some (g1, a1) /\ GridInv (n + 1) g1.
Proof.
  intros Hn I a. unfold placeRoom, bindB.
  destruct (tryPlace_ok 50 n g Hn I a) as [g1 [placed [a1 [E H]]]].
  rewrite E. destruct H as [[-> ->] | [-> [parent [move [Hp [Hm [Hf ->]]]]]]].
  - destruct (scanPlace_places n g (Placement.roomPositions g)) as [parent [move [Hp [Hm [Hf Es]]]]].
    + auto.
    + apply (free_parent_exists n g Hn I).
    + exists (scanPlace n (Placement.roomPositions g) g), a1.
      split; [reflexivity |]. rewrite Es. apply place_inv; auto; lia.
  - exists (place n parent move g), a1. split; [reflexivity |].
    apply place_inv; auto; lia.
Qed.

Lemma foldB_placeRoom_ok (k : nat) :
  forall (s : nat) (g : Placement.t) (a : Z),
    GridInv (1 + Z.of_nat s) g ->
    exists g1 a1,
      foldB placeRoom (map (Z.add 1) (map Z.of_nat (seq s k))) g a = Some (g1, a1) /\
      GridInv (1 + Z.of_nat s + Z.of_nat k) g1.
Proof.
  induction k as [| k IH]; intros s g a I.
  - exists g, a. split; [reflexivity |]. replace (1 + Z.of_nat s + Z.of_nat 0) with (1 + Z.of_nat s) by lia.
    exact I.
  - cbn [seq map foldB]. unfold bindB.
    destruct (placeRoom_ok (1 + Z.of_nat s) g ltac:(lia) I a) as [g1 [a1 [E I1]]].
    rewrite E.
    replace (1 + Z.of_nat s + 1) with (1 + Z.of_nat (S s)) in I1 by lia.
    destruct (IH (S s) g1 a1 I1) as [g2 [a2 [E2 I2]]].
    exists g2, a2. split; [exact E2 |].
    replace (1 + Z.of_nat s + Z.of_nat (S k)) with (1 + Z.of_nat (S s) + Z.of_nat k) by lia.
    exact I2.
Qed.

(** The grid phase never throws and places every room. *)
Lemma gridPhase_ok (numRooms a : Z) :
  2 <= numRooms ->
  exists g a1, gridPhase numRooms a = Some (g, a1) /\ GridInv numRooms g.
Proof.
  intros H. unfold gridPhase, upto.
  destruct (foldB_placeRoom_ok (Z.to_nat (numRooms - 1)) 0 grid0 a GridInv_grid0)
    as [g [a1 [E I]]].
  exists g, a1. split; [exact E |].
  replace (1 + Z.of_nat 0 + Z.of_nat (Z.to_nat (numRooms - 1))) with numRooms in I by lia.
  exact I.
Qed.

(** ** The doors of a room *)

(** Decides the integer comparisons of a goal by linear arithmetic. *)
Ltac cmp_lia :=
  repeat match goal with
  | |- context [?a >? ?b] => rewrite (Z.gtb_ltb a b)
  | |- context [?a <? ?b] =>
      first [ rewrite (proj2 (Z.ltb_lt a b)) by lia
            | rewrite (proj2 (Z.ltb_ge a b)) by lia ]
  end.


Lemma map_inj_In {A B} (f : A -> B) (l : list A) (u v : A) :
  NoDup (map f l) -> In u l -> In v l -> f u = f v -> u = v.
Proof.
  induction l as [| e l IH]; intros Hd Hu Hv E; [destruct Hu |].
  simpl in Hd. inversion Hd as [| ? ? Hn Hl]; subst.
  destruct Hu as [-> | Hu], Hv as [-> | Hv].
  - reflexivity.
  - exfalso. apply Hn. rewrite E. apply in_map. exact Hv.
  - exfalso. apply Hn. rewrite <- E. apply in_map. exact Hu.
  - apply IH; assumption.
Qed.

Lemma NoDup_upto (n : Z) : NoDup (upto n).
Proof.
  unfold upto. apply Injective_map_NoDup.
  - intros u v E. lia.
  - apply seq_NoDup.
Qed.

Lemma id_inj (n : Z) (g : Placement.t) (p q : Pos.t) :
  GridInv n g -> In p (Placement.roomPositions g) -> In q (Placement.roomPositions g) ->
  Pos.id p = Pos.id q -> p = q.
Proof.
  intros I. apply map_inj_In. rewrite (inv_ids n g I). apply NoDup_upto.
Qed.

Lemma cell_inj (n : Z) (g : Placement.t) (p q : Pos.t) :
  GridInv n g -> In p (Placement.roomPositions g) -> In q (Placement.roomPositions g) ->
  cell p = cell q -> p = q.
Proof.
  intros I. apply map_inj_In. exact (inv_nodup n g I).
Qed.

Lemma find_id (n : Z) (g : Placement.t) (q : Pos.t) :
  GridInv n g -> In q (Placement.roomPositions g) ->
  find (fun p => Pos.id p =? Pos.id q) (Placement.roomPositions g) = Some q.
Proof.
  intros I Hq.
  destruct (find (fun p => Pos.id p =? Pos.id q) (Placement.roomPositions g)) as [r |] eqn:E.
  - apply find_some in E. destruct E as [Hr E]. apply Z.eqb_eq in E.
    f_equal. apply (id_inj n g r q I Hr Hq E).
  - pose proof (find_none _ _ E q Hq) as H. simpl in H. rewrite Z.eqb_refl in H. discriminate.
Qed.

Lemma dirs_opp (m : Pt) : In m dirs -> In (- fst m, - snd m) dirs.
Proof.
  simpl. intros [<- | [<- | [<- | [<- | []]]]]; simpl; auto.
Qed.

(** A connection of the room [pos] has its other end beside [pos]. *)
Lemma conn_towards (n : Z) (g : Placement.t) (pos : Pos.t) (conn : Z * Z) :
  GridInv n g -> In pos (Placement.roomPositions g) ->
  In conn (Placement.connections g) ->
  fst conn = Pos.id pos \/ snd conn = Pos.id pos ->
  exists q, In q (Placement.roomPositions g) /\ Pos.id q = otherEnd (Pos.id pos) conn /\
            Pos.id q <> Pos.id pos /\ towards pos q /\
            find (fun i => negb (i =? Pos.id pos)) [fst conn; snd conn] = Some (Pos.id q) /\
            conn = linkId (Pos.id pos) (Pos.id q).
Proof.
  intros I Hpos Hc Hend. destruct conn as [a b].
  destruct (inv_conn n g I a b Hc) as [Hlt [pa [pb [Ha [Hb [Ea [Eb [m [Hm Hadj]]]]]]]]].
  simpl in Hend. unfold otherEnd. simpl fst. simpl snd.
  destruct Hend as [E | E].
  - assert (pa = pos) by (apply (id_inj n g); auto; congruence). subst pa.
    exists pb. subst a. rewrite Z.eqb_refl.
    assert (Eb' : (b =? Pos.id pos) = false) by (apply Z.eqb_neq; lia).
    split; [exact Hb |]. split; [exact Eb |]. split; [lia |].
    split; [exists m; split; [exact Hm | exact Hadj] |].
    split; [cbn [find]; rewrite Z.eqb_refl, Eb'; simpl; congruence |].
    unfold linkId. rewrite Eb. cmp_lia. reflexivity.
  - assert (pb = pos) by (apply (id_inj n g); auto; congruence). subst pb.
    exists pa. destruct (a =? Pos.id pos) eqn:Ea'; [apply Z.eqb_eq in Ea'; lia |].
    split; [exact Ha |]. split; [exact Ea |]. split; [lia |].
    split.
    + exists (- fst m, - snd m). split; [apply dirs_opp; exact Hm |].
      unfold cell in *. inversion Hadj as [[Hx Hy]]. simpl in *. f_equal; lia.
    + split; [cbn [find]; rewrite Ea'; simpl; congruence |].
      unfold linkId. rewrite Ea. subst b. cmp_lia. reflexivity.
Qed.

Lemma linkDoor_ok (n : Z) (g : Placement.t) (pos : Pos.t) (d : Doors.t) (conn : Z * Z) :
  GridInv n g -> In pos (Placement.roomPositions g) ->
  In conn (Placement.connections g) ->
  fst conn = Pos.id pos \/ snd conn = Pos.id pos ->
  DoorsOK g pos d ->
  exists d1,
    linkDoor (Placement.roomPositions g) pos d conn = Some d1 /\
    DoorsOK g pos d1 /\
    (forall o, In (Some o) (doorList d) -> In (Some o) (doorList d1)) /\
    In (Some (otherEnd (Pos.id pos) conn)) (doorList d1).
Proof.
  intros I Hpos Hc Hend [Ht [Hr [Hb Hl]]].
  destruct (conn_towards n g pos conn I Hpos Hc Hend) as [q [Hq [Eq [Hne [[m [Hm Hcell]] [Hfind Hlink]]]]]].
  unfold linkDoor. rewrite Hfind, (find_id n g q I Hq). rewrite <- Eq.
  assert (Hsame : forall q1, In q1 (Placement.roomPositions g) ->
                             cell q1 = (Pos.x pos + fst m, Pos.y pos + snd m) ->
                             Pos.id q1 = Pos.id q).
  { intros q1 H1 E1. f_equal. apply (cell_inj n g q1 q I H1 Hq). congruence. }
  assert (Hx : Pos.x q = Pos.x pos + fst m) by (unfold cell in Hcell; congruence).
  assert (Hy : Pos.y q = Pos.y pos + snd m) by (unfold cell in Hcell; congruence).
  destruct d as [dt dr db dl]. unfold doorList in *. cbn [Doors.top Doors.right Doors.bottom Doors.left] in *.
  simpl in Hm. destruct Hm as [<- | [<- | [<- | [<- | []]]]]; simpl in Hx, Hy, Hsame.
  - (* the other room is above *)
    cmp_lia. eexists. split; [reflexivity |]. unfold setTop. simpl. split; [| split].
    + repeat split; auto. intros v Ev. inversion Ev; subst v. exists q.
      rewrite <- Hlink. repeat split; auto.
    + intros o [E | [E | [E | [E | []]]]]; auto.
      left. destruct (Ht o E) as [q1 [H1 [E1 [C1 _]]]]. rewrite <- E1. f_equal. symmetry. apply Hsame; auto.
    + auto.
  - (* on the right *)
    cmp_lia. eexists. split; [reflexivity |]. unfold setRight. simpl. split; [| split].
    + repeat split; auto. intros v Ev. inversion Ev; subst v. exists q.
      rewrite <- Hlink. repeat split; auto.
    + intros o [E | [E | [E | [E | []]]]]; auto.
      right. left. destruct (Hr o E) as [q1 [H1 [E1 [C1 _]]]]. rewrite <- E1. f_equal. symmetry. apply Hsame; auto.
    + auto.
  - (* below *)
    cmp_lia. eexists. split; [reflexivity |]. unfold setBottom. simpl. split; [| split].
    + repeat split; auto. intros v Ev. inversion Ev; subst v. exists q.
      rewrite <- Hlink. repeat split; auto.
    + intros o [E | [E | [E | [E | []]]]]; auto.
      right. right. left. destruct (Hb o E) as [q1 [H1 [E1 [C1 _]]]]. rewrite <- E1. f_equal.
      symmetry. apply Hsame; auto.
    + auto.
  - (* on the left *)
    cmp_lia. eexists. split; [reflexivity |]. unfold setLeft. simpl. split; [| split].
    + repeat split; auto. intros v Ev. inversion Ev; subst v. exists q.
      rewrite <- Hlink. repeat split; auto.
    + intros o [E | [E | [E | [E | []]]]]; auto 6.
      right. right. right. left. destruct (Hl o E) as [q1 [H1 [E1 [C1 _]]]]. rewrite <- E1. f_equal.
      symmetry. apply Hsame; auto.
    + auto 6.
Qed.

Lemma DoorsOK_noDoors (g : Placement.t) (pos : Pos.t) :
  DoorsOK g pos noDoors.
Proof. repeat split; intros v E; discriminate. Qed.

Lemma foldO_linkDoor_ok (n : Z) (g : Placement.t) (pos : Pos.t) (conns : list (Z * Z)) :
  GridInv n g -> In pos (Placement.roomPositions g) ->
  forall d,
    (forall c, In c conns -> In c (Placement.connections g) /\
                             (fst c = Pos.id pos \/ snd c = Pos.id pos)) ->
    DoorsOK g pos d ->
    exists d1,
      foldO (linkDoor (Placement.roomPositions g) pos) conns d = Some d1 /\
      DoorsOK g pos d1 /\
      (forall o, In (Some o) (doorList d) -> In (Some o) (doorList d1)) /\
      (forall c, In c conns -> In (Some (otherEnd (Pos.id pos) c)) (doorList d1)).
Proof.
  intros I Hpos. induction conns as [| c conns IH]; intros d Hall Hok.
  - exists d. simpl. split; [reflexivity |]. split; [exact Hok |].
    split; [auto |]. intros c [].
  - destruct (Hall c (or_introl eq_refl)) as [Hc Hend].
    destruct (linkDoor_ok n g pos d c I Hpos Hc Hend Hok) as [d1 [E1 [Hok1 [Hmono1 Hin1]]]].
    destruct (IH d1) as [d2 [E2 [Hok2 [Hmono2 Hin2]]]].
    + intros c' Hc'. apply Hall. right. exact Hc'.
    + exact Hok1.
    + exists d2. cbn [foldO]. rewrite E1. split; [exact E2 |]. split; [exact Hok2 |].
      split; [auto |]. intros c' [<- | Hc']; auto.
Qed.

(** Every connection of a room shows as one of its doors. *)
Lemma doorsOf_ok (n : Z) (g : Placement.t) (pos : Pos.t) :
  GridInv n g -> In pos (Placement.roomPositions g) ->
  exists d, doorsOf g pos = Some d /\
    DoorsOK g pos d /\
    forall c, In c (Placement.connections g) ->
              fst c = Pos.id pos \/ snd c = Pos.id pos ->
              In (Some (otherEnd (Pos.id pos) c)) (doorList d).
Proof.
  intros I Hpos. unfold doorsOf.
  set (mine := fun c : Z * Z => (fst c =? Pos.id pos) || (snd c =? Pos.id pos)).
  assert (Hmine : forall c, mine c = true <-> fst c = Pos.id pos \/ snd c = Pos.id pos).
  { intros c. unfold mine. rewrite orb_true_iff, !Z.eqb_eq. tauto. }
  destruct (foldO_linkDoor_ok n g pos (filter mine (Placement.connections g)) I Hpos noDoors)
    as [d [E [Hok [_ Hin]]]].
  - intros c Hc. apply filter_In in Hc. destruct Hc as [Hc Hm]. split; [exact Hc |].
    apply Hmine. exact Hm.
  - apply DoorsOK_noDoors.
  - exists d. split; [exact E |]. split; [exact Hok |].
    intros c Hc Hend. apply Hin. apply filter_In. split; [exact Hc |].
    apply Hmine. exact Hend.
Qed.

(** ** Rooms *)

Lemma forEachB_ok {A B} (f : A -> Build B) (P : A -> B -> Prop) (l : list A) :
  (forall v, In v l -> forall a, exists r a1, f v a = Some (r, a1) /\ P v r) ->
  forall a, exists rs a1, forEachB f l a = Some (rs, a1) /\ Forall2 P l rs.
Proof.
  induction l as [| v l IH]; intros H a.
  - exists [], a. split; [reflexivity | constructor].
  - destruct (H v (or_introl eq_refl) a) as [r [a1 [E Hr]]].
    destruct (IH (fun u Hu => H u (or_intror Hu)) a1) as [rs [a2 [E2 Hrs]]].
    exists (r :: rs), a2. cbn [forEachB]. unfold bindB. rewrite E, E2.
    split; [reflexivity | constructor; assumption].
Qed.

Lemma makeRoom_ok (numRooms : Z) (itemsPerRoom : ItemsPerRoom) (g : Placement.t) (pos : Pos.t) :
  GridInv numRooms g -> In pos (Placement.roomPositions g) ->
  forall a, exists r a1,
    makeRoom numRooms itemsPerRoom g pos a = Some (r, a1) /\
    MadeFrom numRooms itemsPerRoom g pos r.
Proof.
  intros I Hpos a. unfold makeRoom.
  unfold bindB at 1. unfold lift at 1. unfold rng.
  pose proof (mulberry32_range a) as Rs.
  destruct (mulberry32 a) as [s a1]. simpl in Rs.
  unfold bindB at 1. unfold lift at 1.
  pose proof (getSeededInt_range 0 (len ROOM_VARIANTS - 1) a1 ltac:(unfold len; simpl; lia)) as Rk.
  destruct (getSeededInt 0 (len ROOM_VARIANTS - 1) a1) as [k a2]. simpl fst in Rk.
  destruct (index_Some ROOM_VARIANTS k ltac:(lia)) as [size [Esz Hsz]].
  unfold bindB at 1. rewrite Esz. cbn [orThrow retB].
  destruct (doorsOf_ok numRooms g pos I Hpos) as [doors [Ed _]].
  unfold bindB at 1. rewrite Ed. cbn [orThrow retB].
  unfold bindB, lift.
  destruct (getSeededInt 1 5 a2) as [s1 a3].
  destruct (getSeededInt 1 5 a3) as [s2 a4].
  destruct (getSeededInt 1 5 a4) as [s3 a5].
  destruct (getSeededInt 1 5 a5) as [s4 a6].
  eexists. eexists. split; [reflexivity |].
  exists (s * 1000000 / two32), size, doors.
  split; [apply scaled_range; [exact Rs | lia] |].
  split; [exact Hsz |]. split; [exact Ed |].
  cbv zeta. simpl. repeat split; reflexivity.
Qed.

Lemma numRoomsOf_ge2 (difficulty : Z) : 2 <= numRoomsOf difficulty.
Proof. unfold numRoomsOf. lia. Qed.

(** [generateBuilding] never throws; its rooms are made from the placed
    positions of a grid that satisfies the invariant. *)
Lemma generateBuilding_ok (buildingId difficulty : Z) (theme : Theme) (rootSeed : Z)
    (assignedSpecialItems : list ItemType) :
  exists b g itemsPerRoom,
    generateBuilding buildingId difficulty theme rootSeed assignedSpecialItems = Some b /\
    GridInv (numRoomsOf difficulty) g /\
    Forall2 (MadeFrom (numRoomsOf difficulty) itemsPerRoom g)
            (Placement.roomPositions g) (Building.rooms b) /\
    Building.startRoomId b = 0 /\ Building.theme b = theme.
Proof.
  unfold generateBuilding. cbv zeta.
  set (n := numRoomsOf difficulty).
  destruct (gridPhase_ok n (rootSeed + buildingId * 777) (numRoomsOf_ge2 difficulty))
    as [g [a1 [Eg I]]].
  unfold bindB at 1. rewrite Eg.
  unfold bindB at 1. unfold lift at 1.
  destruct (distribute (roomIdsForItems n (Placement.roomPositions g)) assignedSpecialItems a1)
    as [ipr a2].
  destruct (forEachB_ok (makeRoom n ipr g) (MadeFrom n ipr g) (Placement.roomPositions g)
              (fun v Hv => makeRoom_ok n ipr g v I Hv) a2) as [rooms [a3 [Er Hr]]].
  unfold bindB. rewrite Er. cbn [retB].
  eexists. exists g, ipr. split; [reflexivity |]. simpl. auto.
Qed.

Lemma Forall2_In_l {A B} (P : A -> B -> Prop) (l : list A) (m : list B) (u : A) :
  Forall2 P l m -> In u l -> exists v, In v m /\ P u v.
Proof.
  induction 1 as [| e f l m Hef Hlm IH]; intros Hu; [destruct Hu |].
  destruct Hu as [<- | Hu].
  - exists f. split; [left; reflexivity | exact Hef].
  - destruct (IH Hu) as [v [Hv Pv]]. exists v. split; [right; exact Hv | exact Pv].
Qed.

Lemma Forall2_In_r {A B} (P : A -> B -> Prop) (l : list A) (m : list B) (v : B) :
  Forall2 P l m -> In v m -> exists u, In u l /\ P u v.
Proof.
  induction 1 as [| e f l m Hef Hlm IH]; intros Hv; [destruct Hv |].
  destruct Hv as [<- | Hv].
  - exists e. split; [left; reflexivity | exact Hef].
  - destruct (IH Hv) as [u [Hu Pu]]. exists u. split; [right; exact Hu | exact Pu].
Qed.

Lemma walk_connectedTo (b : Building.t) (i j : Z) : walk b i j -> connectedTo b i j.
Proof.
  induction 1 as [| j k Hw IH Hs]; [constructor |].
  apply conn_link with j; [exact IH | left; exact Hs].
Qed.

(** Every placed id is reached from room 0: room [i] hangs on a parent
    with a smaller id, whose door leads to it. *)
Lemma walk_to_id (n : Z) (g : Placement.t) (itemsPerRoom : ItemsPerRoom) (b : Building.t) :
  GridInv n g ->
  Forall2 (MadeFrom n itemsPerRoom g) (Placement.roomPositions g) (Building.rooms b) ->
  forall (k : nat) (i : Z), 0 <= i < n -> i < Z.of_nat k -> walk b 0 i.
Proof.
  intros I F. induction k as [| k IH]; intros i Hi Hk; [lia |].
  destruct (Z.eq_dec i 0) as [-> | Hne]; [constructor |].
  destruct (inv_parent n g I i ltac:(lia)) as [p [Hp Hc]].
  apply walk_door with p; [apply IH; lia |].
  assert (Hin : In p (map Pos.id (Placement.roomPositions g))).
  { rewrite (inv_ids n g I). apply in_upto. lia. }
  apply in_map_iff in Hin. destruct Hin as [pos [Eid Hpos]].
  destruct (Forall2_In_l _ _ _ pos F Hpos) as [r [Hr M]].
  destruct M as [roomSeed [size [doors [_ [_ [Ed M]]]]]]. cbv zeta in M.
  destruct M as [Rid [_ [_ [_ [_ [Rd _]]]]]].
  destruct (doorsOf_ok n g pos I Hpos) as [d [Ed' [_ Hd]]].
  rewrite Ed in Ed'. inversion Ed'; subst d.
  exists r. split; [exact Hr |]. split; [congruence |].
  rewrite Rd. specialize (Hd (p, i) Hc (or_introl (eq_sym Eid))).
  unfold otherEnd in Hd. simpl in Hd. rewrite Eid, Z.eqb_refl in Hd. exact Hd.
Qed.

(** C2.  Whatever the difficulty, the seed and the assigned items,
    [generateBuilding] returns a building, and every room of it is
    reached from the start room (room 0) by walking through doors; so the
    undirected graph of the door links is connected. *)
Theorem generateBuilding_connected :
  forall (buildingId difficulty : Z) (theme : Theme) (rootSeed : Z)
         (assignedSpecialItems : list ItemType),
  exists b,
    generateBuilding buildingId difficulty theme rootSeed assignedSpecialItems = Some b /\
    Building.startRoomId b = 0 /\
    forall r, In r (Building.rooms b) ->
      walk b (Building.startRoomId b) (Room.id r) /\
      connectedTo b (Building.startRoomId b) (Room.id r).
Proof.
  intros buildingId difficulty theme rootSeed items.
  destruct (generateBuilding_ok buildingId difficulty theme rootSeed items)
    as [b [g [ipr [E [I [F [Hs _]]]]]]].
  exists b. split; [exact E |]. split; [exact Hs |].
  intros r Hr. rewrite Hs.
  assert (W : walk b 0 (Room.id r)).
  { destruct (Forall2_In_r _ _ _ r F Hr) as [pos [Hpos M]].
    destruct M as [roomSeed [size [doors [_ [_ [_ M]]]]]]. cbv zeta in M.
    destruct M as [Rid _]. rewrite Rid.
    pose proof (pos_id_range _ g pos I Hpos) as R.
    apply (walk_to_id _ g ipr b I F (S (Z.to_nat (Pos.id pos)))); lia. }
  split; [exact W | apply walk_connectedTo; exact W].
Qed.

(** ** The flood fill *)

Section FloodProps.
Variables (width height : Z) (grid : Grid).

Lemma visitNeighbour_sound (curr : Pt) (st : list Pt * list Pt) (d : Pt) :
  reachableFromCentre width height grid curr -> In d floodDirs ->
  (forall p, In p (fst st) -> reachableFromCentre width height grid p) ->
  forall p, In p (fst (visitNeighbour width height grid curr st d)) -> reachableFromCentre width height grid p.
Proof.
  intros Hc Hd Hq p. unfold visitNeighbour. destruct st as [queue visited].
  destruct (_ && _) eqn:E; simpl; [| apply Hq].
  rewrite in_app_iff. intros [H | [<- | []]]; [apply Hq; exact H |].
  rewrite !andb_true_iff in E. destruct E as [[[[[E1 E2] E3] E4] E5] E6].
  apply reach_step; auto; lia.
Qed.

Lemma fold_visit_sound (curr : Pt) (ds : list Pt) :
  reachableFromCentre width height grid curr -> (forall d, In d ds -> In d floodDirs) ->
  forall st, (forall p, In p (fst st) -> reachableFromCentre width height grid p) ->
  forall p, In p (fst (fold_left (visitNeighbour width height grid curr) ds st)) -> reachableFromCentre width height grid p.
Proof.
  intros Hc. induction ds as [| d ds IH]; intros Hds st Hst; [exact Hst |].
  simpl. apply IH.
  - intros e He. apply Hds. right. exact He.
  - apply visitNeighbour_sound; auto. apply Hds. left. reflexivity.
Qed.

(** Whatever the flood fill returns was reached from the centre. *)
Lemma floodLoop_sound (fuel : nat) :
  forall queue visited reachable r,
    (forall p, In p queue -> reachableFromCentre width height grid p) -> (forall p, In p reachable -> reachableFromCentre width height grid p) ->
    floodLoop width height grid fuel queue visited reachable = Some r ->
    forall p, In p r -> reachableFromCentre width height grid p.
Proof.
  induction fuel as [| fuel IH]; intros queue visited reachable r Hq Hr E.
  - destruct queue; simpl in E; [| discriminate]. inversion E; subst. exact Hr.
  - destruct queue as [| curr rest]; cbn [floodLoop] in E.
    + inversion E; subst. exact Hr.
    + destruct (fold_left _ floodDirs (rest, visited)) as [queue1 visited1] eqn:F.
      apply (IH queue1 visited1 (reachable ++ [curr]) r); [| | exact E].
      * intros p Hp.
        apply (fold_visit_sound curr floodDirs (Hq curr (or_introl eq_refl))
                 (fun d H => H) (rest, visited)).
        -- intros q Hq'. apply Hq. right. exact Hq'.
        -- rewrite F. exact Hp.
      * intros p Hp. apply in_app_iff in Hp. destruct Hp as [Hp | [<- | []]].
        -- apply Hr. exact Hp.
        -- apply Hq. left. reflexivity.
Qed.

Lemma floodFill_sound (r : list Pt) :
  floodFill width height grid = Some r -> forall p, In p r -> reachableFromCentre width height grid p.
Proof.
  unfold floodFill. apply floodLoop_sound.
  - intros p [<- | []]. constructor.
  - intros p [].
Qed.

(** Termination: each tile enters the queue at most once. *)

Lemma in_allTiles (p : Pt) :
  In p (allTiles width height) <-> 0 <= fst p < width /\ 0 <= snd p < height.
Proof.
  destruct p as [u v]. unfold allTiles. simpl.
  pose proof (in_prod_iff (upto width) (upto height) u v) as H.
  rewrite !in_upto in H. exact H.
Qed.

Lemma filter_length_lt {A} (f g : A -> bool) (l : list A) (v : A) :
  (forall u, f u = true -> g u = true) -> In v l -> f v = false -> g v = true ->
  (S (length (filter f l)) <= length (filter g l))%nat.
Proof.
  intros Hfg. induction l as [| u l IH]; intros Hv Hf Hg; [destruct Hv |].
  assert (Hle : forall m : list A, (length (filter f m) <= length (filter g m))%nat).
  { induction m as [| e m IHm]; simpl; [lia |].
    destruct (f e) eqn:Fe.
    - rewrite (Hfg e Fe). simpl. lia.
    - destruct (g e); simpl; lia. }
  simpl. destruct Hv as [-> | Hv].
  - rewrite Hf, Hg. simpl. specialize (Hle l). lia.
  - specialize (IH Hv Hf Hg). destruct (f u) eqn:Fu.
    + rewrite (Hfg u Fu). simpl. lia.
    + destruct (g u); simpl; lia.
Qed.

Lemma Pt_eqb_refl (p : Pt) : Pt_eqb p p = true.
Proof. unfold Pt_eqb. rewrite !Z.eqb_refl. reflexivity. Qed.

Lemma visitNeighbour_measure (curr : Pt) (st : list Pt * list Pt) (d : Pt) :
  let st1 := visitNeighbour width height grid curr st d in
  (length (fst st1) + unvisited width height (snd st1)
   <= length (fst st) + unvisited width height (snd st))%nat.
Proof.
  unfold visitNeighbour. destruct st as [queue visited].
  destruct (_ && _) eqn:E; simpl; [| lia].
  rewrite !andb_true_iff in E. destruct E as [[[[[E1 E2] E3] E4] E5] E6].
  rewrite length_app. simpl. unfold unvisited.
  set (n := (fst curr + fst d, snd curr + snd d)) in *.
  pose proof (filter_length_lt
                (fun p => negb (has (n :: visited) p)) (fun p => negb (has visited p))
                (allTiles width height) n) as H.
  assert (S (length (filter (fun p => negb (has (n :: visited) p)) (allTiles width height)))
          <= length (filter (fun p => negb (has visited p)) (allTiles width height)))%nat.
  { apply H.
    - intros u Hu. simpl in Hu. rewrite negb_orb in Hu. apply andb_true_iff in Hu. tauto.
    - apply in_allTiles. unfold n. simpl. lia.
    - simpl. rewrite Pt_eqb_refl. reflexivity.
    - exact E6. }
  lia.
Qed.

Lemma fold_visit_measure (curr : Pt) (ds : list Pt) :
  forall st,
    let st1 := fold_left (visitNeighbour width height grid curr) ds st in
    (length (fst st1) + unvisited width height (snd st1)
     <= length (fst st) + unvisited width height (snd st))%nat.
Proof.
  induction ds as [| d ds IH]; intros st; simpl; [lia |].
  specialize (IH (visitNeighbour width height grid curr st d)). simpl in IH.
  pose proof (visitNeighbour_measure curr st d) as H. simpl in H. lia.
Qed.

Lemma floodLoop_total (fuel : nat) :
  forall queue visited reachable,
    (length queue + unvisited width height visited <= fuel)%nat ->
    floodLoop width height grid fuel queue visited reachable <> None.
Proof.
  induction fuel as [| fuel IH]; intros queue visited reachable H.
  - destruct queue; simpl in *; [discriminate | lia].
  - destruct queue as [| curr rest]; cbn [floodLoop]; [discriminate |].
    destruct (fold_left _ floodDirs (rest, visited)) as [queue1 visited1] eqn:F.
    apply IH.
    pose proof (fold_visit_measure curr floodDirs (rest, visited)) as M.
    cbv zeta in M. rewrite F in M. cbn [fst snd length] in M, H. lia.
Qed.

Lemma length_allTiles : (length (allTiles width height) <= Z.to_nat (width * height))%nat.
Proof.
  pose proof (length_prod (upto width) (upto height)) as L.
  unfold allTiles, Pt. rewrite L. clear L.
  unfold upto. rewrite !length_map, !length_seq.
  destruct (Z_lt_le_dec width 0) as [Hw | Hw].
  - replace (Z.to_nat width) with 0%nat by lia. simpl. lia.
  - destruct (Z_lt_le_dec height 0) as [Hh | Hh].
    + replace (Z.to_nat height) with 0%nat by lia. lia.
    + rewrite Z2Nat.inj_mul by lia. lia.
Qed.

(** The fuel of [floodFill] is never spent. *)
Lemma floodFill_total : floodFill width height grid <> None.
Proof.
  unfold floodFill, floodFuel. apply floodLoop_total. simpl.
  pose proof length_allTiles as L.
  assert (unvisited width height [(midX width, midY height)] <= length (allTiles width height))%nat.
  { unfold unvisited. apply filter_length_le. }
  lia.
Qed.

End FloodProps.

(** ** The tile grid *)

Lemma forEachM_spec {A B} (f : A -> Gen B) (l : list A) :
  forall a, Forall2 (fun v r => exists a0, r = fst (f v a0)) l (fst (forEachM f l a)).
Proof.
  induction l as [| v l IH]; intros a; cbn [forEachM]; unfold bind, ret.
  - constructor.
  - destruct (f v a) as [r a1] eqn:E.
    specialize (IH a1). destruct (forEachM f l a1) as [rs a2]. simpl in *.
    constructor; [| exact IH]. exists a. rewrite E. reflexivity.
Qed.

Lemma Forall2_nth_error {A B} (P : A -> B -> Prop) (l : list A) (m : list B) :
  Forall2 P l m ->
  forall i v, nth_error l i = Some v -> exists u, nth_error m i = Some u /\ P v u.
Proof.
  induction 1 as [| e f l m Hef Hlm IH]; intros i v Hv.
  - destruct i; discriminate.
  - destruct i as [| i]; simpl in *.
    + inversion Hv; subst. exists f. auto.
    + apply IH. exact Hv.
Qed.

Lemma nth_error_upto (n i : Z) :
  0 <= i < n -> nth_error (upto n) (Z.to_nat i) = Some i.
Proof.
  intros H. unfold upto. rewrite nth_error_map, nth_error_seq.
  destruct (Nat.ltb_spec (Z.to_nat i) (Z.to_nat n)); [| lia].
  simpl. f_equal. lia.
Qed.

(** Every tile of the generated grid is what [genTile] made for its
    coordinates, from some state of the generator. *)
Lemma genGrid_tileAt (width height : Z) (doors : Doors.t) (isBossRoom : bool) (seed u v : Z) :
  0 <= u < width -> 0 <= v < height ->
  exists a0,
    tileAt (fst (genGrid width height doors isBossRoom seed)) u v
    = Some (fst (genTile width height doors isBossRoom v u a0)).
Proof.
  intros Hu Hv. unfold tileAt, Grid.
  replace ((u <? 0) || (v <? 0)) with false
    by (symmetry; apply orb_false_iff; split; apply Z.ltb_ge; lia).
  unfold genGrid.
  destruct (Forall2_nth_error _ _ _
              (forEachM_spec (genRow width height doors isBossRoom) (upto height) seed)
              (Z.to_nat v) v (nth_error_upto height v Hv)) as [row [Erow [a1 Hrow]]].
  rewrite Erow. subst row. unfold genRow.
  destruct (Forall2_nth_error _ _ _
              (forEachM_spec (genTile width height doors isBossRoom v) (upto width) a1)
              (Z.to_nat u) u (nth_error_upto width u Hu)) as [t [Et [a0 Ht]]].
  rewrite Et. exists a0. subst t. reflexivity.
Qed.

Lemma genTile_type (width height : Z) (doors : Doors.t) (isBossRoom : bool) (u v a0 : Z) :
  let t := fst (genTile width height doors isBossRoom v u a0) in
  Tile.x t = u /\ Tile.y t = v /\
  (isBorder width height u v = true -> Tile.type t = wall) /\
  (isBorder width height u v = false -> Tile.type t <> wall) /\
  (isBorder width height u v = false -> isSafe width height doors isBossRoom u v = true ->
   Tile.type t = floor).
Proof.
  unfold genTile.
  destruct (isBorder width height u v); [simpl; repeat split; congruence |].
  destruct (isSafe width height doors isBossRoom u v); [simpl; repeat split; congruence |].
  unfold bind, rng, ret. destruct (mulberry32 a0) as [n a1]. simpl.
  repeat split; try congruence. intros _. destruct (lessThan n 15 100); discriminate.
Qed.

(** The centre tile is a floor tile in a room with an interior. *)
Lemma centre_is_floor (width height : Z) (doors : Doors.t) (isBossRoom : bool) (seed : Z) :
  3 <= width -> 3 <= height ->
  isFloorAt (fst (genGrid width height doors isBossRoom seed)) (midX width) (midY height) = true.
Proof.
  intros Hw Hh. unfold isFloorAt, midX, midY.
  assert (Hx : 1 <= width / 2 < width - 1).
  { split; [apply Z.div_le_lower_bound; lia |].
    apply Z.div_lt_upper_bound; lia. }
  assert (Hy : 1 <= height / 2 < height - 1).
  { split; [apply Z.div_le_lower_bound; lia |].
    apply Z.div_lt_upper_bound; lia. }
  destruct (genGrid_tileAt width height doors isBossRoom seed (width / 2) (height / 2))
    as [a0 E]; [lia | lia |].
  rewrite E.
  destruct (genTile_type width height doors isBossRoom (width / 2) (height / 2) a0)
    as [_ [_ [_ [_ H]]]].
  rewrite H; [reflexivity | |].
  - unfold isBorder. rewrite !orb_false_iff. repeat split; apply Z.eqb_neq; lia.
  - unfold isSafe, midX, midY. rewrite !Z.sub_diag. reflexivity.
Qed.

(** ** Item placement *)

Lemma firstn_incl {A} (n : nat) (l : list A) (v : A) : In v (firstn n l) -> In v l.
Proof.
  intros H. rewrite <- (firstn_skipn n l). apply in_app_iff. left. exact H.
Qed.

Lemma skipn_incl {A} (n : nat) (l : list A) (v : A) : In v (skipn n l) -> In v l.
Proof.
  intros H. rewrite <- (firstn_skipn n l). apply in_app_iff. right. exact H.
Qed.

Lemma splice1_incl {A} (idx : Z) (l : list A) (v : A) : In v (splice1 idx l) -> In v l.
Proof.
  unfold splice1. rewrite in_app_iff. intros [H | H].
  - eapply firstn_incl. exact H.
  - eapply skipn_incl. exact H.
Qed.

Lemma pickItemLocation_sound (pool : list Pt) (a : Z) :
  let r := fst (pickItemLocation pool a) in
  (forall spot, fst r = Some spot -> In spot pool) /\ (forall p, In p (snd r) -> In p pool).
Proof.
  unfold pickItemLocation. destruct (len pool =? 0).
  - simpl. split; [discriminate | auto].
  - unfold bind, ret. destruct (getSeededInt 0 (len pool - 1) a) as [idx a1]. simpl. split.
    + intros spot. apply index_In.
    + intros p. apply splice1_incl.
Qed.

Lemma itemTile_itemOn (id : Z) (ty : ItemType) (spot : Pt) (u : bool) :
  itemTile (itemOn id ty spot u) = spot.
Proof.
  destruct spot as [sx sy]. unfold itemTile, itemOn, TILE_SIZE. simpl. f_equal.
  - symmetry. apply (Z.div_unique_pos _ 48 sx 12); lia.
  - symmetry. apply (Z.div_unique_pos _ 48 sy 12); lia.
Qed.

Lemma centre_div (n : Z) : (n * 48 / 2 + 12) / 48 = n / 2.
Proof.
  replace (n * 48) with (n * 24 * 2) by lia. rewrite Z.div_mul by lia.
  pose proof (Z.div_mod n 2 ltac:(lia)) as D.
  pose proof (Z.mod_pos_bound n 2 ltac:(lia)) as M.
  symmetry. apply (Z.div_unique_pos _ 48 (n / 2) (24 * (n mod 2) + 12)); lia.
Qed.

Lemma itemTile_itemAtCentre (id : Z) (ty : ItemType) (size : Size.t) :
  itemTile (itemAtCentre id ty size) = (midX (Size.w size), midY (Size.h size)).
Proof.
  unfold itemTile, itemAtCentre, TILE_SIZE, midX, midY. simpl.
  rewrite !centre_div. reflexivity.
Qed.

Lemma foldM_inv {A B} (f : A -> B -> Gen A) (P : A -> Prop) :
  (forall acc v a, P acc -> P (fst (f acc v a))) ->
  forall l acc a, P acc -> P (fst (foldM f l acc a)).
Proof.
  intros Hf. induction l as [| v l IH]; intros acc a Hacc; cbn [foldM]; unfold bind, ret.
  - exact Hacc.
  - specialize (Hf acc v a Hacc). destruct (f acc v a) as [acc1 a1]. simpl in Hf.
    apply IH. exact Hf.
Qed.

Section ItemProps.
Variables (size : Size.t) (P : Pt -> Prop).
Hypothesis centreP : P (midX (Size.w size), midY (Size.h size)).

(** Items lie on tiles with property [P], and so does the pool. *)
Definition ItemsOn (st : ItemState) : Prop :=
  (forall it, In it (fst st) -> P (itemTile it)) /\ (forall p, In p (snd st) -> P p).

Lemma placeSpecial_on (st : ItemState) (specialType : ItemType) (a : Z) :
  ItemsOn st -> ItemsOn (fst (placeSpecial size st specialType a)).
Proof.
  intros [Hi Hp]. unfold placeSpecial, bind, ret, rng.
  pose proof (pickItemLocation_sound (snd st) a) as S. cbv zeta in S.
  destruct (pickItemLocation (snd st) a) as [r a1]. simpl in S. destruct S as [S1 S2].
  destruct (mulberry32 a1) as [n a2].
  destruct (fst r) as [spot |] eqn:E; simpl; split.
  - intros it Hit. apply in_app_iff in Hit. destruct Hit as [Hit | [<- | []]]; [auto |].
    rewrite itemTile_itemOn. auto.
  - auto.
  - intros it Hit. apply in_app_iff in Hit. destruct Hit as [Hit | [<- | []]]; [auto |].
    rewrite itemTile_itemAtCentre. exact centreP.
  - auto.
Qed.

Lemma placeConsumable_on (isBoss : bool) (st : ItemState) (a : Z) :
  ItemsOn st -> ItemsOn (fst (placeConsumable isBoss st a)).
Proof.
  intros [Hi Hp]. unfold placeConsumable. destruct isBoss; [split; assumption |].
  unfold bind, ret, rng. destruct (mulberry32 a) as [p a1].
  destruct (lessThan p 3 10); [| split; assumption].
  pose proof (pickItemLocation_sound (snd st) a1) as S. cbv zeta in S.
  destruct (pickItemLocation (snd st) a1) as [r a2]. simpl in S. destruct S as [S1 S2].
  destruct (fst r) as [spot |] eqn:E.
  - destruct (mulberry32 a2) as [rand a3]. destruct (mulberry32 a3) as [n a4]. simpl. split.
    + intros it Hit. apply in_app_iff in Hit. destruct Hit as [Hit | [<- | []]]; [auto |].
      rewrite itemTile_itemOn. auto.
    + auto.
  - simpl. split; auto.
Qed.

Lemma roomItems_on (isBoss : bool) (special : list ItemType) (pool : list Pt) (a : Z) :
  (forall p, In p pool -> P p) ->
  ItemsOn (fst (roomItems size isBoss special pool a)).
Proof.
  intros Hpool. unfold roomItems, bind.
  pose proof (foldM_inv (placeSpecial size) ItemsOn placeSpecial_on special ([], pool) a) as H.
  destruct (foldM (placeSpecial size) special ([], pool) a) as [st a1]. simpl in H.
  apply placeConsumable_on. apply H. split; [intros it [] | exact Hpool].
Qed.

End ItemProps.

Lemma ROOM_VARIANTS_size (size : Size.t) :
  In size ROOM_VARIANTS ->
  In (Size.w size, Size.h size) [(15, 11); (11, 9); (19, 13); (15, 15)].
Proof.
  simpl. intros [<- | [<- | [<- | [<- | []]]]]; simpl; auto.
Qed.

Lemma reachable_is_floor (width height : Z) (doors : Doors.t) (isBossRoom : bool) (seed : Z) (p : Pt) :
  3 <= width -> 3 <= height ->
  reachableFromCentre width height (fst (genGrid width height doors isBossRoom seed)) p ->
  isFloorAt (fst (genGrid width height doors isBossRoom seed)) (fst p) (snd p) = true.
Proof.
  intros Hw Hh R. destruct R as [| c d _ _ _ _ F].
  - apply centre_is_floor; assumption.
  - exact F.
Qed.

(** C3.  Every item that [generateBuilding] places lies on a tile that is
    reached from the centre tile of its room by steps in the four
    directions through floor tiles; the tile is itself a floor tile. *)
Theorem items_on_reachable_tiles :
  forall (buildingId difficulty : Z) (theme : Theme) (rootSeed : Z)
         (assignedSpecialItems : list ItemType),
  exists b,
    generateBuilding buildingId difficulty theme rootSeed assignedSpecialItems = Some b /\
    forall r it, In r (Building.rooms b) -> In it (Room.items r) ->
      reachableFromCentre (Room.width r) (Room.height r) (Layout.grid (Room.layout r))
                          (itemTile it) /\
      isFloorAt (Layout.grid (Room.layout r)) (fst (itemTile it)) (snd (itemTile it)) = true.
Proof.
  intros buildingId difficulty theme rootSeed items.
  destruct (generateBuilding_ok buildingId difficulty theme rootSeed items)
    as [b [g [ipr [E [I [F _]]]]]].
  exists b. split; [exact E |]. intros r it Hr Hit.
  destruct (Forall2_In_r _ _ _ r F Hr) as [pos [Hpos M]].
  destruct M as [roomSeed [size [doors [_ [Hsz [_ M]]]]]]. cbv zeta in M.
  destruct M as [_ [_ [_ [Ew [Eh [_ [_ [_ [Eg [Ei _]]]]]]]]]].
  rewrite Ew, Eh, Eg. unfold generateRoomLayout. cbn [Layout.grid].
  set (isBoss := Pos.id pos =? numRoomsOf difficulty - 1) in *.
  set (G := fst (genGrid (Size.w size) (Size.h size) doors isBoss roomSeed)) in *.
  assert (R : reachableFromCentre (Size.w size) (Size.h size) G (itemTile it)).
  { rewrite Ei in Hit.
    refine (proj1 (roomItems_on size (reachableFromCentre (Size.w size) (Size.h size) G)
                     (reach_centre _ _ _) isBoss _ _ _ _) it Hit).
    intros p Hp. unfold generateRoomLayout in Hp. cbn [Layout.reachable] in Hp. fold G in Hp.
    destruct (floodFill (Size.w size) (Size.h size) G) as [rs |] eqn:Ef; [| destruct Hp].
    apply (floodFill_sound _ _ _ rs Ef). exact Hp. }
  split; [exact R |].
  assert (Hdim : 3 <= Size.w size /\ 3 <= Size.h size).
  { apply ROOM_VARIANTS_size in Hsz. simpl in Hsz.
    destruct Hsz as [H | [H | [H | [H | []]]]]; inversion H; lia. }
  apply (reachable_is_floor _ _ doors isBoss roomSeed); [lia | lia | exact R].
Qed.

(** ** The world map *)

Lemma randomBelow_range (k : Z) (o : Oracle) (c : nat) :
  0 < k -> 0 <= fst (randomBelow k o c) < k.
Proof.
  intros Hk. unfold randomBelow. simpl.
  pose proof (Z.mod_pos_bound (o c) two53 ltac:(reflexivity)) as M.
  split.
  - apply Z.div_pos; [apply Z.mul_nonneg_nonneg; lia | reflexivity].
  - apply Z.div_lt_upper_bound; [reflexivity |].
    apply Z.mul_lt_mono_pos_r; lia.
Qed.

Lemma length_setNth {A} (i : nat) (v : A) (l : list A) : length (setNth i v l) = length l.
Proof.
  revert i. induction l as [| u l IH]; intros i; [destruct i; reflexivity |].
  destruct i; simpl; [reflexivity | rewrite IH; reflexivity].
Qed.

Lemma In_setNth {A} (i : nat) (v : A) (l : list A) (u : A) :
  In u (setNth i v l) -> u = v \/ In u l.
Proof.
  revert i. induction l as [| e l IH]; intros i; [destruct i; simpl; tauto |].
  destruct i; simpl.
  - intros [<- | H]; auto.
  - intros [<- | H]; [auto |]. destruct (IH i H); auto.
Qed.

Lemma map_setNth_same {A B} (f : A -> B) (i : nat) (v u : A) (l : list A) :
  nth_error l i = Some u -> f v = f u -> map f (setNth i v l) = map f l.
Proof.
  revert i. induction l as [| e l IH]; intros i Hn Hf; [destruct i; discriminate |].
  destruct i; simpl in *.
  - inversion Hn; subst. rewrite Hf. reflexivity.
  - rewrite (IH i Hn Hf). reflexivity.
Qed.

Lemma In_swap {A} (i j : nat) (l : list A) (u : A) : In u (swap i j l) -> In u l.
Proof.
  unfold swap. destruct (nth_error l i) as [a |] eqn:Ei; [| auto].
  destruct (nth_error l j) as [b |] eqn:Ej; [| auto].
  intros H. apply In_setNth in H. destruct H as [-> | H].
  - eapply nth_error_In. exact Ei.
  - apply In_setNth in H. destruct H as [-> | H]; [| exact H].
    eapply nth_error_In. exact Ej.
Qed.

Lemma length_swap {A} (i j : nat) (l : list A) : length (swap i j l) = length l.
Proof.
  unfold swap. destruct (nth_error l i); [| reflexivity].
  destruct (nth_error l j); [| reflexivity].
  rewrite !length_setNth. reflexivity.
Qed.

(** The shuffle keeps the length and brings no new token in. *)
Lemma shuffle_spec (i : nat) :
  forall pool o c,
    length (fst (shuffle i pool o c)) = length pool /\
    forall t, In t (fst (shuffle i pool o c)) -> In t pool.
Proof.
  induction i as [| i IH]; intros pool o c.
  - simpl. auto.
  - cbn [shuffle]. unfold bindR.
    destruct (randomBelow (Z.of_nat (S i) + 1) o c) as [j c1].
    destruct (IH (swap (S i) (Z.to_nat j) pool) o c1) as [Hl Hi].
    rewrite length_swap in Hl. split; [exact Hl |].
    intros t Ht. eapply In_swap. apply Hi. exact Ht.
Qed.

Lemma pushItem_fields (t : ItemType) (b : Node.t) :
  Node.id (pushItem t b) = Node.id b /\ Node.column (pushItem t b) = Node.column b /\
  Node.hidden (pushItem t b) = Node.hidden b /\
  Node.specialItems (pushItem t b) = Node.specialItems b ++ [t].
Proof. unfold pushItem. simpl. auto. Qed.

(** Giving a token that is not the key to a node that is not the hidden
    one keeps the invariant. *)
Lemma pushAt_inv (i : nat) (t : ItemType) (bs : list Node.t) (b : Node.t) :
  WorldInv bs -> nth_error bs i = Some b ->
  Node.id b <> HIDDEN_BUILDING_ID -> isKey t = false ->
  WorldInv (pushAt i t bs).
Proof.
  intros W Hn Hid Ht. unfold pushAt. rewrite Hn.
  destruct (pushItem_fields t b) as [Fi [Fc [Fh Fs]]].
  assert (Hb : In b bs) by (eapply nth_error_In; exact Hn).
  constructor.
  - rewrite (map_setNth_same Node.id i _ b bs Hn Fi). exact (wi_ids bs W).
  - unfold keyTokens. rewrite (map_setNth_same keysOf i _ b bs Hn); [exact (wi_keys bs W) |].
    unfold keysOf. rewrite Fs, filter_app. simpl. rewrite Ht, app_nil_r. reflexivity.
  - intros b1 H1 Hh. apply In_setNth in H1. destruct H1 as [-> | H1].
    + rewrite Fi. rewrite Fh in Hh. apply (wi_hid bs W b Hb Hh).
    + apply (wi_hid bs W b1 H1 Hh).
  - intros b1 H1 Hh. apply In_setNth in H1. destruct H1 as [-> | H1].
    + rewrite Fi in Hh. contradiction.
    + apply (wi_hidden bs W b1 H1 Hh).
  - intros b1 H1 Hk. apply In_setNth in H1. destruct H1 as [-> | H1].
    + rewrite Fs in Hk. rewrite Fc, Fh, Fi. apply (wi_key bs W b Hb).
      apply in_app_iff in Hk. destruct Hk as [Hk | [E | []]]; [exact Hk |].
      subst t. simpl in Ht. discriminate.
    + apply (wi_key bs W b1 H1 Hk).
Qed.

(** Proves a property of every element of a list given in full. *)
Ltac check_all tac :=
  let b := fresh "b" in
  let Hb := fresh "Hb" in
  intros b Hb; pattern b; revert b Hb; apply Forall_forall; simpl;
  repeat (apply Forall_cons; [tac |]); apply Forall_nil.

Lemma initial_nodes :
  standardColumns columnsConfig 0 0 ++ [hiddenNode]
  = [ standardNode 0 0 0; standardNode 1 1 0; standardNode 2 1 1; standardNode 3 2 0;
      standardNode 4 2 1; standardNode 5 3 0; standardNode 6 3 1; standardNode 7 4 0;
      hiddenNode ].
Proof. reflexivity. Qed.

(** After the key is placed the invariant holds, whichever candidate the
    oracle picks. *)
Lemma placeKey_inv (o : Oracle) (c : nat) :
  WorldInv (fst (placeKey (standardColumns columnsConfig 0 0 ++ [hiddenNode]) o c)).
Proof.
  rewrite initial_nodes. unfold placeKey.
  set (bs := [standardNode 0 0 0; _; _; _; _; _; _; _; hiddenNode]).
  assert (Hc : keyCandidates bs = [0; 1; 2; 3; 4; 5; 6]%nat) by reflexivity.
  rewrite Hc. change (len [0; 1; 2; 3; 4; 5; 6]%nat) with 7.
  change (7 >? 0) with true. cbv iota. unfold bindR.
  pose proof (randomBelow_range 7 o c ltac:(lia)) as R.
  destruct (randomBelow 7 o c) as [kIdx c1]. simpl in R.
  destruct (index_Some [0; 1; 2; 3; 4; 5; 6]%nat kIdx) as [i [Ei Hi]];
    [unfold len; simpl; lia |].
  rewrite Ei. unfold retR. cbn [fst].
  assert (Hall : forall j, In j [0; 1; 2; 3; 4; 5; 6]%nat -> WorldInv (pushAt j key bs)).
  { clear. intros j Hj. simpl in Hj.
    destruct Hj as [<- | [<- | [<- | [<- | [<- | [<- | [<- | []]]]]]]];
      (constructor;
       [ reflexivity
       | reflexivity
       | unfold bs; check_all ltac:(simpl; congruence)
       | unfold bs; check_all ltac:(simpl; unfold HIDDEN_BUILDING_ID; congruence)
       | unfold bs; check_all ltac:(
           simpl; unfold HIDDEN_BUILDING_ID, len; simpl;
           intros Hk; repeat (destruct Hk as [Hk | Hk]; try discriminate Hk);
           try contradiction; repeat split; try lia; congruence) ]). }
  apply Hall. exact Hi.
Qed.

Lemma ids_nth (i : nat) (v : Z) :
  nth_error [0; 1; 2; 3; 4; 5; 6; 7; HIDDEN_BUILDING_ID] i = Some v ->
  (i < 9)%nat /\ (v = HIDDEN_BUILDING_ID <-> i = 8%nat).
Proof.
  unfold HIDDEN_BUILDING_ID.
  do 9 (destruct i as [| i]; [simpl; intros E; inversion E; subst; split; [lia |];
                              split; intros H; first [discriminate H | lia | reflexivity] |]).
  destruct i; discriminate.
Qed.

(** The round robin ends before its fuel is spent and keeps the
    invariant: the hidden node is skipped, the others take a token. *)
Lemma roundRobin_ok (fuel : nat) :
  forall bs poolRev bIdx,
    WorldInv bs -> (forall t, In t poolRev -> isKey t = false) -> (bIdx < 9)%nat ->
    (2 * length poolRev + (if Nat.eqb bIdx 8 then 1 else 0) <= fuel)%nat ->
    exists bs1, roundRobin fuel bs poolRev bIdx = Some bs1 /\ WorldInv bs1.
Proof.
  induction fuel as [| fuel IH]; intros bs poolRev bIdx W Hp Hb Hf.
  - destruct poolRev; simpl in *; [| lia]. exists bs. auto.
  - destruct poolRev as [| t rest]; [exists bs; auto |].
    cbn [roundRobin].
    assert (Hlen : length bs = 9%nat).
    { rewrite <- (length_map Node.id), (wi_ids bs W). reflexivity. }
    destruct (nth_error bs bIdx) as [b |] eqn:En;
      [| apply nth_error_None in En; lia].
    pose proof (map_nth_error Node.id bIdx bs En) as Em. rewrite (wi_ids bs W) in Em.
    destruct (ids_nth bIdx (Node.id b) Em) as [_ Hid].
    rewrite Hlen.
    assert (Hnext : (S bIdx mod 9 < 9)%nat) by (apply Nat.mod_upper_bound; lia).
    destruct (Node.id b =? HIDDEN_BUILDING_ID) eqn:E; cbn [negb].
    + apply Z.eqb_eq in E. apply Hid in E. subst bIdx.
      apply IH; auto. simpl in Hf |- *. lia.
    + apply Z.eqb_neq in E.
      apply IH.
      * apply (pushAt_inv bIdx t bs b W En E). apply Hp. left. reflexivity.
      * intros u Hu. apply Hp. right. exact Hu.
      * exact Hnext.
      * simpl in Hf. destruct (Nat.eqb (S bIdx mod 9) 8); lia.
Qed.

Lemma initialPool_no_key (t : ItemType) : In t initialPool -> isKey t = false.
Proof.
  simpl. intros H.
  repeat (destruct H as [<- | H]; [reflexivity |]). destruct H.
Qed.

(** C9.  Whatever [Math.random] returns, [generateWorldMap] returns a
    world map with exactly one key token; the node that holds it lies in
    a column strictly before the last one and is not the hidden node, and
    the special-item list of the hidden node is empty. *)
Theorem generateWorldMap_key_placement :
  forall (o : Oracle) (c : nat),
  exists m,
    fst (generateWorldMap o c) = Some m /\
    keyTokens m = 1%nat /\
    (forall b, In b m -> In key (Node.specialItems b) ->
       Node.column b < len columnsConfig - 1 /\ Node.hidden b = false /\
       Node.id b <> HIDDEN_BUILDING_ID) /\
    (forall b, In b m -> Node.hidden b = true \/ Node.id b = HIDDEN_BUILDING_ID ->
       Node.specialItems b = []).
Proof.
  intros o c. unfold generateWorldMap, bindR.
  pose proof (shuffle_spec (length initialPool - 1) initialPool o c) as [Hl Hi].
  destruct (shuffle (length initialPool - 1) initialPool o c) as [pool c1].
  cbn [fst] in Hl, Hi.
  pose proof (placeKey_inv o c1) as W.
  destruct (placeKey (standardColumns columnsConfig 0 0 ++ [hiddenNode]) o c1)
    as [withKey c2].
  cbn [fst] in W. unfold retR. cbn [fst].
  destruct (roundRobin_ok (2 * length pool + 1) withKey (rev pool) 0 W) as [m [E Wm]].
  - intros t Ht. apply in_rev in Ht. apply initialPool_no_key. apply Hi. exact Ht.
  - lia.
  - rewrite length_rev. simpl. lia.
  - exists m. split; [exact E |]. split; [exact (wi_keys m Wm) |].
    split; [exact (wi_key m Wm) |].
    intros b Hb [Hh | Hh].
    + apply (wi_hidden m Wm b Hb). apply (wi_hid m Wm b Hb Hh).
    + apply (wi_hidden m Wm b Hb Hh).
Qed.

(** ** The boss exit *)

Lemma roomCheck_sound (ob : option Building.t) (roomId : Z) (check : Room.t -> bool) :
  roomCheck ob roomId check = true ->
  exists b r, ob = Some b /\ findRoom b roomId = Some r /\ check r = true.
Proof.
  unfold roomCheck. destruct ob as [b |]; [| discriminate].
  destruct (findRoom b roomId) as [r |] eqn:E; [| discriminate].
  intros H. exists b, r. split; [reflexivity |]. split; [exact E | exact H].
Qed.

(** C4, as stated, fails.  In the building of seed 1700000001549, id 6,
    difficulty 3, the boss room (room 7) has its normal door on the top
    wall, so the stated rule puts the boss exit on the right; but with
    the player under the top wall at x = 440 [checkDoorCollision] answers
    [boss]: the exit is on the top wall all the same. *)
Lemma boss_exit_ignores_priority :
  exists b r,
    generateBuilding 6 3 dungeon 1700000001549 [file; pizzaBox] = Some b /\
    findRoom b 7 = Some r /\
    Room.type r = boss /\
    Doors.top (Room.doors r) = Some 1 /\
    priorityBossDir (Room.doors r) = hitRight /\
    checkDoorCollision 440 0 r = Some hitBoss /\
    inDoorZone hitRight r 440 0 = false /\
    inDoorZone hitTop r 440 0 = true.
Proof.
  destruct (roomCheck_sound
              (generateBuilding 6 3 dungeon 1700000001549 [file; pizzaBox]) 7
              (fun r =>
                 RoomType_eqb (Room.type r) boss
                 && key_eqb (Doors.top (Room.doors r)) (Some 1)
                 && DoorHit_eqb (priorityBossDir (Room.doors r)) hitRight
                 && match checkDoorCollision 440 0 r with
                    | Some hit => DoorHit_eqb hit hitBoss
                    | None => false
                    end
                 && negb (inDoorZone hitRight r 440 0)
                 && inDoorZone hitTop r 440 0))
    as [b [r [Eb [Er H]]]]; [vm_compute; reflexivity |].
  exists b, r. split; [exact Eb |]. split; [exact Er |]. clear Eb Er.
  rewrite !andb_true_iff in H. destruct H as [[[[[H1 H2] H3] H4] H5] H6].
  split; [destruct (Room.type r); [discriminate H1 | reflexivity] |].
  split.
  { destruct (Doors.top (Room.doors r)) as [v |]; [| discriminate H2].
    simpl in H2. apply Z.eqb_eq in H2. congruence. }
  split; [destruct (priorityBossDir (Room.doors r)); try discriminate H3; reflexivity |].
  split.
  { destruct (checkDoorCollision 440 0 r) as [hit |]; [| discriminate H4].
    destruct hit; try discriminate H4. reflexivity. }
  split; [apply negb_true_iff; exact H5 | exact H6].
Qed.

Lemma border_is_wall (width height : Z) (doors : Doors.t) (isBossRoom : bool) (seed u v : Z) :
  0 <= u < width -> 0 <= v < height -> isBorder width height u v = true ->
  exists t, tileAt (fst (genGrid width height doors isBossRoom seed)) u v = Some t /\
            Tile.type t = wall.
Proof.
  intros Hu Hv Hb.
  destruct (genGrid_tileAt width height doors isBossRoom seed u v Hu Hv) as [a0 E].
  eexists. split; [exact E |].
  destruct (genTile_type width height doors isBossRoom u v a0) as [_ [_ [H _]]].
  apply H. exact Hb.
Qed.

(** On a wall tile of the border [checkWallCollision] lets pass the
    doors that lead to a room and, in a boss room, the tile
    [(width/2 + 2, 0)]. *)
Lemma wallAt_border (r : Room.t) (gx gy : Z) (t : Tile.t) :
  0 <= gx < Room.width r -> 0 <= gy < Room.height r ->
  tileAt (Layout.grid (Room.layout r)) gx gy = Some t -> Tile.type t = wall ->
  wallAt gx gy r
  = Some (negb ((isBossRoomType (Room.type r) && (gy =? 0) && (gx =? Room.width r / 2 + 2))
                || isDoorTile r gx gy)).
Proof.
  intros Hx Hy Et Ew. unfold wallAt.
  replace ((gy <? 0) || (gy >=? Room.height r) || (gx <? 0) || (gx >=? Room.width r)) with false.
  - rewrite Et, Ew. destruct (isBossRoomType (Room.type r) && (gy =? 0) && (gx =? Room.width r / 2 + 2));
      reflexivity.
  - symmetry. rewrite !orb_false_iff.
    repeat split; first [apply Z.ltb_ge; lia | rewrite Z.geb_leb; apply Z.leb_gt; lia].
Qed.

Lemma checkDoorCollision_boss (x y : Q) (r : Room.t) :
  checkDoorCollision x y r = Some hitBoss -> inDoorZone hitTop r x y = true.
Proof.
  unfold checkDoorCollision, inDoorZone.
  destruct (notNull (Doors.top (Room.doors r)) && _ && _); [discriminate |].
  destruct (notNull (Doors.bottom (Room.doors r)) && _ && _); [discriminate |].
  destruct (notNull (Doors.left (Room.doors r)) && _); [discriminate |].
  destruct (notNull (Doors.right (Room.doors r)) && _); [discriminate |].
  destruct (isBossRoomType (Room.type r)); [| discriminate].
  destruct (Qltb (y + 16) Q48); [reflexivity | discriminate].
Qed.

(** C4, amended.  In every generated building the boss room has one boss
    exit, always on the top wall: the wall tile two columns to the right
    of the middle column, whichever normal doors the room has.  It is not
    the tile of a normal door; on the border of the room
    [checkWallCollision] lets pass this tile and the tiles of the normal
    doors only; and [checkDoorCollision] answers [boss] only with the
    player under the top wall. *)
Theorem boss_exit_on_top_wall :
  forall (buildingId difficulty : Z) (theme : Theme) (rootSeed : Z)
         (assignedSpecialItems : list ItemType),
  exists b,
    generateBuilding buildingId difficulty theme rootSeed assignedSpecialItems = Some b /\
    forall r, In r (Building.rooms b) -> Room.type r = boss ->
      let bossDoorX := Room.width r / 2 + 2 in
      0 <= bossDoorX < Room.width r /\
      wallAt bossDoorX 0 r = Some false /\
      isDoorTile r bossDoorX 0 = false /\
      (forall gx gy,
         0 <= gx < Room.width r -> 0 <= gy < Room.height r ->
         isBorder (Room.width r) (Room.height r) gx gy = true ->
         (wallAt gx gy r = Some false <->
          (gx = bossDoorX /\ gy = 0) \/ isDoorTile r gx gy = true)) /\
      (forall x y, checkDoorCollision x y r = Some hitBoss ->
                   inDoorZone hitTop r x y = true).
Proof.
  intros buildingId difficulty theme rootSeed items.
  destruct (generateBuilding_ok buildingId difficulty theme rootSeed items)
    as [b [g [ipr [E [I [F _]]]]]].
  exists b. split; [exact E |]. intros r Hr Hboss.
  destruct (Forall2_In_r _ _ _ r F Hr) as [pos [Hpos M]].
  destruct M as [roomSeed [size [doors [_ [Hsz [_ M]]]]]]. cbv zeta in M.
  destruct M as [_ [_ [_ [Ew [Eh [Ed [_ [Ety [Eg _]]]]]]]]].
  unfold generateRoomLayout in Eg. cbn [Layout.grid] in Eg.
  assert (Hdim : 9 <= Room.width r /\ 9 <= Room.height r).
  { rewrite Ew, Eh. apply ROOM_VARIANTS_size in Hsz. simpl in Hsz.
    destruct Hsz as [H | [H | [H | [H | []]]]]; inversion H; lia. }
  destruct Hdim as [Hw Hh].
  assert (Hmid : 4 <= Room.width r / 2 /\ Room.width r / 2 + 2 < Room.width r).
  { split; [apply Z.div_le_lower_bound; lia |].
    assert (Room.width r / 2 < Room.width r - 2); [| lia].
    apply Z.div_lt_upper_bound; lia. }
  assert (HmidY : 4 <= Room.height r / 2) by (apply Z.div_le_lower_bound; lia).
  assert (Hb : isBossRoomType (Room.type r) = true) by (rewrite Hboss; reflexivity).
  assert (Hborder : forall gx gy,
            0 <= gx < Room.width r -> 0 <= gy < Room.height r ->
            isBorder (Room.width r) (Room.height r) gx gy = true ->
            wallAt gx gy r
            = Some (negb (((gy =? 0) && (gx =? Room.width r / 2 + 2)) || isDoorTile r gx gy))).
  { intros gx gy Hx Hy Hbd.
    destruct (border_is_wall (Size.w size) (Size.h size) doors
                (Pos.id pos =? numRoomsOf difficulty - 1) roomSeed gx gy)
      as [t [Et Ewall]]; [lia | lia | rewrite <- Ew, <- Eh; exact Hbd |].
    rewrite <- Eg in Et.
    rewrite (wallAt_border r gx gy t Hx Hy Et Ewall), Hb. reflexivity. }
  assert (Hnot : isDoorTile r (Room.width r / 2 + 2) 0 = false).
  { unfold isDoorTile. rewrite !orb_false_iff.
    assert (E1 : (Room.width r / 2 + 2 =? Room.width r / 2) = false) by (apply Z.eqb_neq; lia).
    assert (E2 : (0 =? Room.height r / 2) = false) by (apply Z.eqb_neq; lia).
    assert (E3 : (0 =? Room.height r - 1) = false) by (apply Z.eqb_neq; lia).
    assert (E4 : (Room.width r / 2 + 2 =? 0) = false) by (apply Z.eqb_neq; lia).
    rewrite E1, E2, E3, E4, !andb_false_r. auto. }
  cbv zeta. split; [lia |]. split; [| split; [exact Hnot | split]].
  - rewrite Hborder; [| lia | lia |].
    + rewrite !Z.eqb_refl. reflexivity.
    + unfold isBorder. rewrite Z.eqb_refl, !orb_true_r. reflexivity.
  - intros gx gy Hx Hy Hbd. rewrite (Hborder gx gy Hx Hy Hbd). split.
    + intros H. inversion H as [H1]. apply negb_false_iff, orb_true_iff in H1.
      destruct H1 as [H1 | H1]; [left | right; exact H1].
      apply andb_true_iff in H1. destruct H1 as [H1 H2].
      apply Z.eqb_eq in H1, H2. auto.
    + intros [[-> ->] | H].
      * rewrite !Z.eqb_refl. reflexivity.
      * rewrite H, orb_true_r. reflexivity.
  - intros x y. apply checkDoorCollision_boss.
Qed.

(** In the earlier engine the side of the boss exit does follow the
    priority top, right, bottom, left, and the exit is the middle tile of
    that wall, with no offset. *)
Lemma earlier_bossDir_priority (d : Doors.t) :
  Earlier.bossDir d = priorityBossDir d /\
  (Earlier.bossDir d = hitTop -> Earlier.bossTile d = (Earlier.ROOM_WIDTH / 2, 0)).
Proof.
  split.
  - unfold Earlier.bossDir, priorityBossDir.
    destruct (notNull (Doors.top d)), (notNull (Doors.right d)), (notNull (Doors.bottom d));
      reflexivity.
  - intros H. unfold Earlier.bossTile. rewrite H. reflexivity.
Qed.

(** ** The draws of a layout *)

Lemma land_mask32 (x : Uint63.int) :
  Uint63.to_Z (Uint63.land x mask32) = toUint32 (Uint63.to_Z x).
Proof.
  rewrite Uint63.land_spec'. change (Uint63.to_Z mask32) with (Z.ones 32).
  rewrite Z.land_ones by lia. reflexivity.
Qed.

Lemma mod_wB_mod32 (z : Z) : toUint32 (z mod Uint63.wB) = toUint32 z.
Proof.
  unfold toUint32. apply Z.mod_mod_divide. exists (2 ^ 31). reflexivity.
Qed.

Lemma lsr_shiftr (x k : Uint63.int) :
  Uint63.to_Z (Uint63.lsr x k) = Z.shiftr (Uint63.to_Z x) (Uint63.to_Z k).
Proof.
  rewrite Uint63.lsr_spec, Z.shiftr_div_pow2; [reflexivity |].
  apply Uint63.to_Z_bounded.
Qed.

Lemma mix_spec (t s c : Uint63.int) :
  Uint63.to_Z (Uint63.land (Uint63.mul (Uint63.lxor t (Uint63.lsr t s)) (Uint63.lor t c)) mask32)
  = imul (Z.lxor (Uint63.to_Z t) (Z.shiftr (Uint63.to_Z t) (Uint63.to_Z s)))
         (Z.lor (Uint63.to_Z t) (Uint63.to_Z c)).
Proof.
  rewrite land_mask32, Uint63.mul_spec, mod_wB_mod32.
  rewrite Uint63.lxor_spec', Uint63.lor_spec', lsr_shiftr. reflexivity.
Qed.

(** The machine-integer scrambling computes the draw of [mulberry32]. *)
Lemma draw63_spec (x : Uint63.int) :
  Uint63.to_Z (draw63 x) = fst (mulberry32 (Uint63.to_Z x - increment)).
Proof.
  unfold draw63, mulberry32, increment. cbv zeta. cbn [fst].
  replace (Uint63.to_Z x - 1831565813 + 1831565813) with (Uint63.to_Z x) by lia.
  set (t0 := Uint63.land x mask32).
  assert (E0 : Uint63.to_Z t0 = toUint32 (Uint63.to_Z x)) by apply land_mask32.
  set (t1 := Uint63.land (Uint63.mul (Uint63.lxor t0 (Uint63.lsr t0 i15)) (Uint63.lor t0 i1))
                         mask32).
  assert (E1 : Uint63.to_Z t1
               = imul (Z.lxor (toUint32 (Uint63.to_Z x))
                              (Z.shiftr (toUint32 (Uint63.to_Z x)) 15))
                      (Z.lor (toUint32 (Uint63.to_Z x)) 1)).
  { unfold t1. rewrite mix_spec, E0. reflexivity. }
  set (m := Uint63.land (Uint63.mul (Uint63.lxor t1 (Uint63.lsr t1 i7)) (Uint63.lor t1 i61))
                        mask32).
  assert (Em : Uint63.to_Z m
               = imul (Z.lxor (Uint63.to_Z t1) (Z.shiftr (Uint63.to_Z t1) 7))
                      (Z.lor (Uint63.to_Z t1) 61)).
  { unfold m. rewrite mix_spec. reflexivity. }
  set (t2 := Uint63.lxor t1 (Uint63.land (Uint63.add t1 m) mask32)).
  assert (E2 : Uint63.to_Z t2
               = Z.lxor (Uint63.to_Z t1) (toUint32 (Uint63.to_Z t1 + Uint63.to_Z m))).
  { unfold t2. rewrite Uint63.lxor_spec', land_mask32, Uint63.add_spec, mod_wB_mod32.
    reflexivity. }
  rewrite Uint63.lxor_spec', lsr_shiftr, E2, Em, E1. reflexivity.
Qed.

Lemma allRange_spec (k : nat) :
  forall lo P, allRange k lo P = true ->
  forall z, lo <= z < lo + 2 ^ Z.of_nat k -> P z = true.
Proof.
  induction k as [| k IH]; intros lo P H z Hz.
  - simpl in *. replace z with lo by lia. exact H.
  - cbn [allRange] in H.
    destruct (allRange k lo P) eqn:E1; [| discriminate].
    replace (2 ^ Z.of_nat (S k)) with (2 ^ Z.of_nat k + 2 ^ Z.of_nat k) in Hz.
    + destruct (Z_lt_le_dec z (lo + 2 ^ Z.of_nat k)) as [Hlt | Hge].
      * apply (IH lo P E1). lia.
      * apply (IH (lo + 2 ^ Z.of_nat k) P H). lia.
    + rewrite Nat2Z.inj_succ, Z.pow_succ_r by lia. lia.
Qed.

(** When [anyFloor63] answers yes, one of the draws is not below 0.15. *)
Lemma anyFloor_sound (ks : list Z) (seed : Z) :
  0 <= seed < 2 ^ 20 -> (forall k, In k ks -> 0 <= k <= 1000) ->
  anyFloor (states63 ks) seed = true ->
  exists k, In k ks /\
            lessThan (fst (mulberry32 (seed + increment * (k - 1)))) 15 100 = false.
Proof.
  intros Hs. unfold anyFloor, states63.
  induction ks as [| k ks IH]; intros Hk H; [discriminate |].
  cbn [map anyFloor63] in H.
  destruct (Uint63.ltb _ threshold63) eqn:E.
  - destruct IH as [k1 [H1 H2]]; [intros j Hj; apply Hk; right; exact Hj | exact H |].
    exists k1. split; [right; exact H1 | exact H2].
  - exists k. split; [left; reflexivity |].
    assert (Hlt : ~ Uint63.to_Z (draw63 (Uint63.add (Uint63.of_Z seed)
                                             (Uint63.of_Z (increment * k))))
                    < Uint63.to_Z threshold63).
    { intros C. apply Uint63.ltb_spec in C. congruence. }
    rewrite draw63_spec, Uint63.add_spec, !Uint63.of_Z_spec in Hlt.
    specialize (Hk k (or_introl eq_refl)).
    assert (Hwb : Uint63.wB = 2 ^ 63) by reflexivity.
    unfold increment in *.
    rewrite (Z.mod_small seed), (Z.mod_small (1831565813 * k)) in Hlt by lia.
    rewrite Z.mod_small in Hlt by lia.
    replace (seed + 1831565813 * k - 1831565813) with (seed + 1831565813 * (k - 1)) in Hlt by lia.
    change (Uint63.to_Z threshold63) with 644245095 in Hlt.
    unfold lessThan, two32. apply Z.ltb_ge. lia.
Qed.

(** ** The state of the generator inside a room layout *)

Lemma total_app {A} (cost : A -> Z) (l m : list A) :
  total cost (l ++ m) = total cost l + total cost m.
Proof.
  induction l as [| v l IH]; simpl; [reflexivity | rewrite IH; lia].
Qed.

(** When each step advances the generator by its cost, the loop advances
    it by the total, and the [i]-th step starts after the first [i]. *)
Lemma forEachM_state {A B} (f : A -> Gen B) (cost : A -> Z) :
  (forall v a, snd (f v a) = a + increment * cost v) ->
  forall l a, snd (forEachM f l a) = a + increment * total cost l.
Proof.
  intros Hf. induction l as [| v l IH]; intros a; cbn [forEachM]; unfold bind, ret.
  - unfold total. cbn [snd fold_right]. ring.
  - specialize (Hf v a). destruct (f v a) as [r a1]. cbn [snd] in Hf. subst a1.
    specialize (IH (a + increment * cost v)).
    destruct (forEachM f l (a + increment * cost v)) as [rs a2]. cbn [snd] in *.
    subst a2. unfold total. cbn [fold_right]. ring.
Qed.

Lemma forEachM_nth {A B} (f : A -> Gen B) (cost : A -> Z) :
  (forall v a, snd (f v a) = a + increment * cost v) ->
  forall l a i v, nth_error l i = Some v ->
    nth_error (fst (forEachM f l a)) i
    = Some (fst (f v (a + increment * total cost (firstn i l)))).
Proof.
  intros Hf. induction l as [| w l IH]; intros a i v Hv.
  - destruct i; discriminate.
  - cbn [forEachM]. unfold bind, ret.
    pose proof (Hf w a) as Hw. destruct (f w a) as [r a1] eqn:E. cbn [snd] in Hw. subst a1.
    specialize (IH (a + increment * cost w)).
    destruct (forEachM f l (a + increment * cost w)) as [rs a2]. cbn [fst] in *.
    destruct i as [| i]; cbn [nth_error firstn] in *.
    + inversion Hv; subst. unfold total. cbn [fold_right].
      replace (a + increment * 0) with a by ring. rewrite E. reflexivity.
    + rewrite (IH i v Hv). do 3 f_equal. unfold total. cbn [fold_right]. ring.
Qed.

Lemma genTile_state (width height : Z) (doors : Doors.t) (isBossRoom : bool) (y x a : Z) :
  snd (genTile width height doors isBossRoom y x a)
  = a + increment * tileCost width height doors isBossRoom y x.
Proof.
  unfold genTile, tileCost.
  destruct (isBorder width height x y); [cbn [ret snd]; ring |].
  destruct (isSafe width height doors isBossRoom x y); [cbn [ret snd]; ring |].
  unfold bind, rng, ret, mulberry32, increment. cbn [snd]. ring.
Qed.

Lemma genRow_state (width height : Z) (doors : Doors.t) (isBossRoom : bool) (y a : Z) :
  snd (genRow width height doors isBossRoom y a)
  = a + increment * rowCost width height doors isBossRoom y.
Proof.
  unfold genRow, rowCost. apply forEachM_state. intros v a0. apply genTile_state.
Qed.

(** The tile [(u, v)] of the grid is the one generated after
    [drawsBefore] draws. *)
Lemma genGrid_exact (width height : Z) (doors : Doors.t) (isBossRoom : bool) (seed u v : Z) :
  0 <= u < width -> 0 <= v < height ->
  tileAt (fst (genGrid width height doors isBossRoom seed)) u v
  = Some (fst (genTile width height doors isBossRoom v u
                 (seed + increment * drawsBefore width height doors isBossRoom u v))).
Proof.
  intros Hu Hv. unfold tileAt, Grid.
  replace ((u <? 0) || (v <? 0)) with false
    by (symmetry; apply orb_false_iff; split; apply Z.ltb_ge; lia).
  unfold genGrid.
  rewrite (forEachM_nth _ _ (genRow_state width height doors isBossRoom)
             (upto height) seed (Z.to_nat v) v (nth_error_upto height v Hv)).
  unfold genRow at 1.
  rewrite (forEachM_nth _ _ (fun x a => genTile_state width height doors isBossRoom v x a)
             (upto width) _ (Z.to_nat u) u (nth_error_upto width u Hu)).
  unfold drawsBefore. do 3 f_equal. ring.
Qed.

(** A tile that draws is floor exactly when its draw is not below 0.15. *)
Lemma drawn_tile_floor (width height : Z) (doors : Doors.t) (isBossRoom : bool) (seed u v k : Z) :
  0 <= u < width -> 0 <= v < height ->
  isBorder width height u v = false ->
  drawsBefore width height doors isBossRoom u v = k - 1 ->
  lessThan (fst (mulberry32 (seed + increment * (k - 1)))) 15 100 = false ->
  exists t, tileAt (fst (genGrid width height doors isBossRoom seed)) u v = Some t /\
            Tile.type t = floor.
Proof.
  intros Hu Hv Hb Hk Hd. rewrite genGrid_exact by assumption. rewrite Hk.
  eexists. split; [reflexivity |].
  unfold genTile. rewrite Hb.
  destruct (isSafe width height doors isBossRoom u v); [reflexivity |].
  unfold bind, rng, ret.
  destruct (mulberry32 (seed + increment * (k - 1))) as [n a1]. simpl in *.
  rewrite Hd. reflexivity.
Qed.

Lemma safe_tile_floor (width height : Z) (doors : Doors.t) (isBossRoom : bool) (seed u v : Z) :
  0 <= u < width -> 0 <= v < height ->
  isBorder width height u v = false -> isSafe width height doors isBossRoom u v = true ->
  exists t, tileAt (fst (genGrid width height doors isBossRoom seed)) u v = Some t /\
            Tile.type t = floor.
Proof.
  intros Hu Hv Hb Hs.
  destruct (genGrid_tileAt width height doors isBossRoom seed u v Hu Hv) as [a0 E].
  eexists. split; [exact E |].
  destruct (genTile_type width height doors isBossRoom u v a0) as [_ [_ [_ [_ H]]]].
  apply H; assumption.
Qed.

Lemma tileOf_cell (g : Z) : tileOf (inject_Z (g * TILE_SIZE)) = g.
Proof.
  unfold tileOf, Q48, TILE_SIZE, Qfloor, Qdiv, Qmult, Qplus, Qinv, inject_Z. simpl.
  rewrite !Z.mul_1_r. symmetry. apply Z.div_unique with (r := 16); lia.
Qed.

(** The spawn test passes on a floor tile far enough from the player. *)
Lemma validSpawn_floor (r : Room.t) (player : Player.t) (gx gy : Z) :
  0 <= gx < Room.width r -> 0 <= gy < Room.height r ->
  (exists t, tileAt (Layout.grid (Room.layout r)) gx gy = Some t /\ Tile.type t = floor) ->
  distGt (inject_Z (gx * TILE_SIZE)) (inject_Z (gy * TILE_SIZE))
         (Player.x player) (Player.y player) 150 = true ->
  validSpawn r player gx gy = Some true.
Proof.
  intros Hx Hy [t [Et Ef]] Hd. unfold validSpawn, checkWallCollision.
  rewrite !tileOf_cell. unfold wallAt.
  replace ((gy <? 0) || (gy >=? Room.height r) || (gx <? 0) || (gx >=? Room.width r)) with false.
  - rewrite Et, Ef. simpl. rewrite Hd. reflexivity.
  - symmetry. rewrite !orb_false_iff.
    repeat split; first [apply Z.ltb_ge; lia | rewrite Z.geb_leb; apply Z.leb_gt; lia].
Qed.

(** ** The spawn loop of [setupRoom] *)

Ltac spawn_on gx gy Hw Hh Hg :=
  exists gx, gy; rewrite ?Hw, ?Hh;
  split; [lia |]; split; [lia |];
  apply validSpawn_floor;
  [ rewrite Hw; lia | rewrite Hh; lia
  | rewrite Hg; apply safe_tile_floor;
    [lia | lia | vm_compute; reflexivity | vm_compute; reflexivity]
  | unfold arrive, arriveAtStart, movePlayer; cbn [Player.x Player.y];
    rewrite ?Hw, ?Hh; vm_compute; reflexivity ].

(** Entering through a door, a cell of the centre box on the far side
    passes the spawn test. *)
Lemma door_entry_cell (r : Room.t) (p : Player.t) (direction : DoorHit)
    (doors : Doors.t) (seed : Z) (size : Size.t) :
  In size ROOM_VARIANTS ->
  Room.width r = Size.w size -> Room.height r = Size.h size ->
  Layout.grid (Room.layout r)
  = fst (genGrid (Size.w size) (Size.h size) doors false seed) ->
  direction <> hitBoss ->
  hasSpawnCell r (arrive direction r p).
Proof.
  intros Hs Hw Hh Hg Hd. unfold hasSpawnCell.
  destruct Hs as [<- | [<- | [<- | [<- | []]]]]; cbn [Size.w Size.h] in *;
    destruct direction; try congruence.
  - spawn_on 7 4 Hw Hh Hg.
  - spawn_on 7 6 Hw Hh Hg.
  - spawn_on 6 5 Hw Hh Hg.
  - spawn_on 8 5 Hw Hh Hg.
  - spawn_on 5 3 Hw Hh Hg.
  - spawn_on 5 5 Hw Hh Hg.
  - spawn_on 4 4 Hw Hh Hg.
  - spawn_on 6 4 Hw Hh Hg.
  - spawn_on 9 5 Hw Hh Hg.
  - spawn_on 9 7 Hw Hh Hg.
  - spawn_on 8 6 Hw Hh Hg.
  - spawn_on 10 6 Hw Hh Hg.
  - spawn_on 7 6 Hw Hh Hg.
  - spawn_on 7 8 Hw Hh Hg.
  - spawn_on 6 7 Hw Hh Hg.
  - spawn_on 8 7 Hw Hh Hg.
Qed.

(** In an 11 x 9 room without side doors, whatever the room seed, one of
    the nine cells far from the centre draws a floor tile. *)
Lemma far_cell_drawn_with_top : allRange 20 0 (anyFloor statesWithTop) = true.
Proof. vm_compute. reflexivity. Qed.

Lemma far_cell_drawn_without_top : allRange 20 0 (anyFloor statesWithoutTop) = true.
Proof. vm_compute. reflexivity. Qed.

Lemma far_cell_draw (ks : list Z) (seed : Z) :
  allRange 20 0 (anyFloor (states63 ks)) = true ->
  (forall k, In k ks -> 0 <= k <= 1000) ->
  0 <= seed < 1000000 ->
  exists k, In k ks /\
            lessThan (fst (mulberry32 (seed + increment * (k - 1)))) 15 100 = false.
Proof.
  intros H Hk Hs. apply anyFloor_sound; [change (2 ^ 20) with 1048576; lia | exact Hk |].
  apply (allRange_spec 20 0 _ H). change (2 ^ Z.of_nat 20) with 1048576. lia.
Qed.

Ltac spawn_drawn gx gy k Hw Hh Hg Hk :=
  exists gx, gy; rewrite ?Hw, ?Hh;
  split; [lia |]; split; [lia |];
  apply validSpawn_floor;
  [ rewrite Hw; lia | rewrite Hh; lia
  | rewrite Hg; apply (drawn_tile_floor _ _ _ _ _ _ _ k);
    [lia | lia | vm_compute; reflexivity | vm_compute; reflexivity | exact Hk]
  | unfold arriveAtStart, movePlayer; cbn [Player.x Player.y];
    rewrite ?Hw, ?Hh; vm_compute; reflexivity ].

(** Entering a start room at its centre: when the room has a door, some
    cell passes the spawn test. *)
Lemma centre_entry_cell (r : Room.t) (p : Player.t) (doors : Doors.t) (seed : Z)
    (size : Size.t) :
  In size ROOM_VARIANTS ->
  Room.width r = Size.w size -> Room.height r = Size.h size ->
  Layout.grid (Room.layout r)
  = fst (genGrid (Size.w size) (Size.h size) doors false seed) ->
  0 <= seed < 1000000 ->
  (exists v, In (Some v) (doorList doors)) ->
  hasSpawnCell r (arriveAtStart r p).
Proof.
  intros Hs Hw Hh Hg Hseed [v Hv]. unfold hasSpawnCell.
  destruct doors as [dt dr db dl]. unfold doorList in Hv.
  cbn [Doors.top Doors.right Doors.bottom Doors.left] in Hv.
  destruct dt as [vt |], dr as [vr |], db as [vb |], dl as [vl |];
    try (exfalso; destruct Hv as [E | [E | [E | [E | []]]]]; discriminate); clear Hv;
    destruct Hs as [<- | [<- | [<- | [<- | []]]]]; cbn [Size.w Size.h] in *;
    try (first [ spawn_on 7 2 Hw Hh Hg | spawn_on 13 5 Hw Hh Hg | spawn_on 2 5 Hw Hh Hg
               | spawn_on 7 9 Hw Hh Hg | spawn_on 9 4 Hw Hh Hg | spawn_on 2 4 Hw Hh Hg
               | spawn_on 17 6 Hw Hh Hg | spawn_on 2 6 Hw Hh Hg | spawn_on 9 2 Hw Hh Hg
               | spawn_on 9 11 Hw Hh Hg | spawn_on 2 7 Hw Hh Hg | spawn_on 7 13 Hw Hh Hg
               | spawn_on 13 7 Hw Hh Hg ]; fail).
  - destruct (far_cell_draw drawsWithTop seed far_cell_drawn_with_top) as [k [Hk Hd]];
      [intros k Hk; repeat (destruct Hk as [<- | Hk]; [lia |]); destruct Hk | exact Hseed |].
    unfold drawsWithTop in Hk.
    repeat (destruct Hk as [<- | Hk];
            [first [ spawn_drawn 2 2 10 Hw Hh Hg Hd | spawn_drawn 8 2 15 Hw Hh Hg Hd
                   | spawn_drawn 9 2 16 Hw Hh Hg Hd | spawn_drawn 2 3 18 Hw Hh Hg Hd
                   | spawn_drawn 9 3 22 Hw Hh Hg Hd | spawn_drawn 2 4 24 Hw Hh Hg Hd
                   | spawn_drawn 9 4 28 Hw Hh Hg Hd | spawn_drawn 2 5 30 Hw Hh Hg Hd
                   | spawn_drawn 9 5 34 Hw Hh Hg Hd ] |]).
    destruct Hk.
  - destruct (far_cell_draw drawsWithTop seed far_cell_drawn_with_top) as [k [Hk Hd]];
      [intros k Hk; repeat (destruct Hk as [<- | Hk]; [lia |]); destruct Hk | exact Hseed |].
    unfold drawsWithTop in Hk.
    repeat (destruct Hk as [<- | Hk];
            [first [ spawn_drawn 2 2 10 Hw Hh Hg Hd | spawn_drawn 8 2 15 Hw Hh Hg Hd
                   | spawn_drawn 9 2 16 Hw Hh Hg Hd | spawn_drawn 2 3 18 Hw Hh Hg Hd
                   | spawn_drawn 9 3 22 Hw Hh Hg Hd | spawn_drawn 2 4 24 Hw Hh Hg Hd
                   | spawn_drawn 9 4 28 Hw Hh Hg Hd | spawn_drawn 2 5 30 Hw Hh Hg Hd
                   | spawn_drawn 9 5 34 Hw Hh Hg Hd ] |]).
    destruct Hk.
  - destruct (far_cell_draw drawsWithoutTop seed far_cell_drawn_without_top) as [k [Hk Hd]];
      [intros k Hk; repeat (destruct Hk as [<- | Hk]; [lia |]); destruct Hk | exact Hseed |].
    unfold drawsWithoutTop in Hk.
    repeat (destruct Hk as [<- | Hk];
            [first [ spawn_drawn 2 2 11 Hw Hh Hg Hd | spawn_drawn 8 2 17 Hw Hh Hg Hd
                   | spawn_drawn 9 2 18 Hw Hh Hg Hd | spawn_drawn 2 3 20 Hw Hh Hg Hd
                   | spawn_drawn 9 3 24 Hw Hh Hg Hd | spawn_drawn 2 4 26 Hw Hh Hg Hd
                   | spawn_drawn 9 4 30 Hw Hh Hg Hd | spawn_drawn 2 5 32 Hw Hh Hg Hd
                   | spawn_drawn 9 5 36 Hw Hh Hg Hd ] |]).
    destruct Hk.
Qed.

Lemma start_room_has_door (n : Z) (g : Placement.t) (pos : Pos.t) (d : Doors.t) :
  GridInv n g -> 2 <= n -> In pos (Placement.roomPositions g) -> Pos.id pos = 0 ->
  doorsOf g pos = Some d -> exists v, In (Some v) (doorList d).
Proof.
  intros I Hn Hpos Hid Hd.
  destruct (inv_parent n g I 1 ltac:(lia)) as [q [Hq Hc]].
  assert (q = 0) by lia. subst q.
  destruct (doorsOf_ok n g pos I Hpos) as [d' [Ed [_ Hall]]].
  rewrite Hd in Ed. inversion Ed; subst d'.
  exists (otherEnd (Pos.id pos) (0, 1)). apply Hall; [exact Hc |].
  left. simpl. congruence.
Qed.

(** The layout of a room that is not the boss room. *)
Lemma MadeFrom_normal (n : Z) (ipr : ItemsPerRoom) (g : Placement.t) (pos : Pos.t) (r : Room.t) :
  MadeFrom n ipr g pos r -> Room.type r = normal ->
  exists size doors seed,
    In size ROOM_VARIANTS /\ 0 <= seed < 1000000 /\ doorsOf g pos = Some doors /\
    Room.id r = Pos.id pos /\
    Room.width r = Size.w size /\ Room.height r = Size.h size /\ Room.doors r = doors /\
    Layout.grid (Room.layout r)
    = fst (genGrid (Size.w size) (Size.h size) doors false seed).
Proof.
  intros [seed [size [doors [Hs [Hsz [Hd M]]]]]] Ht. cbv zeta in M.
  destruct M as [Rid [_ [_ [Rw [Rh [Rd [_ [Rt [Rg _]]]]]]]]].
  exists size, doors, seed.
  destruct (Pos.id pos =? n - 1); [congruence |].
  repeat split; try assumption; try lia.
Qed.

(** X1.  The enemy-spawn loop of [setupRoom] has a cell to stop on.  In every
    room of a generated building that is not the boss room, wherever the
    player was put on entering (behind the door it came through, or at
    the centre of the start room), some cell of the sampled range
    [2 .. width-2] x [2 .. height-2] is neither wall nor furniture and
    lies more than 150 px from the player. *)
Theorem spawn_loop_has_exit :
  forall (buildingId difficulty : Z) (theme : Theme) (rootSeed : Z)
         (assignedSpecialItems : list ItemType),
  exists b,
    generateBuilding buildingId difficulty theme rootSeed assignedSpecialItems = Some b /\
    forall r, In r (Building.rooms b) -> Room.type r = normal ->
      forall p : Player.t,
        (forall direction, direction <> hitBoss -> hasSpawnCell r (arrive direction r p)) /\
        (Room.id r = Building.startRoomId b -> hasSpawnCell r (arriveAtStart r p)).
Proof.
  intros buildingId difficulty theme rootSeed items.
  destruct (generateBuilding_ok buildingId difficulty theme rootSeed items)
    as [b [g [ipr [E [I [F [Hs _]]]]]]].
  exists b. split; [exact E |].
  intros r Hr Ht p.
  destruct (Forall2_In_r _ _ _ r F Hr) as [pos [Hpos M]].
  destruct (MadeFrom_normal _ _ _ _ _ M Ht)
    as [size [doors [seed [Hsz [Hseed [Hd [Rid [Rw [Rh [Rd Rg]]]]]]]]]].
  split.
  - intros direction Hdir. exact (door_entry_cell r p direction doors seed size Hsz Rw Rh Rg Hdir).
  - intros Hstart. rewrite Hs in Hstart.
    apply (centre_entry_cell r p doors seed size Hsz Rw Rh Rg Hseed).
    apply (start_room_has_door (numRoomsOf difficulty) g pos doors I
             (numRoomsOf_ge2 difficulty) Hpos); [congruence | exact Hd].
Qed.

(** ** The flood fill returns exactly the reachable tiles *)

Lemma Pt_eqb_eq (p q : Pt) : Pt_eqb p q = true <-> p = q.
Proof.
  unfold Pt_eqb. destruct p as [a b], q as [c d]. simpl.
  rewrite andb_true_iff, !Z.eqb_eq. split; [intros [-> ->]; reflexivity |].
  intros E. inversion E. auto.
Qed.

Lemma has_In (visited : list Pt) (p : Pt) : has visited p = true <-> In p visited.
Proof.
  unfold has. rewrite existsb_exists. split.
  - intros [q [Hq E]]. apply Pt_eqb_eq in E. subst. exact Hq.
  - intros H. exists p. split; [exact H | apply Pt_eqb_eq; reflexivity].
Qed.

Section FloodExact.
Variables (width height : Z) (grid : Grid).

Lemma visitNeighbour_tracked (done : list Pt) (curr : Pt) (st : list Pt * list Pt) (d : Pt) :
  Tracked done st ->
  let st1 := visitNeighbour width height grid curr st d in
  Tracked done st1 /\
  (forall p, In p (snd st) -> In p (snd st1)) /\
  (openTile width height grid (stepTo curr d) -> In (stepTo curr d) (snd st1)).
Proof.
  intros [Hv Hn]. unfold visitNeighbour. destruct st as [queue visited]. cbn [fst snd] in *.
  cbv zeta. unfold Tracked, openTile.
  destruct (_ && _) eqn:E.
  - rewrite !andb_true_iff in E. destruct E as [[[[[E1 E2] E3] E4] E5] E6].
    apply negb_true_iff in E6.
    assert (Hnew : ~ In (fst curr + fst d, snd curr + snd d) visited).
    { intros C. apply has_In in C. congruence. }
    cbn [fst snd]. split; [split |].
    + intros p. rewrite in_app_iff. simpl. rewrite Hv. tauto.
    + rewrite app_assoc. apply NoDup_snoc; [exact Hn |].
      intros C. apply Hnew. apply Hv. apply in_app_iff in C. tauto.
    + split; [intros p Hp; right; exact Hp | intros _; left; reflexivity].
  - cbn [fst snd]. split; [split; assumption |]. split; [auto |].
    intros [[O1 O2] [[O3 O4] O5]]. unfold stepTo in *. cbn [fst snd] in *.
    rewrite !andb_false_iff in E.
    destruct E as [[[[[E | E] | E] | E] | E] | E].
    + rewrite Z.geb_leb in E. apply Z.leb_gt in E. lia.
    + rewrite Z.geb_leb in E. apply Z.leb_gt in E. lia.
    + apply Z.ltb_ge in E. lia.
    + apply Z.ltb_ge in E. lia.
    + congruence.
    + apply negb_false_iff in E. apply has_In. exact E.
Qed.

Lemma fold_visit_tracked (done : list Pt) (curr : Pt) (ds : list Pt) :
  forall st, Tracked done st ->
  let st1 := fold_left (visitNeighbour width height grid curr) ds st in
  Tracked done st1 /\
  (forall p, In p (snd st) -> In p (snd st1)) /\
  (forall d, In d ds -> openTile width height grid (stepTo curr d) -> In (stepTo curr d) (snd st1)).
Proof.
  induction ds as [| d ds IH]; intros st T; cbn [fold_left].
  - split; [exact T |]. split; [auto | intros d []].
  - destruct (visitNeighbour_tracked done curr st d T) as [T1 [M1 O1]].
    destruct (IH _ T1) as [T2 [M2 O2]].
    split; [exact T2 |]. split; [auto |].
    intros e [<- | He] Ho; [apply M2, O1, Ho | apply O2; assumption].
Qed.

Lemma floodLoop_exact (fuel : nat) :
  forall queue visited reachable r,
    FloodInv width height grid queue visited reachable ->
    floodLoop width height grid fuel queue visited reachable = Some r ->
    NoDup r /\ In (midX width, midY height) r /\
    (forall c d, In c r -> In d floodDirs -> openTile width height grid (stepTo c d) -> In (stepTo c d) r).
Proof.
  induction fuel as [| fuel IH]; intros queue visited reachable r I E.
  - destruct queue; cbn [floodLoop] in E; [| discriminate]. inversion E; subst r.
    destruct I as [[Hv Hn] Hs Hc]. cbn [fst snd] in *.
    rewrite app_nil_r in Hn. split; [exact Hn |].
    assert (V : forall p, In p visited -> In p reachable).
    { intros p Hp. apply Hv in Hp. destruct Hp as [[] | Hp]. exact Hp. }
    split; [apply V, Hs |]. intros c d Hc1 Hd Ho. apply V. apply Hc; assumption.
  - destruct queue as [| curr rest]; cbn [floodLoop] in E.
    + inversion E; subst r.
      destruct I as [[Hv Hn] Hs Hc]. cbn [fst snd] in *.
      rewrite app_nil_r in Hn. split; [exact Hn |].
      assert (V : forall p, In p visited -> In p reachable).
      { intros p Hp. apply Hv in Hp. destruct Hp as [[] | Hp]. exact Hp. }
      split; [apply V, Hs |]. intros c d Hc1 Hd Ho. apply V. apply Hc; assumption.
    + destruct I as [[Hv Hn] Hs Hc]. cbn [fst snd] in *.
      assert (T : Tracked (reachable ++ [curr]) (rest, visited)).
      { split; cbn [fst snd].
        - intros p. rewrite Hv, in_app_iff. simpl. tauto.
        - rewrite <- app_assoc. exact Hn. }
      destruct (fold_visit_tracked (reachable ++ [curr]) curr floodDirs _ T) as [T1 [M1 O1]].
      destruct (fold_left _ floodDirs (rest, visited)) as [queue1 visited1].
      cbn [fst snd] in *.
      apply (IH queue1 visited1 (reachable ++ [curr]) r); [| exact E].
      constructor.
      * exact T1.
      * apply M1, Hs.
      * intros c d Hc1 Hd Ho. apply in_app_iff in Hc1.
        destruct Hc1 as [Hc1 | [<- | []]]; [apply M1, Hc; assumption | apply O1; assumption].
Qed.

Lemma closed_has_reachable (r : list Pt) :
  In (midX width, midY height) r ->
  (forall c d, In c r -> In d floodDirs -> openTile width height grid (stepTo c d) -> In (stepTo c d) r) ->
  forall p, reachableFromCentre width height grid p -> In p r.
Proof.
  intros Hs Hc p R. induction R as [| c d _ IH Hd H1 H2 H3]; [exact Hs |].
  apply (Hc c d IH Hd). unfold openTile, stepTo. cbn [fst snd]. auto.
Qed.

End FloodExact.

Lemma floodFill_complete (width height : Z) (grid : Grid) :
  exists r, floodFill width height grid = Some r /\ NoDup r /\
            forall p, In p r <-> reachableFromCentre width height grid p.
Proof.
  destruct (floodFill width height grid) as [r |] eqn:E;
    [| exfalso; exact (floodFill_total width height grid E)].
  exists r. split; [reflexivity |].
  assert (I : FloodInv width height grid [(midX width, midY height)]
                       [(midX width, midY height)] []).
  { constructor.
    - split; cbn [fst snd]; [intros p; simpl; tauto |].
      simpl. constructor; [intros [] | constructor].
    - left. reflexivity.
    - intros c d []. }
  destruct (floodLoop_exact width height grid _ _ _ _ r I E) as [Hn [Hs Hc]].
  split; [exact Hn |]. intros p. split.
  - apply (floodFill_sound width height grid r E).
  - apply (closed_has_reachable width height grid r Hs Hc).
Qed.

(** ** The safe zones keep the doors within reach *)

Lemma isSafe_spec (width height : Z) (doors : Doors.t) (isBossRoom : bool) (x y : Z) :
  isSafe width height doors isBossRoom x y = true <->
  (Z.abs (x - width / 2) <= 1 /\ Z.abs (y - height / 2) <= 1)
  \/ (notNull (Doors.top doors) = true /\ x = width / 2 /\ y < height / 2)
  \/ (notNull (Doors.bottom doors) = true /\ x = width / 2 /\ height / 2 < y)
  \/ (notNull (Doors.left doors) = true /\ y = height / 2 /\ x < width / 2)
  \/ (notNull (Doors.right doors) = true /\ y = height / 2 /\ width / 2 < x)
  \/ (isBossRoom = true /\
      ((y = height / 2 /\ width / 2 < x /\ x <= width / 2 + 2)
       \/ (x = width / 2 + 2 /\ y < height / 2))).
Proof.
  unfold isSafe, midX, midY. cbv zeta.
  rewrite !orb_true_iff, !andb_true_iff, !orb_true_iff, !andb_true_iff.
  rewrite !Z.leb_le, !Z.eqb_eq, !Z.ltb_lt, !Z.gtb_lt. tauto.
Qed.

Lemma isBorder_false (width height x y : Z) :
  1 <= x <= width - 2 -> 1 <= y <= height - 2 -> isBorder width height x y = false.
Proof.
  intros Hx Hy. unfold isBorder. rewrite !orb_false_iff, !Z.eqb_neq. lia.
Qed.

(** A safe tile inside the border passes the test of the flood fill. *)
Lemma safe_open (width height : Z) (doors : Doors.t) (isBossRoom : bool) (seed x y : Z) :
  1 <= x <= width - 2 -> 1 <= y <= height - 2 ->
  isSafe width height doors isBossRoom x y = true ->
  openTile width height (fst (genGrid width height doors isBossRoom seed)) (x, y).
Proof.
  intros Hx Hy Hs. unfold openTile. cbn [fst snd].
  split; [lia |]. split; [lia |].
  destruct (safe_tile_floor width height doors isBossRoom seed x y) as [t [Et Ef]];
    [lia | lia | apply isBorder_false; assumption | exact Hs |].
  unfold isFloorAt. rewrite Et, Ef. reflexivity.
Qed.

(** Walking [n] steps in one direction over tiles that pass the test. *)
Lemma reach_line (width height : Z) (grid : Grid) (d : Pt) :
  In d floodDirs ->
  forall (n : nat) (c : Pt),
    reachableFromCentre width height grid c ->
    (forall k, 1 <= k <= Z.of_nat n ->
               openTile width height grid (fst c + k * fst d, snd c + k * snd d)) ->
    reachableFromCentre width height grid
      (fst c + Z.of_nat n * fst d, snd c + Z.of_nat n * snd d).
Proof.
  intros Hd. induction n as [| n IH]; intros c Hc Ho.
  - replace (fst c + Z.of_nat 0 * fst d, snd c + Z.of_nat 0 * snd d) with c; [exact Hc |].
    destruct c. simpl. f_equal; lia.
  - assert (R : reachableFromCentre width height grid
                  (fst c + Z.of_nat n * fst d, snd c + Z.of_nat n * snd d)).
    { apply IH; [exact Hc |]. intros k Hk. apply Ho. lia. }
    destruct (Ho (Z.of_nat (S n)) ltac:(lia)) as [O1 [O2 O3]]. cbn [fst snd] in *.
    pose proof (reach_step width height grid _ d R Hd) as S1. cbn [fst snd] in S1.
    replace (fst c + Z.of_nat n * fst d + fst d) with (fst c + Z.of_nat (S n) * fst d) in S1 by lia.
    replace (snd c + Z.of_nat n * snd d + snd d) with (snd c + Z.of_nat (S n) * snd d) in S1 by lia.
    apply S1; assumption.
Qed.

Lemma layout_reachable (width height seed : Z) (doors : Doors.t) (isBossRoom : bool) (p : Pt) :
  reachableFromCentre width height (fst (genGrid width height doors isBossRoom seed)) p ->
  In p (Layout.reachable (generateRoomLayout width height seed doors isBossRoom)).
Proof.
  intros R. unfold generateRoomLayout. cbn [Layout.reachable].
  destruct (floodFill_complete width height (fst (genGrid width height doors isBossRoom seed)))
    as [r [E [_ Hr]]].
  rewrite E. apply Hr. exact R.
Qed.

(** X2.  The flood fill of [generateRoomLayout] ends on every grid, and
    the list [reachable] it returns holds exactly the tiles that are
    reached from the centre tile by steps in the four directions onto
    floor tiles inside the grid, each of them once. *)
Theorem generateRoomLayout_reachable_exact :
  forall (width height seed : Z) (doors : Doors.t) (isBossRoom : bool),
    let l := generateRoomLayout width height seed doors isBossRoom in
    floodFill width height (Layout.grid l) = Some (Layout.reachable l) /\
    NoDup (Layout.reachable l) /\
    forall p, In p (Layout.reachable l) <-> reachableFromCentre width height (Layout.grid l) p.
Proof.
  intros width height seed doors isBossRoom. cbv zeta.
  unfold generateRoomLayout. cbn [Layout.reachable Layout.grid].
  destruct (floodFill_complete width height (fst (genGrid width height doors isBossRoom seed)))
    as [r [E [Hn Hr]]].
  rewrite E. auto.
Qed.

(** X3.  The safe zones do their work: in a generated layout the whole
    corridor from the centre tile to each door of the room (and, in a
    boss room, to the boss exit) is in [reachable], whatever furniture
    the seed draws. *)
Theorem door_corridors_reachable :
  forall (width height seed : Z) (doors : Doors.t) (isBossRoom : bool),
    7 <= width -> 3 <= height ->
    let l := generateRoomLayout width height seed doors isBossRoom in
    let mx := width / 2 in
    let my := height / 2 in
    (notNull (Doors.top doors) = true ->
     forall y, 1 <= y <= my -> In (mx, y) (Layout.reachable l)) /\
    (notNull (Doors.bottom doors) = true ->
     forall y, my <= y <= height - 2 -> In (mx, y) (Layout.reachable l)) /\
    (notNull (Doors.left doors) = true ->
     forall x, 1 <= x <= mx -> In (x, my) (Layout.reachable l)) /\
    (notNull (Doors.right doors) = true ->
     forall x, mx <= x <= width - 2 -> In (x, my) (Layout.reachable l)) /\
    (isBossRoom = true ->
     forall y, 1 <= y <= my -> In (mx + 2, y) (Layout.reachable l)).
Proof.
  intros width height seed doors isBossRoom Hw Hh. cbv zeta.
  set (grid := fst (genGrid width height doors isBossRoom seed)).
  assert (Hx : 3 <= width / 2 /\ width / 2 + 2 <= width - 2).
  { split; [apply Z.div_le_lower_bound; lia |].
    pose proof (Z.div_mod width 2 ltac:(lia)). pose proof (Z.mod_pos_bound width 2 ltac:(lia)).
    lia. }
  assert (Hy : 1 <= height / 2 <= height - 2).
  { split; [apply Z.div_le_lower_bound; lia |].
    pose proof (Z.div_mod height 2 ltac:(lia)). pose proof (Z.mod_pos_bound height 2 ltac:(lia)).
    lia. }
  assert (C : reachableFromCentre width height grid (width / 2, height / 2))
    by apply reach_centre.
  assert (line : forall (d : Pt) (n : Z),
             In d floodDirs -> 0 <= n ->
             (forall k, 1 <= k <= n ->
                1 <= width / 2 + k * fst d <= width - 2 /\
                1 <= height / 2 + k * snd d <= height - 2 /\
                isSafe width height doors isBossRoom
                       (width / 2 + k * fst d) (height / 2 + k * snd d) = true) ->
             In (width / 2 + n * fst d, height / 2 + n * snd d)
                (Layout.reachable (generateRoomLayout width height seed doors isBossRoom))).
  { intros d n Hd Hn Hk. apply layout_reachable.
    pose proof (reach_line width height grid d Hd (Z.to_nat n) _ C) as L.
    cbn [fst snd] in L. rewrite Z2Nat.id in L by lia. apply L.
    intros k Hk1. destruct (Hk k Hk1) as [K1 [K2 K3]].
    apply safe_open; assumption. }
  repeat split.
  - intros Hd y Hy1.
    replace (width / 2, y) with (width / 2 + (height / 2 - y) * fst (0, -1),
                                 height / 2 + (height / 2 - y) * snd (0, -1))
      by (cbn [fst snd]; f_equal; lia).
    apply line; [simpl; tauto | lia |]. intros k Hk. cbn [fst snd].
    split; [lia |]. split; [lia |]. apply isSafe_spec. right. left. split; [exact Hd | lia].
  - intros Hd y Hy1.
    replace (width / 2, y) with (width / 2 + (y - height / 2) * fst (0, 1),
                                 height / 2 + (y - height / 2) * snd (0, 1))
      by (cbn [fst snd]; f_equal; lia).
    apply line; [simpl; tauto | lia |]. intros k Hk. cbn [fst snd].
    split; [lia |]. split; [lia |].
    apply isSafe_spec. right. right. left. split; [exact Hd | lia].
  - intros Hd x Hx1.
    replace (x, height / 2) with (width / 2 + (width / 2 - x) * fst (-1, 0),
                                  height / 2 + (width / 2 - x) * snd (-1, 0))
      by (cbn [fst snd]; f_equal; lia).
    apply line; [simpl; tauto | lia |]. intros k Hk. cbn [fst snd].
    split; [lia |]. split; [lia |].
    apply isSafe_spec. right. right. right. left. split; [exact Hd | lia].
  - intros Hd x Hx1.
    replace (x, height / 2) with (width / 2 + (x - width / 2) * fst (1, 0),
                                  height / 2 + (x - width / 2) * snd (1, 0))
      by (cbn [fst snd]; f_equal; lia).
    apply line; [simpl; tauto | lia |]. intros k Hk. cbn [fst snd].
    split; [lia |]. split; [lia |].
    apply isSafe_spec. right. right. right. right. left. split; [exact Hd | lia].
  - intros Hb y Hy1. apply layout_reachable.
    assert (R2 : reachableFromCentre width height grid (width / 2 + 2, height / 2)).
    { pose proof (reach_line width height grid (1, 0) ltac:(simpl; tauto) 2 _ C) as L.
      cbn [fst snd] in L.
      replace (width / 2 + Z.of_nat 2 * 1) with (width / 2 + 2) in L by lia.
      replace (height / 2 + Z.of_nat 2 * 0) with (height / 2) in L by lia.
      apply L. intros k Hk. apply safe_open; [lia | lia |].
      apply isSafe_spec. do 5 right. split; [exact Hb |]. left. lia. }
    pose proof (reach_line width height grid (0, -1) ltac:(simpl; tauto)
                  (Z.to_nat (height / 2 - y)) _ R2) as L.
    cbn [fst snd] in L. rewrite Z2Nat.id in L by lia.
    replace (width / 2 + 2 + (height / 2 - y) * 0) with (width / 2 + 2) in L by lia.
    replace (height / 2 + (height / 2 - y) * -1) with y in L by lia.
    apply L. intros k Hk. apply safe_open; [lia | lia |].
    apply isSafe_spec. do 5 right. split; [exact Hb |]. right. lia.
Qed.

Lemma door_corridors_reachable_witness :
  7 <= 11 /\ 3 <= 9 /\
  In (5, 1) (Layout.reachable
               (generateRoomLayout 11 9 77 (Doors.Build_t (Some 1) None None None) false)).
Proof.
  split; [lia |]. split; [lia |].
  exact (proj1 (door_corridors_reachable 11 9 77 (Doors.Build_t (Some 1) None None None) false
                  ltac:(lia) ltac:(lia)) eq_refl 1 ltac:(split; [lia | vm_compute; discriminate])).
Defined.

(** ** The doors of a building *)

Lemma doorOf_leads (g : Placement.t) (pos : Pos.t) (d : Doors.t) (dir : DoorHit) (v : Z) :
  DoorsOK g pos d -> doorOf dir d = Some v ->
  exists q, In q (Placement.roomPositions g) /\ Pos.id q = v /\
            cell q = (Pos.x pos + fst (offset dir), Pos.y pos + snd (offset dir)) /\
            In (linkId (Pos.id pos) v) (Placement.connections g).
Proof.
  intros [Ht [Hr [Hb Hl]]] E.
  destruct dir; cbn [doorOf offset] in *;
    [apply Ht | apply Hb | apply Hl | apply Hr | discriminate]; exact E.
Qed.

Lemma in_doorList (d : Doors.t) (v : Z) :
  In (Some v) (doorList d) -> exists dir, doorOf dir d = Some v.
Proof.
  unfold doorList. intros [E | [E | [E | [E | []]]]];
    [exists hitTop | exists hitRight | exists hitBottom | exists hitLeft]; exact E.
Qed.

Lemma otherEnd_linkId (a b : Z) : a <> b -> otherEnd b (linkId a b) = a.
Proof.
  intros H. unfold otherEnd, linkId. destruct (a <? b) eqn:E; cbn [fst snd].
  - destruct (a =? b) eqn:E1; [apply Z.eqb_eq in E1; contradiction | reflexivity].
  - rewrite Z.eqb_refl. reflexivity.
Qed.

(** The room behind a door has, on the facing side, a door back. *)
Lemma door_back (n : Z) (g : Placement.t) (pos q : Pos.t) (d dq : Doors.t) (dir : DoorHit) :
  GridInv n g -> In pos (Placement.roomPositions g) -> In q (Placement.roomPositions g) ->
  doorsOf g q = Some dq ->
  cell q = (Pos.x pos + fst (offset dir), Pos.y pos + snd (offset dir)) ->
  dir <> hitBoss ->
  In (linkId (Pos.id pos) (Pos.id q)) (Placement.connections g) ->
  doorOf (opposite dir) dq = Some (Pos.id pos).
Proof.
  intros I Hpos Hq Edq Hcell Hdir Hc.
  assert (Hne : Pos.id pos <> Pos.id q).
  { intros C. apply (id_inj n g pos q I Hpos Hq) in C. subst q.
    unfold cell in Hcell. inversion Hcell as [[H1 H2]].
    destruct dir; cbn [offset fst snd] in *; try lia. congruence. }
  destruct (doorsOf_ok n g q I Hq) as [d' [Ed' [OK Hall]]].
  rewrite Edq in Ed'. inversion Ed'; subst d'.
  specialize (Hall _ Hc).
  rewrite (otherEnd_linkId _ _ Hne) in Hall.
  assert (Hend : fst (linkId (Pos.id pos) (Pos.id q)) = Pos.id q \/
                 snd (linkId (Pos.id pos) (Pos.id q)) = Pos.id q).
  { unfold linkId. destruct (Pos.id pos <? Pos.id q); cbn [fst snd]; auto. }
  destruct (in_doorList _ _ (Hall Hend)) as [dir' E'].
  destruct (doorOf_leads g q dq dir' _ OK E') as [q' [Hq' [Eid [Ecell _]]]].
  apply (id_inj n g q' pos I Hq' Hpos) in Eid. subst q'.
  unfold cell in *. inversion Hcell as [[H1 H2]]. rewrite H1, H2 in Ecell.
  inversion Ecell as [[H3 H4]].
  destruct dir, dir'; cbn [offset fst snd opposite] in *; try lia; try congruence; exact E'.
Qed.

Lemma Forall2_map_eq {A B C} (P : A -> B -> Prop) (f : A -> C) (h : B -> C)
    (l : list A) (m : list B) :
  Forall2 P l m -> (forall u v, P u v -> f u = h v) -> map f l = map h m.
Proof.
  intros F H. induction F as [| u v l m Huv _ IH]; [reflexivity |].
  simpl. rewrite (H u v Huv), IH. reflexivity.
Qed.

Lemma MadeFrom_fields (n : Z) (ipr : ItemsPerRoom) (g : Placement.t) (pos : Pos.t) (r : Room.t) :
  MadeFrom n ipr g pos r ->
  Room.id r = Pos.id pos /\ Room.x r = Pos.x pos /\ Room.y r = Pos.y pos /\
  doorsOf g pos = Some (Room.doors r) /\
  Room.type r = (if Pos.id pos =? n - 1 then boss else normal) /\
  In {| Size.w := Room.width r; Size.h := Room.height r |} ROOM_VARIANTS /\
  0 <= Room.seed r < 1000000 /\ Room.cleared r = false.
Proof.
  intros [seed [size [doors [Hs [Hsz [Hd M]]]]]]. cbv zeta in M.
  destruct M as [Rid [Rx [Ry [Rw [Rh [Rd [Rs [Rt [_ [_ Rc]]]]]]]]]].
  repeat split; try assumption; try congruence; try lia.
  rewrite Rw, Rh. destruct size. exact Hsz.
Qed.

(** A door leads to the room on the adjacent cell, which has a door back. *)
Lemma door_leads_back (n : Z) (ipr : ItemsPerRoom) (g : Placement.t) (rooms : list Room.t) :
  GridInv n g -> Forall2 (MadeFrom n ipr g) (Placement.roomPositions g) rooms ->
  forall r dir v,
    In r rooms -> doorOf dir (Room.doors r) = Some v ->
    exists q, In q rooms /\ Room.id q = v /\
              Room.x q = Room.x r + fst (offset dir) /\
              Room.y q = Room.y r + snd (offset dir) /\
              doorOf (opposite dir) (Room.doors q) = Some (Room.id r).
Proof.
  intros I F r dir v Hr Hdoor.
  destruct (Forall2_In_r _ _ _ r F Hr) as [pos [Hpos M]].
  apply MadeFrom_fields in M. destruct M as [Rid [Rx [Ry [Rd _]]]].
  destruct (doorsOf_ok _ g pos I Hpos) as [d [Ed [OK _]]].
  rewrite Rd in Ed. inversion Ed; subst d.
  destruct (doorOf_leads g pos _ dir v OK Hdoor) as [q [Hq [Eid [Ecell Hc]]]].
  destruct (Forall2_In_l _ _ _ q F Hq) as [rq [Hrq Mq]].
  apply MadeFrom_fields in Mq. destruct Mq as [Qid [Qx [Qy [Qd _]]]].
  exists rq. split; [exact Hrq |]. split; [congruence |].
  unfold cell in Ecell. inversion Ecell as [[H1 H2]].
  split; [congruence |]. split; [congruence |].
  rewrite Rid. subst v.
  apply (door_back _ g pos q (Room.doors r) (Room.doors rq) dir I Hpos Hq Qd).
  - unfold cell. congruence.
  - intros C. subst dir. discriminate Hdoor.
  - exact Hc.
Qed.

Lemma rooms_ids (n : Z) (ipr : ItemsPerRoom) (g : Placement.t) (rooms : list Room.t) :
  GridInv n g -> Forall2 (MadeFrom n ipr g) (Placement.roomPositions g) rooms ->
  map Room.id rooms = upto n.
Proof.
  intros I F. rewrite <- (inv_ids _ g I). symmetry.
  apply (Forall2_map_eq _ Pos.id Room.id _ _ F).
  intros u v M. apply MadeFrom_fields in M. destruct M as [Rid _]. congruence.
Qed.

Lemma findRoom_In (b : Building.t) (v : Z) (r : Room.t) :
  findRoom b v = Some r -> In r (Building.rooms b) /\ Room.id r = v.
Proof.
  unfold findRoom. intros E. apply find_some in E. destruct E as [H E].
  apply Z.eqb_eq in E. auto.
Qed.

(** With distinct ids, [find] returns the room of the id. *)
Lemma findRoom_of (b : Building.t) (r : Room.t) :
  NoDup (map Room.id (Building.rooms b)) -> In r (Building.rooms b) ->
  findRoom b (Room.id r) = Some r.
Proof.
  intros Hn Hr. unfold findRoom.
  destruct (find (fun q => Room.id q =? Room.id r) (Building.rooms b)) as [q |] eqn:E.
  - apply find_some in E. destruct E as [Hq E]. apply Z.eqb_eq in E.
    f_equal. apply (map_inj_In Room.id (Building.rooms b) q r Hn Hq Hr E).
  - exfalso. apply (find_none _ _ E) in Hr. rewrite Z.eqb_refl in Hr. discriminate.
Qed.

(** X4.  The doors of a generated building are two-way and follow the
    grid: the rooms lie on distinct grid cells; a door of a room leads to
    the room on the adjacent cell on that side, which [find] returns for
    the id, and that room has, on the facing side, a door back to the
    first.  So the side on which [transitionRoom] puts the player always
    has a door. *)
Theorem doors_are_two_way :
  forall (buildingId difficulty : Z) (theme : Theme) (rootSeed : Z)
         (assignedSpecialItems : list ItemType),
  exists b,
    generateBuilding buildingId difficulty theme rootSeed assignedSpecialItems = Some b /\
    NoDup (map (fun r => (Room.x r, Room.y r)) (Building.rooms b)) /\
    forall r dir v,
      In r (Building.rooms b) -> doorOf dir (Room.doors r) = Some v ->
      exists q, findRoom b v = Some q /\
                Room.x q = Room.x r + fst (offset dir) /\
                Room.y q = Room.y r + snd (offset dir) /\
                doorOf (opposite dir) (Room.doors q) = Some (Room.id r).
Proof.
  intros buildingId difficulty theme rootSeed items.
  destruct (generateBuilding_ok buildingId difficulty theme rootSeed items)
    as [b [g [ipr [E [I [F _]]]]]].
  exists b. split; [exact E |]. split.
  - assert (Ec : map cell (Placement.roomPositions g)
                 = map (fun r => (Room.x r, Room.y r)) (Building.rooms b)).
    { apply (Forall2_map_eq _ _ _ _ _ F).
      intros u v M. apply MadeFrom_fields in M. destruct M as [_ [Rx [Ry _]]].
      unfold cell. congruence. }
    pose proof (inv_nodup _ g I) as Hn. rewrite Ec in Hn. exact Hn.
  - intros r dir v Hr Hdoor.
    destruct (door_leads_back _ ipr g _ I F r dir v Hr Hdoor) as [q [Hq [Qid [Qx [Qy Qd]]]]].
    exists q. split; [| auto].
    rewrite <- Qid. apply findRoom_of; [| exact Hq].
    rewrite (rooms_ids _ ipr g _ I F). apply NoDup_upto.
Qed.

(** X5.  The rooms of a generated building: there are
    [max 2 (4 + floor (1.5 * difficulty))] of them, with the ids
    [0 .. n-1] in this order; the start room is room 0; the boss room is
    the room with the last id and no other, so it is never the start
    room; every room has one of the four sizes of [ROOM_VARIANTS], a seed
    below one million, and starts uncleared. *)
Theorem generateBuilding_rooms :
  forall (buildingId difficulty : Z) (theme : Theme) (rootSeed : Z)
         (assignedSpecialItems : list ItemType),
  exists b,
    generateBuilding buildingId difficulty theme rootSeed assignedSpecialItems = Some b /\
    let n := Z.max 2 (4 + 3 * difficulty / 2) in
    len (Building.rooms b) = n /\
    map Room.id (Building.rooms b) = upto n /\
    Building.startRoomId b = 0 /\ Building.theme b = theme /\
    forall r, In r (Building.rooms b) ->
      (Room.type r = boss <-> Room.id r = n - 1) /\
      (Room.id r = Building.startRoomId b -> Room.type r = normal) /\
      In {| Size.w := Room.width r; Size.h := Room.height r |} ROOM_VARIANTS /\
      0 <= Room.seed r < 1000000 /\ Room.cleared r = false.
Proof.
  intros buildingId difficulty theme rootSeed items.
  destruct (generateBuilding_ok buildingId difficulty theme rootSeed items)
    as [b [g [ipr [E [I [F [Hs Ht]]]]]]].
  exists b. split; [exact E |]. cbv zeta.
  fold (numRoomsOf difficulty).
  assert (Hids : map Room.id (Building.rooms b) = upto (numRoomsOf difficulty)).
  { rewrite <- (inv_ids _ g I). symmetry.
    apply (Forall2_map_eq _ Pos.id Room.id _ _ F).
    intros u v M. apply MadeFrom_fields in M. destruct M as [Rid _]. congruence. }
  split.
  { unfold len. rewrite <- (length_map Room.id), Hids. unfold upto.
    rewrite length_map, length_seq. pose proof (numRoomsOf_ge2 difficulty). lia. }
  split; [exact Hids |]. split; [exact Hs |]. split; [exact Ht |].
  intros r Hr.
  destruct (Forall2_In_r _ _ _ r F Hr) as [pos [Hpos M]].
  apply MadeFrom_fields in M.
  destruct M as [Rid [_ [_ [_ [Rt [Rsz [Rseed Rc]]]]]]].
  pose proof (numRoomsOf_ge2 difficulty) as Hn.
  rewrite <- Rid in Rt.
  split; [| split; [| auto]].
  - destruct (Room.id r =? numRoomsOf difficulty - 1) eqn:Eb.
    + apply Z.eqb_eq in Eb. split; auto.
    + apply Z.eqb_neq in Eb. split; [intros C; congruence | intros C; contradiction].
  - intros H0. rewrite Hs in H0.
    destruct (Room.id r =? numRoomsOf difficulty - 1) eqn:Eb; [| exact Rt].
    apply Z.eqb_eq in Eb. lia.
Qed.

(** ** Where the player lands *)

Lemma tileOf_eq (v : Q) (g off : Z) :
  (v == inject_Z (g * 48 + off))%Q -> 0 <= off + 16 < 48 -> tileOf v = g.
Proof.
  intros E Hoff. unfold tileOf.
  assert (H : ((v + 16) / Q48 == (g * 48 + off + 16) # 48)%Q).
  { rewrite E. unfold Q48, TILE_SIZE, Qeq, Qdiv, Qmult, Qinv, Qplus, inject_Z.
    cbn [Qnum Qden]. lia. }
  rewrite (Qfloor_comp _ _ H). unfold Qfloor.
  symmetry. apply Z.div_unique with (r := off + 16); lia.
Qed.

Ltac q_eq :=
  unfold Q48, TILE_SIZE, PLAYER_SIZE, Qeq, Qminus, Qopp, Qmult, Qplus, inject_Z;
  cbn [Qnum Qden]; change ((48 - 32) / 2) with 8; lia.

(** The tile on which [transitionRoom] puts the player. *)
Lemma arrive_tile (dir : DoorHit) (next : Room.t) (p : Player.t) :
  let w := Room.width next in
  let h := Room.height next in
  let p1 := arrive dir next p in
  match dir with
  | hitTop => tileOf (Player.x p1) = w / 2 /\ tileOf (Player.y p1) = h - 2
  | hitBottom => tileOf (Player.x p1) = w / 2 /\ tileOf (Player.y p1) = 1
  | hitLeft => tileOf (Player.x p1) = w - 2 /\ tileOf (Player.y p1) = h / 2
  | hitRight => tileOf (Player.x p1) = 1 /\ tileOf (Player.y p1) = h / 2
  | hitBoss => True
  end.
Proof.
  cbv zeta. unfold arrive.
  set (mx := Room.width next / 2). set (my := Room.height next / 2).
  set (w := Room.width next). set (h := Room.height next).
  destruct dir; cbn [movePlayer Player.x Player.y]; [| | | | exact I]; split.
  - apply tileOf_eq with (off := 8); [q_eq | lia].
  - apply tileOf_eq with (off := 8); [q_eq | lia].
  - apply tileOf_eq with (off := 8); [q_eq | lia].
  - apply tileOf_eq with (off := 24); [q_eq | lia].
  - apply tileOf_eq with (off := 8); [q_eq | lia].
  - apply tileOf_eq with (off := 8); [q_eq | lia].
  - apply tileOf_eq with (off := 24); [q_eq | lia].
  - apply tileOf_eq with (off := 8); [q_eq | lia].
Qed.

Lemma arriveAtStart_tile (start : Room.t) (p : Player.t) :
  tileOf (Player.x (arriveAtStart start p)) = Room.width start / 2 /\
  tileOf (Player.y (arriveAtStart start p)) = Room.height start / 2.
Proof.
  unfold arriveAtStart.
  set (mx := Room.width start / 2). set (my := Room.height start / 2).
  cbn [movePlayer Player.x Player.y]; split; apply tileOf_eq with (off := 8); try lia; q_eq.
Qed.

Lemma wallAt_floor (r : Room.t) (gx gy : Z) :
  0 <= gx < Room.width r -> 0 <= gy < Room.height r ->
  (exists t, tileAt (Layout.grid (Room.layout r)) gx gy = Some t /\ Tile.type t = floor) ->
  wallAt gx gy r = Some false.
Proof.
  intros Hx Hy [t [Et Ef]]. unfold wallAt.
  replace ((gy <? 0) || (gy >=? Room.height r) || (gx <? 0) || (gx >=? Room.width r)) with false.
  - rewrite Et, Ef. reflexivity.
  - symmetry. rewrite !orb_false_iff.
    repeat split; first [apply Z.ltb_ge; lia | rewrite Z.geb_leb; apply Z.leb_gt; lia].
Qed.

Lemma MadeFrom_grid (n : Z) (ipr : ItemsPerRoom) (g : Placement.t) (pos : Pos.t) (r : Room.t) :
  MadeFrom n ipr g pos r ->
  9 <= Room.width r /\ 9 <= Room.height r /\
  exists seed isBoss,
    Layout.grid (Room.layout r)
    = fst (genGrid (Room.width r) (Room.height r) (Room.doors r) isBoss seed).
Proof.
  intros [seed [size [doors [Hs [Hsz [Hd M]]]]]]. cbv zeta in M.
  destruct M as [_ [_ [_ [Rw [Rh [Rd [_ [_ [Rg _]]]]]]]]].
  rewrite Rw, Rh, Rd.
  assert (Hdim : 9 <= Size.w size /\ 9 <= Size.h size).
  { apply ROOM_VARIANTS_size in Hsz. simpl in Hsz.
    destruct Hsz as [H | [H | [H | [H | []]]]]; inversion H; lia. }
  split; [tauto |]. split; [tauto |].
  exists seed, (Pos.id pos =? n - 1). exact Rg.
Qed.

Lemma half_range (w : Z) : 9 <= w -> 4 <= w / 2 <= w - 5.
Proof.
  intros H. pose proof (Z.div_mod w 2 ltac:(lia)). pose proof (Z.mod_pos_bound w 2 ltac:(lia)).
  lia.
Qed.

(** X6.  The player never lands in a wall or in furniture.  In a
    generated building [enterBuilding] finds the start room and puts the
    player on its centre tile, and [transitionRoom], called for a door of
    a room, finds the room behind it and puts the player on the tile
    inside the facing door; [checkWallCollision] is false at both
    positions, whatever furniture the seeds draw. *)
Theorem player_lands_on_floor :
  forall (buildingId difficulty : Z) (theme : Theme) (rootSeed : Z)
         (assignedSpecialItems : list ItemType),
  exists b,
    generateBuilding buildingId difficulty theme rootSeed assignedSpecialItems = Some b /\
    (exists start,
       findRoom b (Building.startRoomId b) = Some start /\
       forall p, checkWallCollision (Player.x (arriveAtStart start p))
                                    (Player.y (arriveAtStart start p)) start = Some false) /\
    (forall r dir v,
       In r (Building.rooms b) -> doorOf dir (Room.doors r) = Some v ->
       exists next,
         findRoom b v = Some next /\
         forall p, checkWallCollision (Player.x (arrive dir next p))
                                      (Player.y (arrive dir next p)) next = Some false).
Proof.
  intros buildingId difficulty theme rootSeed items.
  destruct (generateBuilding_ok buildingId difficulty theme rootSeed items)
    as [b [g [ipr [E [I [F [Hs _]]]]]]].
  exists b. split; [exact E |].
  pose proof (rooms_ids _ ipr g _ I F) as Hids.
  assert (Hn : NoDup (map Room.id (Building.rooms b))) by (rewrite Hids; apply NoDup_upto).
  split.
  - assert (H0 : In 0 (map Room.id (Building.rooms b))).
    { rewrite Hids. apply in_upto. pose proof (numRoomsOf_ge2 difficulty). lia. }
    apply in_map_iff in H0. destruct H0 as [start [E0 Hstart]].
    exists start. rewrite Hs, <- E0. split; [apply findRoom_of; assumption |].
    intros p. unfold checkWallCollision.
    destruct (arriveAtStart_tile start p) as [-> ->].
    destruct (Forall2_In_r _ _ _ start F Hstart) as [pos [Hpos M]].
    destruct (MadeFrom_grid _ _ _ _ _ M) as [Hw [Hh [seed [isBoss Eg]]]].
    pose proof (half_range _ Hw). pose proof (half_range _ Hh).
    apply wallAt_floor; [lia | lia |]. rewrite Eg.
    apply safe_tile_floor; [lia | lia | apply isBorder_false; lia |].
    apply isSafe_spec. left. rewrite !Z.sub_diag. simpl. lia.
  - intros r dir v Hr Hdoor.
    destruct (door_leads_back _ ipr g _ I F r dir v Hr Hdoor) as [q [Hq [Qid [_ [_ Qd]]]]].
    exists q. split; [rewrite <- Qid; apply findRoom_of; assumption |].
    intros p. unfold checkWallCollision.
    destruct (Forall2_In_r _ _ _ q F Hq) as [pos [Hpos M]].
    destruct (MadeFrom_grid _ _ _ _ _ M) as [Hw [Hh [seed [isBoss Eg]]]].
    pose proof (half_range _ Hw). pose proof (half_range _ Hh).
    pose proof (arrive_tile dir q p) as T. cbv zeta in T.
    assert (Hnn : notNull (doorOf (opposite dir) (Room.doors q)) = true)
      by (rewrite Qd; reflexivity).
    destruct dir; cbn [opposite doorOf] in Hnn; [| | | | discriminate Hdoor];
      destruct T as [-> ->];
      (apply wallAt_floor; [lia | lia |]); rewrite Eg;
      (apply safe_tile_floor; [lia | lia | apply isBorder_false; lia |]);
      apply isSafe_spec; right.
    + right. left. split; [exact Hnn | lia].
    + left. split; [exact Hnn | lia].
    + do 3 right. left. split; [exact Hnn | lia].
    + right. right. left. split; [exact Hnn | lia].
Qed.

(** ** The special items of a building *)

Lemma flat_map_ext_in {A B} (f h : A -> list B) (l : list A) :
  (forall v, In v l -> f v = h v) -> flat_map f l = flat_map h l.
Proof.
  induction l as [| e l IH]; intros H; [reflexivity |].
  simpl. rewrite (H e (or_introl eq_refl)), IH; [reflexivity |].
  intros v Hv. apply H. right. exact Hv.
Qed.

Lemma flat_map_push (m : ItemsPerRoom) (id0 : Z) (it : ItemType) (all : list Z) :
  NoDup all -> In id0 all ->
  Permutation
    (flat_map (fun id => if key_eqb (Some id) (Some id0) then m (Some id) ++ [it]
                         else m (Some id)) all)
    (it :: flat_map (fun id => m (Some id)) all).
Proof.
  induction all as [| e all IH]; intros Hn Hin; [destruct Hin |].
  inversion Hn as [| ? ? Hne Hn1]; subst. cbn [flat_map key_eqb].
  destruct (e =? id0) eqn:E.
  - apply Z.eqb_eq in E. subst e.
    rewrite (flat_map_ext_in _ (fun id => m (Some id)) all).
    + rewrite <- app_assoc. simpl. symmetry. apply Permutation_middle.
    + intros v Hv. simpl. destruct (v =? id0) eqn:E1; [| reflexivity].
      apply Z.eqb_eq in E1. subst v. contradiction.
  - destruct Hin as [-> | Hin]; [rewrite Z.eqb_refl in E; discriminate |].
    etransitivity; [apply Permutation_app_head, (IH Hn1 Hin) |].
    symmetry. apply Permutation_middle.
Qed.

Lemma assignItem_assigned (ids : list Z) (m : ItemsPerRoom) (placed : list ItemType)
    (it : ItemType) (a : Z) :
  ids <> [] -> Assigned ids m placed ->
  Assigned ids (fst (assignItem ids m it a)) (it :: placed).
Proof.
  intros Hne [Hout Hperm]. unfold assignItem, bind, ret.
  assert (Hlen : 0 <= len ids - 1).
  { unfold len. destruct ids; [contradiction | simpl length; lia]. }
  pose proof (getSeededInt_range 0 (len ids - 1) a Hlen) as R.
  destruct (getSeededInt 0 (len ids - 1) a) as [rIdx a1]. cbn [fst] in *.
  destruct (index_Some ids rIdx ltac:(lia)) as [id0 [E0 Hin0]]. rewrite E0.
  split.
  - intros k Hk. destruct (key_eqb k (Some id0)) eqn:E.
    + exfalso. destruct k as [v |]; [| discriminate]. simpl in E. apply Z.eqb_eq in E.
      subst v. exact (Hk id0 Hin0 eq_refl).
    + apply Hout. exact Hk.
  - intros all Hn Hincl.
    etransitivity; [apply (flat_map_push m id0 it all Hn (Hincl _ Hin0)) |].
    apply perm_skip. apply Hperm; assumption.
Qed.

Lemma distribute_assigned (ids : list Z) (items : list ItemType) (a : Z) :
  ids <> [] -> Assigned ids (fst (distribute ids items a)) items.
Proof.
  intros Hne. unfold distribute.
  assert (G : forall l m placed a0,
             Assigned ids m placed ->
             Assigned ids (fst (foldM (assignItem ids) l m a0)) (rev l ++ placed)).
  { induction l as [| it l IH]; intros m placed a0 H; cbn [foldM]; unfold bind, ret.
    - exact H.
    - pose proof (assignItem_assigned ids m placed it a0 Hne H) as H1.
      destruct (assignItem ids m it a0) as [m1 a1]. cbn [fst] in H1.
      simpl rev. rewrite <- app_assoc. simpl. apply IH. exact H1. }
  specialize (G (rev items) (fun _ => []) [] a).
  rewrite rev_involutive, app_nil_r in G. apply G.
  split; [reflexivity |]. intros all _ _.
  induction all; simpl; [constructor | assumption].
Qed.

Lemma item_id_range (n : Z) : 0 <= n < two32 -> 0 <= n * 100000 / two32 < 100000.
Proof. intros H. apply scaled_range; [exact H | lia]. Qed.

Lemma placeSpecial_adds (size : Size.t) (st : ItemState) (ty : ItemType) (a : Z) :
  exists it,
    fst (fst (placeSpecial size st ty a)) = fst st ++ [it] /\
    Item.type it = ty /\ Item.isUnlimited it = false /\
    0 <= Item.id it < 100000 /\ Item.w it = 24 /\ Item.h it = 24.
Proof.
  unfold placeSpecial, bind, ret, rng.
  destruct (pickItemLocation (snd st) a) as [r a1].
  pose proof (mulberry32_range a1) as R. destruct (mulberry32 a1) as [n a2]. cbn [fst] in R.
  pose proof (item_id_range n R) as Hid.
  destruct (fst r) as [spot |]; cbn [fst]; eexists; (split; [reflexivity |]);
    cbn [itemOn itemAtCentre Item.type Item.isUnlimited Item.id Item.w Item.h]; auto.
Qed.

Lemma foldM_placeSpecial (size : Size.t) (special : list ItemType) :
  forall (st : ItemState) (a : Z),
  exists new,
    fst (fst (foldM (placeSpecial size) special st a)) = fst st ++ new /\
    map Item.type new = special /\
    Forall (fun it => Item.isUnlimited it = false /\
                      0 <= Item.id it < 100000 /\ Item.w it = 24 /\ Item.h it = 24) new.
Proof.
  induction special as [| ty special IH]; intros st a; cbn [foldM]; unfold bind, ret.
  - exists []. rewrite app_nil_r. auto.
  - destruct (placeSpecial_adds size st ty a) as [it [E [Ht H]]].
    destruct (placeSpecial size st ty a) as [st1 a1]. cbn [fst] in E.
    destruct (IH st1 a1) as [new [E1 [Hm Hf]]].
    exists (it :: new). rewrite E1, E, <- app_assoc. simpl.
    split; [reflexivity |]. split; [congruence |]. constructor; assumption.
Qed.

Lemma placeConsumable_adds (isBoss : bool) (st : ItemState) (a : Z) :
  exists extra,
    fst (fst (placeConsumable isBoss st a)) = fst st ++ extra /\
    (length extra <= 1)%nat /\ (isBoss = true -> extra = []) /\
    Forall (fun it => Item.isUnlimited it = true /\
                      (Item.type it = pizza \/ Item.type it = soda) /\
                      0 <= Item.id it < 100000 /\ Item.w it = 24 /\ Item.h it = 24) extra.
Proof.
  unfold placeConsumable.
  destruct isBoss; [exists []; rewrite app_nil_r; simpl; auto |].
  unfold bind, ret, rng. destruct (mulberry32 a) as [p a1].
  destruct (lessThan p 3 10); [| exists []; rewrite app_nil_r; simpl; auto].
  destruct (pickItemLocation (snd st) a1) as [r a2].
  destruct (fst r) as [spot |]; [| exists []; rewrite app_nil_r; simpl; auto].
  destruct (mulberry32 a2) as [rand a3].
  pose proof (mulberry32_range a3) as R. destruct (mulberry32 a3) as [n a4]. cbn [fst] in R.
  pose proof (item_id_range n R) as Hid.
  eexists [_]. cbn [fst]. split; [reflexivity |]. split; [simpl; lia |].
  split; [discriminate |]. constructor; [| constructor].
  cbn [itemOn Item.type Item.isUnlimited Item.id Item.w Item.h].
  destruct (lessThan rand 1 2); auto.
Qed.

Lemma filter_all {A} (f : A -> bool) (l : list A) :
  Forall (fun v => f v = true) l -> filter f l = l.
Proof.
  induction 1 as [| v l Hv _ IH]; [reflexivity |]. simpl. rewrite Hv, IH. reflexivity.
Qed.

Lemma filter_none {A} (f : A -> bool) (l : list A) :
  Forall (fun v => f v = false) l -> filter f l = [].
Proof.
  induction 1 as [| v l Hv _ IH]; [reflexivity |]. simpl. rewrite Hv, IH. reflexivity.
Qed.

(** The items of one room: the special items assigned to it, in order,
    then at most one consumable. *)
Lemma roomItems_spec (size : Size.t) (isBoss : bool) (special : list ItemType)
    (reachable : list Pt) (a : Z) :
  let items := fst (fst (roomItems size isBoss special reachable a)) in
  specialTypes items = special /\
  (length (consumables items) <= 1)%nat /\
  (isBoss = true -> consumables items = []) /\
  Forall (fun it => 0 <= Item.id it < 100000 /\ Item.w it = 24 /\ Item.h it = 24 /\
                    (Item.isUnlimited it = true ->
                     Item.type it = pizza \/ Item.type it = soda)) items.
Proof.
  cbv zeta. unfold roomItems, bind.
  destruct (foldM_placeSpecial size special ([], reachable) a) as [new [E [Hm Hf]]].
  destruct (foldM (placeSpecial size) special ([], reachable) a) as [st a1].
  cbn [fst] in E. simpl in E.
  destruct (placeConsumable_adds isBoss st a1) as [extra [E1 [Hl [Hb Hx]]]].
  rewrite E1, E.
  assert (F1 : filter (fun i => negb (Item.isUnlimited i)) new = new).
  { apply filter_all. eapply Forall_impl; [| exact Hf]. intros it [H _]. rewrite H. reflexivity. }
  assert (F2 : filter (fun i => negb (Item.isUnlimited i)) extra = []).
  { apply filter_none. eapply Forall_impl; [| exact Hx]. intros it [H _]. rewrite H. reflexivity. }
  assert (F3 : filter Item.isUnlimited new = []).
  { apply filter_none. eapply Forall_impl; [| exact Hf]. intros it [H _]. exact H. }
  assert (F4 : filter Item.isUnlimited extra = extra).
  { apply filter_all. eapply Forall_impl; [| exact Hx]. intros it [H _]. exact H. }
  unfold specialTypes, consumables. rewrite !filter_app, F1, F2, F3, F4, app_nil_r.
  split; [exact Hm |]. split; [exact Hl |]. split; [exact Hb |].
  apply Forall_app. split.
  - eapply Forall_impl; [| exact Hf]. intros it [H1 [H2 [H3 H4]]].
    repeat split; try assumption; try lia. intros C. congruence.
  - eapply Forall_impl; [| exact Hx]. intros it [H1 [H2 [H3 [H4 H5]]]].
    repeat split; try assumption; try lia. intros _. exact H2.
Qed.

(** [generateBuilding], with the distribution of the items it used. *)
Lemma generateBuilding_items (buildingId difficulty : Z) (theme : Theme) (rootSeed : Z)
    (assignedSpecialItems : list ItemType) :
  exists b g a1,
    let n := numRoomsOf difficulty in
    let ids := roomIdsForItems n (Placement.roomPositions g) in
    generateBuilding buildingId difficulty theme rootSeed assignedSpecialItems = Some b /\
    GridInv n g /\
    Forall2 (MadeFrom n (fst (distribute ids assignedSpecialItems a1)) g)
            (Placement.roomPositions g) (Building.rooms b).
Proof.
  unfold generateBuilding. cbv zeta.
  set (n := numRoomsOf difficulty).
  destruct (gridPhase_ok n (rootSeed + buildingId * 777) (numRoomsOf_ge2 difficulty))
    as [g [a1 [Eg I]]].
  unfold bindB at 1. rewrite Eg.
  unfold bindB at 1. unfold lift at 1.
  destruct (distribute (roomIdsForItems n (Placement.roomPositions g)) assignedSpecialItems a1)
    as [ipr a2] eqn:Ed.
  destruct (forEachB_ok (makeRoom n ipr g) (MadeFrom n ipr g) (Placement.roomPositions g)
              (fun v Hv => makeRoom_ok n ipr g v I Hv) a2) as [rooms [a3 [Er Hr]]].
  unfold bindB. rewrite Er. cbn [retB].
  eexists. exists g, a1. split; [reflexivity |]. split; [exact I |].
  rewrite Ed. exact Hr.
Qed.

Lemma roomIdsForItems_spec (n : Z) (g : Placement.t) :
  GridInv n g -> 2 <= n ->
  let ids := roomIdsForItems n (Placement.roomPositions g) in
  ids <> [] /\ incl ids (upto n) /\
  (2 < n -> forall id, In id ids -> id <> 0 /\ id <> n - 1).
Proof.
  intros I Hn. cbv zeta. unfold roomIdsForItems. rewrite (inv_ids n g I).
  remember (filter (fun id => negb (id =? 0) && negb (id =? n - 1)) (upto n)) as ids eqn:Eids.
  assert (Hin : forall id, In id ids -> 0 <= id < n /\ id <> 0 /\ id <> n - 1).
  { intros id H. rewrite Eids in H. apply filter_In in H. destruct H as [H1 H2].
    apply in_upto in H1. rewrite andb_true_iff, !negb_true_iff, !Z.eqb_neq in H2. tauto. }
  assert (H1n : 2 < n -> In 1 ids).
  { intros H2. rewrite Eids. apply filter_In. split; [apply in_upto; lia |].
    rewrite andb_true_iff, !negb_true_iff, !Z.eqb_neq. lia. }
  destruct (len ids =? 0) eqn:E.
  - apply Z.eqb_eq in E. unfold len in E. destruct ids as [| e ids]; [| simpl in E; lia].
    split; [discriminate |]. split.
    + intros id [<- | []]. apply in_upto. lia.
    + intros H2. destruct (H1n H2).
  - split.
    + intros C. rewrite C in E. discriminate.
    + split; [intros id H; apply in_upto; apply Hin; exact H |].
      intros _ id H. apply Hin. exact H.
Qed.

Lemma Forall2_flat_map {A B C} (P : A -> B -> Prop) (f : A -> list C) (h : B -> list C)
    (l : list A) (m : list B) :
  Forall2 P l m -> (forall u v, P u v -> f u = h v) -> flat_map f l = flat_map h m.
Proof.
  intros F H. induction F as [| u v l m Huv _ IH]; [reflexivity |].
  simpl. rewrite (H u v Huv), IH. reflexivity.
Qed.

Lemma flat_map_map {A B C} (f : A -> B) (h : B -> list C) (l : list A) :
  flat_map h (map f l) = flat_map (fun v => h (f v)) l.
Proof.
  induction l as [| e l IH]; [reflexivity |]. simpl. rewrite IH. reflexivity.
Qed.

(** X7.  No assigned special item is lost or doubled: the special items
    placed in the rooms of a generated building are, as a multiset of
    types, exactly the items assigned to the building.  With more than
    two rooms they lie in rooms other than the start room and the boss
    room.  Besides them a room holds at most one random consumable, a
    pizza or a soda, and the boss room none; every item is 24 x 24 and has
    an id in [0, 100000). *)
Theorem special_items_all_placed :
  forall (buildingId difficulty : Z) (theme : Theme) (rootSeed : Z)
         (assignedSpecialItems : list ItemType),
  exists b,
    generateBuilding buildingId difficulty theme rootSeed assignedSpecialItems = Some b /\
    Permutation (flat_map (fun r => specialTypes (Room.items r)) (Building.rooms b))
                assignedSpecialItems /\
    forall r, In r (Building.rooms b) ->
      (2 < len (Building.rooms b) -> specialTypes (Room.items r) <> [] ->
       Room.id r <> Building.startRoomId b /\ Room.type r = normal) /\
      (length (consumables (Room.items r)) <= 1)%nat /\
      (Room.type r = boss -> consumables (Room.items r) = []) /\
      forall it, In it (Room.items r) ->
        0 <= Item.id it < 100000 /\ Item.w it = 24 /\ Item.h it = 24 /\
        (Item.isUnlimited it = true -> Item.type it = pizza \/ Item.type it = soda).
Proof.
  intros buildingId difficulty theme rootSeed items.
  destruct (generateBuilding_items buildingId difficulty theme rootSeed items)
    as [b [g [a1 H]]]. cbv zeta in H. destruct H as [E [I F]].
  set (n := numRoomsOf difficulty) in *.
  set (ids := roomIdsForItems n (Placement.roomPositions g)) in *.
  set (ipr := fst (distribute ids items a1)) in *.
  pose proof (numRoomsOf_ge2 difficulty) as Hn. fold n in Hn.
  destruct (roomIdsForItems_spec n g I Hn) as [Hne [Hincl Hmid]]. fold ids in Hne, Hincl, Hmid.
  destruct (distribute_assigned ids items a1 Hne) as [Hout Hperm]. fold ipr in Hout, Hperm.
  assert (Hroom : forall pos r, MadeFrom n ipr g pos r ->
            Room.id r = Pos.id pos /\
            Room.type r = (if Pos.id pos =? n - 1 then boss else normal) /\
            exists reachable a,
              Room.items r
              = fst (fst (roomItems {| Size.w := Room.width r; Size.h := Room.height r |}
                                    (Pos.id pos =? n - 1) (ipr (Some (Pos.id pos)))
                                    reachable a))).
  { intros pos r [seed [size [doors [_ [_ [_ M]]]]]]. cbv zeta in M.
    destruct M as [Rid [_ [_ [Rw [Rh [_ [_ [Rt [_ [Ri _]]]]]]]]]].
    split; [exact Rid |]. split; [exact Rt |].
    rewrite Rw, Rh. destruct size as [w h]. eexists. eexists. exact Ri. }
  exists b. split; [exact E |]. split.
  - rewrite <- (Forall2_flat_map _ (fun pos => ipr (Some (Pos.id pos))) _ _ _ F).
    + rewrite <- (flat_map_map Pos.id (fun id => ipr (Some id))), (inv_ids n g I).
      apply Hperm; [apply NoDup_upto | exact Hincl].
    + intros pos r M. destruct (Hroom pos r M) as [_ [_ [reachable [a Ei]]]].
      rewrite Ei. symmetry. apply roomItems_spec.
  - intros r Hr.
    destruct (Forall2_In_r _ _ _ r F Hr) as [pos [Hpos M]].
    destruct (Hroom pos r M) as [Rid [Rt [reachable [a Ei]]]].
    pose proof (roomItems_spec {| Size.w := Room.width r; Size.h := Room.height r |}
                  (Pos.id pos =? n - 1) (ipr (Some (Pos.id pos))) reachable a) as S.
    cbv zeta in S. rewrite <- Ei in S. destruct S as [S1 [S2 [S3 S4]]].
    split; [| split; [exact S2 | split]].
    + intros Hlen Hsp.
      assert (Hn2 : 2 < n).
      { unfold len in Hlen. rewrite <- (length_map Room.id), (rooms_ids _ ipr g _ I F) in Hlen.
        unfold upto in Hlen. rewrite length_map, length_seq in Hlen. lia. }
      assert (Hin : In (Pos.id pos) ids).
      { destruct (in_dec Z.eq_dec (Pos.id pos) ids) as [Y | N]; [exact Y |].
        exfalso. apply Hsp. rewrite S1. apply Hout.
        intros id Hid C. inversion C. subst id. contradiction. }
      destruct (Hmid Hn2 _ Hin) as [H0 Hb].
      destruct (generateBuilding_ok buildingId difficulty theme rootSeed items)
        as [b' [_ [_ [E' [_ [_ [Hs _]]]]]]].
      rewrite E in E'. inversion E'; subst b'. rewrite Hs.
      split; [congruence |]. rewrite Rt.
      destruct (Pos.id pos =? n - 1) eqn:Eb; [apply Z.eqb_eq in Eb; contradiction | reflexivity].
    + intros Hb. apply S3. rewrite Rt in Hb.
      destruct (Pos.id pos =? n - 1); [reflexivity | discriminate].
    + intros it Hit. rewrite Forall_forall in S4. apply S4. exact Hit.
Qed.

(** ** The samplers *)



Lemma splice1_length {A} (idx : Z) (l : list A) :
  0 <= idx < len l -> (S (length (splice1 idx l)) = length l)%nat.
Proof.
  intros H. unfold splice1, len in *.
  destruct (idx <? 0) eqn:E; [apply Z.ltb_lt in E; lia |].
  rewrite length_app, length_firstn, length_skipn. lia.
Qed.

(** X9.  [pickItemLocation] on an empty list returns [null] without
    drawing; on a non-empty list it always returns a tile, the one at
    some index of the list, and the list it leaves is the old one with
    exactly that position spliced out. *)
Theorem pickItemLocation_splices :
  forall (reachableTiles : list Pt) (a : Z),
    let r := pickItemLocation reachableTiles a in
    match reachableTiles with
    | [] => r = (None, [], a)
    | _ :: _ =>
        exists i spot,
          nth_error reachableTiles i = Some spot /\
          fst (fst r) = Some spot /\
          snd (fst r) = firstn i reachableTiles ++ skipn (S i) reachableTiles /\
          S (length (snd (fst r))) = length reachableTiles
    end.
Proof.
  intros pool a. cbv zeta. destruct pool as [| p pool]; [reflexivity |].
  unfold pickItemLocation.
  set (l := p :: pool).
  assert (Hl : 0 < len l) by (unfold len, l; simpl length; lia).
  destruct (len l =? 0) eqn:E; [apply Z.eqb_eq in E; lia |].
  unfold bind, ret.
  pose proof (getSeededInt_range 0 (len l - 1) a ltac:(lia)) as R.
  destruct (getSeededInt 0 (len l - 1) a) as [idx a1]. cbn [fst snd] in *.
  destruct (index_Some l idx ltac:(lia)) as [spot [Es _]].
  exists (Z.to_nat idx), spot.
  split; [unfold index in Es; destruct (idx <? 0); [discriminate | exact Es] |].
  split; [exact Es |]. split.
  - unfold splice1. destruct (idx <? 0) eqn:E1; [apply Z.ltb_lt in E1; lia | reflexivity].
  - apply splice1_length. lia.
Qed.

(** ** The deal of the special items over the world map *)

Lemma setNth_perm {A} (l : list A) :
  forall (i : nat) (u v : A),
    nth_error l i = Some u -> Permutation (v :: l) (u :: setNth i v l).
Proof.
  induction l as [| e l IH]; intros i u v H; [destruct i; discriminate |].
  destruct i as [| i]; simpl in *.
  - inversion H; subst. apply perm_swap.
  - etransitivity; [apply perm_swap |].
    etransitivity; [apply perm_skip, (IH i u v H) |]. apply perm_swap.
Qed.

Lemma nth_error_setNth_same {A} (l : list A) :
  forall (i : nat) (u v : A), nth_error l i = Some u -> nth_error (setNth i v l) i = Some v.
Proof.
  induction l as [| e l IH]; intros i u v H; [destruct i; discriminate |].
  destruct i as [| i]; simpl in *; [reflexivity | eapply IH; exact H].
Qed.

Lemma nth_error_setNth_other {A} (l : list A) :
  forall (i j : nat) (v : A), i <> j -> nth_error (setNth i v l) j = nth_error l j.
Proof.
  induction l as [| e l IH]; intros i j v H; [destruct i; reflexivity |].
  destruct i as [| i], j as [| j]; simpl; try reflexivity; [contradiction |].
  apply IH. congruence.
Qed.

Lemma swap_perm {A} (i j : nat) (l : list A) : Permutation (swap i j l) l.
Proof.
  unfold swap. destruct (nth_error l i) as [u |] eqn:Ei; [| reflexivity].
  destruct (nth_error l j) as [v |] eqn:Ej; [| reflexivity].
  assert (Ej1 : nth_error (setNth i v l) j = Some v).
  { destruct (Nat.eq_dec i j) as [-> | N].
    - eapply nth_error_setNth_same. exact Ei.
    - rewrite nth_error_setNth_other by exact N. exact Ej. }
  pose proof (setNth_perm l i u v Ei) as P1.
  pose proof (setNth_perm (setNth i v l) j v u Ej1) as P2.
  apply Permutation_cons_inv with (a := v).
  etransitivity; [symmetry; exact P2 |]. symmetry. exact P1.
Qed.

(** The shuffle is a permutation, whatever [Math.random] returns. *)
Lemma shuffle_perm (i : nat) :
  forall pool o c, Permutation (fst (shuffle i pool o c)) pool.
Proof.
  induction i as [| i IH]; intros pool o c; [reflexivity |].
  cbn [shuffle]. unfold bindR.
  destruct (randomBelow (Z.of_nat (S i) + 1) o c) as [j c1].
  etransitivity; [apply IH | apply swap_perm].
Qed.

(** The candidates for the key are the seven nodes before the last column. *)
Lemma placeKey_cases (o : Oracle) (c : nat) :
  let bs := standardColumns columnsConfig 0 0 ++ [hiddenNode] in
  exists j, In j [0; 1; 2; 3; 4; 5; 6]%nat /\ fst (placeKey bs o c) = pushAt j key bs.
Proof.
  cbv zeta. rewrite initial_nodes. unfold placeKey.
  set (bs := [standardNode 0 0 0; _; _; _; _; _; _; _; hiddenNode]).
  assert (Hc : keyCandidates bs = [0; 1; 2; 3; 4; 5; 6]%nat) by reflexivity.
  rewrite Hc. change (len [0; 1; 2; 3; 4; 5; 6]%nat) with 7.
  change (7 >? 0) with true. cbv iota. unfold bindR.
  pose proof (randomBelow_range 7 o c ltac:(lia)) as R.
  destruct (randomBelow 7 o c) as [kIdx c1]. simpl in R.
  destruct (index_Some [0; 1; 2; 3; 4; 5; 6]%nat kIdx) as [i [Ei Hi]];
    [unfold len; simpl; lia |].
  rewrite Ei. unfold retR. cbn [fst]. exists i. auto.
Qed.

(** An explicit list is a permutation of another: the head is looked for
    by turning the other list. *)
Ltac perm_explicit :=
  lazymatch goal with
  | |- Permutation [] [] => constructor
  | |- Permutation (?a :: _) (?a :: _) => apply perm_skip; perm_explicit
  | |- Permutation (?a :: _) (?b :: ?r) =>
      transitivity (r ++ [b]);
      [cbn [app]; perm_explicit | symmetry; apply Permutation_cons_append]
  end.

(** The world map, in full. *)
Lemma generateWorldMap_deal :
  forall (o : Oracle) (c : nat),
  exists m,
    generateWorldMap o c = (Some m, (c + 15)%nat) /\
    map Node.id m = [0; 1; 2; 3; 4; 5; 6; 7; HIDDEN_BUILDING_ID] /\
    map Node.column m = [0; 1; 1; 2; 2; 3; 3; 4; -1] /\
    map Node.locked m = [false; true; true; true; true; true; true; true; true] /\
    map Node.hidden m = [false; false; false; false; false; false; false; false; true] /\
    Permutation (flat_map Node.specialItems m) (key :: initialPool) /\
    forall b, In b m ->
      if Node.id b =? HIDDEN_BUILDING_ID then Node.specialItems b = []
      else if Node.id b =? 7 then length (poolItems b) = 1%nat
           else length (poolItems b) = 2%nat.
Proof.
  intros o c. unfold generateWorldMap, bindR.
  pose proof (shuffle_spec (length initialPool - 1) initialPool o c) as [Hl _].
  pose proof (shuffle_perm (length initialPool - 1) initialPool o c) as Hp.
  assert (Hc : snd (shuffle (length initialPool - 1) initialPool o c) = (c + 14)%nat).
  { clear. change (length initialPool - 1)%nat with 14%nat.
    generalize initialPool. intros pool.
    do 14 (cbn [shuffle]; unfold bindR, randomBelow; cbn [fst snd]).
    cbn [shuffle retR snd]. lia. }
  destruct (shuffle (length initialPool - 1) initialPool o c) as [pool c1].
  cbn [fst snd] in Hl, Hp, Hc. subst c1.
  assert (Hk : Forall (fun t => isKey t = false) pool).
  { apply Forall_forall. intros t Ht. apply initialPool_no_key.
    apply (Permutation_in t Hp Ht). }
  destruct (placeKey_cases o (c + 14)%nat) as [j [Hj Ej]]. cbv zeta in Ej.
  assert (Hc2 : snd (placeKey (standardColumns columnsConfig 0 0 ++ [hiddenNode]) o (c + 14)%nat)
                = (c + 15)%nat).
  { clear. rewrite initial_nodes. unfold placeKey.
    set (bs := [standardNode 0 0 0; _; _; _; _; _; _; _; hiddenNode]).
    assert (Hc : keyCandidates bs = [0; 1; 2; 3; 4; 5; 6]%nat) by reflexivity.
    rewrite Hc. change (len [0; 1; 2; 3; 4; 5; 6]%nat) with 7.
    change (7 >? 0) with true. cbv iota. unfold bindR, randomBelow.
    destruct (index _ _); unfold retR; cbn [snd]; lia. }
  destruct (placeKey (standardColumns columnsConfig 0 0 ++ [hiddenNode]) o (c + 14)%nat)
    as [withKey c2].
  cbn [fst snd] in Ej, Hc2. subst c2 withKey. unfold retR.
  do 16 (destruct pool as [| ? pool]; [simpl in Hl; try discriminate Hl |]);
    [| simpl in Hl; discriminate Hl].
  repeat match goal with
         | H : Forall _ (_ :: _) |- _ => inversion H; clear H; subst
         end.
  simpl in Hj.
  repeat (destruct Hj as [<- | Hj];
    [ eexists; split; [vm_compute; reflexivity |];
      split; [reflexivity |]; split; [reflexivity |]; split; [reflexivity |];
      split; [reflexivity |]; split;
      [ etransitivity; [| apply perm_skip; exact Hp]; cbn; perm_explicit
      | intros b Hb; simpl in Hb;
        repeat (destruct Hb as [<- | Hb];
                [ unfold poolItems; cbn [Node.id Node.specialItems Z.eqb Pos.eqb];
                  cbn; repeat match goal with H : isKey _ = false |- _ => rewrite H end;
                  reflexivity |]);
        destruct Hb ] |]).
  destruct Hj.
Qed.

(** X10.  [generateWorldMap] deals out every special item, whatever
    [Math.random] returns (it is called 15 times).  The map has the nine
    nodes 0..7 and 999 in the columns 0,1,1,2,2,3,3,4 and -1; only node 0
    starts unlocked and only node 999 is hidden.  The special items of
    all nodes together are exactly the items of [GLOBAL_ITEM_LIMITS]
    (3 pizza boxes, 3 soda carriers, 2 roller skates, 2 cookie bags,
    5 files, 1 key), none lost and none doubled.  The round robin gives
    two pool items to each of the nodes 0..6, one to node 7 and none to
    the hidden node. *)
Theorem generateWorldMap_deals_all_items :
  forall (o : Oracle) (c : nat),
  exists m,
    generateWorldMap o c = (Some m, (c + 15)%nat) /\
    map Node.id m = [0; 1; 2; 3; 4; 5; 6; 7; HIDDEN_BUILDING_ID] /\
    map Node.column m = [0; 1; 1; 2; 2; 3; 3; 4; -1] /\
    map Node.locked m = [false; true; true; true; true; true; true; true; true] /\
    map Node.hidden m = [false; false; false; false; false; false; false; false; true] /\
    Permutation (flat_map Node.specialItems m) (key :: initialPool) /\
    forall b, In b m ->
      if Node.id b =? HIDDEN_BUILDING_ID then Node.specialItems b = []
      else if Node.id b =? 7 then length (poolItems b) = 1%nat
           else length (poolItems b) = 2%nat.
Proof. exact generateWorldMap_deal. Qed.

(** ** The input handlers *)

Lemma Qltb_lt (a b : Q) : Qltb a b = true <-> (a < b)%Q.
Proof. unfold Qltb, Qlt. apply Z.ltb_lt. Qed.

Lemma keyIs_cases (k a b : String.string) : keyIs k a b = true -> k = a \/ k = b.
Proof.
  unfold keyIs. rewrite orb_true_iff, !String.eqb_eq. tauto.
Qed.

Lemma up_not_down (k : String.string) : isUpKey k = true -> isDownKey k = false.
Proof. intros H. apply keyIs_cases in H. destruct H as [-> | ->]; reflexivity. Qed.

Lemma down_not_up (k : String.string) : isDownKey k = true -> isUpKey k = false.
Proof. intros H. apply keyIs_cases in H. destruct H as [-> | ->]; reflexivity. Qed.

Lemma left_not_right (k : String.string) : isLeftKey k = true -> isRightKey k = false.
Proof. intros H. apply keyIs_cases in H. destruct H as [-> | ->]; reflexivity. Qed.

Lemma right_not_left (k : String.string) : isRightKey k = true -> isLeftKey k = false.
Proof. intros H. apply keyIs_cases in H. destruct H as [-> | ->]; reflexivity. Qed.

Ltac axis_cases :=
  repeat match goal with
         | |- context [Qeq_bool ?a ?b] =>
             let E := fresh "E" in
             destruct (Qeq_bool a b) eqn:E;
             [apply Qeq_bool_iff in E | apply Qeq_bool_neq in E]
         end.

Ltac input_cbn :=
  cbn [withInputX withInputY withFire withBomb Input.x Input.y Input.fire Input.bomb andb]
    in *.

(** Two values of one axis that differ. *)
Ltac axis_absurd :=
  exfalso;
  match goal with
  | E1 : (?a == ?b)%Q, E2 : (?a == ?c)%Q |- _ =>
      rewrite E1 in E2; vm_compute in E2; discriminate E2
  | E : ~ (?a == ?a)%Q |- _ => apply E; reflexivity
  | E : (_ == _)%Q |- _ => vm_compute in E; discriminate E
  end.

Ltac axis_done :=
  first [ reflexivity | assumption
        | left; reflexivity | right; left; reflexivity | right; right; reflexivity
        | axis_absurd ].

(** Every case of the bound keys; the keys of two directions differ. *)
Ltac key_cases k :=
  unfold handleKeyUp, handleKeyDown; cbv zeta;
  let U := fresh "U" in let D := fresh "D" in let L := fresh "L" in
  let R := fresh "R" in
  destruct (isUpKey k) eqn:U, (isDownKey k) eqn:D;
  try (rewrite (up_not_down k U) in D; discriminate D);
  destruct (isLeftKey k) eqn:L, (isRightKey k) eqn:R;
  try (rewrite (left_not_right k L) in R; discriminate R);
  destruct (isFireKey k), (isBombKey k);
  input_cbn; axis_cases; input_cbn; axis_cases; input_cbn.

Lemma press_release (k : String.string) (i : Input.t) :
  let j := handleKeyUp k (handleKeyDown k i) in
  (isUpKey k || isDownKey k = true -> Input.y j == 0)%Q /\
  (isLeftKey k || isRightKey k = true -> Input.x j == 0)%Q /\
  (isFireKey k = true -> Input.fire j = false) /\
  (isBombKey k = true -> Input.bomb j = false).
Proof.
  cbv zeta. repeat split; intros H; revert H; key_cases k; intros H;
    try discriminate H; axis_done.
Qed.

Lemma release_keeps_opposite (k : String.string) (i : Input.t) :
  (isUpKey k = true -> (Input.y i == 1)%Q -> (Input.y (handleKeyUp k i) == 1)%Q) /\
  (isDownKey k = true -> (Input.y i == -1)%Q -> (Input.y (handleKeyUp k i) == -1)%Q) /\
  (isLeftKey k = true -> (Input.x i == 1)%Q -> (Input.x (handleKeyUp k i) == 1)%Q) /\
  (isRightKey k = true -> (Input.x i == -1)%Q -> (Input.x (handleKeyUp k i) == -1)%Q).
Proof.
  repeat split; intros H Hv; revert H; key_cases k; intros H;
    try discriminate H; axis_done.
Qed.

Lemma keys_keep_unit (k : String.string) (i : Input.t) :
  unitAxis (Input.x i) -> unitAxis (Input.y i) ->
  unitAxis (Input.x (handleKeyDown k i)) /\ unitAxis (Input.y (handleKeyDown k i)) /\
  unitAxis (Input.x (handleKeyUp k i)) /\ unitAxis (Input.y (handleKeyUp k i)).
Proof.
  intros Hx Hy. unfold unitAxis in *. repeat split; key_cases k; axis_done.
Qed.

Lemma unbound_key (k : String.string) (i : Input.t) :
  isUpKey k || isDownKey k || isLeftKey k || isRightKey k || isFireKey k || isBombKey k
  = false -> handleKeyDown k i = i /\ handleKeyUp k i = i.
Proof.
  intros H. rewrite !orb_false_iff in H. destruct H as [[[[[U D] L] R] F] B].
  unfold handleKeyDown, handleKeyUp. rewrite U, D, L, R, F, B. split; reflexivity.
Qed.

Lemma joystick_dead_zone (x y : Q) (i : Input.t) :
  let j := handleJoystick x y i in
  (Input.x j = 0%Q /\ (Qabs x < 1 # 10)%Q \/ Input.x j = x /\ ~ (Qabs x < 1 # 10)%Q) /\
  (Input.y j = 0%Q /\ (Qabs y < 1 # 10)%Q \/ Input.y j = y /\ ~ (Qabs y < 1 # 10)%Q) /\
  Input.fire j = Input.fire i /\ Input.bomb j = Input.bomb i.
Proof.
  cbv zeta. unfold handleJoystick. input_cbn.
  split; [| split; [| split; reflexivity]].
  - destruct (Qltb (Qabs x) (1 # 10)) eqn:E.
    + left. split; [reflexivity | apply Qltb_lt; exact E].
    + right. split; [reflexivity |]. intros C. apply Qltb_lt in C. congruence.
  - destruct (Qltb (Qabs y) (1 # 10)) eqn:E.
    + left. split; [reflexivity | apply Qltb_lt; exact E].
    + right. split; [reflexivity |]. intros C. apply Qltb_lt in C. congruence.
Qed.

(** X11.  The input handlers.  Pressing and then releasing a key leaves
    its axis at 0 and its button off; releasing a direction key does not
    cancel the opposite direction that is held (the axis is reset only if
    it still shows the direction of the released key); an axis that holds
    -1, 0 or 1 still does after any key event; a key that is not bound
    changes nothing.  The joystick handler stores 0 for a deflection
    under one tenth and the deflection itself otherwise, and leaves the
    buttons alone. *)
Theorem input_handlers :
  forall (k : String.string) (i : Input.t),
    (let j := handleKeyUp k (handleKeyDown k i) in
     (isUpKey k || isDownKey k = true -> Input.y j == 0)%Q /\
     (isLeftKey k || isRightKey k = true -> Input.x j == 0)%Q /\
     (isFireKey k = true -> Input.fire j = false) /\
     (isBombKey k = true -> Input.bomb j = false)) /\
    ((isUpKey k = true -> (Input.y i == 1)%Q -> (Input.y (handleKeyUp k i) == 1)%Q) /\
     (isDownKey k = true -> (Input.y i == -1)%Q -> (Input.y (handleKeyUp k i) == -1)%Q) /\
     (isLeftKey k = true -> (Input.x i == 1)%Q -> (Input.x (handleKeyUp k i) == 1)%Q) /\
     (isRightKey k = true -> (Input.x i == -1)%Q -> (Input.x (handleKeyUp k i) == -1)%Q)) /\
    (unitAxis (Input.x i) -> unitAxis (Input.y i) ->
     unitAxis (Input.x (handleKeyDown k i)) /\ unitAxis (Input.y (handleKeyDown k i)) /\
     unitAxis (Input.x (handleKeyUp k i)) /\ unitAxis (Input.y (handleKeyUp k i))) /\
    (isUpKey k || isDownKey k || isLeftKey k || isRightKey k || isFireKey k || isBombKey k
     = false -> handleKeyDown k i = i /\ handleKeyUp k i = i) /\
    (forall x y : Q,
       let j := handleJoystick x y i in
       (Input.x j = 0%Q /\ (Qabs x < 1 # 10)%Q \/ Input.x j = x /\ ~ (Qabs x < 1 # 10)%Q) /\
       (Input.y j = 0%Q /\ (Qabs y < 1 # 10)%Q \/ Input.y j = y /\ ~ (Qabs y < 1 # 10)%Q) /\
       Input.fire j = Input.fire i /\ Input.bomb j = Input.bomb i).
Proof.
  intros k i.
  split; [apply press_release |].
  split; [apply release_keeps_opposite |].
  split; [apply keys_keep_unit |].
  split; [apply unbound_key |].
  intros x y. apply joystick_dead_zone.
Qed.

(** ** The ending sequence *)

(** X12.  The pages of the ending, from page 0 on.  The first page
    depends on the key only.  With the hidden building not cleared its
    button returns to the title screen at once: the page on the files is
    never shown.  With the hidden building cleared the pages Savior and
    then the page on the files follow, and the Nobel page after them
    exactly when five files were collected; the last page returns to the
    title screen. *)
Theorem ending_pages_shown :
  forall (worldMap : list Node.t) (playerStats : Stats.t),
    endingPages 3 worldMap playerStats 0
    = let first := if Stats.keys playerStats >? 0 then EscapedTogether else EscapedAlone in
      if hiddenCleared worldMap then
        if Stats.files playerStats >=? 5
        then ([first; Savior; TruthExposed; NobelPeacePrize], true)
        else ([first; Savior; IslandRemains], true)
      else ([first], true).
Proof.
  intros worldMap playerStats. cbv zeta.
  unfold endingPages, getEndingContent, endingClick. cbv zeta.
  destruct (hiddenCleared worldMap), (Stats.files playerStats >=? 5); reflexivity.
Qed.

(** ** The frame update keeps the session in order *)

Lemma Core_view (s s' : Session.t) : coreView s' = coreView s -> Core s -> Core s'.
Proof.
  unfold coreView. intros E C. inversion E as [[E1 E2 E3 E4 E5 E6 E7]].
  destruct C as [C1 C2 C3 C4 C5 C6 C7].
  constructor; rewrite ?E1, ?E2, ?E3, ?E4, ?E5, ?E6, ?E7; assumption.
Qed.

Lemma checkWall_defined (r : Room.t) (x y : Q) :
  gridTotal r -> exists hit, checkWallCollision x y r = Some hit.
Proof.
  intros G. unfold checkWallCollision, wallAt.
  destruct ((tileOf y <? 0) || (tileOf y >=? Room.height r) || (tileOf x <? 0)
            || (tileOf x >=? Room.width r)) eqn:E; [eexists; reflexivity |].
  rewrite !orb_false_iff in E. destruct E as [[[E1 E2] E3] E4].
  apply Z.ltb_ge in E1, E3. rewrite Z.geb_leb in E2, E4. apply Z.leb_gt in E2, E4.
  specialize (G (tileOf x) (tileOf y) ltac:(lia) ltac:(lia)).
  destruct (tileAt (Layout.grid (Room.layout r)) (tileOf x) (tileOf y)) as [t |];
    [| contradiction].
  destruct (Tile.type t); [eexists; reflexivity | |];
    destruct (isBossRoomType (Room.type r) && (tileOf y =? 0)
              && (tileOf x =? Room.width r / 2 + 2)); eexists; reflexivity.
Qed.

Lemma updateRoom_ids (roomId : Z) (f : Room.t -> Room.t) (rooms : list Room.t) :
  Cosmetic f -> map Room.id (updateRoom roomId f rooms) = map Room.id rooms.
Proof.
  intros Hf. induction rooms as [| r rooms IH]; [reflexivity |].
  cbn [updateRoom]. destruct (Room.id r =? roomId); simpl.
  - destruct (Hf r) as [E _]. rewrite E. reflexivity.
  - rewrite IH. reflexivity.
Qed.

Lemma updateRoom_In (roomId : Z) (f : Room.t -> Room.t) (rooms : list Room.t) (r' : Room.t) :
  In r' (updateRoom roomId f rooms) -> In r' rooms \/ exists r, In r rooms /\ r' = f r.
Proof.
  induction rooms as [| r rooms IH]; [intros [] |].
  cbn [updateRoom]. destruct (Room.id r =? roomId); simpl.
  - intros [<- | H]; [right; exists r; auto | auto].
  - intros [<- | H]; [auto |]. destruct (IH H) as [H1 | [q [Hq E]]]; [auto |].
    right. exists q. auto.
Qed.

Lemma inBuilding_ok (roomId : Z) (f : Room.t -> Room.t) (b : Building.t) :
  Cosmetic f -> BuildingOK b ->
  BuildingOK (inBuilding roomId f b) /\
  map Room.id (Building.rooms (inBuilding roomId f b)) = map Room.id (Building.rooms b).
Proof.
  intros Hf Hb. unfold inBuilding, BuildingOK. cbn [Building.rooms].
  split; [| apply updateRoom_ids; exact Hf].
  intros r' Hr'. rewrite updateRoom_ids by exact Hf.
  apply updateRoom_In in Hr'. destruct Hr' as [Hr | [r [Hr ->]]]; [apply Hb; exact Hr |].
  destruct (Hb r Hr) as [G D]. destruct (Hf r) as [_ [Ew [Eh [El [Ed _]]]]].
  split.
  - unfold gridTotal. rewrite Ew, Eh, El. exact G.
  - rewrite Ed. exact D.
Qed.

Lemma Cosmetic_setCleared : Cosmetic setCleared.
Proof. intros r. repeat split. Qed.

Lemma Cosmetic_setExplored : Cosmetic setExplored.
Proof. intros r. repeat split. Qed.

Lemma Cosmetic_setItems (its : Room.t -> list Item.t) : Cosmetic (fun r => setItems (its r) r).
Proof. intros r. repeat split. Qed.

Lemma findRoom_found (b : Building.t) (v : Z) :
  In v (map Room.id (Building.rooms b)) -> exists r, findRoom b v = Some r.
Proof.
  intros H. apply in_map_iff in H. destruct H as [r [E Hr]].
  unfold findRoom. destruct (find (fun q => Room.id q =? v) (Building.rooms b)) as [q |] eqn:F.
  - exists q. reflexivity.
  - exfalso. apply (find_none _ _ F) in Hr. rewrite E, Z.eqb_refl in Hr. discriminate.
Qed.

Lemma findNode_found (m : list Node.t) (v : Z) :
  In v (map Node.id m) <-> exists n, findNode m v = Some n.
Proof.
  unfold findNode. split.
  - intros H. apply in_map_iff in H. destruct H as [n [E Hn]].
    destruct (find (fun q => Node.id q =? v) m) as [q |] eqn:F; [exists q; reflexivity |].
    exfalso. apply (find_none _ _ F) in Hn. rewrite E, Z.eqb_refl in Hn. discriminate.
  - intros [n F]. apply find_some in F. destruct F as [Hn E]. apply Z.eqb_eq in E.
    apply in_map_iff. exists n. auto.
Qed.

Ltac view_eq := unfold coreView; cbn; reflexivity.

Lemma stepPlayer_ok (input : Input.t) (room : Room.t) (s : Session.t) :
  gridTotal room ->
  exists s1, stepPlayer input room s = Ok s1 /\ coreView s1 = coreView s /\
             Game.enemies (Session.g s1) = Game.enemies (Session.g s).
Proof.
  intros G. unfold stepPlayer. cbv zeta.
  destruct (checkWall_defined room
              (Player.x (Game.player (Session.g s))
               + Input.x input * inject_Z (Stats.speed (Session.seenStats s)))%Q
              (Player.y (Game.player (Session.g s))) G) as [hitX EX].
  rewrite EX. cbn [defined andThen].
  match goal with
  | |- context [checkWallCollision ?x ?y room] =>
      destruct (checkWall_defined room x y G) as [hitY EY]; rewrite EY
  end.
  cbn [defined andThen]. eexists. split; [reflexivity |]. split; reflexivity.
Qed.

Lemma fire_view (aim : Q -> Q -> Q * Q) (input : Input.t) (s : Session.t) :
  coreView (fire aim input s) = coreView s /\
  Game.enemies (Session.g (fire aim input s)) = Game.enemies (Session.g s).
Proof.
  unfold fire. cbv zeta.
  destruct (Input.fire input && negb (Qltb 0 (Player.cooldown (Game.player (Session.g s)))));
    split; reflexivity.
Qed.

Lemma bombTick_view (s : Session.t) :
  coreView (bombTick s) = coreView s /\
  Game.enemies (Session.g (bombTick s)) = Game.enemies (Session.g s).
Proof. split; reflexivity. Qed.

Lemma createParticles_fold {A} (l : list A) (s : Session.t) :
  let s' := fold_left (fun acc _ => createParticles acc) l s in
  coreView s' = coreView s /\ Game.enemies (Session.g s') = Game.enemies (Session.g s).
Proof.
  cbv zeta. revert s. induction l as [| v l IH]; intros s; [split; reflexivity |].
  cbn [fold_left]. destruct (IH (createParticles s)) as [E1 E2].
  rewrite E1, E2. split; reflexivity.
Qed.

Lemma bombAttack_core (input : Input.t) (s : Session.t) :
  Core s -> Core (bombAttack input s).
Proof.
  intros C. unfold bombAttack. cbv zeta.
  destruct (Input.bomb input && (Player.bombCooldown (Game.player (Session.g s)) <=? 0));
    [| exact C].
  destruct (Stats.mp (Session.seenStats s) >=? BOMB_COST); [| exact C].
  match goal with
  | |- Core (fold_left _ ?l ?s0) =>
      destruct (createParticles_fold l s0) as [E _]; cbv zeta in E;
      apply (Core_view s0 _ E)
  end.
  destruct C as [[B1 B2] A [b [Eb [Ob Ia]]] N Cs Hi Hc].
  constructor; cbn; auto.
  - split; cbn; unfold BOMB_COST; lia.
  - exists b. auto.
Qed.
Lemma stepProjectile_ok (room : Room.t) (p : Projectile.t) (done : list Projectile.t)
    (s : Session.t) :
  gridTotal room ->
  exists done1 s1, stepProjectile room (Ok (done, s)) p = Ok (done1, s1) /\
                   coreView s1 = coreView s.
Proof.
  intros G. unfold stepProjectile. cbn [andThen]. cbv zeta.
  match goal with
  | |- context [checkWallCollision ?x ?y room] =>
      destruct (checkWall_defined room x y G) as [hit E]; rewrite E
  end.
  cbn [defined andThen].
  destruct (hitEnemies _ _ _) as [[p2 es] hits].
  eexists. eexists. split; reflexivity.
Qed.

Lemma fold_stepProjectile_ok (room : Room.t) (live : list Projectile.t) :
  gridTotal room ->
  forall done s,
  exists done1 s1, fold_left (stepProjectile room) live (Ok (done, s)) = Ok (done1, s1) /\
                   coreView s1 = coreView s.
Proof.
  intros G. induction live as [| p live IH]; intros done s; cbn [fold_left].
  - exists done, s. auto.
  - destruct (stepProjectile_ok room p done s G) as [d1 [s1 [E1 V1]]]. rewrite E1.
    destruct (IH d1 s1) as [d2 [s2 [E2 V2]]]. exists d2, s2. split; [exact E2 | congruence].
Qed.

Lemma stepProjectiles_ok (room : Room.t) (s : Session.t) :
  gridTotal room ->
  exists s1, stepProjectiles room s = Ok s1 /\ coreView s1 = coreView s.
Proof.
  intros G. unfold stepProjectiles. cbv zeta.
  destruct (fold_stepProjectile_ok room
              (filter (fun p => Projectile.life p >? 0) (Game.projectiles (Session.g s)))
              G [] s) as [d1 [s1 [E V]]].
  rewrite E. cbn [andThen fst snd]. eexists. split; [reflexivity |].
  rewrite <- V. reflexivity.
Qed.

Lemma checkDeaths_ok (s : Session.t) :
  Core s -> Core (checkDeaths s) /\ EnemiesAlive (Game.enemies (Session.g (checkDeaths s))).
Proof.
  intros C. unfold checkDeaths. cbv zeta.
  set (dead := filter (fun e => Enemy.hp e <=? 0) (Game.enemies (Session.g s))).
  set (alive := filter (fun e => Enemy.hp e >? 0) (Game.enemies (Session.g s))).
  split.
  - destruct C as [[B1 B2] A [b [Eb [Ob Ia]]] N Cs Hi Hc].
    destruct (len dead >? 0).
    + destruct (len alive =? 0).
      * cbn [setPlayerStats withStats Session.g Game.building]. rewrite Eb.
        destruct (inBuilding_ok (Session.activeRoomId s) setCleared b Cosmetic_setCleared Ob)
          as [Ob1 Ei].
        constructor; cbn; [split; cbn; lia | exact A | | exact N | exact Cs | exact Hi | exact Hc].
        eexists. split; [reflexivity |]. split; [exact Ob1 |]. rewrite Ei. exact Ia.
      * constructor; cbn; [split; cbn; lia | exact A | | exact N | exact Cs | exact Hi | exact Hc].
        exists b. auto.
    + constructor; cbn; [split; assumption | exact A | | exact N | exact Cs | exact Hi | exact Hc].
      exists b. auto.
  - match goal with |- EnemiesAlive (Game.enemies (Session.g (onEnemies ?a ?x))) =>
      change (Game.enemies (Session.g (onEnemies a x))) with a end.
    unfold EnemiesAlive, alive. apply Forall_forall. intros e He.
    apply filter_In in He. destruct He as [_ He]. apply Z.gtb_lt in He. lia.
Qed.

Lemma takeDamage_core (s : Session.t) :
  Core s -> Core (takeDamage s) /\
            Game.enemies (Session.g (takeDamage s)) = Game.enemies (Session.g s).
Proof.
  intros [[B1 B2] A [b [Eb [Ob Ia]]] N Cs Hi Hc]. unfold takeDamage. cbv zeta.
  unfold saveScore.
  destruct (Stats.hp (Session.playerStats s) - 1 <=? 0) eqn:E.
  - destruct (Stats.score (Session.playerStats s) >? Session.highScore s);
      (split; [| reflexivity]);
      (constructor; cbn [Session.playerStats Session.gameState Session.g Game.building Session.activeRoomId Session.worldMap Session.currentBuildingId takeDamage createParticles withRandomCalls withStats withGameState withHighScore onPlayer withG withPlayer inPlay];
       [split; cbn; lia | discriminate | exists b; auto | exact N | exact Cs | exact Hi | exact Hc]).
  - apply Z.leb_gt in E. split; [| reflexivity].
    constructor; cbn; [split; cbn; lia | intros _; lia | exists b; auto | exact N | exact Cs | exact Hi | exact Hc].
Qed.
Lemma alive_snoc (done : list Enemy.t) (e : Enemy.t) :
  EnemiesAlive done -> 1 <= Enemy.hp e -> EnemiesAlive (done ++ [e]).
Proof.
  intros H He. apply Forall_app. split; [exact H |]. constructor; [exact He | constructor].
Qed.

Lemma stepEnemy_ok (aim : Q -> Q -> Q * Q) (room : Room.t) (e : Enemy.t)
    (done : list Enemy.t) (s : Session.t) :
  gridTotal room -> Core s -> EnemiesAlive done -> 1 <= Enemy.hp e ->
  exists done1 s1, stepEnemy aim room (Ok (done, s)) e = Ok (done1, s1) /\
                   Core s1 /\ EnemiesAlive done1.
Proof.
  intros G C Hd He. unfold stepEnemy. cbn [andThen]. cbv zeta.
  destruct (Enemy.state e).
  - destruct (distLt _ _ _ _ 40).
    + eexists. eexists. split; [reflexivity |]. split; [exact C |].
      apply alive_snoc; [exact Hd | exact He].
    + match goal with
      | |- context [checkWallCollision ?x ?y room] =>
          destruct (checkWall_defined room x y G) as [hitX EX]; rewrite EX
      end.
      cbn [defined andThen].
      match goal with
      | |- context [checkWallCollision ?x ?y room] =>
          destruct (checkWall_defined room x y G) as [hitY EY]; rewrite EY
      end.
      cbn [defined andThen].
      eexists. eexists. split; [reflexivity |]. split; [exact C |].
      apply alive_snoc; [exact Hd | exact He].
  - destruct (Enemy.timer e - 1 <=? 0).
    + eexists. eexists. split; [reflexivity |].
      split; [| apply alive_snoc; [exact Hd | exact He]].
      destruct (distLt _ _ _ _ 50); [apply takeDamage_core; exact C | exact C].
    + eexists. eexists. split; [reflexivity |]. split; [exact C |].
      apply alive_snoc; [exact Hd | exact He].
  - eexists. eexists. split; [reflexivity |]. split; [exact C |].
    apply alive_snoc; [exact Hd | exact He].
  - eexists. eexists. split; [reflexivity |]. split; [exact C |].
    apply alive_snoc; [exact Hd | exact He].
Qed.

Lemma fold_stepEnemy_ok (aim : Q -> Q -> Q * Q) (room : Room.t) (es : list Enemy.t) :
  gridTotal room -> EnemiesAlive es ->
  forall done s, Core s -> EnemiesAlive done ->
  exists done1 s1, fold_left (stepEnemy aim room) es (Ok (done, s)) = Ok (done1, s1) /\
                   Core s1 /\ EnemiesAlive done1.
Proof.
  intros G. induction es as [| e es IH]; intros Hes done s C Hd; cbn [fold_left].
  - exists done, s. auto.
  - inversion Hes as [| ? ? He Hes1]; subst.
    destruct (stepEnemy_ok aim room e done s G C Hd He) as [d1 [s1 [E1 [C1 H1]]]].
    rewrite E1. apply IH; assumption.
Qed.

Lemma stepEnemies_ok (aim : Q -> Q -> Q * Q) (room : Room.t) (s : Session.t) :
  gridTotal room -> Core s -> EnemiesAlive (Game.enemies (Session.g s)) ->
  exists s1, stepEnemies aim room s = Ok s1 /\ Core s1 /\
             EnemiesAlive (Game.enemies (Session.g s1)).
Proof.
  intros G C He. unfold stepEnemies.
  destruct (fold_stepEnemy_ok aim room (Game.enemies (Session.g s)) G He [] s C
              ltac:(constructor)) as [d1 [s1 [E [C1 H1]]]].
  rewrite E. cbn [andThen fst snd]. eexists. split; [reflexivity |].
  split; [| exact H1].
  apply (Core_view s1); [reflexivity | exact C1].
Qed.

Lemma itemEffect_bounded (seen : Stats.t) (ty : ItemType) (f : Stats.t -> Stats.t)
    (st : Stats.t) :
  itemEffect seen ty = Some f -> Bounded st ->
  Bounded (f st) /\ (1 <= Stats.hp st -> 1 <= Stats.hp (f st)).
Proof.
  intros E [B1 B2]. unfold Bounded.
  destruct ty; cbn [itemEffect] in E;
    try (destruct (_ <? _); [| discriminate E]);
    inversion E; subst f; cbn; lia.
Qed.

Lemma consume_core (item : Item.t) (seen : Stats.t) (f : Stats.t -> Stats.t) (s : Session.t) :
  itemEffect seen (Item.type item) = Some f -> Core s ->
  Core (consume item f s) /\
  Game.enemies (Session.g (consume item f s)) = Game.enemies (Session.g s).
Proof.
  intros E [B A [b [Eb [Ob Ia]]] N Cs Hi Hc].
  destruct (itemEffect_bounded seen _ f (Session.playerStats s) E B) as [B' A'].
  unfold consume. cbv zeta.
  cbn [createParticles setPlayerStats withStats withRandomCalls withCollected
       Session.g Game.building].
  rewrite Eb. split; [| reflexivity].
  pose proof (inBuilding_ok (Session.activeRoomId s)
                (fun r => setItems (filter (fun i => negb (Item.id i =? Item.id item))
                                           (Room.items r)) r) b
                (Cosmetic_setItems _) Ob) as [Ob1 Ei].
  constructor; cbn; [exact B' | intros H; apply A', A, H | | exact N | exact Cs | exact Hi | exact Hc].
  eexists. split; [reflexivity |]. split; [exact Ob1 |]. rewrite Ei. exact Ia.
Qed.

Lemma stepItem_core (kept : list Item.t) (s : Session.t) (item : Item.t) :
  Core s ->
  Core (snd (stepItem (kept, s) item)) /\
  Game.enemies (Session.g (snd (stepItem (kept, s) item))) = Game.enemies (Session.g s).
Proof.
  intros C. unfold stepItem.
  destruct (checkCollision _ _); [| cbn [snd]; auto].
  destruct (itemEffect (Session.seenStats s) (Item.type item)) as [f |] eqn:E;
    [| cbn [snd]; auto].
  cbn [snd]. exact (consume_core item _ f s E C).
Qed.

Lemma fold_stepItem_core (items : list Item.t) :
  forall kept s, Core s ->
  Core (snd (fold_left stepItem items (kept, s))) /\
  Game.enemies (Session.g (snd (fold_left stepItem items (kept, s))))
  = Game.enemies (Session.g s).
Proof.
  induction items as [| item items IH]; intros kept s C; cbn [fold_left].
  - cbn. auto.
  - destruct (stepItem_core kept s item C) as [C1 E1].
    destruct (stepItem (kept, s) item) as [k1 s1]. cbn [snd] in C1, E1.
    destruct (IH k1 s1 C1) as [C2 E2]. split; [exact C2 | congruence].
Qed.

Lemma stepItems_core (s : Session.t) :
  Core s -> Core (stepItems s) /\
            Game.enemies (Session.g (stepItems s)) = Game.enemies (Session.g s).
Proof.
  intros C. unfold stepItems. cbv zeta.
  destruct (fold_stepItem_core (Game.items (Session.g s)) [] s C) as [C1 E1].
  split; [| rewrite <- E1; reflexivity].
  apply (Core_view (snd (fold_left stepItem (Game.items (Session.g s)) ([], s))));
    [reflexivity | exact C1].
Qed.

Lemma rerender_core (before after : Session.t) :
  coreView (rerender before after) = coreView after /\
  Game.enemies (Session.g (rerender before after)) = Game.enemies (Session.g after).
Proof.
  unfold rerender. destruct (_ && _); split; reflexivity.
Qed.
Lemma updateFirst_ids (p : Node.t -> bool) (f : Node.t -> Node.t) (l : list Node.t) :
  (forall n, Node.id (f n) = Node.id n /\ Node.column (f n) = Node.column n) ->
  map Node.id (updateFirst p f l) = map Node.id l /\
  map Node.column (updateFirst p f l) = map Node.column l.
Proof.
  intros Hf. induction l as [| n l [IH1 IH2]]; [split; reflexivity |].
  cbn [updateFirst]. destruct (p n); simpl.
  - destruct (Hf n) as [E1 E2]. rewrite E1, E2. split; reflexivity.
  - rewrite IH1, IH2. split; reflexivity.
Qed.

Lemma map_ids (f : Node.t -> Node.t) (l : list Node.t) :
  (forall n, Node.id (f n) = Node.id n /\ Node.column (f n) = Node.column n) ->
  map Node.id (map f l) = map Node.id l /\ map Node.column (map f l) = map Node.column l.
Proof.
  intros Hf. induction l as [| n l [IH1 IH2]]; [split; reflexivity |].
  simpl. destruct (Hf n) as [E1 E2]. rewrite E1, E2, IH1, IH2. split; reflexivity.
Qed.

Lemma columns_of (l m : list Node.t) :
  map Node.column m = map Node.column l ->
  Forall (fun n => -1 <= Node.column n) l -> Forall (fun n => -1 <= Node.column n) m.
Proof.
  revert l. induction m as [| n m IH]; intros l E H; [constructor |].
  destruct l as [| k l]; [discriminate E |]. simpl in E. inversion E as [[E1 E2]].
  inversion H; subst. constructor; [lia |]. apply (IH l); assumption.
Qed.

Lemma node_of (l m : list Node.t) (v : Z) :
  map Node.id m = map Node.id l ->
  (exists n, findNode l v = Some n) -> exists n, findNode m v = Some n.
Proof.
  intros E H. apply findNode_found. rewrite E. apply findNode_found. exact H.
Qed.

(** [completeLevel] changes the map and the screen only. *)
Lemma completeLevel_core (s : Session.t) :
  Core s -> Session.gameState s = PLAYING ->
  exists r, completeLevel s = Ok r /\ Core r /\
            Game.enemies (Session.g r) = Game.enemies (Session.g s) /\
            Session.gameState r <> PLAYING.
Proof.
  intros [B A Hb [n0 N] Cs Hi Hc] Hplay. rewrite Hplay in A. specialize (A eq_refl).
  unfold completeLevel. cbv zeta.
  rewrite N. cbn [defined andThen].
  set (cur := Session.currentBuildingId s).
  set (step := fun b : Node.t =>
                 if Node.id b =? cur then setClearedNode b
                 else if (Node.column b =? Node.column n0 + 1)
                         && negb (Node.id b =? HIDDEN_BUILDING_ID)
                      then unlockNode (Node.hidden b) b else b).
  assert (Hstep : forall n, Node.id (step n) = Node.id n /\ Node.column (step n) = Node.column n).
  { intros n. unfold step. destruct (Node.id n =? cur); [split; reflexivity |].
    destruct (_ && _); split; reflexivity. }
  destruct (map_ids step (Session.worldMap s) Hstep) as [I1 I2].
  assert (Hun : forall n, Node.id (unlockNode false n) = Node.id n /\
                          Node.column (unlockNode false n) = Node.column n)
    by (intros n; split; reflexivity).
  destruct (updateFirst_ids (fun b => Node.id b =? HIDDEN_BUILDING_ID) (unlockNode false)
              (map step (Session.worldMap s)) Hun) as [J1 J2].
  destruct (Node.id n0 =? 0).
  - eexists. split; [reflexivity |]. split; [| split; [reflexivity | discriminate]].
    destruct (Stats.keys (Session.seenStats s) >? 0);
      (constructor; cbn;
       [ exact B | intros _; exact A | exact Hb
       | eapply node_of; [| exists n0; exact N]; congruence
       | eapply columns_of; [| exact Cs]; congruence
       | congruence | exact Hc ]).
  - destruct (Node.column n0 =? _).
    + eexists. split; [reflexivity |]. split; [| split; [| discriminate]].
      * unfold saveScore.
        destruct (_ >? _);
          (constructor; cbn;
           [ exact B | intros _; exact A | exact Hb
           | eapply node_of; [| exists n0; exact N]; congruence
           | eapply columns_of; [| exact Cs]; congruence
           | congruence | exact Hc ]).
      * unfold saveScore. destruct (_ >? _); reflexivity.
    + eexists. split; [reflexivity |]. split; [| split; [reflexivity | discriminate]].
      constructor; cbn;
        [ exact B | intros _; exact A | exact Hb
        | eapply node_of; [| exists n0; exact N]; congruence
        | eapply columns_of; [| exact Cs]; congruence
        | congruence | exact Hc ].
Qed.

(** The spawn loop reads tiles of the room only: it ends or spins. *)
Lemma spawnPoint_safe (random : Oracle) (room : Room.t) (player : Player.t) (fuel : nat) :
  gridTotal room -> forall c, spawnPoint random fuel room player c <> TypeError.
Proof.
  intros G. induction fuel as [| fuel IH]; intros c; cbn [spawnPoint]; [discriminate |].
  unfold getRandomInt. cbv zeta. unfold validSpawn. cbv zeta.
  match goal with
  | |- context [checkWallCollision ?x ?y room] =>
      destruct (checkWall_defined room x y G) as [hit E]; rewrite E
  end.
  cbn [defined andThen]. destruct (_ && _); [discriminate | apply IH].
Qed.

Lemma spawnEnemies_safe (random : Oracle) (fuel : nat) (difficulty : Z) (room : Room.t)
    (player : Player.t) (count : nat) :
  gridTotal room -> 1 <= 2 + difficulty ->
  forall es c, EnemiesAlive es ->
    spawnEnemies random fuel count difficulty room player es c <> TypeError /\
    forall es1 c1, spawnEnemies random fuel count difficulty room player es c = Ok (es1, c1) ->
                   EnemiesAlive es1.
Proof.
  intros G Hd. induction count as [| count IH]; intros es c He; cbn [spawnEnemies].
  - split; [discriminate |]. intros es1 c1 E. inversion E; subst. exact He.
  - pose proof (spawnPoint_safe random room player fuel G c) as S.
    destruct (spawnPoint random fuel room player c) as [[[ex ey] c1] | |];
      [| contradiction | split; [discriminate | intros ? ? E; discriminate E]].
    cbn [andThen]. apply IH. apply alive_snoc; [exact He | unfold newEnemy; cbn [Enemy.hp]; lia].
Qed.
Lemma findNode_In (m : list Node.t) (v : Z) (n : Node.t) :
  findNode m v = Some n -> In n m /\ Node.id n = v.
Proof.
  unfold findNode. intros F. apply find_some in F. destruct F as [H E].
  apply Z.eqb_eq in E. auto.
Qed.

Lemma difficulty_ge (m : list Node.t) (v : Z) (n : Node.t) :
  Forall (fun k => -1 <= Node.column k) m -> findNode m v = Some n -> -1 <= difficultyOf n.
Proof.
  intros Cs F. apply findNode_In in F. destruct F as [Hn _].
  rewrite Forall_forall in Cs. specialize (Cs n Hn).
  unfold difficultyOf. destruct (Node.id n =? HIDDEN_BUILDING_ID); lia.
Qed.

(** [setupRoom] in a room of the building: the room is marked, its items
    are loaded and the enemies are spawned; nothing else changes. *)
Lemma setupRoom_ok (random : Oracle) (fuel : nat) (cb roomId : Z) (s : Session.t) :
  Core s -> roomId = Session.activeRoomId s ->
  (exists n, findNode (Session.worldMap s) cb = Some n) ->
  setupRoom random fuel cb roomId s <> TypeError /\
  forall s', setupRoom random fuel cb roomId s = Ok s' ->
             Core s' /\ EnemiesAlive (Game.enemies (Session.g s')) /\
             Session.gameState s' = Session.gameState s /\
             Session.currentBuildingId s' = Session.currentBuildingId s /\
             Session.playerStats s' = Session.playerStats s /\
             Session.worldMap s' = Session.worldMap s.
Proof.
  intros [B A [b [Eb [Ob Ia]]] N Cs Hi Hc] -> [n En]. unfold setupRoom.
  rewrite Eb. cbn [defined andThen].
  destruct (findRoom_found b _ Ia) as [room Er]. rewrite Er. cbn [defined andThen].
  rewrite En. cbn [defined andThen]. cbv zeta.
  destruct (inBuilding_ok (Session.activeRoomId s) setExplored b Cosmetic_setExplored Ob)
    as [Ob1 Ei].
  assert (C1 : forall s', coreView s'
                 = (Session.playerStats s, Session.gameState s,
                    Some (inBuilding (Session.activeRoomId s) setExplored b),
                    Session.activeRoomId s, Session.worldMap s,
                    Session.currentBuildingId s, Session.selectedChar s) -> Core s').
  { intros s' V. unfold coreView in V. inversion V as [[V1 V2 V3 V4 V5 V6 V7]].
    constructor; rewrite ?V1, ?V2, ?V3, ?V4, ?V5, ?V6, ?V7; try assumption.
    eexists. split; [reflexivity |]. split; [exact Ob1 |]. rewrite Ei. exact Ia. }
  destruct (_ && _ && _).
  - apply findRoom_In in Er. destruct Er as [Hroom _].
    destruct (Ob room Hroom) as [G _].
    pose proof (difficulty_ge _ _ _ Cs En) as Hd.
    match goal with
    | |- context [spawnEnemies random fuel ?k ?d room ?p [] ?c] =>
        destruct (spawnEnemies_safe random fuel d room p k G ltac:(lia) [] c
                    ltac:(constructor)) as [S1 S2];
        destruct (spawnEnemies random fuel k d room p [] c) as [[es1 c1] | |] eqn:E
    end; [| contradiction | split; [discriminate | intros s' H; discriminate H]].
    cbn [andThen fst snd]. split; [discriminate |].
    intros s' H. inversion H; subst s'. clear H.
    split; [apply C1; reflexivity |]. split; [| repeat split].
    cbn. apply (S2 es1 c1 eq_refl).
  - split; [discriminate |]. intros s' H. inversion H; subst s'. clear H.
    split; [apply C1; reflexivity |]. split; [| repeat split].
    cbn. constructor.
Qed.

Lemma transitionRoom_ok (random : Oracle) (fuel : nat) (direction : DoorHit)
    (nextRoomId : Z) (s : Session.t) :
  Core s ->
  (forall b, Game.building (Session.g s) = Some b ->
             In nextRoomId (map Room.id (Building.rooms b))) ->
  transitionRoom random fuel direction nextRoomId s <> TypeError /\
  forall s', transitionRoom random fuel direction nextRoomId s = Ok s' ->
             Core s' /\ EnemiesAlive (Game.enemies (Session.g s')).
Proof.
  intros C Hnext. pose proof C as [B A [b [Eb [Ob Ia]]] N Cs Hi Hc]. unfold transitionRoom.
  rewrite Eb. cbn [defined andThen].
  destruct (findRoom_found b _ (Hnext b Eb)) as [next En]. rewrite En.
  cbn [defined andThen]. cbv zeta.
  match goal with
  | |- context [setupRoom random fuel ?cb ?rid ?s0] =>
      destruct (setupRoom_ok random fuel cb rid s0) as [S1 S2]
  end.
  - constructor; cbn; try assumption. exists b. split; [exact Eb |]. split; [exact Ob |].
    exact (Hnext b Eb).
  - reflexivity.
  - exact N.
  - split; [exact S1 |]. intros s' H. destruct (S2 s' H) as [C1 [H1 _]]. auto.
Qed.
(** The branch of [update] without a room change. *)
Lemma continue_ok (aim : Q -> Q -> Q * Q) (input : Input.t) (room : Room.t) (s1 : Session.t) :
  gridTotal room -> Core s1 ->
  exists s5,
    (s3 <! stepProjectiles room (bombTick (bombAttack input (fire aim input s1))) ;;
     s4 <! stepEnemies aim room (checkDeaths s3) ;;
     Ok (stepItems s4)) = Ok s5 /\
    Core s5 /\ EnemiesAlive (Game.enemies (Session.g s5)).
Proof.
  intros G C1.
  assert (C2 : Core (bombTick (bombAttack input (fire aim input s1)))).
  { apply (Core_view (bombAttack input (fire aim input s1))); [apply bombTick_view |].
    apply bombAttack_core.
    apply (Core_view s1); [apply fire_view | exact C1]. }
  destruct (stepProjectiles_ok room (bombTick (bombAttack input (fire aim input s1))) G)
    as [s3 [E3 V3]]. rewrite E3. cbn [andThen].
  pose proof (Core_view _ s3 V3 C2) as C3.
  destruct (checkDeaths_ok s3 C3) as [C3' A3].
  destruct (stepEnemies_ok aim room _ G C3' A3) as [s4 [E4 [C4 A4]]]. rewrite E4.
  cbn [andThen]. eexists. split; [reflexivity |].
  destruct (stepItems_core s4 C4) as [C5 E5]. split; [exact C5 |]. rewrite E5. exact A4.
Qed.

Lemma update_ok (aim : Q -> Q -> Q * Q) (random : Oracle) (fuel : nat) (input : Input.t)
    (s : Session.t) :
  SessionOK s ->
  update aim random fuel input s <> TypeError /\
  forall s', update aim random fuel input s = Ok s' -> SessionOK s'.
Proof.
  intros [C He]. unfold update.
  destruct (negb (GameState_eqb (Session.gameState s) PLAYING)) eqn:Eplay.
  { split; [discriminate |]. intros s' H. inversion H; subst. split; assumption. }
  assert (Hplay : Session.gameState s = PLAYING).
  { destruct (Session.gameState s); try discriminate Eplay. reflexivity. }
  pose proof C as [B A [b [Eb [Ob Ia]]] N Cs Hi Hc].
  rewrite Eb. cbn [defined andThen].
  destruct (findRoom_found b _ Ia) as [room Er]. rewrite Er. cbn [defined andThen].
  pose proof (findRoom_In _ _ _ Er) as [Hroom _].
  destruct (Ob room Hroom) as [G Hdoors].
  destruct (stepPlayer_ok input room s G) as [s1 [E1 [V1 En1]]]. rewrite E1.
  cbn [andThen]. cbv zeta.
  pose proof (Core_view s s1 V1 C) as C1.
  assert (Eb1 : Game.building (Session.g s1) = Some b).
  { unfold coreView in V1. inversion V1 as [[W1 W2 W3 W4 W5 W6 W7]]. congruence. }
  assert (Hfinal : forall r : Result Session.t,
             r <> TypeError ->
             (forall v, r = Ok v -> Core v /\ EnemiesAlive (Game.enemies (Session.g v))) ->
             (r0 <! r ;; Ok (rerender s r0)) <> TypeError /\
             forall s', (r0 <! r ;; Ok (rerender s r0)) = Ok s' -> SessionOK s').
  { intros r Hr Hv. destruct r as [v | |]; [| contradiction |];
      cbn [andThen]; (split; [discriminate |]); intros s' H; [| discriminate H].
    inversion H; subst s'. destruct (Hv v eq_refl) as [Cv Av].
    destruct (rerender_core s v) as [Vr Er1].
    split; [apply (Core_view v _ Vr Cv) | rewrite Er1; exact Av]. }
  assert (Hcont : forall r : Result Session.t,
             r = (s3 <! stepProjectiles room (bombTick (bombAttack input (fire aim input s1))) ;;
                  s4 <! stepEnemies aim room (checkDeaths s3) ;;
                  Ok (stepItems s4)) ->
             r <> TypeError /\
             forall v, r = Ok v -> Core v /\ EnemiesAlive (Game.enemies (Session.g v))).
  { intros r ->. destruct (continue_ok aim input room s1 G C1) as [s5 [E5 [C5 A5]]].
    rewrite E5. split; [discriminate |]. intros v H. inversion H; subst. auto. }
  destruct (checkDoorCollision _ _ room) as [hit |].
  - destruct hit.
    + destruct (doorOf hitTop (Room.doors room)) as [next |] eqn:Ed.
      * destruct (transitionRoom_ok random fuel hitTop next s1 C1) as [T1 T2];
          [intros b' Eb'; rewrite Eb1 in Eb'; inversion Eb'; subst b';
           exact (Hdoors _ _ Ed) |].
        apply Hfinal; assumption.
      * destruct (Hcont _ eq_refl) as [K1 K2]. apply Hfinal; assumption.
    + destruct (doorOf hitBottom (Room.doors room)) as [next |] eqn:Ed.
      * destruct (transitionRoom_ok random fuel hitBottom next s1 C1) as [T1 T2];
          [intros b' Eb'; rewrite Eb1 in Eb'; inversion Eb'; subst b';
           exact (Hdoors _ _ Ed) |].
        apply Hfinal; assumption.
      * destruct (Hcont _ eq_refl) as [K1 K2]. apply Hfinal; assumption.
    + destruct (doorOf hitLeft (Room.doors room)) as [next |] eqn:Ed.
      * destruct (transitionRoom_ok random fuel hitLeft next s1 C1) as [T1 T2];
          [intros b' Eb'; rewrite Eb1 in Eb'; inversion Eb'; subst b';
           exact (Hdoors _ _ Ed) |].
        apply Hfinal; assumption.
      * destruct (Hcont _ eq_refl) as [K1 K2]. apply Hfinal; assumption.
    + destruct (doorOf hitRight (Room.doors room)) as [next |] eqn:Ed.
      * destruct (transitionRoom_ok random fuel hitRight next s1 C1) as [T1 T2];
          [intros b' Eb'; rewrite Eb1 in Eb'; inversion Eb'; subst b';
           exact (Hdoors _ _ Ed) |].
        apply Hfinal; assumption.
      * destruct (Hcont _ eq_refl) as [K1 K2]. apply Hfinal; assumption.
    + assert (Hplay1 : Session.gameState s1 = PLAYING).
      { unfold coreView in V1. inversion V1 as [[W1 W2 W3 W4 W5 W6 W7]]. congruence. }
      destruct (completeLevel_core s1 C1 Hplay1) as [r [Ec [Cr [Er1 _]]]]. rewrite Ec.
      apply Hfinal; [discriminate |]. intros v H. inversion H; subst v.
      split; [exact Cr |]. rewrite Er1, En1. exact He.
  - destruct (Hcont _ eq_refl) as [K1 K2]. apply Hfinal; assumption.
Qed.

(** ** Entering a building *)

(** A generated building is in good order. *)
Lemma generated_ok (buildingId difficulty : Z) (theme : Theme) (rootSeed : Z)
    (items : list ItemType) :
  exists b, generateBuilding buildingId difficulty theme rootSeed items = Some b /\
            BuildingOK b /\ In 0 (map Room.id (Building.rooms b)) /\
            Building.startRoomId b = 0.
Proof.
  destruct (generateBuilding_ok buildingId difficulty theme rootSeed items)
    as [b [g [ipr [E [I [F [Hs _]]]]]]].
  exists b. split; [exact E |]. split; [| split; [| exact Hs]].
  - intros r Hr. split.
    + destruct (Forall2_In_r _ _ _ r F Hr) as [pos [Hpos M]].
      destruct (MadeFrom_grid _ _ _ _ _ M) as [_ [_ [seed [isBoss Eg]]]].
      intros gx gy Hx Hy. rewrite Eg.
      destruct (genGrid_tileAt (Room.width r) (Room.height r) (Room.doors r) isBoss seed
                  gx gy Hx Hy) as [a0 Et].
      rewrite Et. discriminate.
    + intros dir v Hd.
      destruct (door_leads_back _ ipr g _ I F r dir v Hr Hd) as [q [Hq [Qid _]]].
      apply in_map_iff. exists q. auto.
  - rewrite (rooms_ids _ ipr g _ I F). apply in_upto.
    pose proof (numRoomsOf_ge2 difficulty). lia.
Qed.

Lemma dropCollected_ok (collected : list Z) (b : Building.t) :
  BuildingOK b ->
  BuildingOK (dropCollected collected b) /\
  map Room.id (Building.rooms (dropCollected collected b)) = map Room.id (Building.rooms b).
Proof.
  intros Ob. unfold dropCollected. cbn [Building.rooms].
  assert (Ei : map Room.id
                 (map (fun room => setItems (filter (notCollected collected) (Room.items room)) room)
                      (Building.rooms b)) = map Room.id (Building.rooms b)).
  { rewrite map_map. apply map_ext. reflexivity. }
  split; [| exact Ei].
  unfold BuildingOK. cbn [Building.rooms]. rewrite Ei.
  intros r' Hr'. apply in_map_iff in Hr'. destruct Hr' as [r [<- Hr]].
  destruct (Ob r Hr) as [G D]. split; [exact G | exact D].
Qed.

(** [enterBuilding], from the map: it ends or spins, and leaves the
    session in order inside the building entered. *)
Lemma enterBuilding_ok (random : Oracle) (fuel : nat) (buildingId : Z) (s : Session.t) :
  Bounded (Session.playerStats s) -> 1 <= Stats.hp (Session.playerStats s) ->
  In (Session.selectedChar s) CHARACTERS ->
  map Node.id (Session.worldMap s) = nodeIds ->
  Forall (fun n => -1 <= Node.column n) (Session.worldMap s) ->
  In buildingId nodeIds -> In (Session.currentBuildingId s) nodeIds ->
  enterBuilding random fuel buildingId s <> TypeError /\
  forall s', enterBuilding random fuel buildingId s = Ok s' ->
             SessionOK s' /\ Session.gameState s' = PLAYING /\
             Session.currentBuildingId s' = buildingId.
Proof.
  intros B Hhp Hc Hi Cs Hb Hcur. unfold enterBuilding.
  assert (N1 : exists n, findNode (Session.worldMap s) buildingId = Some n)
    by (apply findNode_found; rewrite Hi; exact Hb).
  assert (N2 : exists n, findNode (Session.worldMap s) (Session.currentBuildingId s) = Some n)
    by (apply findNode_found; rewrite Hi; exact Hcur).
  destruct N1 as [node En]. rewrite En. cbn [defined andThen]. cbv zeta.
  destruct (generated_ok buildingId (difficultyOf node) (Node.theme node)
              (Session.rootSeed s) (Node.specialItems node)) as [gen [Eg [Og [I0 Hs]]]].
  rewrite Eg. cbn [defined andThen].
  destruct (dropCollected_ok (Session.collected s) gen Og) as [Ob Ei].
  set (building := dropCollected (Session.collected s) gen) in *.
  assert (Hstart : Building.startRoomId building = 0) by exact Hs.
  rewrite Hstart.
  assert (I0' : In 0 (map Room.id (Building.rooms building))) by (rewrite Ei; exact I0).
  destruct (findRoom_found building 0 I0') as [start Es]. rewrite Es.
  cbn [defined andThen].
  match goal with
  | |- context [setupRoom random fuel ?cb ?rid ?s0] =>
      destruct (setupRoom_ok random fuel cb rid s0) as [S1 S2]
  end.
  - constructor; cbn; try assumption.
    + intros _. exact Hhp.
    + exists building. auto.
  - reflexivity.
  - exact N2.
  - match goal with
    | |- context [setupRoom random fuel ?cb ?rid ?s0] =>
        destruct (setupRoom random fuel cb rid s0) as [s1 | |] eqn:E
    end; [| contradiction | split; [discriminate | intros s' H; discriminate H]].
    cbn [andThen]. split; [discriminate |].
    intros s' H. inversion H; subst s'. clear H.
    destruct (S2 s1 eq_refl) as [C1 [A1 [G1 [K1 [P1 W1]]]]].
    cbn in G1, K1, P1, W1.
    destruct (rerender_core s (withGameState PLAYING (withBuildingId buildingId s1)))
      as [Vr Er].
    split; [split |].
    + apply (Core_view _ _ Vr).
      destruct C1 as [C11 C12 C13 C14 C15 C16 C17].
      constructor; cbn; try assumption.
      * intros _. rewrite P1. exact Hhp.
      * rewrite W1. exists node. exact En.
    + rewrite Er. exact A1.
    + unfold rerender. destruct (_ && _); split; reflexivity.
Qed.

(** [startGame]: a fresh run on a fresh map. *)
Lemma startGame_ok (random : Oracle) (now : Z) (s : Session.t) :
  In (Session.selectedChar s) CHARACTERS ->
  exists s', startGame random now s = Ok s' /\
             Session.gameState s' = MAP /\
             Session.playerStats s' = freshStats (Session.selectedChar s) /\
             1 <= Stats.hp (Session.playerStats s') /\
             Session.collected s' = [] /\ Session.rootSeed s' = now /\
             Session.selectedChar s' = Session.selectedChar s /\
             Session.currentBuildingId s' = Session.currentBuildingId s /\
             map Node.id (Session.worldMap s') = nodeIds /\
             Forall (fun n => -1 <= Node.column n) (Session.worldMap s').
Proof.
  intros Hc. unfold startGame.
  destruct (generateWorldMap_deal random (Session.randomCalls s))
    as [m [E [Hi [Hcol _]]]].
  rewrite E. eexists. split; [reflexivity |]. cbn.
  repeat split; try assumption.
  - simpl in Hc. destruct Hc as [<- | [<- | []]]; cbn; lia.
  - assert (H1 : Forall (fun c => -1 <= c) (map Node.column m)).
    { rewrite Hcol. repeat constructor; lia. }
    clear - H1. induction m as [| n m IH]; [constructor |].
    inversion H1; subst. constructor; [assumption | apply IH; assumption].
Qed.
(** ** Sessions *)

Lemma AppOK_session (s : Session.t) (p q : Z) :
  AppOK {| App.session := s; App.endingPage := p |} ->
  AppOK {| App.session := s; App.endingPage := q |}.
Proof. intros [H1 H2 H3 H4 H5]. constructor; assumption. Qed.

Lemma AppOK_rerender (before s : Session.t) (p : Z) :
  AppOK {| App.session := s; App.endingPage := p |} ->
  AppOK {| App.session := rerender before s; App.endingPage := p |}.
Proof.
  intros [H1 H2 H3 H4 H5]. cbn [App.session] in *.
  destruct (rerender_core before s) as [V E].
  unfold coreView in V.
  assert (F : Session.playerStats (rerender before s) = Session.playerStats s /\
              Session.gameState (rerender before s) = Session.gameState s /\
              Session.worldMap (rerender before s) = Session.worldMap s /\
              Session.currentBuildingId (rerender before s) = Session.currentBuildingId s /\
              Session.selectedChar (rerender before s) = Session.selectedChar s).
  { unfold rerender. destruct (_ && _); repeat split; reflexivity. }
  destruct F as [F1 [F2 [F3 [F4 F5]]]].
  constructor; cbn [App.session]; rewrite ?F1, ?F2, ?F3, ?F4, ?F5; try assumption.
  intros Hp. destruct (H5 Hp) as [C A]. split.
  - apply (Core_view s); [exact V | exact C].
  - rewrite E. exact A.
Qed.

Lemma onSession_ok (app : App.t) (r : Result Session.t) :
  r <> TypeError ->
  (forall s, r = Ok s -> AppOK {| App.session := s; App.endingPage := App.endingPage app |}) ->
  onSession app r <> TypeError /\
  forall app', onSession app r = Ok app' -> AppOK app'.
Proof.
  intros Hr Hs. unfold onSession. destruct r as [s | |]; [| contradiction |];
    cbn [andThen]; (split; [discriminate |]); intros app' H; [| discriminate H].
  inversion H; subst app'. apply AppOK_rerender. apply Hs. reflexivity.
Qed.

(** With the session in order, the session part of [AppOK]. *)
Lemma SessionOK_app (s : Session.t) (p : Z) :
  SessionOK s -> AppOK {| App.session := s; App.endingPage := p |}.
Proof.
  intros [C A]. pose proof C as [B Al Hb [n N] Cs Hi Hc].
  constructor; cbn [App.session]; try assumption.
  - apply findNode_In in N. destruct N as [Hn En].
    rewrite <- En, <- Hi. apply in_map. exact Hn.
  - intros Hp. auto.
  - intros _. split; assumption.
Qed.

Lemma GameState_eqb_eq (a b : GameState) : GameState_eqb a b = true <-> a = b.
Proof. destruct a, b; simpl; split; intros H; try reflexivity; discriminate H. Qed.

Ltac session_cbn :=
  cbn [App.session Session.gameState Session.selectedChar Session.worldMap
       Session.currentBuildingId Session.playerStats
       withSelectedChar withGameState initGameSession inPlay].

Ltac same_fields H :=
  destruct H as [H1 H2 H3 H4 H5]; cbn [App.session] in *;
  constructor; session_cbn; try assumption; try discriminate.

Lemma dispatch_ok (aim : Q -> Q -> Q * Q) (random : Oracle) (fuel : nat) (e : Event)
    (app : App.t) :
  AppOK app ->
  dispatch aim random fuel e app <> TypeError /\
  forall app', dispatch aim random fuel e app = Ok app' -> AppOK app'.
Proof.
  intros H. destruct app as [s p].
  assert (Hstay : Ok {| App.session := s; App.endingPage := p |} <> TypeError /\
                  forall app', Ok {| App.session := s; App.endingPage := p |} = Ok app' ->
                               AppOK app').
  { split; [discriminate |]. intros app' E. inversion E; subst. exact H. }
  unfold dispatch. cbv zeta. cbn [App.session App.endingPage].
  destruct e as [| i | now | i | input | | |].
  - destruct (GameState_eqb (Session.gameState s) START) eqn:E; [| exact Hstay].
    apply onSession_ok; [discriminate |]. intros s' Es. inversion Es; subst s'.
    same_fields H.
  - destruct (GameState_eqb (Session.gameState s) CHAR_SELECT) eqn:E; [| exact Hstay].
    destruct (nth_error CHARACTERS i) as [c |] eqn:Ec; [| exact Hstay].
    apply onSession_ok; [discriminate |]. intros s' Es. inversion Es; subst s'.
    apply GameState_eqb_eq in E.
    destruct H as [H1 H2 H3 H4 H5]; cbn [App.session] in *.
    constructor; session_cbn; try assumption.
    + eapply nth_error_In. exact Ec.
    + rewrite E. discriminate.
  - destruct (GameState_eqb (Session.gameState s) CHAR_SELECT) eqn:E; [| exact Hstay].
    destruct H as [H1 H2 H3 H4 H5]; cbn [App.session] in *.
    destruct (startGame_ok random now s H2)
      as [s' [Es [G1 [G2 [G3 [G4 [G5 [G6 [G7 [G8 G9]]]]]]]]]].
    rewrite Es. apply onSession_ok; [discriminate |].
    intros s0 E0. inversion E0; subst s0.
    constructor; cbn [App.session]; rewrite ?G1, ?G6, ?G7; try assumption.
    + rewrite G2. split; cbn; lia.
    + intros _. auto.
    + discriminate.
  - destruct (GameState_eqb (Session.gameState s) MAP) eqn:E; [| exact Hstay].
    destruct (nth_error (Session.worldMap s) i) as [node |] eqn:En; [| exact Hstay].
    destruct (Node.hidden node || Node.locked node); [exact Hstay |].
    apply GameState_eqb_eq in E.
    destruct H as [H1 H2 H3 H4 H5]; cbn [App.session] in *.
    rewrite E in H4. destruct (H4 eq_refl) as [Hi [Cs Hhp]].
    assert (Hid : In (Node.id node) nodeIds).
    { rewrite <- Hi. apply in_map. eapply nth_error_In. exact En. }
    destruct (enterBuilding_ok random fuel (Node.id node) s H1 Hhp H2 Hi Cs Hid H3)
      as [T1 T2].
    apply onSession_ok; [exact T1 |].
    intros s' Es. destruct (T2 s' Es) as [So _]. apply SessionOK_app. exact So.
  - destruct (GameState_eqb (Session.gameState s) PLAYING) eqn:E.
    + apply GameState_eqb_eq in E.
      destruct (update_ok aim random fuel input s (ao_playing _ H E)) as [U1 U2].
      destruct (update aim random fuel input s) as [s1 | |];
        [| contradiction | cbn [andThen]; split; [discriminate | intros ? C; discriminate C]].
      cbn [andThen]. split; [discriminate |]. intros app' Ea. inversion Ea; subst app'.
      apply SessionOK_app. apply U2. reflexivity.
    + assert (Eu : update aim random fuel input s = Ok s).
      { unfold update. destruct (Session.gameState s); try reflexivity. discriminate E. }
      rewrite Eu. cbn [andThen andb]. split; [discriminate |].
      intros app' Ea. inversion Ea; subst app'. eapply AppOK_session. exact H.
  - destruct (GameState_eqb (Session.gameState s) GAMEOVER) eqn:E; [| exact Hstay].
    apply onSession_ok; [discriminate |]. intros s' Es. inversion Es; subst s'.
    same_fields H.
  - destruct (GameState_eqb (Session.gameState s) MESSAGE) eqn:E; [| exact Hstay].
    apply GameState_eqb_eq in E.
    apply onSession_ok; [discriminate |]. intros s' Es. inversion Es; subst s'.
    destruct H as [H1 H2 H3 H4 H5]; cbn [App.session] in *.
    rewrite E in H4. specialize (H4 eq_refl).
    constructor; session_cbn; try assumption; try discriminate. intros _. exact H4.
  - destruct (GameState_eqb (Session.gameState s) ENDING) eqn:E; [| exact Hstay].
    destruct (getEndingContent _ _ _) as [content |]; [| exact Hstay].
    destruct (endingClick _ _ _) as [page |].
    + split; [discriminate |]. intros app' Ea. inversion Ea; subst app'.
      eapply AppOK_session. exact H.
    + apply onSession_ok; [discriminate |]. intros s' Es. inversion Es; subst s'.
      same_fields H.
Qed.

Lemma run_ok (aim : Q -> Q -> Q * Q) (random : Oracle) (fuel : nat) (events : list Event) :
  forall app, AppOK app ->
    run aim random fuel events app <> TypeError /\
    forall app', run aim random fuel events app = Ok app' -> AppOK app'.
Proof.
  induction events as [| e events IH]; intros app H; cbn [run].
  - split; [discriminate |]. intros app' E. inversion E; subst. exact H.
  - destruct (dispatch_ok aim random fuel e app H) as [D1 D2].
    destruct (dispatch aim random fuel e app) as [app1 | |];
      [| contradiction | cbn [andThen]; split; [discriminate | intros ? C; discriminate C]].
    cbn [andThen]. apply IH. apply D2. reflexivity.
Qed.

Lemma initialApp_ok (now saved : Z) : AppOK (initialApp now saved).
Proof.
  constructor; cbn; try discriminate.
  - split; cbn; lia.
  - left. reflexivity.
  - left. reflexivity.
Qed.

Lemma exampleMap_ok :
  map Node.id exampleMap = nodeIds /\ Forall (fun n => -1 <= Node.column n) exampleMap.
Proof.
  split; [reflexivity |]. unfold exampleMap. rewrite initial_nodes.
  repeat (constructor; [cbn; lia |]). constructor.
Qed.

Lemma exampleSession_ok : SessionOK exampleSession.
Proof.
  destruct exampleMap_ok as [Hi Hc].
  destruct (generated_ok 0 0 bathroom 1 []) as [b [E [Ob [I0 _]]]].
  split; [| constructor].
  constructor; cbn [exampleSession Session.playerStats Session.gameState Session.g
                    Game.building Session.activeRoomId Session.worldMap
                    Session.currentBuildingId Session.selectedChar].
  - split; cbn; lia.
  - intros _. cbn. lia.
  - exists b. auto.
  - apply findNode_found. rewrite Hi. left. reflexivity.
  - exact Hc.
  - exact Hi.
  - left. reflexivity.
Qed.

(** X13.  A frame never throws.  In a session that is in order (inside
    a building whose rooms have their grids and whose doors lead to rooms
    of the building, on a world map with the nine node ids, with
    [hp <= maxHp], [mp <= maxMp], [hp >= 1] while the game is on and
    every enemy with [hp >= 1]) [update] ends with a new state, or spins
    in the spawn loop of a room change; it never reads a field of
    [undefined].  The new state is in order again: in particular the
    player's [hp] and [mp] never exceed their maxima, [hp] reaches 0 only
    together with the game-over screen, and no enemy is kept with
    [hp <= 0]. *)
Theorem update_keeps_session_ok :
  forall (aim : Q -> Q -> Q * Q) (random : Oracle) (fuel : nat) (input : Input.t)
         (s : Session.t),
    SessionOK s ->
    update aim random fuel input s <> TypeError /\
    forall s', update aim random fuel input s = Ok s' -> SessionOK s'.
Proof. exact update_ok. Qed.

Lemma update_keeps_session_ok_witness :
  SessionOK exampleSession /\
  update (fun _ _ => (1, 0)%Q) (fun _ => 0) 10 idle exampleSession <> TypeError.
Proof.
  split; [exact exampleSession_ok |].
  exact (proj1 (update_keeps_session_ok (fun _ _ => (1, 0)%Q) (fun _ => 0) 10%nat idle
                  exampleSession exampleSession_ok)).
Defined.

(** X14.  [enterBuilding] from the map.  With the stats in bounds, the
    player alive and the building on the world map, [enterBuilding] ends
    or spins in the spawn loop, and never throws, although it calls
    [setupRoom] with the building id of the render before; the session
    it leaves is in order, in the game, inside the building entered. *)
Theorem enterBuilding_session_ok :
  forall (random : Oracle) (fuel : nat) (buildingId : Z) (s : Session.t),
    Bounded (Session.playerStats s) -> 1 <= Stats.hp (Session.playerStats s) ->
    In (Session.selectedChar s) CHARACTERS ->
    map Node.id (Session.worldMap s) = nodeIds ->
    Forall (fun n => -1 <= Node.column n) (Session.worldMap s) ->
    In buildingId nodeIds -> In (Session.currentBuildingId s) nodeIds ->
    enterBuilding random fuel buildingId s <> TypeError /\
    forall s', enterBuilding random fuel buildingId s = Ok s' ->
               SessionOK s' /\ Session.gameState s' = PLAYING /\
               Session.currentBuildingId s' = buildingId.
Proof. exact enterBuilding_ok. Qed.

Lemma enterBuilding_session_ok_witness :
  enterBuilding (fun _ => 0) 10 3 (withWorldMap exampleMap (initialSession 1 0)) <> TypeError.
Proof.
  refine (proj1 (enterBuilding_session_ok (fun _ => 0) 10%nat 3
                   (withWorldMap exampleMap (initialSession 1 0)) _ _ _ _ _ _ _)).
  - split; cbn; lia.
  - cbn. lia.
  - left. reflexivity.
  - exact (proj1 exampleMap_ok).
  - exact (proj2 exampleMap_ok).
  - cbn. tauto.
  - cbn. tauto.
Defined.

(** X15.  No session throws.  Whatever the events that the screens
    send (clicks on the buttons they show, frames with any input), in
    any order, from the first render on, and whatever [Math.random] and
    the clock return, no handler reads a field of [undefined]: a run of
    events ends, or spins in a spawn loop.  After every event
    [hp <= maxHp] and [mp <= maxMp]; the player has [hp >= 1] on the map,
    in the game and on the message screen; and while the game is on the
    session is in order. *)
Theorem session_never_throws :
  forall (aim : Q -> Q -> Q * Q) (random : Oracle) (fuel : nat) (now saved : Z)
         (events : list Event),
    run aim random fuel events (initialApp now saved) <> TypeError /\
    forall app, run aim random fuel events (initialApp now saved) = Ok app -> AppOK app.
Proof.
  intros aim random fuel now saved events.
  apply run_ok. apply initialApp_ok.
Qed.

(** ** The enemies of a room *)

Lemma spawnPoint_valid (random : Oracle) (room : Room.t) (player : Player.t) (fuel : nat) :
  forall c ex ey c1,
    spawnPoint random fuel room player c = Ok (ex, ey, c1) ->
    (exists gx gy, ex = inject_Z (gx * TILE_SIZE) /\ ey = inject_Z (gy * TILE_SIZE)) /\
    checkWallCollision ex ey room = Some false /\
    distGt ex ey (Player.x player) (Player.y player) 150 = true.
Proof.
  induction fuel as [| fuel IH]; intros c ex ey c1; cbn [spawnPoint]; [discriminate |].
  unfold getRandomInt. cbv zeta. unfold validSpawn. cbv zeta.
  match goal with
  | |- context [checkWallCollision ?x ?y room] =>
      destruct (checkWallCollision x y room) as [hit |] eqn:E
  end; cbn [defined andThen]; [| discriminate].
  destruct hit; cbn [negb andb].
  - apply IH.
  - match goal with
    | |- context [distGt ?x ?y ?px ?py 150] => destruct (distGt x y px py 150) eqn:D
    end; [| apply IH].
    intros H. inversion H; subst. split; [| split; [exact E | exact D]].
    eexists. eexists. split; reflexivity.
Qed.

Lemma spawnEnemies_spec (random : Oracle) (fuel : nat) (difficulty : Z) (room : Room.t)
    (player : Player.t) (count : nat) :
  forall es c es1 c1,
    spawnEnemies random fuel count difficulty room player es c = Ok (es1, c1) ->
    exists new, es1 = es ++ new /\ length new = count /\
                Forall (Spawned room player difficulty) new.
Proof.
  induction count as [| count IH]; intros es c es1 c1; cbn [spawnEnemies].
  - intros H. inversion H; subst. exists []. rewrite app_nil_r. repeat split. constructor.
  - destruct (spawnPoint random fuel room player c) as [[[ex ey] c2] | |] eqn:S;
      cbn [andThen]; [| discriminate | discriminate].
    intros H. destruct (IH _ _ _ _ H) as [new [E [L F]]].
    destruct (spawnPoint_valid _ _ _ _ _ _ _ _ S) as [Hc [Hw Hd]].
    exists (newEnemy ex ey difficulty :: new). split; [| split].
    + rewrite E, <- app_assoc. reflexivity.
    + cbn [length]. rewrite L. reflexivity.
    + constructor; [| exact F]. constructor; cbn [newEnemy Enemy.hp Enemy.maxHp Enemy.state
        Enemy.speed Enemy.x Enemy.y]; auto.
Qed.

Lemma findRoom_id (b : Building.t) (v : Z) (r : Room.t) : findRoom b v = Some r -> Room.id r = v.
Proof.
  unfold findRoom. intros F. apply find_some in F. destruct F as [_ E].
  apply Z.eqb_eq in E. exact E.
Qed.

Lemma setupRoom_spec (random : Oracle) (fuel : nat) (cb roomId : Z) (s s' : Session.t) :
  setupRoom random fuel cb roomId s = Ok s' ->
  exists b room node,
    Game.building (Session.g s) = Some b /\ findRoom b roomId = Some room /\
    findNode (Session.worldMap s) cb = Some node /\
    Game.building (Session.g s') = Some (inBuilding roomId setExplored b) /\
    Game.items (Session.g s') = Room.items room /\
    Session.activeRoomId s' = Session.activeRoomId s /\
    length (Game.enemies (Session.g s'))
    = (if quietRoom b room (difficultyOf node) then O
       else Z.to_nat (2 + 6 * difficultyOf node / 5)) /\
    Forall (Spawned room (Game.player (Session.g s)) (difficultyOf node))
           (Game.enemies (Session.g s')).
Proof.
  unfold setupRoom.
  destruct (Game.building (Session.g s)) as [b |] eqn:Eb; cbn [defined andThen];
    [| discriminate].
  destruct (findRoom b roomId) as [room |] eqn:Er; cbn [defined andThen]; [| discriminate].
  destruct (findNode (Session.worldMap s) cb) as [node |] eqn:En; cbn [defined andThen];
    [| discriminate].
  cbv zeta. intros H. exists b, room, node.
  split; [reflexivity |]. split; [exact Er |]. split; [reflexivity |].
  unfold quietRoom. rewrite (findRoom_id _ _ _ Er).
  destruct (Room.cleared room); cbn [negb andb orb] in *.
  { inversion H; subst s'. cbn. repeat split. constructor. }
  destruct ((roomId =? Building.startRoomId b) && (difficultyOf node =? 0));
    cbn [negb andb orb] in *.
  { inversion H; subst s'. rewrite orb_true_r. cbn. repeat split. constructor. }
  destruct (isBossRoomType (Room.type room)); cbn [negb andb orb] in *.
  { inversion H; subst s'. cbn. repeat split. constructor. }
  match type of H with
  | context [spawnEnemies random fuel ?k ?d room ?p [] ?c] =>
      destruct (spawnEnemies random fuel k d room p [] c) as [[es1 c1] | |] eqn:E
  end; cbn [andThen fst snd] in H; [| discriminate H | discriminate H].
  inversion H; subst s'. clear H.
  destruct (spawnEnemies_spec _ _ _ _ _ _ _ _ _ _ E) as [new [Enew [L F]]].
  cbn [app] in Enew. subst es1. cbn. repeat split; assumption.
Qed.


Lemma findRoom_dropCollected (collected : list Z) (b : Building.t) (v : Z) :
  findRoom (dropCollected collected b) v
  = match findRoom b v with
    | Some room => Some (setItems (filter (notCollected collected) (Room.items room)) room)
    | None => None
    end.
Proof.
  unfold findRoom, dropCollected. cbn [Building.rooms].
  induction (Building.rooms b) as [| r rooms IH]; [reflexivity |].
  cbn [map find setItems Room.id]. destruct (Room.id r =? v); [reflexivity | exact IH].
Qed.

(** The start room of a generated building: room 0, a normal room, not
    yet cleared. *)
Lemma generated_start_room (buildingId difficulty : Z) (theme : Theme) (rootSeed : Z)
    (items : list ItemType) (b : Building.t) (r : Room.t) :
  generateBuilding buildingId difficulty theme rootSeed items = Some b ->
  findRoom b 0 = Some r ->
  Building.startRoomId b = 0 /\ Room.cleared r = false /\ Room.type r = normal.
Proof.
  intros E Fr.
  destruct (generateBuilding_ok buildingId difficulty theme rootSeed items)
    as [b' [g [ipr [E' [I [F [Hs _]]]]]]].
  rewrite E in E'. inversion E'; subst b'. clear E'.
  split; [exact Hs |].
  pose proof (findRoom_id _ _ _ Fr) as Hid. apply findRoom_In in Fr. destruct Fr as [Hr _].
  destruct (Forall2_In_r _ _ _ r F Hr) as [pos [Hpos M]].
  destruct (MadeFrom_fields _ _ _ _ _ M) as [Rid [_ [_ [_ [Rt [_ [_ Rc]]]]]]].
  split; [exact Rc |]. rewrite Rt.
  pose proof (numRoomsOf_ge2 difficulty).
  destruct (Pos.id pos =? numRoomsOf difficulty - 1) eqn:Q; [| reflexivity].
  apply Z.eqb_eq in Q. lia.
Qed.

(** X17.  The enemies of the start room are those of the building before.
    [enterBuilding] calls [setupRoom] before React renders again, so
    [setupRoom] still reads the [currentBuildingId] of the building
    entered before (0 in a new session).  When [enterBuilding] returns,
    the player is in room 0 of the building entered, and the enemies
    there are counted and armed by the difficulty of that earlier
    building: none when it is 0, else [floor(2 + 1.2 * difficulty)]
    enemies with [2 + difficulty] hit points; the difficulty of the
    building entered plays no part. *)
Theorem enterBuilding_spawns_for_previous_building :
  forall (random : Oracle) (fuel : nat) (buildingId : Z) (s s' : Session.t),
    enterBuilding random fuel buildingId s = Ok s' ->
    exists prev,
      findNode (Session.worldMap s) (Session.currentBuildingId s) = Some prev /\
      Session.currentBuildingId s' = buildingId /\
      Session.activeRoomId s' = 0 /\
      length (Game.enemies (Session.g s'))
      = (if difficultyOf prev =? 0 then O else Z.to_nat (2 + 6 * difficultyOf prev / 5)) /\
      Forall (fun e => Enemy.hp e = 2 + difficultyOf prev) (Game.enemies (Session.g s')).
Proof.
  intros random fuel buildingId s s'. unfold enterBuilding.
  destruct (findNode (Session.worldMap s) buildingId) as [node |]; cbn [defined andThen];
    [| discriminate].
  cbv zeta.
  destruct (generateBuilding buildingId (difficultyOf node) (Node.theme node)
              (Session.rootSeed s) (Node.specialItems node)) as [gen |] eqn:Eg;
    cbn [defined andThen]; [| discriminate].
  set (building := dropCollected (Session.collected s) gen).
  assert (H0 : Building.startRoomId building = 0).
  { destruct (generated_ok buildingId (difficultyOf node) (Node.theme node)
                (Session.rootSeed s) (Node.specialItems node)) as [g2 [E2 [_ [_ S2]]]].
    rewrite Eg in E2. inversion E2; subst g2. exact S2. }
  rewrite H0.
  destruct (findRoom building 0) as [start |] eqn:Es; cbn [defined andThen]; [| discriminate].
  match goal with
  | |- context [setupRoom random fuel ?cb ?rid ?s0] =>
      destruct (setupRoom random fuel cb rid s0) as [s1 | |] eqn:E
  end; cbn [andThen]; [| discriminate | discriminate].
  intros H. inversion H; subst s'. clear H.
  destruct (setupRoom_spec _ _ _ _ _ _ E)
    as [b [room [prev [Eb [Er [En [_ [_ [Ea [L F]]]]]]]]]].
  cbn in Eb, Ea. inversion Eb; subst b. clear Eb.
  change (findNode (Session.worldMap s) (Session.currentBuildingId s) = Some prev) in En.
  rewrite Es in Er. inversion Er; subst room. clear Er.
  assert (Hq : quietRoom building start (difficultyOf prev) = (difficultyOf prev =? 0)).
  { pose proof (findRoom_id _ _ _ Es) as Hid.
    unfold building in Es. rewrite findRoom_dropCollected in Es.
    destruct (findRoom gen 0) as [r0 |] eqn:E0; [| discriminate Es].
    destruct (generated_start_room _ _ _ _ _ _ _ Eg E0) as [_ [Hc Ht]].
    inversion Es; subst start.
    unfold quietRoom. cbn [setItems Room.cleared Room.type Room.id] in *.
    rewrite Hc, Ht, H0, Hid. reflexivity. }
  rewrite Hq in L.
  destruct (rerender_core s (withGameState PLAYING (withBuildingId buildingId s1))) as [_ Ee].
  exists prev. split; [exact En |].
  split; [unfold rerender; destruct (_ && _); reflexivity |].
  split; [unfold rerender; destruct (_ && _); exact Ea |].
  rewrite Ee. cbn [withGameState withBuildingId Session.g]. split; [exact L |].
  eapply Forall_impl; [| exact F]. intros e [Hp _ _ _ _ _ _]. exact Hp.
Qed.

Lemma enterBuilding_spawns_for_previous_building_witness :
  exists s',
    enterBuilding (fun c => Z.of_nat c * 1125899906842624 + 562949953421312) 20 3
                  (withBuildingId 1 (withWorldMap exampleMap (initialSession 1 0))) = Ok s' /\
    length (Game.enemies (Session.g s')) = 3%nat /\
    Forall (fun e => Enemy.hp e = 3) (Game.enemies (Session.g s')).
Proof.
  destruct (enterBuilding (fun c => Z.of_nat c * 1125899906842624 + 562949953421312) 20 3
              (withBuildingId 1 (withWorldMap exampleMap (initialSession 1 0))))
    as [s' | |] eqn:E;
    [| vm_compute in E; discriminate E | vm_compute in E; discriminate E].
  exists s'. split; [reflexivity |].
  destruct (enterBuilding_spawns_for_previous_building _ _ _ _ _ E)
    as [prev [En [_ [_ [L F]]]]].
  vm_compute in En. inversion En; subst prev. clear En.
  split; [exact L | exact F].
Defined.
(** ** The world map during a session *)

Lemma Steady_refl (s : Session.t) : Steady s s.
Proof. unfold Steady. repeat split. lia. Qed.

Lemma Steady_trans (s1 s2 s3 : Session.t) : Steady s1 s2 -> Steady s2 s3 -> Steady s1 s3.
Proof.
  unfold Steady. intros [A1 [A2 [A3 A4]]] [B1 [B2 [B3 B4]]].
  repeat split; try congruence. lia.
Qed.

Ltac steady := unfold Steady; cbn; repeat split; try reflexivity; try lia.

Lemma stepPlayer_steady (input : Input.t) (room : Room.t) (s s1 : Session.t) :
  stepPlayer input room s = Ok s1 -> Steady s s1.
Proof.
  unfold stepPlayer. cbv zeta.
  destruct (checkWallCollision _ _ room) as [hitX |]; cbn [defined andThen]; [| discriminate].
  destruct (checkWallCollision _ _ room) as [hitY |]; cbn [defined andThen]; [| discriminate].
  intros H. inversion H; subst s1. steady.
Qed.

Lemma fire_steady (aim : Q -> Q -> Q * Q) (input : Input.t) (s : Session.t) :
  Steady s (fire aim input s).
Proof.
  unfold fire. cbv zeta.
  destruct (Input.fire input && negb (Qltb 0 (Player.cooldown (Game.player (Session.g s)))));
    steady.
Qed.

Lemma createParticles_steady {A} (l : list A) (s : Session.t) :
  Steady s (fold_left (fun acc _ => createParticles acc) l s).
Proof.
  revert s. induction l as [| v l IH]; intros s; [apply Steady_refl |].
  cbn [fold_left]. eapply Steady_trans; [| apply IH]. steady.
Qed.

Lemma bombAttack_steady (input : Input.t) (s : Session.t) : Steady s (bombAttack input s).
Proof.
  unfold bombAttack. cbv zeta.
  destruct (Input.bomb input && (Player.bombCooldown (Game.player (Session.g s)) <=? 0));
    [| apply Steady_refl].
  destruct (Stats.mp (Session.seenStats s) >=? BOMB_COST); [| apply Steady_refl].
  eapply Steady_trans; [| apply createParticles_steady]. steady.
Qed.

Lemma bombTick_steady (s : Session.t) : Steady s (bombTick s).
Proof. steady. Qed.

Lemma stepProjectile_steady (room : Room.t) (p : Projectile.t) (done d1 : list Projectile.t)
    (s s1 : Session.t) :
  stepProjectile room (Ok (done, s)) p = Ok (d1, s1) -> Steady s s1.
Proof.
  unfold stepProjectile. cbn [andThen]. cbv zeta.
  destruct (checkWallCollision _ _ room) as [hit |]; cbn [defined andThen]; [| discriminate].
  destruct (hitEnemies _ _ _) as [[p2 es] hits].
  intros H. inversion H; subst. steady.
Qed.

Lemma fold_stepProjectile_stuck (room : Room.t) (live : list Projectile.t)
    (r : Result (list Projectile.t * Session.t)) :
  (forall v, r <> Ok v) -> forall v, fold_left (stepProjectile room) live r <> Ok v.
Proof.
  revert r. induction live as [| p live IH]; intros r Hr; cbn [fold_left]; [exact Hr |].
  apply IH. intros v. destruct r as [a | |]; [destruct (Hr a eq_refl) | |]; discriminate.
Qed.

Lemma fold_stepProjectile_steady (room : Room.t) (live : list Projectile.t) :
  forall done s d1 s1,
    fold_left (stepProjectile room) live (Ok (done, s)) = Ok (d1, s1) -> Steady s s1.
Proof.
  induction live as [| p live IH]; intros done s d1 s1; cbn [fold_left].
  - intros H. inversion H; subst. apply Steady_refl.
  - destruct (stepProjectile room (Ok (done, s)) p) as [[d2 s2] | |] eqn:E.
    + intros H. eapply Steady_trans; [apply (stepProjectile_steady _ _ _ _ _ _ E) |].
      apply (IH _ _ _ _ H).
    + intros H. exfalso. revert H. apply fold_stepProjectile_stuck. discriminate.
    + intros H. exfalso. revert H. apply fold_stepProjectile_stuck. discriminate.
Qed.

Lemma stepProjectiles_steady (room : Room.t) (s s1 : Session.t) :
  stepProjectiles room s = Ok s1 -> Steady s s1.
Proof.
  unfold stepProjectiles. cbv zeta.
  destruct (fold_left _ _ _) as [[d2 s2] | |] eqn:E; cbn [andThen fst snd];
    [| discriminate | discriminate].
  intros H. inversion H; subst s1.
  eapply Steady_trans; [apply (fold_stepProjectile_steady _ _ _ _ _ _ E) |]. steady.
Qed.

Lemma checkDeaths_steady (s : Session.t) : Steady s (checkDeaths s).
Proof.
  unfold checkDeaths. cbv zeta.
  destruct (len _ >? 0); [| steady].
  destruct (len _ =? 0); [| steady].
  cbn [setPlayerStats withStats Session.g Game.building].
  destruct (Game.building (Session.g s)); steady.
Qed.

Lemma takeDamage_steady (s : Session.t) : Steady s (takeDamage s).
Proof.
  unfold takeDamage, saveScore. cbv zeta.
  destruct (Stats.hp (Session.playerStats s) - 1 <=? 0); [| steady].
  destruct (Stats.score (Session.playerStats s) >? Session.highScore s); steady.
Qed.

Lemma stepEnemy_steady (aim : Q -> Q -> Q * Q) (room : Room.t) (e : Enemy.t)
    (done d1 : list Enemy.t) (s s1 : Session.t) :
  stepEnemy aim room (Ok (done, s)) e = Ok (d1, s1) -> Steady s s1.
Proof.
  unfold stepEnemy. cbn [andThen]. cbv zeta.
  destruct (Enemy.state e).
  - destruct (distLt _ _ _ _ 40).
    + intros H. inversion H; subst. apply Steady_refl.
    + destruct (checkWallCollision _ _ room) as [hitX |]; cbn [defined andThen];
        [| discriminate].
      destruct (checkWallCollision _ _ room) as [hitY |]; cbn [defined andThen];
        [| discriminate].
      intros H. inversion H; subst. apply Steady_refl.
  - destruct (Enemy.timer e - 1 <=? 0).
    + destruct (distLt _ _ _ _ 50); intros H; inversion H; subst;
        [apply takeDamage_steady | apply Steady_refl].
    + intros H. inversion H; subst. apply Steady_refl.
  - intros H. inversion H; subst. apply Steady_refl.
  - intros H. inversion H; subst. apply Steady_refl.
Qed.

Lemma fold_stepEnemy_stuck (aim : Q -> Q -> Q * Q) (room : Room.t) (es : list Enemy.t)
    (r : Result (list Enemy.t * Session.t)) :
  (forall v, r <> Ok v) -> forall v, fold_left (stepEnemy aim room) es r <> Ok v.
Proof.
  revert r. induction es as [| e es IH]; intros r Hr; cbn [fold_left]; [exact Hr |].
  apply IH. intros v. destruct r as [a | |]; [destruct (Hr a eq_refl) | |]; discriminate.
Qed.

Lemma fold_stepEnemy_steady (aim : Q -> Q -> Q * Q) (room : Room.t) (es : list Enemy.t) :
  forall done s d1 s1,
    fold_left (stepEnemy aim room) es (Ok (done, s)) = Ok (d1, s1) -> Steady s s1.
Proof.
  induction es as [| e es IH]; intros done s d1 s1; cbn [fold_left].
  - intros H. inversion H; subst. apply Steady_refl.
  - destruct (stepEnemy aim room (Ok (done, s)) e) as [[d2 s2] | |] eqn:E.
    + intros H. eapply Steady_trans; [apply (stepEnemy_steady _ _ _ _ _ _ _ E) |].
      apply (IH _ _ _ _ H).
    + intros H. exfalso. revert H. apply fold_stepEnemy_stuck. discriminate.
    + intros H. exfalso. revert H. apply fold_stepEnemy_stuck. discriminate.
Qed.

Lemma stepEnemies_steady (aim : Q -> Q -> Q * Q) (room : Room.t) (s s1 : Session.t) :
  stepEnemies aim room s = Ok s1 -> Steady s s1.
Proof.
  unfold stepEnemies.
  destruct (fold_left _ _ _) as [[d2 s2] | |] eqn:E; cbn [andThen fst snd];
    [| discriminate | discriminate].
  intros H. inversion H; subst s1.
  eapply Steady_trans; [apply (fold_stepEnemy_steady _ _ _ _ _ _ _ E) |]. steady.
Qed.

Lemma itemEffect_keys (seen : Stats.t) (ty : ItemType) (f : Stats.t -> Stats.t) (st : Stats.t) :
  itemEffect seen ty = Some f -> Stats.keys st <= Stats.keys (f st).
Proof.
  intros E. destruct ty; cbn [itemEffect] in E;
    try (destruct (_ <? _); [| discriminate E]);
    inversion E; subst f; cbn; lia.
Qed.

Lemma consume_steady (item : Item.t) (seen : Stats.t) (f : Stats.t -> Stats.t) (s : Session.t) :
  itemEffect seen (Item.type item) = Some f -> Steady s (consume item f s).
Proof.
  intros E. pose proof (itemEffect_keys _ _ _ (Session.playerStats s) E) as K.
  unfold consume. cbv zeta.
  cbn [createParticles setPlayerStats withStats withRandomCalls withCollected
       Session.g Game.building].
  destruct (Game.building (Session.g s)); unfold Steady; cbn; repeat split; exact K.
Qed.

Lemma stepItem_steady (kept : list Item.t) (s : Session.t) (item : Item.t) :
  Steady s (snd (stepItem (kept, s) item)).
Proof.
  unfold stepItem.
  destruct (checkCollision _ _); [| apply Steady_refl].
  destruct (itemEffect (Session.seenStats s) (Item.type item)) as [f |] eqn:E;
    [| apply Steady_refl].
  cbn [snd]. exact (consume_steady item _ f s E).
Qed.

Lemma fold_stepItem_steady (items : list Item.t) :
  forall kept s, Steady s (snd (fold_left stepItem items (kept, s))).
Proof.
  induction items as [| item items IH]; intros kept s; cbn [fold_left].
  - apply Steady_refl.
  - pose proof (stepItem_steady kept s item) as S1.
    destruct (stepItem (kept, s) item) as [k1 s1]. cbn [snd] in S1.
    eapply Steady_trans; [exact S1 | apply IH].
Qed.

Lemma stepItems_steady (s : Session.t) : Steady s (stepItems s).
Proof.
  unfold stepItems. cbv zeta.
  eapply Steady_trans; [apply (fold_stepItem_steady (Game.items (Session.g s)) [] s) |].
  steady.
Qed.

Lemma setupRoom_steady (random : Oracle) (fuel : nat) (cb roomId : Z) (s s' : Session.t) :
  setupRoom random fuel cb roomId s = Ok s' ->
  Steady s s' /\ Session.gameState s' = Session.gameState s /\
  Session.playerStats s' = Session.playerStats s.
Proof.
  unfold setupRoom.
  destruct (Game.building (Session.g s)) as [b |]; cbn [defined andThen]; [| discriminate].
  destruct (findRoom b roomId) as [room |]; cbn [defined andThen]; [| discriminate].
  destruct (findNode (Session.worldMap s) cb) as [node |]; cbn [defined andThen];
    [| discriminate].
  cbv zeta. destruct (_ && _ && _).
  - destruct (spawnEnemies _ _ _ _ _ _ _ _) as [[es1 c1] | |]; cbn [andThen fst snd];
      [| discriminate | discriminate].
    intros H. inversion H; subst s'. split; [steady | split; reflexivity].
  - intros H. inversion H; subst s'. split; [steady | split; reflexivity].
Qed.

Lemma transitionRoom_steady (random : Oracle) (fuel : nat) (direction : DoorHit)
    (nextRoomId : Z) (s s' : Session.t) :
  transitionRoom random fuel direction nextRoomId s = Ok s' ->
  Steady s s' /\ Session.gameState s' = Session.gameState s.
Proof.
  unfold transitionRoom.
  destruct (Game.building (Session.g s)) as [b |]; cbn [defined andThen]; [| discriminate].
  destruct (findRoom b nextRoomId) as [next |]; cbn [defined andThen]; [| discriminate].
  cbv zeta. intros H. apply setupRoom_steady in H. destruct H as [S [G _]].
  split; [| exact G]. eapply Steady_trans; [| exact S]. steady.
Qed.

Lemma continue_steady (aim : Q -> Q -> Q * Q) (input : Input.t) (room : Room.t)
    (s1 s5 : Session.t) :
  (s3 <! stepProjectiles room (bombTick (bombAttack input (fire aim input s1))) ;;
   s4 <! stepEnemies aim room (checkDeaths s3) ;;
   Ok (stepItems s4)) = Ok s5 ->
  Steady s1 s5.
Proof.
  destruct (stepProjectiles room _) as [s3 | |] eqn:E3; cbn [andThen];
    [| discriminate | discriminate].
  destruct (stepEnemies aim room _) as [s4 | |] eqn:E4; cbn [andThen];
    [| discriminate | discriminate].
  intros H. inversion H; subst s5.
  apply stepProjectiles_steady in E3. apply stepEnemies_steady in E4.
  eapply Steady_trans; [apply fire_steady |].
  eapply Steady_trans; [apply bombAttack_steady |].
  eapply Steady_trans; [apply bombTick_steady |].
  eapply Steady_trans; [exact E3 |].
  eapply Steady_trans; [apply checkDeaths_steady |].
  eapply Steady_trans; [exact E4 |].
  apply stepItems_steady.
Qed.

(** The branches of [update] that keep the building. *)
Ltac same_frame Hdone Hcont :=
  match goal with
  | |- context [andThen ?c ?k] =>
      let r := fresh "r" in
      let Ec := fresh "Ec" in
      let H := fresh "H" in
      destruct (andThen c k) as [r | |] eqn:Ec; cbn [andThen];
      [| discriminate | discriminate];
      intros H; inversion H; subst; clear H; apply Hdone; apply Hcont; reflexivity
  end.

Ltac door_frame S1 Gs Hdone Hcont :=
  match goal with
  | |- context [doorOf ?d ?ds] => destruct (doorOf d ds)
  end;
  [ match goal with
    | |- context [transitionRoom ?rnd ?fuel ?d ?n ?s1] =>
        let r := fresh "r" in
        let Et := fresh "Et" in
        let H := fresh "H" in
        let St := fresh "St" in
        let Gt := fresh "Gt" in
        destruct (transitionRoom rnd fuel d n s1) as [r | |] eqn:Et;
        cbn [andThen]; [| discriminate | discriminate];
        intros H; inversion H; subst; clear H;
        apply transitionRoom_steady in Et; destruct Et as [St Gt];
        apply Hdone; split;
        [eapply Steady_trans; [exact S1 | exact St] | intros _; exact Gs]
    end
  | same_frame Hdone Hcont ].

(** What a frame does to the world map: nothing, unless the player
    leaves through the boss exit, and then what [completeLevel] does. *)
Lemma update_map (aim : Q -> Q -> Q * Q) (random : Oracle) (fuel : nat) (input : Input.t)
    (s s' : Session.t) :
  update aim random fuel input s = Ok s' ->
  Session.currentBuildingId s' = Session.currentBuildingId s /\
  Stats.keys (Session.playerStats s) <= Stats.keys (Session.playerStats s') /\
  (Session.seenStats s' = Session.seenStats s \/
   Session.seenStats s' = Session.playerStats s') /\
  ((Session.worldMap s' = Session.worldMap s /\
    (Session.gameState s' = PLAYING -> Session.gameState s = PLAYING))
   \/ exists s1 r, Steady s s1 /\ Session.gameState s = PLAYING /\
                   Session.gameState s1 = PLAYING /\
                   Session.playerStats s1 = Session.playerStats s /\
                   completeLevel s1 = Ok r /\
                   Session.worldMap s' = Session.worldMap r /\
                   Session.playerStats s' = Session.playerStats r /\
                   Session.gameState s' = Session.gameState r).
Proof.
  unfold update.
  destruct (GameState_eqb (Session.gameState s) PLAYING) eqn:Gs; cbn [negb].
  2:{ intros H. inversion H; subst s'. split; [reflexivity |]. split; [lia |].
      split; [left; reflexivity |]. left. split; [reflexivity | auto]. }
  apply GameState_eqb_eq in Gs.
  destruct (Game.building (Session.g s)) as [b |]; cbn [defined andThen]; [| discriminate].
  destruct (findRoom b (Session.activeRoomId s)) as [room |]; cbn [defined andThen];
    [| discriminate].
  destruct (stepPlayer input room s) as [s1 | |] eqn:E1; cbn [andThen];
    [| discriminate | discriminate].
  pose proof (stepPlayer_steady _ _ _ _ E1) as S1.
  assert (P1 : Session.playerStats s1 = Session.playerStats s /\
               Session.gameState s1 = Session.gameState s).
  { clear - E1. unfold stepPlayer in E1. cbv zeta in E1.
    destruct (checkWallCollision _ _ room) as [hitX |]; cbn [defined andThen] in E1;
      [| discriminate].
    destruct (checkWallCollision _ _ room) as [hitY |]; cbn [defined andThen] in E1;
      [| discriminate].
    inversion E1; subst s1. split; reflexivity. }
  destruct P1 as [P1 G1].
  assert (Rr : forall r, Steady s r ->
            Session.currentBuildingId (rerender s r) = Session.currentBuildingId s /\
            Stats.keys (Session.playerStats s) <= Stats.keys (Session.playerStats (rerender s r)) /\
            (Session.seenStats (rerender s r) = Session.seenStats s \/
             Session.seenStats (rerender s r) = Session.playerStats (rerender s r)) /\
            Session.worldMap (rerender s r) = Session.worldMap s /\
            Session.gameState (rerender s r) = Session.gameState r).
  { intros r [R1 [R2 [R3 R4]]]. unfold rerender. destruct (_ && _); cbn; auto 10. }
  assert (Hcont : forall r,
            (s3 <! stepProjectiles room (bombTick (bombAttack input (fire aim input s1))) ;;
             s4 <! stepEnemies aim room (checkDeaths s3) ;;
             Ok (stepItems s4)) = Ok r -> Steady s r /\
             (Session.gameState r = PLAYING -> Session.gameState s = PLAYING)).
  { intros r H. split; [| intros _; exact Gs].
    eapply Steady_trans; [exact S1 |]. apply (continue_steady _ _ _ _ _ H). }
  assert (Hdone : forall r,
            Steady s r /\ (Session.gameState r = PLAYING -> Session.gameState s = PLAYING) ->
            Session.currentBuildingId (rerender s r) = Session.currentBuildingId s /\
            Stats.keys (Session.playerStats s) <= Stats.keys (Session.playerStats (rerender s r)) /\
            (Session.seenStats (rerender s r) = Session.seenStats s \/
             Session.seenStats (rerender s r) = Session.playerStats (rerender s r)) /\
            ((Session.worldMap (rerender s r) = Session.worldMap s /\
              (Session.gameState (rerender s r) = PLAYING -> Session.gameState s = PLAYING))
             \/ exists s1 r0, Steady s s1 /\ Session.gameState s = PLAYING /\
                   Session.gameState s1 = PLAYING /\
                   Session.playerStats s1 = Session.playerStats s /\
                   completeLevel s1 = Ok r0 /\
                   Session.worldMap (rerender s r) = Session.worldMap r0 /\
                   Session.playerStats (rerender s r) = Session.playerStats r0 /\
                   Session.gameState (rerender s r) = Session.gameState r0)).
  { intros r [Sr Gr]. destruct (Rr r Sr) as [R1 [R2 [R3 [R4 R5]]]].
    split; [exact R1 |]. split; [exact R2 |]. split; [exact R3 |].
    left. split; [exact R4 |]. rewrite R5. exact Gr. }
  destruct (checkDoorCollision _ _ room) as [[] |].
  5:{ cbv zeta. destruct (completeLevel s1) as [r | |] eqn:Ec; cbn [andThen];
        [| discriminate | discriminate].
      intros H. inversion H; subst s'. clear H.
      assert (Sr : Session.currentBuildingId r = Session.currentBuildingId s1 /\
                   Session.playerStats r = Session.playerStats s1 /\
                   Session.seenStats r = Session.seenStats s1).
      { clear - Ec. unfold completeLevel in Ec. cbv zeta in Ec.
        destruct (findNode _ _) as [n0 |]; cbn [defined andThen] in Ec; [| discriminate].
        destruct (Node.id n0 =? 0).
        - inversion Ec; subst r. repeat split.
        - unfold saveScore in Ec. destruct (Node.column n0 =? _).
          + destruct (_ >? _); inversion Ec; subst r; repeat split.
          + inversion Ec; subst r. repeat split. }
      destruct Sr as [Q1 [Q2 Q3]]. destruct S1 as [T1 [T2 [T3 T4]]].
      assert (V : Session.currentBuildingId (rerender s r) = Session.currentBuildingId r /\
                  Session.playerStats (rerender s r) = Session.playerStats r /\
                  Session.worldMap (rerender s r) = Session.worldMap r /\
                  Session.gameState (rerender s r) = Session.gameState r /\
                  (Session.seenStats (rerender s r) = Session.seenStats r \/
                   Session.seenStats (rerender s r) = Session.playerStats (rerender s r)))
        by (unfold rerender; destruct (_ && _); cbn; auto 10).
      destruct V as [V1 [V2 [V3 [V4 V5]]]].
      split; [congruence |]. split; [rewrite V2, Q2, P1; lia |].
      split; [destruct V5 as [V5 | V5]; [left; congruence | right; exact V5] |].
      right. exists s1, r. repeat split; try assumption; try congruence; try lia. }
  - door_frame S1 Gs Hdone Hcont.
  - door_frame S1 Gs Hdone Hcont.
  - door_frame S1 Gs Hdone Hcont.
  - door_frame S1 Gs Hdone Hcont.
  - same_frame Hdone Hcont.
Qed.
Lemma updateFirst_map (v : Z) (f : Node.t -> Node.t) (l : list Node.t) :
  NoDup (map Node.id l) ->
  updateFirst (fun b => Node.id b =? v) f l
  = map (fun b => if Node.id b =? v then f b else b) l.
Proof.
  induction l as [| n l IH]; intros ND; [reflexivity |].
  cbn [updateFirst map]. simpl in ND. inversion ND as [| ? ? Hn ND1]; subst.
  destruct (Node.id n =? v) eqn:E.
  - f_equal. apply Z.eqb_eq in E. rewrite <- (map_id l) at 1. apply map_ext_in.
    intros a Ha. destruct (Node.id a =? v) eqn:Ea; [| reflexivity].
    apply Z.eqb_eq in Ea. exfalso. apply Hn. apply in_map_iff. exists a.
    split; [congruence | exact Ha].
  - f_equal. apply IH. exact ND1.
Qed.

Lemma completedNode_fields (cur nextCol : Z) (reveal : bool) (n : Node.t) :
  let n' := completedNode cur nextCol reveal n in
  Node.id n' = Node.id n /\ Node.column n' = Node.column n /\
  Node.cleared n' = Node.cleared n || (Node.id n =? cur) /\
  Node.locked n'
  = Node.locked n
    && negb ((negb (Node.id n =? cur) && (Node.column n =? nextCol)
              && negb (Node.id n =? HIDDEN_BUILDING_ID))
             || (reveal && (Node.id n =? HIDDEN_BUILDING_ID))) /\
  Node.hidden n' = Node.hidden n && negb (reveal && (Node.id n =? HIDDEN_BUILDING_ID)).
Proof.
  cbv zeta. unfold completedNode.
  destruct (Node.id n =? cur), (Node.column n =? nextCol),
           (Node.id n =? HIDDEN_BUILDING_ID), reveal;
    cbn; rewrite ?orb_true_r, ?orb_false_r, ?andb_true_r, ?andb_false_r; auto.
Qed.

(** The map that [completeLevel] leaves, node by node. *)
Lemma completeLevel_map (s r : Session.t) :
  NoDup (map Node.id (Session.worldMap s)) ->
  completeLevel s = Ok r ->
  exists n0,
    findNode (Session.worldMap s) (Session.currentBuildingId s) = Some n0 /\
    Session.worldMap r
    = map (completedNode (Session.currentBuildingId s) (Node.column n0 + 1)
                         ((Node.id n0 =? 0) && (Stats.keys (Session.seenStats s) >? 0)))
          (Session.worldMap s) /\
    Session.playerStats r = Session.playerStats s /\
    Session.seenStats r = Session.seenStats s /\
    Session.currentBuildingId r = Session.currentBuildingId s /\
    Session.gameState r
    = (if Node.id n0 =? 0 then MESSAGE
       else if Node.column n0
               =? fold_left (fun m b => if Node.column b >? m then Node.column b else m)
                            (Session.worldMap s) 0
            then ENDING else MAP).
Proof.
  intros ND. unfold completeLevel. cbv zeta.
  destruct (findNode _ _) as [n0 |]; cbn [defined andThen]; [| discriminate].
  set (cur := Session.currentBuildingId s).
  set (step := fun b : Node.t =>
                 if Node.id b =? cur then setClearedNode b
                 else if (Node.column b =? Node.column n0 + 1)
                         && negb (Node.id b =? HIDDEN_BUILDING_ID)
                      then unlockNode (Node.hidden b) b else b).
  assert (Hid : forall n, Node.id (step n) = Node.id n).
  { intros n. unfold step. destruct (Node.id n =? cur); [reflexivity |].
    destruct (_ && _); reflexivity. }
  assert (M0 : map step (Session.worldMap s)
               = map (completedNode cur (Node.column n0 + 1) false) (Session.worldMap s)).
  { apply map_ext. intros n. reflexivity. }
  assert (M1 : updateFirst (fun b => Node.id b =? HIDDEN_BUILDING_ID) (unlockNode false)
                 (map step (Session.worldMap s))
               = map (completedNode cur (Node.column n0 + 1) true) (Session.worldMap s)).
  { rewrite updateFirst_map.
    - rewrite map_map. apply map_ext. intros n. unfold completedNode. fold (step n).
      rewrite Hid. reflexivity.
    - rewrite map_map. rewrite (map_ext _ Node.id Hid). exact ND. }
  intros H. exists n0. split; [reflexivity |].
  destruct (Node.id n0 =? 0).
  - destruct (Stats.keys (Session.seenStats s) >? 0); inversion H; subst r; cbn;
      rewrite ?M1, ?M0; repeat split.
  - unfold saveScore in H. cbn [andb].
    destruct (Node.column n0 =? _).
    + destruct (_ >? _); inversion H; subst r; cbn; rewrite M0; repeat split.
    + inversion H; subst r; cbn; rewrite M0; repeat split.
Qed.

Lemma findNode_unique (m : list Node.t) (n : Node.t) :
  NoDup (map Node.id m) -> In n m -> findNode m (Node.id n) = Some n.
Proof.
  intros ND Hn.
  destruct (proj1 (findNode_found m (Node.id n))) as [k Fk];
    [apply in_map; exact Hn |].
  rewrite Fk. f_equal. destruct (findNode_In _ _ _ Fk) as [Hk Ek].
  apply (map_inj_In Node.id m k n ND Hk Hn Ek).
Qed.

Lemma completeLevel_earned (s r : Session.t) :
  Earned s -> Session.gameState s = PLAYING -> completeLevel s = Ok r ->
  Earned r /\ Session.gameState r <> PLAYING.
Proof.
  intros [ND Ec Eu Eh Es Ep] Gs H.
  destruct (completeLevel_map s r ND H) as [n0 [F0 [Em [Ps [Ss [Cs Gr]]]]]].
  destruct (Ep Gs) as [n0' [F0' [L0 H0]]]. rewrite F0 in F0'. inversion F0'; subst n0'.
  clear F0'. destruct (findNode_In _ _ _ F0) as [In0 Id0].
  set (cur := Session.currentBuildingId s) in *.
  set (reveal := (Node.id n0 =? 0) && (Stats.keys (Session.seenStats s) >? 0)) in *.
  set (h := completedNode cur (Node.column n0 + 1) reveal) in *.
  assert (Hf : forall n,
    Node.id (h n) = Node.id n /\ Node.column (h n) = Node.column n /\
    Node.cleared (h n) = Node.cleared n || (Node.id n =? cur) /\
    Node.locked (h n)
    = Node.locked n
      && negb ((negb (Node.id n =? cur) && (Node.column n =? Node.column n0 + 1)
                && negb (Node.id n =? HIDDEN_BUILDING_ID))
               || (reveal && (Node.id n =? HIDDEN_BUILDING_ID))) /\
    Node.hidden (h n) = Node.hidden n && negb (reveal && (Node.id n =? HIDDEN_BUILDING_ID)))
    by (intros n; apply completedNode_fields).
  assert (Hrev : reveal = true -> Node.id n0 = 0 /\ 1 <= Stats.keys (Session.playerStats s)).
  { unfold reveal. intros R. apply andb_prop in R. destruct R as [R1 R2].
    apply Z.eqb_eq in R1. apply Z.gtb_lt in R2. split; [exact R1 | lia]. }
  assert (Hcur : forall n, In n (Session.worldMap s) -> Node.id n = cur -> n = n0).
  { intros n Hn E. apply (map_inj_In Node.id _ n n0 ND Hn In0). congruence. }
  assert (C0 : In (h n0) (map h (Session.worldMap s)) /\ Node.cleared (h n0) = true /\
               Node.column (h n0) = Node.column n0 /\ Node.id (h n0) = Node.id n0).
  { split; [apply in_map; exact In0 |]. destruct (Hf n0) as [A1 [A2 [A3 _]]].
    split; [| split; assumption]. rewrite A3, Id0, Z.eqb_refl. apply orb_true_r. }
  destruct C0 as [C0 [C1 [C2 C3]]].
  assert (Keep : forall c, In c (Session.worldMap s) -> Node.cleared c = true ->
                 In (h c) (map h (Session.worldMap s)) /\ Node.cleared (h c) = true /\
                 Node.column (h c) = Node.column c /\ Node.id (h c) = Node.id c).
  { intros c Hc Cc. split; [apply in_map; exact Hc |].
    destruct (Hf c) as [A1 [A2 [A3 _]]]. split; [| split; assumption].
    rewrite A3, Cc. reflexivity. }
  split.
  2:{ rewrite Gr. destruct (Node.id n0 =? 0); [discriminate |].
      destruct (_ =? _); discriminate. }
  constructor; rewrite ?Em, ?Ps, ?Ss.
  - rewrite map_map. rewrite (map_ext _ Node.id (fun n => proj1 (Hf n))). exact ND.
  - intros n' Hn' Cn. apply in_map_iff in Hn'. destruct Hn' as [n [<- Hn]].
    destruct (Hf n) as [A1 [A2 [A3 [A4 A5]]]]. rewrite A3 in Cn. rewrite A4, A5.
    assert (Old : Node.locked n = false /\ Node.hidden n = false).
    { apply orb_prop in Cn. destruct Cn as [Cn | Cn]; [apply (Ec n Hn Cn) |].
      apply Z.eqb_eq in Cn. rewrite (Hcur n Hn Cn). auto. }
    destruct Old as [-> ->]. split; reflexivity.
  - intros n' Hn' Idn Ln. apply in_map_iff in Hn'. destruct Hn' as [n [<- Hn]].
    destruct (Hf n) as [A1 [A2 [A3 [A4 A5]]]]. rewrite A1 in Idn. rewrite A2.
    rewrite A4 in Ln. apply andb_false_iff in Ln. destruct Ln as [Ln | Ln].
    + destruct (Eu n Hn Idn Ln) as [Z0 | [c [Hc [Cc Kc]]]]; [left; exact Z0 |].
      right. destruct (Keep c Hc Cc) as [K1 [K2 [K3 _]]].
      exists (h c). split; [exact K1 |]. split; [exact K2 |]. rewrite K3. exact Kc.
    + apply negb_false_iff in Ln. apply orb_prop in Ln. destruct Ln as [Ln | Ln].
      * apply andb_prop in Ln. destruct Ln as [Ln _]. apply andb_prop in Ln.
        destruct Ln as [_ Ln]. apply Z.eqb_eq in Ln.
        right. exists (h n0). split; [exact C0 |]. split; [exact C1 |]. lia.
      * apply andb_prop in Ln. destruct Ln as [_ Ln]. apply Z.eqb_eq in Ln. contradiction.
  - intros n' Hn' Idn Open. apply in_map_iff in Hn'. destruct Hn' as [n [<- Hn]].
    destruct (Hf n) as [A1 [A2 [A3 [A4 A5]]]]. rewrite A1 in Idn.
    rewrite A4, A5 in Open.
    assert (Cases : (Node.locked n = false \/ Node.hidden n = false) \/ reveal = true).
    { destruct (Node.locked n), (Node.hidden n), reveal; auto.
      exfalso. cbn in Open. rewrite Idn, Z.eqb_refl in Open.
      rewrite andb_false_r in Open. cbn in Open. destruct Open; discriminate. }
    destruct Cases as [Old | R].
    + destruct (Eh n Hn Idn Old) as [[c [Hc [I0 Cc]]] K]. split; [| exact K].
      destruct (Keep c Hc Cc) as [K1 [K2 [_ K4]]].
      exists (h c). split; [exact K1 |]. split; [congruence | exact K2].
    + destruct (Hrev R) as [I0 K]. split; [| exact K].
      exists (h n0). split; [exact C0 |]. split; [congruence | exact C1].
  - exact Es.
  - rewrite Gr. destruct (Node.id n0 =? 0); [discriminate |].
    destruct (_ =? _); discriminate.
Qed.
(** No node of a new world map is cleared. *)
Lemma pushAt_keeps (P : Node.t -> Prop) (i : nat) (t : ItemType) (bs : list Node.t) :
  (forall b, P b -> P (pushItem t b)) -> Forall P bs -> Forall P (pushAt i t bs).
Proof.
  intros Hp H. unfold pushAt. destruct (nth_error bs i) as [b |] eqn:E; [| exact H].
  rewrite Forall_forall in *. intros u Hu. apply In_setNth in Hu.
  destruct Hu as [-> | Hu]; [| apply H; exact Hu].
  apply Hp. apply H. eapply nth_error_In. exact E.
Qed.

Lemma roundRobin_keeps (P : Node.t -> Prop) (fuel : nat) :
  (forall t b, P b -> P (pushItem t b)) ->
  forall bs poolRev bIdx m,
    roundRobin fuel bs poolRev bIdx = Some m -> Forall P bs -> Forall P m.
Proof.
  intros Hp. induction fuel as [| fuel IH]; intros bs poolRev bIdx m.
  - destruct poolRev; cbn [roundRobin]; [| discriminate].
    intros H. inversion H; subst. auto.
  - destruct poolRev as [| t rest]; cbn [roundRobin].
    + intros H. inversion H; subst. auto.
    + destruct (nth_error bs bIdx) as [b |]; [| discriminate]. cbv zeta.
      destruct (negb (Node.id b =? HIDDEN_BUILDING_ID)).
      * intros H F. apply (IH _ _ _ _ H). apply pushAt_keeps; [apply Hp | exact F].
      * intros H F. apply (IH _ _ _ _ H F).
Qed.

Lemma generateWorldMap_fresh (o : Oracle) (c : nat) (m : list Node.t) :
  fst (generateWorldMap o c) = Some m -> Forall (fun n => Node.cleared n = false) m.
Proof.
  unfold generateWorldMap, bindR.
  destruct (shuffle _ _ o c) as [pool c1].
  assert (F0 : Forall (fun n => Node.cleared n = false)
                 (standardColumns columnsConfig 0 0 ++ [hiddenNode])).
  { rewrite initial_nodes. repeat constructor. }
  assert (F1 : Forall (fun n => Node.cleared n = false)
                 (fst (placeKey (standardColumns columnsConfig 0 0 ++ [hiddenNode]) o c1))).
  { unfold placeKey. cbv zeta. destruct (_ >? 0); [| exact F0].
    unfold bindR. destruct (randomBelow _ o c1) as [k c2].
    destruct (index _ k); unfold retR; cbn [fst]; [| exact F0].
    apply pushAt_keeps; [auto | exact F0]. }
  destruct (placeKey _ o c1) as [withKey c2]. cbn [fst] in F1. unfold retR. cbn [fst].
  intros H.
  apply (roundRobin_keeps (fun n => Node.cleared n = false) _ (fun t b Hb => Hb) _ _ _ _ H F1).
Qed.

Lemma Earned_same (s s' : Session.t) :
  Earned s ->
  Session.worldMap s' = Session.worldMap s ->
  Stats.keys (Session.playerStats s) <= Stats.keys (Session.playerStats s') ->
  Stats.keys (Session.seenStats s') <= Stats.keys (Session.playerStats s') ->
  (Session.gameState s' = PLAYING ->
   Session.gameState s = PLAYING /\
   Session.currentBuildingId s' = Session.currentBuildingId s) ->
  Earned s'.
Proof.
  intros [ND Ec Eu Eh Es Ep] Em Ek Ese Eg.
  constructor; rewrite ?Em; try assumption.
  - intros n Hn I O. destruct (Eh n Hn I O) as [C K]. split; [exact C | lia].
  - intros G. destruct (Eg G) as [G0 C0]. rewrite C0. apply Ep. exact G0.
Qed.

Lemma rerender_earned (before after : Session.t) :
  Earned after -> Earned (rerender before after).
Proof.
  intros E. unfold rerender. destruct (_ && _); [exact E |].
  apply (Earned_same after); cbn; auto; lia.
Qed.

Lemma update_earned (aim : Q -> Q -> Q * Q) (random : Oracle) (fuel : nat) (input : Input.t)
    (s s' : Session.t) :
  Earned s -> update aim random fuel input s = Ok s' -> Earned s'.
Proof.
  intros E H. destruct (update_map _ _ _ _ _ _ H) as [Hc [Hk [Hs Hm]]].
  pose proof (er_seen s E) as Es.
  assert (Hseen : Stats.keys (Session.seenStats s') <= Stats.keys (Session.playerStats s')).
  { destruct Hs as [-> | ->]; lia. }
  destruct Hm as [[Hm Hg] | [s1 [r [[S1 [S2 [S3 S4]]] [G0 [G1 [P1 [Hr [Wm [Ps Gr]]]]]]]]]].
  - apply (Earned_same s); auto.
  - assert (E1 : Earned s1).
    { apply (Earned_same s); auto; try lia. rewrite S3. rewrite P1. exact Es. }
    destruct (completeLevel_earned s1 r E1 G1 Hr) as [Er Gn].
    apply (Earned_same r); auto.
    + rewrite Ps. lia.
    + intros G. rewrite Gr in G. contradiction.
Qed.

Lemma enterBuilding_fields (random : Oracle) (fuel : nat) (buildingId : Z) (s s' : Session.t) :
  enterBuilding random fuel buildingId s = Ok s' ->
  Session.worldMap s' = Session.worldMap s /\
  Session.playerStats s' = Session.playerStats s /\
  Session.currentBuildingId s' = buildingId /\
  (Session.seenStats s' = Session.seenStats s \/
   Session.seenStats s' = Session.playerStats s').
Proof.
  unfold enterBuilding.
  destruct (findNode (Session.worldMap s) buildingId) as [node |]; cbn [defined andThen];
    [| discriminate].
  cbv zeta.
  destruct (generateBuilding _ _ _ _ _) as [gen |]; cbn [defined andThen]; [| discriminate].
  destruct (findRoom _ _) as [start |]; cbn [defined andThen]; [| discriminate].
  destruct (setupRoom _ _ _ _ _) as [s1 | |] eqn:E; cbn [andThen];
    [| discriminate | discriminate].
  intros H. inversion H; subst s'. clear H.
  apply setupRoom_steady in E. destruct E as [[S1 [S2 [S3 S4]]] [G P]].
  cbn in S1, S3, P.
  unfold rerender. destruct (_ && _); cbn; rewrite ?S1, ?P, ?S3; auto.
Qed.

Lemma fresh_map_earned (m : list Node.t) (st : Stats.t) (s : Session.t) :
  map Node.id m = [0; 1; 2; 3; 4; 5; 6; 7; HIDDEN_BUILDING_ID] ->
  map Node.column m = [0; 1; 1; 2; 2; 3; 3; 4; -1] ->
  map Node.locked m = [false; true; true; true; true; true; true; true; true] ->
  map Node.hidden m = [false; false; false; false; false; false; false; false; true] ->
  Forall (fun n => Node.cleared n = false) m ->
  Session.worldMap s = m -> Session.gameState s <> PLAYING ->
  Stats.keys (Session.seenStats s) <= Stats.keys (Session.playerStats s) ->
  Earned s.
Proof.
  intros Hi Hc Hl Hh Hf Em Gs Ks.
  constructor; rewrite ?Em; try assumption.
  - rewrite Hi. unfold HIDDEN_BUILDING_ID.
    repeat (constructor; [simpl; intros F; repeat (destruct F as [F | F]; [lia |]); exact F |]).
    constructor.
  - intros n Hn C. rewrite Forall_forall in Hf. rewrite (Hf n Hn) in C. discriminate C.
  - intros n Hn _ L.
    do 9 (destruct m as [| ? m]; [discriminate Hi |]). destruct m; [| discriminate Hi].
    simpl in Hc, Hl. inversion Hc. inversion Hl. clear Hc Hl Hi Hh Hf.
    simpl in Hn.
    repeat (destruct Hn as [<- | Hn]; [auto; congruence |]). destruct Hn.
  - intros n Hn I O.
    do 9 (destruct m as [| ? m]; [discriminate Hi |]). destruct m; [| discriminate Hi].
    simpl in Hi, Hl, Hh. inversion Hi. inversion Hl. inversion Hh. clear Hc Hl Hi Hh Hf.
    unfold HIDDEN_BUILDING_ID in I. simpl in Hn.
    repeat (destruct Hn as [<- | Hn]; [try lia; destruct O; congruence |]). destruct Hn.
  - intros G. contradiction.
Qed.

Lemma startGame_earned (random : Oracle) (now : Z) (s s' : Session.t) :
  Session.gameState s <> MAP ->
  startGame random now s = Ok s' -> Earned (rerender s s').
Proof.
  intros Gs. unfold startGame.
  destruct (generateWorldMap_deal random (Session.randomCalls s))
    as [m [E [Hi [Hc [Hl [Hh _]]]]]].
  pose proof (generateWorldMap_fresh random (Session.randomCalls s) m) as Hf.
  rewrite E in *. cbn [fst] in Hf. specialize (Hf eq_refl).
  intros H. inversion H; subst s'. clear H.
  assert (R : forall after, Session.gameState after = MAP ->
                rerender s after = withSeen (Session.playerStats after) after).
  { intros after Ga. unfold rerender. rewrite Ga.
    destruct (Session.gameState s); try reflexivity. contradiction. }
  rewrite R by reflexivity.
  apply (fresh_map_earned m (freshStats (Session.selectedChar s))); try assumption;
    try reflexivity; cbn; try discriminate; lia.
Qed.

Lemma dispatch_earned (aim : Q -> Q -> Q * Q) (random : Oracle) (fuel : nat) (e : Event)
    (app app' : App.t) :
  Earned (App.session app) -> dispatch aim random fuel e app = Ok app' ->
  Earned (App.session app').
Proof.
  intros E. destruct app as [s p]. cbn [App.session] in E.
  assert (Hstay : Ok {| App.session := s; App.endingPage := p |} = Ok app' ->
                  Earned (App.session app'))
    by (intros H; inversion H; subst; exact E).
  assert (Hscreen : forall st, st <> PLAYING ->
            onSession {| App.session := s; App.endingPage := p |} (Ok (withGameState st s))
            = Ok app' -> Earned (App.session app')).
  { intros st Hst H. unfold onSession in H. cbn [andThen App.session App.endingPage] in H.
    inversion H; subst app'. cbn [App.session]. apply rerender_earned.
    apply (Earned_same s); cbn; auto; try lia.
    - apply (er_seen s E).
    - intros G. contradiction. }
  unfold dispatch. cbv zeta. cbn [App.session App.endingPage].
  destruct e as [| i | now | i | input | | |].
  - destruct (GameState_eqb (Session.gameState s) START); [| exact Hstay].
    apply Hscreen. discriminate.
  - destruct (GameState_eqb (Session.gameState s) CHAR_SELECT) eqn:G; [| exact Hstay].
    apply GameState_eqb_eq in G.
    destruct (nth_error CHARACTERS i) as [c |]; [| exact Hstay].
    unfold onSession. cbn [andThen App.session App.endingPage].
    intros H. inversion H; subst app'. cbn [App.session]. apply rerender_earned.
    apply (Earned_same s); cbn; auto; try lia. apply (er_seen s E).
  - destruct (GameState_eqb (Session.gameState s) CHAR_SELECT) eqn:G; [| exact Hstay].
    apply GameState_eqb_eq in G.
    unfold onSession. destruct (startGame random now s) as [s1 | |] eqn:Es;
      cbn [andThen App.session App.endingPage]; [| discriminate | discriminate].
    intros H. inversion H; subst app'. cbn [App.session].
    apply (startGame_earned random now); [rewrite G; discriminate | exact Es].
  - destruct (GameState_eqb (Session.gameState s) MAP) eqn:G; [| exact Hstay].
    destruct (nth_error (Session.worldMap s) i) as [node |] eqn:En; [| exact Hstay].
    destruct (Node.hidden node || Node.locked node) eqn:O; [exact Hstay |].
    apply orb_false_iff in O. destruct O as [Oh Ol].
    unfold onSession.
    destruct (enterBuilding random fuel (Node.id node) s) as [s1 | |] eqn:Eb;
      cbn [andThen App.session App.endingPage]; [| discriminate | discriminate].
    intros H. inversion H; subst app'. cbn [App.session]. apply rerender_earned.
    destruct (enterBuilding_fields _ _ _ _ _ Eb) as [F1 [F2 [F3 F4]]].
    pose proof E as [ND Ec Eu Eh Es Ep].
    constructor; rewrite ?F1, ?F2, ?F3; try assumption.
    + destruct F4 as [-> | ->]; [exact Es | rewrite F2; lia].
    + intros _. exists node. split; [| auto].
      apply findNode_unique; [exact ND | eapply nth_error_In; exact En].
  - destruct (update aim random fuel input s) as [s1 | |] eqn:Eu; cbn [andThen];
      [| discriminate | discriminate].
    intros H. inversion H; subst app'. cbn [App.session].
    apply (update_earned _ _ _ _ _ _ E Eu).
  - destruct (GameState_eqb (Session.gameState s) GAMEOVER); [| exact Hstay].
    apply Hscreen. discriminate.
  - destruct (GameState_eqb (Session.gameState s) MESSAGE); [| exact Hstay].
    apply Hscreen. discriminate.
  - destruct (GameState_eqb (Session.gameState s) ENDING); [| exact Hstay].
    destruct (getEndingContent _ _ _) as [content |]; [| exact Hstay].
    destruct (endingClick _ _ _) as [page |].
    + intros H. inversion H; subst app'. exact E.
    + apply Hscreen. discriminate.
Qed.

Lemma run_earned (aim : Q -> Q -> Q * Q) (random : Oracle) (fuel : nat) (events : list Event) :
  forall app app', Earned (App.session app) -> run aim random fuel events app = Ok app' ->
                   Earned (App.session app').
Proof.
  induction events as [| e events IH]; intros app app' E; cbn [run].
  - intros H. inversion H; subst. exact E.
  - destruct (dispatch aim random fuel e app) as [app1 | |] eqn:D; cbn [andThen];
      [| discriminate | discriminate].
    apply IH. apply (dispatch_earned _ _ _ _ _ _ E D).
Qed.

Lemma initialApp_earned (now saved : Z) : Earned (App.session (initialApp now saved)).
Proof.
  constructor; cbn; try (intros ? []); try discriminate; try lia. constructor.
Qed.

(** X18.  Progress on the world map is earned.  After any run of events
    from the first render on, whatever [Math.random] and the clock
    return: the node ids of the map are distinct; a building is marked
    cleared only if it is open and shown; a building other than the
    hidden one is open only if it lies in the first column or a
    building of the column just before it is cleared, so that no column
    can be skipped; the hidden building is open or shown only if
    building 0 is cleared and the player holds a key; and the building
    that is being played is open and shown.  [completeLevel] never locks,
    hides or un-clears a node. *)
Theorem map_progress_is_earned :
  forall (aim : Q -> Q -> Q * Q) (random : Oracle) (fuel : nat) (now saved : Z)
         (events : list Event) (app : App.t),
    run aim random fuel events (initialApp now saved) = Ok app ->
    let s := App.session app in
    NoDup (map Node.id (Session.worldMap s)) /\
    (forall n, In n (Session.worldMap s) -> Node.cleared n = true ->
               Node.locked n = false /\ Node.hidden n = false) /\
    (forall n, In n (Session.worldMap s) ->
               Node.id n <> HIDDEN_BUILDING_ID -> Node.locked n = false ->
               Node.column n = 0 \/
               exists c, In c (Session.worldMap s) /\ Node.cleared c = true /\
                         Node.column c + 1 = Node.column n) /\
    (forall n, In n (Session.worldMap s) -> Node.id n = HIDDEN_BUILDING_ID ->
               Node.locked n = false \/ Node.hidden n = false ->
               (exists c, In c (Session.worldMap s) /\ Node.id c = 0 /\
                          Node.cleared c = true) /\
               1 <= Stats.keys (Session.playerStats s)) /\
    (Session.gameState s = PLAYING ->
     exists n, findNode (Session.worldMap s) (Session.currentBuildingId s) = Some n /\
               Node.locked n = false /\ Node.hidden n = false).
Proof.
  intros aim random fuel now saved events app H. cbv zeta.
  destruct (run_earned aim random fuel events _ _ (initialApp_earned now saved) H)
    as [ND Ec Eu Eh Es Ep].
  auto 10.
Qed.
(** ** The enemies and the walls *)

Lemma sameWalls_refl (r : Room.t) : sameWalls r r.
Proof. repeat split. Qed.

Lemma sameWalls_trans (a b c : Room.t) : sameWalls a b -> sameWalls b c -> sameWalls a c.
Proof.
  unfold sameWalls. intros [A1 [A2 [A3 [A4 A5]]]] [B1 [B2 [B3 [B4 B5]]]].
  repeat split; congruence.
Qed.

Lemma Cosmetic_walls (f : Room.t -> Room.t) (r : Room.t) : Cosmetic f -> sameWalls r (f r).
Proof. intros Hf. destruct (Hf r) as [_ [A [B [C [D E]]]]]. repeat split; assumption. Qed.

Lemma wall_same (r r' : Room.t) (x y : Q) :
  sameWalls r r' -> checkWallCollision x y r' = checkWallCollision x y r.
Proof.
  intros [A [B [C [D E]]]]. unfold checkWallCollision, wallAt, isDoorTile.
  rewrite A, B, C, D, E. reflexivity.
Qed.

Lemma Clear_same (r r' : Room.t) (es : list Enemy.t) :
  sameWalls r r' -> Clear r es -> Clear r' es.
Proof.
  intros S H. unfold Clear in *. eapply Forall_impl; [| exact H].
  intros e He. cbv beta in *. rewrite (wall_same r r' _ _ S). exact He.
Qed.

(** A change of the active room that leaves the walls alone. *)
Lemma findRoom_inBuilding (v w : Z) (f : Room.t -> Room.t) (b : Building.t) (r : Room.t) :
  Cosmetic f -> findRoom b w = Some r ->
  exists r', findRoom (inBuilding v f b) w = Some r' /\ sameWalls r r' /\
             (v = w -> r' = f r) /\ (v <> w -> r' = r).
Proof.
  intros Hf. unfold findRoom, inBuilding. cbn [Building.rooms].
  induction (Building.rooms b) as [| r0 rooms IH]; [discriminate |].
  cbn [updateRoom find]. destruct (Room.id r0 =? v) eqn:Ev.
  - cbn [find]. destruct (Hf r0) as [Ei _]. rewrite Ei.
    destruct (Room.id r0 =? w) eqn:Ew.
    + intros H. inversion H; subst r0. exists (f r).
      split; [reflexivity |]. split; [apply Cosmetic_walls; exact Hf |].
      split; [reflexivity |]. intros N. apply Z.eqb_eq in Ev, Ew. congruence.
    + intros H. exists r. split; [exact H |]. split; [apply sameWalls_refl |].
      split; [| reflexivity]. intros ->. rewrite Ev in Ew. discriminate.
  - cbn [find]. destruct (Room.id r0 =? w) eqn:Ew.
    + intros H. inversion H; subst r0. exists r. split; [reflexivity |].
      split; [apply sameWalls_refl |]. split; [| reflexivity].
      intros ->. rewrite Ev in Ew. discriminate.
    + exact IH.
Qed.

Lemma Walls_view (room : Room.t) (s s' : Session.t) :
  Game.building (Session.g s') = Game.building (Session.g s) ->
  Session.activeRoomId s' = Session.activeRoomId s ->
  Walls room s -> Walls room s'.
Proof. unfold Walls. intros -> ->. auto. Qed.

Lemma Walls_core (room : Room.t) (s s' : Session.t) :
  coreView s' = coreView s -> Walls room s -> Walls room s'.
Proof.
  unfold coreView. intros V. inversion V as [[V1 V2 V3 V4 V5 V6 V7]].
  apply Walls_view; assumption.
Qed.

Lemma Walls_inBuilding (room : Room.t) (f : Room.t -> Room.t) (s s' : Session.t)
    (b : Building.t) :
  Cosmetic f -> Game.building (Session.g s) = Some b ->
  Game.building (Session.g s') = Some (inBuilding (Session.activeRoomId s) f b) ->
  Session.activeRoomId s' = Session.activeRoomId s ->
  Walls room s -> Walls room s'.
Proof.
  intros Hf Eb Eb' Ea [b0 [r [E0 [Fr Sw]]]]. rewrite Eb in E0. inversion E0; subst b0.
  destruct (findRoom_inBuilding (Session.activeRoomId s) (Session.activeRoomId s) f b r Hf Fr)
    as [r' [F' [S' _]]].
  exists (inBuilding (Session.activeRoomId s) f b), r'. rewrite Ea.
  split; [exact Eb' |]. split; [exact F' |]. apply (sameWalls_trans _ r); assumption.
Qed.

Lemma Clear_snoc (room : Room.t) (done : list Enemy.t) (e : Enemy.t) :
  Clear room done -> checkWallCollision (Enemy.x e) (Enemy.y e) room = Some false ->
  Clear room (done ++ [e]).
Proof.
  intros H He. apply Forall_app. split; [exact H |]. constructor; [exact He | constructor].
Qed.

Lemma stepPlayer_free (input : Input.t) (room0 room : Room.t) (s s1 : Session.t) :
  stepPlayer input room0 s = Ok s1 ->
  Game.building (Session.g s1) = Game.building (Session.g s) /\
  Session.activeRoomId s1 = Session.activeRoomId s /\
  Game.enemies (Session.g s1) = Game.enemies (Session.g s).
Proof.
  unfold stepPlayer. cbv zeta.
  destruct (checkWallCollision _ _ room0) as [hitX |]; cbn [defined andThen]; [| discriminate].
  destruct (checkWallCollision _ _ room0) as [hitY |]; cbn [defined andThen]; [| discriminate].
  intros H. inversion H; subst s1. repeat split.
Qed.

Lemma bombAttack_free (room : Room.t) (input : Input.t) (s : Session.t) :
  (Walls room s -> Walls room (bombAttack input s)) /\
  (Clear room (Game.enemies (Session.g s)) ->
   Clear room (Game.enemies (Session.g (bombAttack input s)))).
Proof.
  unfold bombAttack. cbv zeta.
  destruct (Input.bomb input && (Player.bombCooldown (Game.player (Session.g s)) <=? 0));
    [| auto].
  destruct (Stats.mp (Session.seenStats s) >=? BOMB_COST); [| auto].
  match goal with
  | |- context [fold_left _ ?l ?s0] =>
      destruct (createParticles_fold l s0) as [V Ee]; cbv zeta in V, Ee
  end.
  split.
  - intros W. apply (Walls_core _ _ _ V). revert W. apply Walls_view; reflexivity.
  - intros C. rewrite Ee. cbn. unfold Clear in *. apply Forall_map.
    eapply Forall_impl; [| exact C]. intros e He. exact He.
Qed.

Lemma hitEnemies_clear (room : Room.t) (damage : Z) (p : Projectile.t) (es : list Enemy.t) :
  Clear room es -> Clear room (snd (fst (hitEnemies damage p es))).
Proof.
  unfold hitEnemies.
  assert (G : forall q done hits, Clear room done -> Clear room es ->
    Clear room (snd (fst (fold_left
      (fun (acc : Projectile.t * list Enemy.t * nat) e =>
         let '(q, done, hits) := acc in
         if checkCollision (Projectile.x q, Projectile.y q, 10, 10)%Q (enemyRect e)
         then ({| Projectile.x := Projectile.x q; Projectile.y := Projectile.y q;
                  Projectile.vx := Projectile.vx q; Projectile.vy := Projectile.vy q;
                  Projectile.life := 0 |},
               done ++ [hurt (Enemy.hp e - damage) STUNNED 60 e], S hits)
         else (q, done ++ [e], hits)) es (q, done, hits))))).
  { induction es as [| e es IH]; intros q done hits Hd He; cbn [fold_left]; [exact Hd |].
    inversion He as [| ? ? He1 He2]; subst.
    destruct (checkCollision _ _); apply IH; try assumption;
      apply Clear_snoc; assumption. }
  intros H. apply G; [constructor | exact H].
Qed.

Lemma stepProjectile_free (room0 room : Room.t) (p : Projectile.t)
    (done d1 : list Projectile.t) (s s1 : Session.t) :
  stepProjectile room0 (Ok (done, s)) p = Ok (d1, s1) ->
  (Walls room s -> Walls room s1) /\
  (Clear room (Game.enemies (Session.g s)) -> Clear room (Game.enemies (Session.g s1))).
Proof.
  unfold stepProjectile. cbn [andThen]. cbv zeta.
  destruct (checkWallCollision _ _ room0) as [hit |]; cbn [defined andThen]; [| discriminate].
  match goal with
  | |- context [hitEnemies ?d ?q ?es] =>
      pose proof (hitEnemies_clear room d q es) as Hc;
      destruct (hitEnemies d q es) as [[p2 es1] hits]
  end.
  cbn [fst snd] in Hc. intros H. inversion H; subst. split.
  - apply Walls_view; reflexivity.
  - exact Hc.
Qed.

Lemma fold_stepProjectile_free (room0 room : Room.t) (live : list Projectile.t) :
  forall done s d1 s1,
    fold_left (stepProjectile room0) live (Ok (done, s)) = Ok (d1, s1) ->
    (Walls room s -> Walls room s1) /\
    (Clear room (Game.enemies (Session.g s)) -> Clear room (Game.enemies (Session.g s1))).
Proof.
  induction live as [| p live IH]; intros done s d1 s1; cbn [fold_left].
  - intros H. inversion H; subst. auto.
  - destruct (stepProjectile room0 (Ok (done, s)) p) as [[d2 s2] | |] eqn:E.
    + intros H. destruct (stepProjectile_free _ room _ _ _ _ _ E) as [A1 A2].
      destruct (IH _ _ _ _ H) as [B1 B2]. auto.
    + intros H. exfalso. revert H. apply fold_stepProjectile_stuck. discriminate.
    + intros H. exfalso. revert H. apply fold_stepProjectile_stuck. discriminate.
Qed.

Lemma stepProjectiles_free (room0 room : Room.t) (s s1 : Session.t) :
  stepProjectiles room0 s = Ok s1 ->
  (Walls room s -> Walls room s1) /\
  (Clear room (Game.enemies (Session.g s)) -> Clear room (Game.enemies (Session.g s1))).
Proof.
  unfold stepProjectiles. cbv zeta.
  destruct (fold_left _ _ _) as [[d2 s2] | |] eqn:E; cbn [andThen fst snd];
    [| discriminate | discriminate].
  intros H. inversion H; subst s1.
  destruct (fold_stepProjectile_free _ room _ _ _ _ _ E) as [A1 A2]. split.
  - intros W. apply A1 in W. revert W. apply Walls_view; reflexivity.
  - exact A2.
Qed.

Lemma checkDeaths_free (room : Room.t) (s : Session.t) :
  (Walls room s -> Walls room (checkDeaths s)) /\
  (Clear room (Game.enemies (Session.g s)) ->
   Clear room (Game.enemies (Session.g (checkDeaths s)))).
Proof.
  split.
  - intros W. unfold checkDeaths. cbv zeta.
    destruct (len _ >? 0); [| revert W; apply Walls_view; reflexivity].
    destruct (len _ =? 0); [| revert W; apply Walls_view; reflexivity].
    cbn [setPlayerStats withStats Session.g Game.building].
    destruct (Game.building (Session.g s)) as [b |] eqn:Eb;
      [| revert W; apply Walls_view; reflexivity].
    revert W. apply (Walls_inBuilding room setCleared _ _ b Cosmetic_setCleared Eb);
      reflexivity.
  - intros C. unfold checkDeaths. cbv zeta.
    match goal with |- Clear room (Game.enemies (Session.g (onEnemies ?a ?x))) =>
      change (Game.enemies (Session.g (onEnemies a x))) with a end.
    unfold Clear in *. rewrite Forall_forall in *. intros e He.
    apply filter_In in He. destruct He as [He _]. apply C. exact He.
Qed.

Lemma takeDamage_free (room : Room.t) (s : Session.t) :
  Walls room s -> Walls room (takeDamage s).
Proof.
  apply Walls_view; unfold takeDamage, saveScore; cbv zeta;
    destruct (Stats.hp (Session.playerStats s) - 1 <=? 0);
    try destruct (Stats.score (Session.playerStats s) >? Session.highScore s); reflexivity.
Qed.

Lemma stepEnemy_free (aim : Q -> Q -> Q * Q) (room : Room.t) (e : Enemy.t)
    (done d1 : list Enemy.t) (s s1 : Session.t) :
  stepEnemy aim room (Ok (done, s)) e = Ok (d1, s1) ->
  (forall r, Walls r s -> Walls r s1) /\
  (Clear room done -> checkWallCollision (Enemy.x e) (Enemy.y e) room = Some false ->
   Clear room d1).
Proof.
  unfold stepEnemy. cbn [andThen]. cbv zeta.
  destruct (Enemy.state e).
  - destruct (distLt _ _ _ _ 40).
    + intros H. inversion H; subst. split; [auto |]. intros Hd He.
      apply Clear_snoc; assumption.
    + match goal with
      | |- context [defined (checkWallCollision ?x ?y room)] =>
          destruct (checkWallCollision x y room) as [hitX |] eqn:EX
      end; cbn [defined andThen]; [| discriminate].
      match goal with
      | |- context [defined (checkWallCollision ?x ?y room)] =>
          destruct (checkWallCollision x y room) as [hitY |] eqn:EY
      end; cbn [defined andThen]; [| discriminate].
      intros H. inversion H; subst. split; [auto |]. intros Hd He.
      apply Clear_snoc; [exact Hd |]. cbn [moveEnemy Enemy.x Enemy.y].
      destruct hitY; [| exact EY]. destruct hitX; [exact He | exact EX].
  - destruct (Enemy.timer e - 1 <=? 0).
    + destruct (distLt _ _ _ _ 50); intros H; inversion H; subst;
        (split; [| intros Hd He; apply Clear_snoc; assumption]); auto.
      intros r. apply takeDamage_free.
    + intros H. inversion H; subst. split; [auto |]. intros Hd He.
      apply Clear_snoc; assumption.
  - intros H. inversion H; subst. split; [auto |]. intros Hd He.
    apply Clear_snoc; assumption.
  - intros H. inversion H; subst. split; [auto |]. intros Hd He.
    apply Clear_snoc; assumption.
Qed.

Lemma fold_stepEnemy_free (aim : Q -> Q -> Q * Q) (room : Room.t) (es : list Enemy.t) :
  forall done s d1 s1,
    fold_left (stepEnemy aim room) es (Ok (done, s)) = Ok (d1, s1) ->
    (forall r, Walls r s -> Walls r s1) /\
    (Clear room done -> Clear room es -> Clear room d1).
Proof.
  induction es as [| e es IH]; intros done s d1 s1; cbn [fold_left].
  - intros H. inversion H; subst. auto.
  - destruct (stepEnemy aim room (Ok (done, s)) e) as [[d2 s2] | |] eqn:E.
    + intros H. destruct (stepEnemy_free _ _ _ _ _ _ _ E) as [A1 A2].
      destruct (IH _ _ _ _ H) as [B1 B2]. split; [auto |].
      intros Hd He. inversion He; subst. auto.
    + intros H. exfalso. revert H. apply fold_stepEnemy_stuck. discriminate.
    + intros H. exfalso. revert H. apply fold_stepEnemy_stuck. discriminate.
Qed.

Lemma stepEnemies_free (aim : Q -> Q -> Q * Q) (room : Room.t) (s s1 : Session.t) :
  stepEnemies aim room s = Ok s1 ->
  (forall r, Walls r s -> Walls r s1) /\
  (Clear room (Game.enemies (Session.g s)) -> Clear room (Game.enemies (Session.g s1))).
Proof.
  unfold stepEnemies.
  destruct (fold_left _ _ _) as [[d2 s2] | |] eqn:E; cbn [andThen fst snd];
    [| discriminate | discriminate].
  intros H. inversion H; subst s1.
  destruct (fold_stepEnemy_free _ _ _ _ _ _ _ E) as [A1 A2]. split.
  - intros r W. apply A1 in W. revert W. apply Walls_view; reflexivity.
  - intros C. cbn. apply A2; [constructor | exact C].
Qed.

Lemma consume_free (room : Room.t) (item : Item.t) (f : Stats.t -> Stats.t) (s : Session.t) :
  (Walls room s -> Walls room (consume item f s)) /\
  Game.enemies (Session.g (consume item f s)) = Game.enemies (Session.g s).
Proof.
  unfold consume. cbv zeta.
  cbn [createParticles setPlayerStats withStats withRandomCalls withCollected
       Session.g Game.building].
  destruct (Game.building (Session.g s)) as [b |] eqn:Eb.
  - split; [| reflexivity].
    apply (Walls_inBuilding room
             (fun r => setItems (filter (fun i => negb (Item.id i =? Item.id item))
                                        (Room.items r)) r) _ _ b
             (Cosmetic_setItems _) Eb); reflexivity.
  - split; [| reflexivity]. apply Walls_view; reflexivity.
Qed.

Lemma fold_stepItem_free (room : Room.t) (items : list Item.t) :
  forall kept s,
    (Walls room s -> Walls room (snd (fold_left stepItem items (kept, s)))) /\
    Game.enemies (Session.g (snd (fold_left stepItem items (kept, s))))
    = Game.enemies (Session.g s).
Proof.
  induction items as [| item items IH]; intros kept s; cbn [fold_left]; [auto |].
  assert (S1 : (Walls room s -> Walls room (snd (stepItem (kept, s) item))) /\
               Game.enemies (Session.g (snd (stepItem (kept, s) item)))
               = Game.enemies (Session.g s)).
  { unfold stepItem. destruct (checkCollision _ _); [| auto].
    destruct (itemEffect _ _) as [f |]; [| auto]. cbn [snd]. apply consume_free. }
  destruct (stepItem (kept, s) item) as [k1 s1]. cbn [snd] in S1.
  destruct S1 as [A1 A2]. destruct (IH k1 s1) as [B1 B2].
  split; [auto | congruence].
Qed.

Lemma stepItems_free (room : Room.t) (s : Session.t) :
  (Walls room s -> Walls room (stepItems s)) /\
  Game.enemies (Session.g (stepItems s)) = Game.enemies (Session.g s).
Proof.
  unfold stepItems. cbv zeta.
  destruct (fold_stepItem_free room (Game.items (Session.g s)) [] s) as [A1 A2].
  split; [| rewrite <- A2; reflexivity].
  intros W. apply A1 in W. revert W. apply Walls_view; reflexivity.
Qed.

Lemma continue_free (aim : Q -> Q -> Q * Q) (input : Input.t) (room : Room.t)
    (s1 s5 : Session.t) :
  (s3 <! stepProjectiles room (bombTick (bombAttack input (fire aim input s1))) ;;
   s4 <! stepEnemies aim room (checkDeaths s3) ;;
   Ok (stepItems s4)) = Ok s5 ->
  Walls room s1 -> Clear room (Game.enemies (Session.g s1)) ->
  Walls room s5 /\ Clear room (Game.enemies (Session.g s5)).
Proof.
  destruct (stepProjectiles room _) as [s3 | |] eqn:E3; cbn [andThen];
    [| discriminate | discriminate].
  destruct (stepEnemies aim room _) as [s4 | |] eqn:E4; cbn [andThen];
    [| discriminate | discriminate].
  intros H W C. inversion H; subst s5.
  destruct (fire_view aim input s1) as [V1 F1].
  destruct (bombAttack_free room input (fire aim input s1)) as [A1 A2].
  destruct (bombTick_view (bombAttack input (fire aim input s1))) as [V2 F2].
  destruct (stepProjectiles_free _ room _ _ E3) as [P1 P2].
  destruct (checkDeaths_free room s3) as [D1 D2].
  destruct (stepEnemies_free _ _ _ _ E4) as [N1 N2].
  destruct (stepItems_free room s4) as [I1 I2].
  split.
  - apply I1, N1, D1, P1. apply (Walls_core _ _ _ V2). apply A1.
    apply (Walls_core _ _ _ V1). exact W.
  - rewrite I2. apply N2, D2, P2. rewrite F2. apply A2. rewrite F1. exact C.
Qed.

Lemma Walls_free (room : Room.t) (s : Session.t) :
  Walls room s -> Clear room (Game.enemies (Session.g s)) -> EnemiesFree s.
Proof.
  intros [b [r [Eb [Fr Sw]]]] C. exists b, r. split; [exact Eb |]. split; [exact Fr |].
  apply (Clear_same room r _ Sw C).
Qed.

Lemma Spawned_clear (room : Room.t) (p : Player.t) (d : Z) (es : list Enemy.t) :
  Forall (Spawned room p d) es -> Clear room es.
Proof.
  intros H. unfold Clear. eapply Forall_impl; [| exact H].
  intros e [_ _ _ _ _ Hf _]. exact Hf.
Qed.

Lemma setupRoom_free (random : Oracle) (fuel : nat) (cb roomId : Z) (s s' : Session.t) :
  roomId = Session.activeRoomId s ->
  setupRoom random fuel cb roomId s = Ok s' -> EnemiesFree s'.
Proof.
  intros -> H.
  destruct (setupRoom_spec _ _ _ _ _ _ H)
    as [b [room [node [Eb [Er [En [Eb' [_ [Ea [_ F]]]]]]]]]].
  destruct (findRoom_inBuilding (Session.activeRoomId s) (Session.activeRoomId s)
              setExplored b room Cosmetic_setExplored Er) as [r' [F' [S' _]]].
  apply (Walls_free room).
  - exists (inBuilding (Session.activeRoomId s) setExplored b), r'. rewrite Ea. auto.
  - apply (Spawned_clear _ _ _ _ F).
Qed.

Lemma rerender_free (before after : Session.t) :
  EnemiesFree after -> EnemiesFree (rerender before after).
Proof. unfold rerender. destruct (_ && _); auto. Qed.

Ltac same_room Hcont :=
  match goal with
  | |- context [andThen ?c ?k] =>
      let r := fresh "r" in
      let H := fresh "H" in
      destruct (andThen c k) as [r | |] eqn:Ec; cbn [andThen];
      [| discriminate | discriminate];
      intros H; inversion H; subst; clear H; intros _; apply Hcont; reflexivity
  end.

Ltac room_change Hroom Hcont :=
  match goal with
  | |- context [doorOf ?d ?ds] => destruct (doorOf d ds)
  end;
  [ match goal with
    | |- context [transitionRoom ?rnd ?fuel ?d ?n ?s1] =>
        let r := fresh "r" in
        let Et := fresh "Et" in
        let H := fresh "H" in
        destruct (transitionRoom rnd fuel d n s1) as [r | |] eqn:Et;
        cbn [andThen]; [| discriminate | discriminate];
        intros H; inversion H; subst; clear H; intros _;
        apply (Hroom _ _ _ Et)
    end
  | same_room Hcont ].

Lemma update_free (aim : Q -> Q -> Q * Q) (random : Oracle) (fuel : nat) (input : Input.t)
    (s s' : Session.t) :
  EnemiesFree s -> update aim random fuel input s = Ok s' ->
  Session.gameState s' = PLAYING -> EnemiesFree s'.
Proof.
  intros [b [room [Eb [Er C]]]]. unfold update.
  destruct (GameState_eqb (Session.gameState s) PLAYING) eqn:Gs; cbn [negb].
  2:{ intros H. inversion H; subst s'. intros _. exists b, room. auto. }
  rewrite Eb. cbn [defined andThen]. rewrite Er. cbn [defined andThen].
  destruct (stepPlayer input room s) as [s1 | |] eqn:E1; cbn [andThen];
    [| discriminate | discriminate].
  destruct (stepPlayer_free _ _ room _ _ E1) as [B1 [A1 N1]].
  assert (W1 : Walls room s1).
  { exists b, room. rewrite B1, A1. split; [exact Eb |]. split; [exact Er |].
    apply sameWalls_refl. }
  assert (C1 : Clear room (Game.enemies (Session.g s1))) by (rewrite N1; exact C).
  assert (Hcont : forall r,
            (s3 <! stepProjectiles room (bombTick (bombAttack input (fire aim input s1))) ;;
             s4 <! stepEnemies aim room (checkDeaths s3) ;;
             Ok (stepItems s4)) = Ok r -> EnemiesFree (rerender s r)).
  { intros r H. destruct (continue_free _ _ _ _ _ H W1 C1) as [W5 C5].
    apply rerender_free. apply (Walls_free room); assumption. }
  assert (Hroom : forall d n r, transitionRoom random fuel d n s1 = Ok r ->
                                EnemiesFree (rerender s r)).
  { intros d n r H. apply rerender_free. unfold transitionRoom in H.
    destruct (Game.building (Session.g s1)) as [b1 |]; cbn [defined andThen] in H;
      [| discriminate H].
    destruct (findRoom b1 n) as [next |]; cbn [defined andThen] in H; [| discriminate H].
    cbv zeta in H. apply (setupRoom_free _ _ _ _ _ _ eq_refl H). }
  destruct (checkDoorCollision _ _ room) as [[] |].
  5:{ cbv zeta. destruct (completeLevel s1) as [r | |] eqn:Ec; cbn [andThen];
        [| discriminate | discriminate].
      intros H. inversion H; subst s'. clear H. intros G. exfalso.
      assert (Gr : Session.gameState r <> PLAYING).
      { clear - Ec. unfold completeLevel in Ec. cbv zeta in Ec.
        destruct (findNode _ _) as [n0 |]; cbn [defined andThen] in Ec; [| discriminate].
        destruct (Node.id n0 =? 0).
        - inversion Ec; subst r. discriminate.
        - unfold saveScore in Ec. destruct (Node.column n0 =? _).
          + destruct (_ >? _); inversion Ec; subst r; discriminate.
          + inversion Ec; subst r. discriminate. }
      apply Gr. rewrite <- G. unfold rerender. destruct (_ && _); reflexivity. }
  - room_change Hroom Hcont.
  - room_change Hroom Hcont.
  - room_change Hroom Hcont.
  - room_change Hroom Hcont.
  - same_room Hcont.
Qed.
Lemma EnemiesFree_view (s s' : Session.t) :
  Game.building (Session.g s') = Game.building (Session.g s) ->
  Session.activeRoomId s' = Session.activeRoomId s ->
  Game.enemies (Session.g s') = Game.enemies (Session.g s) ->
  EnemiesFree s -> EnemiesFree s'.
Proof. unfold EnemiesFree. intros -> -> ->. auto. Qed.

Lemma enterBuilding_free (random : Oracle) (fuel : nat) (buildingId : Z) (s s' : Session.t) :
  enterBuilding random fuel buildingId s = Ok s' -> EnemiesFree s'.
Proof.
  unfold enterBuilding.
  destruct (findNode (Session.worldMap s) buildingId) as [node |]; cbn [defined andThen];
    [| discriminate].
  cbv zeta.
  destruct (generateBuilding _ _ _ _ _) as [gen |]; cbn [defined andThen]; [| discriminate].
  destruct (findRoom _ _) as [start |]; cbn [defined andThen]; [| discriminate].
  destruct (setupRoom _ _ _ _ _) as [s1 | |] eqn:E; cbn [andThen];
    [| discriminate | discriminate].
  intros H. inversion H; subst s'. clear H.
  apply rerender_free.
  match type of E with
  | setupRoom ?rnd ?f ?cb ?rid ?s0 = _ =>
      pose proof (setupRoom_free rnd f cb rid s0 s1 eq_refl E) as F
  end.
  revert F. apply EnemiesFree_view; reflexivity.
Qed.

Lemma dispatch_free (aim : Q -> Q -> Q * Q) (random : Oracle) (fuel : nat) (e : Event)
    (app app' : App.t) :
  (Session.gameState (App.session app) = PLAYING -> EnemiesFree (App.session app)) ->
  dispatch aim random fuel e app = Ok app' ->
  Session.gameState (App.session app') = PLAYING -> EnemiesFree (App.session app').
Proof.
  intros E. destruct app as [s p]. cbn [App.session] in E.
  assert (Hstay : Ok {| App.session := s; App.endingPage := p |} = Ok app' ->
                  Session.gameState (App.session app') = PLAYING ->
                  EnemiesFree (App.session app'))
    by (intros H; inversion H; subst; exact E).
  assert (Hscreen : forall s1, Session.gameState s1 <> PLAYING ->
            onSession {| App.session := s; App.endingPage := p |} (Ok s1) = Ok app' ->
            Session.gameState (App.session app') = PLAYING ->
            EnemiesFree (App.session app')).
  { intros s1 Hst H. unfold onSession in H. cbn [andThen App.session App.endingPage] in H.
    inversion H; subst app'. cbn [App.session]. intros G. exfalso. apply Hst.
    rewrite <- G. unfold rerender. destruct (_ && _); reflexivity. }
  unfold dispatch. cbv zeta. cbn [App.session App.endingPage].
  destruct e as [| i | now | i | input | | |].
  - destruct (GameState_eqb (Session.gameState s) START); [| exact Hstay].
    apply Hscreen. discriminate.
  - destruct (GameState_eqb (Session.gameState s) CHAR_SELECT) eqn:G; [| exact Hstay].
    apply GameState_eqb_eq in G.
    destruct (nth_error CHARACTERS i) as [c |]; [| exact Hstay].
    apply Hscreen. cbn. rewrite G. discriminate.
  - destruct (GameState_eqb (Session.gameState s) CHAR_SELECT) eqn:G; [| exact Hstay].
    unfold startGame. destruct (generateWorldMap random (Session.randomCalls s)) as [[m |] c].
    + apply Hscreen. discriminate.
    + discriminate.
  - destruct (GameState_eqb (Session.gameState s) MAP) eqn:G; [| exact Hstay].
    destruct (nth_error (Session.worldMap s) i) as [node |] eqn:En; [| exact Hstay].
    destruct (Node.hidden node || Node.locked node); [exact Hstay |].
    unfold onSession.
    destruct (enterBuilding random fuel (Node.id node) s) as [s1 | |] eqn:Eb;
      cbn [andThen App.session App.endingPage]; [| discriminate | discriminate].
    intros H. inversion H; subst app'. cbn [App.session]. intros _.
    apply rerender_free. apply (enterBuilding_free _ _ _ _ _ Eb).
  - destruct (update aim random fuel input s) as [s1 | |] eqn:Eu; cbn [andThen];
      [| discriminate | discriminate].
    intros H. inversion H; subst app'. cbn [App.session].
    destruct (GameState_eqb (Session.gameState s) PLAYING) eqn:G.
    + apply GameState_eqb_eq in G. apply (update_free _ _ _ _ _ _ (E G) Eu).
    + unfold update in Eu. rewrite G in Eu. cbn [negb] in Eu. inversion Eu; subst s1.
      exact E.
  - destruct (GameState_eqb (Session.gameState s) GAMEOVER); [| exact Hstay].
    apply Hscreen. discriminate.
  - destruct (GameState_eqb (Session.gameState s) MESSAGE); [| exact Hstay].
    apply Hscreen. discriminate.
  - destruct (GameState_eqb (Session.gameState s) ENDING); [| exact Hstay].
    destruct (getEndingContent _ _ _) as [content |]; [| exact Hstay].
    destruct (endingClick _ _ _) as [page |].
    + intros H. inversion H; subst app'. exact E.
    + apply Hscreen. discriminate.
Qed.

Lemma run_free (aim : Q -> Q -> Q * Q) (random : Oracle) (fuel : nat) (events : list Event) :
  forall app app',
    (Session.gameState (App.session app) = PLAYING -> EnemiesFree (App.session app)) ->
    run aim random fuel events app = Ok app' ->
    Session.gameState (App.session app') = PLAYING -> EnemiesFree (App.session app').
Proof.
  induction events as [| e events IH]; intros app app' E; cbn [run].
  - intros H. inversion H; subst. exact E.
  - destruct (dispatch aim random fuel e app) as [app1 | |] eqn:D; cbn [andThen];
      [| discriminate | discriminate].
    apply IH. apply (dispatch_free _ _ _ _ _ _ E D).
Qed.

(** X19.  Enemies stay off the walls.  After any run of events from the
    first render on, while the game is on, every enemy of the active
    room stands where [checkWallCollision] finds no wall: inside the
    room, on a floor tile or in a doorway.  Enemies are spawned on such
    places and move only where [checkWallCollision] lets them, axis by
    axis; shots and bombs do not move them. *)
Theorem enemies_stay_off_walls :
  forall (aim : Q -> Q -> Q * Q) (random : Oracle) (fuel : nat) (now saved : Z)
         (events : list Event) (app : App.t),
    run aim random fuel events (initialApp now saved) = Ok app ->
    Session.gameState (App.session app) = PLAYING ->
    exists b room,
      Game.building (Session.g (App.session app)) = Some b /\
      findRoom b (Session.activeRoomId (App.session app)) = Some room /\
      Forall (fun e => checkWallCollision (Enemy.x e) (Enemy.y e) room = Some false)
             (Game.enemies (Session.g (App.session app))).
Proof.
  intros aim random fuel now saved events app H G.
  apply (run_free aim random fuel events (initialApp now saved) app); [| exact H | exact G].
  cbn. discriminate.
Qed.

Lemma enemies_stay_off_walls_witness :
  exists app,
    run (fun _ _ => (1, 0)%Q)
        (fun c => Z.of_nat c * 1125899906842624 + 562949953421312) 20
        ([ClickBegin; ClickEnterIsland 1; ClickNode 0]
         ++ repeat (Tick {| Input.x := 0; Input.y := -1; Input.fire := false;
                            Input.bomb := false |}) 100)
        (initialApp 1 0) = Ok app /\
    Session.activeRoomId (App.session app) = 1 /\
    length (Game.enemies (Session.g (App.session app))) = 2%nat /\
    exists b room,
      Game.building (Session.g (App.session app)) = Some b /\
      findRoom b 1 = Some room /\
      Forall (fun e => checkWallCollision (Enemy.x e) (Enemy.y e) room = Some false)
             (Game.enemies (Session.g (App.session app))).
Proof.
  assert (F : match run (fun _ _ => (1, 0)%Q)
                    (fun c => Z.of_nat c * 1125899906842624 + 562949953421312) 20
                    ([ClickBegin; ClickEnterIsland 1; ClickNode 0]
                     ++ repeat (Tick {| Input.x := 0; Input.y := -1; Input.fire := false;
                                        Input.bomb := false |}) 100)
                    (initialApp 1 0) with
              | Ok app => Session.gameState (App.session app) = PLAYING /\
                          Session.activeRoomId (App.session app) = 1 /\
                          length (Game.enemies (Session.g (App.session app))) = 2%nat
              | _ => False
              end) by (vm_compute; repeat split).
  destruct (run _ _ _ _ _) as [app | |] eqn:E; [| destruct F | destruct F].
  destruct F as [G [A L]].
  exists app. split; [reflexivity |]. split; [exact A |]. split; [exact L |].
  rewrite <- A. exact (enemies_stay_off_walls _ _ _ _ _ _ _ E G).
Defined.

Lemma map_progress_is_earned_witness :
  exists app,
    run (fun _ _ => (1, 0)%Q) (fun _ => 0) 20
        [ClickBegin; ClickEnterIsland 1; ClickNode 0] (initialApp 1 0) = Ok app /\
    exists n, findNode (Session.worldMap (App.session app))
                       (Session.currentBuildingId (App.session app)) = Some n /\
              Node.locked n = false /\ Node.hidden n = false.
Proof.
  assert (F : match run (fun _ _ => (1, 0)%Q) (fun _ => 0) 20
                    [ClickBegin; ClickEnterIsland 1; ClickNode 0] (initialApp 1 0) with
              | Ok app => Session.gameState (App.session app) = PLAYING
              | _ => False
              end) by (vm_compute; reflexivity).
  destruct (run _ _ _ _ _) as [app | |] eqn:E; [| destruct F | destruct F].
  exists app. split; [reflexivity |].
  destruct (map_progress_is_earned _ _ _ _ _ _ _ E) as [_ [_ [_ [_ P]]]].
  exact (P F).
Defined.
(** ** Items on tiles of their own *)

Lemma spliced_out {A} (l : list A) (i : nat) (v : A) :
  NoDup l -> nth_error l i = Some v ->
  let rest := firstn i l ++ skipn (S i) l in
  NoDup rest /\ ~ In v rest /\ incl rest l /\ S (length rest) = length l.
Proof.
  intros ND E. cbv zeta.
  destruct (nth_error_split l i E) as [l1 [l2 [El Len]]]. subst l i.
  rewrite firstn_app, firstn_all, Nat.sub_diag. cbn [firstn]. rewrite app_nil_r.
  rewrite skipn_app, (skipn_all2 l1) by lia.
  replace (S (length l1) - length l1)%nat with 1%nat by lia. cbn [skipn app].
  destruct (NoDup_remove _ _ _ ND) as [N1 N2].
  split; [exact N1 |]. split; [exact N2 |]. split.
  - intros u Hu. apply in_app_iff in Hu. apply in_app_iff. simpl. tauto.
  - rewrite !length_app. simpl. lia.
Qed.

(** [pickItemLocation] on a list that is not empty. *)
Lemma pickItemLocation_pick (pool : list Pt) (a : Z) :
  pool <> [] ->
  exists i spot,
    nth_error pool i = Some spot /\
    fst (fst (pickItemLocation pool a)) = Some spot /\
    snd (fst (pickItemLocation pool a)) = firstn i pool ++ skipn (S i) pool.
Proof.
  intros Hne. unfold pickItemLocation.
  assert (Hl : 0 < len pool) by (unfold len; destruct pool; [contradiction | simpl length; lia]).
  destruct (len pool =? 0) eqn:E; [apply Z.eqb_eq in E; lia |].
  unfold bind, ret.
  pose proof (getSeededInt_range 0 (len pool - 1) a ltac:(lia)) as R.
  destruct (getSeededInt 0 (len pool - 1) a) as [idx a1]. cbn [fst snd] in *.
  destruct (index_Some pool idx ltac:(lia)) as [spot [Es _]].
  exists (Z.to_nat idx), spot.
  split; [unfold index in Es; destruct (idx <? 0); [discriminate | exact Es] |].
  split; [exact Es |].
  unfold splice1. destruct (idx <? 0) eqn:E1; [apply Z.ltb_lt in E1; lia | reflexivity].
Qed.

Lemma Spread_put (st : ItemState) (i : nat) (spot : Pt) (it : Item.t) :
  Spread st -> nth_error (snd st) i = Some spot -> itemTile it = spot ->
  Spread (fst st ++ [it], firstn i (snd st) ++ skipn (S i) (snd st)) /\
  S (length (firstn i (snd st) ++ skipn (S i) (snd st))) = length (snd st).
Proof.
  intros [Sp St Sk] E Et.
  destruct (spliced_out (snd st) i spot Sp E) as [N1 [N2 [N3 N4]]].
  split; [| exact N4]. constructor; cbn [fst snd].
  - exact N1.
  - rewrite map_app. cbn [map]. apply NoDup_snoc; [exact St |].
    intros H. apply in_map_iff in H. destruct H as [it0 [E0 H0]].
    apply (Sk it0 H0). rewrite E0, Et. eapply nth_error_In. exact E.
  - intros it0 H0 Hin. apply in_app_iff in H0. destruct H0 as [H0 | [<- | []]].
    + apply (Sk it0 H0). apply N3. exact Hin.
    + rewrite Et in Hin. contradiction.
Qed.

Lemma placeSpecial_spread (size : Size.t) (st : ItemState) (ty : ItemType) (a : Z) :
  Spread st -> snd st <> [] ->
  Spread (fst (placeSpecial size st ty a)) /\
  S (length (snd (fst (placeSpecial size st ty a)))) = length (snd st).
Proof.
  intros S Hne. unfold placeSpecial, bind.
  destruct (pickItemLocation_pick (snd st) a Hne) as [i [spot [En [E1 E2]]]].
  destruct (pickItemLocation (snd st) a) as [r a1]. cbn [fst snd] in E1, E2.
  destruct (rng a1) as [n a2]. rewrite E1, E2. unfold ret. cbn [fst].
  apply (Spread_put st i spot); [exact S | exact En | apply itemTile_itemOn].
Qed.

Lemma foldM_placeSpecial_spread (size : Size.t) (special : list ItemType) :
  forall st a,
    Spread st -> (length special <= length (snd st))%nat ->
    Spread (fst (foldM (placeSpecial size) special st a)) /\
    (length (snd (fst (foldM (placeSpecial size) special st a))) + length special
     = length (snd st))%nat.
Proof.
  induction special as [| ty special IH]; intros st a S L; cbn [foldM].
  - unfold ret. cbn [fst]. split; [exact S | simpl; lia].
  - unfold bind.
    assert (Hne : snd st <> []) by (destruct (snd st); [simpl in L; lia | discriminate]).
    destruct (placeSpecial_spread size st ty a S Hne) as [S1 L1].
    destruct (placeSpecial size st ty a) as [st1 a1]. cbn [fst] in S1, L1.
    destruct (IH st1 a1 S1) as [S2 L2]; [simpl in L; lia |].
    split; [exact S2 |]. simpl length. lia.
Qed.

Lemma placeConsumable_spread (isBoss : bool) (st : ItemState) (a : Z) :
  Spread st -> Spread (fst (placeConsumable isBoss st a)).
Proof.
  intros S. unfold placeConsumable. destruct isBoss; [exact S |].
  unfold bind. destruct (rng a) as [p a1].
  destruct (lessThan p 3 10); [| exact S].
  destruct st as [its pool]. cbn [fst snd] in *.
  destruct pool as [| p0 pool].
  - cbn. exact S.
  - destruct (pickItemLocation_pick (p0 :: pool) a1 ltac:(discriminate))
      as [i [spot [En [E1 E2]]]].
    destruct (pickItemLocation (p0 :: pool) a1) as [r a2]. cbn [fst snd] in E1, E2.
    rewrite E1, E2. destruct (rng a2) as [rand a3]. destruct (rng a3) as [n a4].
    unfold ret. cbn [fst].
    apply (Spread_put (its, p0 :: pool) i spot); [exact S | exact En | apply itemTile_itemOn].
Qed.

Lemma roomItems_spread (size : Size.t) (isBoss : bool) (special : list ItemType)
    (reachable : list Pt) (a : Z) :
  NoDup reachable -> (length special <= length reachable)%nat ->
  NoDup (map itemTile (fst (fst (roomItems size isBoss special reachable a)))).
Proof.
  intros ND L. unfold roomItems, bind.
  assert (S0 : Spread ([], reachable)).
  { constructor; cbn [fst snd]; [exact ND | constructor | intros it []]. }
  destruct (foldM_placeSpecial_spread size special ([], reachable) a S0 L) as [S1 _].
  destruct (foldM (placeSpecial size) special ([], reachable) a) as [st a1]. cbn [fst] in S1.
  apply (sd_tiles _ (placeConsumable_spread isBoss st a1 S1)).
Qed.

(** The nine tiles around the centre of a layout are reached. *)
Lemma centre_box_reachable (width height seed : Z) (doors : Doors.t) (isBossRoom : bool)
    (dx dy : Z) :
  5 <= width -> 5 <= height -> -1 <= dx <= 1 -> -1 <= dy <= 1 ->
  In (width / 2 + dx, height / 2 + dy)
     (Layout.reachable (generateRoomLayout width height seed doors isBossRoom)).
Proof.
  intros Hw Hh Hx Hy. apply layout_reachable.
  set (grid := fst (genGrid width height doors isBossRoom seed)).
  assert (Hopen : forall u v, -1 <= u <= 1 -> -1 <= v <= 1 ->
                              openTile width height grid (width / 2 + u, height / 2 + v)).
  { intros u v Hu Hv.
    pose proof (Z.div_mod width 2 ltac:(lia)). pose proof (Z.mod_pos_bound width 2 ltac:(lia)).
    pose proof (Z.div_mod height 2 ltac:(lia)). pose proof (Z.mod_pos_bound height 2 ltac:(lia)).
    apply safe_open; [lia | lia |]. apply isSafe_spec. left. lia. }
  assert (R0 : reachableFromCentre width height grid (width / 2, height / 2))
    by apply reach_centre.
  assert (R1 : reachableFromCentre width height grid (width / 2 + dx, height / 2)).
  { assert (C : dx = -1 \/ dx = 0 \/ dx = 1) by lia.
    destruct C as [-> | [-> | ->]].
    - destruct (Hopen (-1) 0 ltac:(lia) ltac:(lia)) as [O1 [O2 O3]]. cbn [fst snd] in *.
      rewrite Z.add_0_r in O2, O3.
      pose proof (reach_step width height grid _ (-1, 0) R0 ltac:(simpl; auto)) as S.
      cbn [fst snd] in S. rewrite Z.add_0_r in S. apply S; assumption.
    - rewrite Z.add_0_r. exact R0.
    - destruct (Hopen 1 0 ltac:(lia) ltac:(lia)) as [O1 [O2 O3]]. cbn [fst snd] in *.
      rewrite Z.add_0_r in O2, O3.
      pose proof (reach_step width height grid _ (1, 0) R0 ltac:(simpl; auto)) as S.
      cbn [fst snd] in S. rewrite Z.add_0_r in S. apply S; assumption. }
  assert (C : dy = -1 \/ dy = 0 \/ dy = 1) by lia.
  destruct (Hopen dx dy Hx Hy) as [O1 [O2 O3]]. cbn [fst snd] in *.
  destruct C as [-> | [-> | ->]].
  - pose proof (reach_step width height grid _ (0, -1) R1 ltac:(simpl; auto)) as S.
    cbn [fst snd] in S. rewrite Z.add_0_r in S. apply S; assumption.
  - rewrite Z.add_0_r. exact R1.
  - pose proof (reach_step width height grid _ (0, 1) R1 ltac:(simpl; auto)) as S.
    cbn [fst snd] in S. rewrite Z.add_0_r in S. apply S; assumption.
Qed.

Lemma reachable_at_least_nine (width height seed : Z) (doors : Doors.t) (isBossRoom : bool) :
  5 <= width -> 5 <= height ->
  (9 <= length (Layout.reachable (generateRoomLayout width height seed doors isBossRoom)))%nat.
Proof.
  intros Hw Hh.
  set (r := Layout.reachable (generateRoomLayout width height seed doors isBossRoom)).
  set (box := map (fun d : Z * Z => (width / 2 + fst d, height / 2 + snd d))
                  [(-1, -1); (-1, 0); (-1, 1); (0, -1); (0, 0); (0, 1); (1, -1); (1, 0); (1, 1)]).
  assert (Hincl : incl box r).
  { intros p Hp. unfold box in Hp. apply in_map_iff in Hp. destruct Hp as [[dx dy] [<- Hd]].
    cbn [fst snd]. apply centre_box_reachable; try assumption;
      simpl in Hd; repeat (destruct Hd as [Hd | Hd]; [inversion Hd; lia |]); destruct Hd. }
  assert (Hnd : NoDup box).
  { unfold box. cbn [map fst snd].
    repeat (constructor;
            [simpl; intros F; repeat (destruct F as [F | F]; [inversion F; lia |]); exact F |]).
    constructor. }
  change 9%nat with (length box). apply (NoDup_incl_length Hnd Hincl).
Qed.

Lemma assignItem_length (ids : list Z) (m : ItemsPerRoom) (it : ItemType) (a : Z)
    (k : option Z) :
  (length (fst (assignItem ids m it a) k) <= S (length (m k)))%nat.
Proof.
  unfold assignItem, bind, ret. destruct (getSeededInt 0 (len ids - 1) a) as [rIdx a1].
  cbn [fst]. destruct (key_eqb k (index ids rIdx)); [rewrite length_app; simpl; lia | lia].
Qed.

Lemma distribute_length (ids : list Z) (items : list ItemType) (a : Z) (k : option Z) :
  (length (fst (distribute ids items a) k) <= length items)%nat.
Proof.
  unfold distribute. rewrite <- (length_rev items).
  assert (G : forall l m a0 n, (length (m k) <= n)%nat ->
             (length (fst (foldM (assignItem ids) l m a0) k) <= n + length l)%nat).
  { induction l as [| it l IH]; intros m a0 n Hn; cbn [foldM]; unfold bind, ret.
    - cbn [fst]. simpl. lia.
    - pose proof (assignItem_length ids m it a0 k) as H1.
      destruct (assignItem ids m it a0) as [m1 a1]. cbn [fst] in H1.
      simpl length. replace (n + S (length l))%nat with (S n + length l)%nat by lia.
      apply IH. lia. }
  apply (G (rev items) (fun _ => []) a 0%nat). simpl. lia.
Qed.

(** X20.  Items lie on tiles of their own.  A building that is given at
    most eight special items (a world map gives a building at most
    three: two from the pool and perhaps the key) has, in every room, no
    two items on the same tile: each item takes its tile out of the
    list of reachable tiles, a layout has at least nine reachable tiles
    (those around its centre), and so the fallback that would stack
    items on the centre tile is never taken. *)
Theorem items_on_distinct_tiles :
  forall (buildingId difficulty : Z) (theme : Theme) (rootSeed : Z)
         (assignedSpecialItems : list ItemType),
    (length assignedSpecialItems <= 8)%nat ->
    exists b,
      generateBuilding buildingId difficulty theme rootSeed assignedSpecialItems = Some b /\
      forall r, In r (Building.rooms b) -> NoDup (map itemTile (Room.items r)).
Proof.
  intros buildingId difficulty theme rootSeed assigned L.
  destruct (generateBuilding_items buildingId difficulty theme rootSeed assigned)
    as [b [g [a1 [E [I F]]]]]. cbv zeta in E, I, F.
  exists b. split; [exact E |]. intros r Hr.
  destruct (Forall2_In_r _ _ _ r F Hr) as [pos [Hpos M]].
  destruct M as [seed [size [doors [Hs [Hsz [Hd M]]]]]]. cbv zeta in M.
  destruct M as [_ [_ [_ [_ [_ [_ [_ [_ [_ [Ri _]]]]]]]]]].
  rewrite Ri.
  assert (Hdim : 5 <= Size.w size /\ 5 <= Size.h size).
  { apply ROOM_VARIANTS_size in Hsz. simpl in Hsz.
    destruct Hsz as [H | [H | [H | [H | []]]]]; inversion H; lia. }
  destruct Hdim as [Hw Hh].
  apply roomItems_spread.
  - destruct (floodFill_complete (Size.w size) (Size.h size)
                (fst (genGrid (Size.w size) (Size.h size) doors
                        (Pos.id pos =? numRoomsOf difficulty - 1) seed)))
      as [rl [El [Hn _]]].
    unfold generateRoomLayout. cbn [Layout.reachable]. rewrite El. exact Hn.
  - pose proof (reachable_at_least_nine (Size.w size) (Size.h size) seed doors
                  (Pos.id pos =? numRoomsOf difficulty - 1) Hw Hh) as H9.
    match goal with
    | |- (length (fst (distribute ?ids ?its ?a) ?k) <= _)%nat =>
        pose proof (distribute_length ids its a k) as Hk
    end.
    lia.
Qed.

Lemma items_on_distinct_tiles_witness :
  exists b,
    generateBuilding 3 2 warehouse 1 [file; pizzaBox; key] = Some b /\
    forall r, In r (Building.rooms b) -> NoDup (map itemTile (Room.items r)).
Proof.
  apply (items_on_distinct_tiles 3 2 warehouse 1 [file; pizzaBox; key]). simpl. lia.
Defined.

(** ** The boss exit of the earlier engine *)

Lemma tileOf_range (v : Q) (g : Z) :
  tileOf v = g -> (inject_Z (g * 48) <= v + 16 /\ v + 16 < inject_Z (g * 48 + 48))%Q.
Proof.
  unfold tileOf. intros <-.
  set (q := ((v + 16) / Q48)%Q).
  pose proof (Qfloor_le q) as L. pose proof (Qlt_floor q) as U.
  assert (E : (v + 16 == q * 48)%Q).
  { unfold q, Q48, TILE_SIZE. field. }
  rewrite !inject_Z_plus, !inject_Z_mult in *.
  clearbody q. rewrite E.
  set (a := inject_Z (Qfloor q)) in *. clearbody a. unfold inject_Z in *. split; lra.
Qed.

Lemma earlier_bossDir_cases (d : Doors.t) :
  Earlier.bossDir d = priorityBossDir d /\
  (doorOf (Earlier.bossDir d) d = None \/
   (Earlier.bossDir d = hitLeft /\ notNull (Doors.top d) = true /\
    notNull (Doors.right d) = true /\ notNull (Doors.bottom d) = true /\
    notNull (Doors.left d) = true)).
Proof.
  unfold Earlier.bossDir, priorityBossDir.
  destruct d as [[t |] [r |] [b |] [l |]]; cbn; auto 10.
Qed.

Lemma Qltb_true (a b : Q) : (a < b)%Q -> Qltb a b = true.
Proof. apply Qltb_lt. Qed.

Lemma Qltb_false (a b : Q) : (b <= a)%Q -> Qltb a b = false.
Proof.
  intros H. destruct (Qltb a b) eqn:E; [| reflexivity].
  apply Qltb_lt in E. exfalso. apply (Qlt_not_le _ _ E H).
Qed.

(** Settles the comparisons of a goal with the bounds at hand. *)
Ltac q_bounds :=
  change Q48 with (48 # 1)%Q in *;
  change (inject_Z (10 * TILE_SIZE)) with (480 # 1)%Q in *;
  change (inject_Z (14 * TILE_SIZE)) with (672 # 1)%Q in *;
  change (inject_Z (15 * TILE_SIZE) / 2)%Q with (720 # 2)%Q in *;
  change (inject_Z (11 * TILE_SIZE) / 2)%Q with (528 # 2)%Q in *;
  repeat match goal with
         | H : context [inject_Z ?z] |- _ =>
             let v := eval vm_compute in z in change (inject_Z z) with (v # 1)%Q in H
         end.

Ltac q_decide :=
  repeat match goal with
         | |- context [Qltb ?a ?b] =>
             first [ rewrite (Qltb_true a b) by lra | rewrite (Qltb_false a b) by lra ]
         end.

Ltac boss_side X1 X2 Y1 Y2 :=
  cbn [Z.eqb Pos.eqb Z.ltb Z.geb Z.compare Pos.compare Pos.compare_cont andb orb negb notNull
       CompOpp];
  rewrite ?andb_false_r, ?orb_false_r; cbn [andb orb negb];
  split; [reflexivity |];
  split; [destruct (Tile.type _); reflexivity |];
  intros P; unfold Qabs_lt; q_bounds;
  try (apply Qltb_lt in P);
  q_decide; rewrite ?andb_false_r; reflexivity.

(** X21.  The boss exit of the earlier engine.  In a boss room of the first
    listing the exit is on the first side, in the order top, right,
    bottom, left, that has no door (on the left when all four sides have
    one).  [checkDoorCollision] answers [boss] only past the wall of
    that side, and only if that side has no door: a boss room with four
    doors has no exit.  When the side has no door, the middle tile of
    its wall is no door tile, [checkWallCollision] lets the player's
    centre into it, and there, past the line of the wall,
    [checkDoorCollision] answers [boss]. *)
Theorem earlier_boss_exit :
  forall (room : Earlier.Room.t),
    Earlier.Room.type room = boss ->
    let d := Earlier.Room.doors room in
    let side := Earlier.bossDir d in
    side = priorityBossDir d /\
    (forall x y, Earlier.checkDoorCollision x y room = Some hitBoss ->
                 doorOf side d = None /\ earlierPastLine side x y = true) /\
    (doorOf side d = None ->
     forall x y t,
       (tileOf x, tileOf y) = Earlier.bossTile d ->
       tileAt (Earlier.Room.grid room) (tileOf x) (tileOf y) = Some t ->
       Earlier.isDoorTile room (tileOf x) (tileOf y) = false /\
       Earlier.checkWallCollision x y room = Some false /\
       (earlierPastLine side x y = true ->
        Earlier.checkDoorCollision x y room = Some hitBoss)).
Proof.
  intros room Hb. cbv zeta.
  destruct (earlier_bossDir_cases (Earlier.Room.doors room)) as [Hp Hc].
  split; [exact Hp |]. split.
  - intros x y H. unfold Earlier.checkDoorCollision in H. cbv zeta in H. rewrite Hb in H.
    cbn [isBossRoomType] in H.
    destruct (notNull (Doors.top (Earlier.Room.doors room)) && _) eqn:E1; [discriminate H |].
    destruct (notNull (Doors.bottom (Earlier.Room.doors room)) && _) eqn:E2; [discriminate H |].
    destruct (notNull (Doors.left (Earlier.Room.doors room)) && _) eqn:E3; [discriminate H |].
    destruct (notNull (Doors.right (Earlier.Room.doors room)) && _) eqn:E4; [discriminate H |].
    unfold earlierPastLine.
    destruct (Earlier.bossDir (Earlier.Room.doors room)) eqn:Eb; try discriminate H;
      match type of H with
      | (if ?a && ?b then _ else _) = _ => destruct a eqn:Ea; [| discriminate H]
      end;
      (split; [| first [exact Ea | reflexivity]]);
      (destruct Hc as [Hc | [Hl [_ [_ [_ Hd]]]]]; [exact Hc | try discriminate Hl]).
    rewrite Hd in E3. discriminate E3.
  - intros Hn x y t Ht Et.
    unfold Earlier.bossTile, Earlier.ROOM_WIDTH, Earlier.ROOM_HEIGHT in Ht.
    unfold Earlier.checkWallCollision, Earlier.checkDoorCollision, Earlier.isDoorTile,
           Earlier.isBossTile, earlierPastLine, Earlier.ROOM_WIDTH, Earlier.ROOM_HEIGHT.
    cbv zeta. rewrite Et, Hb. cbn [isBossRoomType].
    change (15 / 2) with 7 in *. change (11 / 2) with 5 in *.
    change (15 - 1) with 14 in *. change (11 - 1) with 10 in *.
    destruct (Earlier.Room.doors room) as [dt dr db dl].
    cbn [Doors.top Doors.right Doors.bottom Doors.left] in *.
    destruct (Earlier.bossDir _) eqn:Eb;
      cbn [doorOf Doors.top Doors.right Doors.bottom Doors.left] in Hn; try subst;
      try (exfalso; clear - Eb; unfold Earlier.bossDir in Eb;
           destruct dt, dr, db; discriminate Eb);
      injection Ht as Tx Ty;
      pose proof (tileOf_range x _ Tx) as [X1 X2];
      pose proof (tileOf_range y _ Ty) as [Y1 Y2];
      rewrite Tx, Ty; boss_side X1 X2 Y1 Y2.
Qed.

Lemma earlier_boss_exit_witness :
  Earlier.bossDir (Doors.Build_t (Some 1) None None None) = hitRight /\
  Earlier.checkDoorCollision 700 250
    (Earlier.Room.Build_t (Doors.Build_t (Some 1) None None None) [] boss) = Some hitBoss /\
  doorOf hitRight (Doors.Build_t (Some 1) None None None) = None /\
  earlierPastLine hitRight 700 250 = true.
Proof.
  split; [reflexivity |]. split; [reflexivity |].
  exact (proj1 (proj2 (earlier_boss_exit
           (Earlier.Room.Build_t (Doors.Build_t (Some 1) None None None) [] boss)
           eq_refl)) 700%Q 250%Q eq_refl).
Defined.

Lemma onTile_tile (g : Z) : tileOf (onTile g) = g.
Proof.
  apply tileOf_eq with (off := 8); [| lia]. unfold onTile, TILE_SIZE, PLAYER_SIZE.
  change ((48 - 32) / 2) with 8. reflexivity.
Qed.

Lemma canReach_line (b : Building.t) (i : Z) (room : Room.t) (d : Pt) :
  findRoom b i = Some room -> In d floodDirs ->
  forall (n : nat) (c : Pt),
    canReach b i c ->
    (forall k, 1 <= k <= Z.of_nat n ->
               wallAt (fst c + k * fst d) (snd c + k * snd d) room = Some false) ->
    canReach b i (fst c + Z.of_nat n * fst d, snd c + Z.of_nat n * snd d).
Proof.
  intros Hr Hd. induction n as [| n IH]; intros c Hc Ho.
  - replace (fst c + Z.of_nat 0 * fst d, snd c + Z.of_nat 0 * snd d) with c; [exact Hc |].
    destruct c. simpl. f_equal; lia.
  - assert (R : canReach b i (fst c + Z.of_nat n * fst d, snd c + Z.of_nat n * snd d)).
    { apply IH; [exact Hc |]. intros k Hk. apply Ho. lia. }
    pose proof (reach_tile b i room _ d R Hr Hd) as S1. cbn [fst snd] in S1.
    replace (fst c + Z.of_nat n * fst d + fst d) with (fst c + Z.of_nat (S n) * fst d) in S1 by lia.
    replace (snd c + Z.of_nat n * snd d + snd d) with (snd c + Z.of_nat (S n) * snd d) in S1 by lia.
    apply S1. apply Ho. lia.
Qed.

(** The same, with the end of the line named. *)
Lemma canReach_to (b : Building.t) (i : Z) (room : Room.t) (d c e : Pt) (n : Z) :
  findRoom b i = Some room -> In d floodDirs -> 0 <= n ->
  canReach b i c ->
  e = (fst c + n * fst d, snd c + n * snd d) ->
  (forall k, 1 <= k <= n ->
             wallAt (fst c + k * fst d) (snd c + k * snd d) room = Some false) ->
  canReach b i e.
Proof.
  intros Hr Hd Hn Hc -> Ho. rewrite <- (Z2Nat.id n Hn).
  apply (canReach_line b i room d Hr Hd); [exact Hc |].
  intros k Hk. apply Ho. lia.
Qed.

Lemma MadeFrom_laid (n : Z) (ipr : ItemsPerRoom) (g : Placement.t) (pos : Pos.t) (r : Room.t) :
  MadeFrom n ipr g pos r -> Laid r.
Proof.
  intros M. pose proof (MadeFrom_fields _ _ _ _ _ M) as [_ [_ [_ [_ [_ [Hsz _]]]]]].
  split; [exact Hsz |].
  destruct M as [seed [size [doors [Hs [_ [Hd M]]]]]]. cbv zeta in M.
  destruct M as [_ [_ [_ [Rw [Rh [Rd [_ [Rt [Rg _]]]]]]]]].
  exists seed. rewrite Rw, Rh, Rd, Rt, Rg.
  destruct (Pos.id pos =? n - 1); reflexivity.
Qed.

Lemma Laid_dims (r : Room.t) : Laid r -> 9 <= Room.width r /\ 9 <= Room.height r.
Proof.
  intros [Hsz _]. simpl in Hsz.
  destruct Hsz as [H | [H | [H | [H | []]]]]; inversion H; lia.
Qed.

(** A tile of a safe zone lets pass. *)
Lemma Laid_safe (r : Room.t) (gx gy : Z) :
  Laid r -> 1 <= gx <= Room.width r - 2 -> 1 <= gy <= Room.height r - 2 ->
  isSafe (Room.width r) (Room.height r) (Room.doors r) (isBossRoomType (Room.type r)) gx gy
  = true ->
  wallAt gx gy r = Some false.
Proof.
  intros L Hx Hy Hs. destruct (ld_grid r L) as [seed Eg].
  apply wallAt_floor; [lia | lia |]. rewrite Eg.
  apply safe_tile_floor; [lia | lia | apply isBorder_false; lia | exact Hs].
Qed.

(** A tile of the border lets pass where [checkWallCollision] has a
    door or the exit of the boss room. *)
Lemma Laid_border (r : Room.t) (gx gy : Z) :
  Laid r -> 0 <= gx < Room.width r -> 0 <= gy < Room.height r ->
  isBorder (Room.width r) (Room.height r) gx gy = true ->
  (isBossRoomType (Room.type r) && (gy =? 0) && (gx =? Room.width r / 2 + 2))
  || isDoorTile r gx gy = true ->
  wallAt gx gy r = Some false.
Proof.
  intros L Hx Hy Hb Hd. destruct (ld_grid r L) as [seed Eg].
  destruct (border_is_wall (Room.width r) (Room.height r) (Room.doors r)
              (isBossRoomType (Room.type r)) seed gx gy Hx Hy Hb) as [t [Et Ew]].
  rewrite <- Eg in Et. rewrite (wallAt_border r gx gy t Hx Hy Et Ew), Hd. reflexivity.
Qed.

(** From the centre of a room the corridor of a door leads to the tile
    of that door. *)
Lemma centre_to_door (b : Building.t) (i : Z) (r : Room.t) (dir : DoorHit) (v : Z) :
  Laid r -> findRoom b i = Some r -> doorOf dir (Room.doors r) = Some v ->
  canReach b i (Room.width r / 2, Room.height r / 2) ->
  canReach b i (doorTile dir r).
Proof.
  intros L Hr Hd Hc. destruct (Laid_dims r L) as [Hw Hh].
  pose proof (half_range _ Hw) as Mx. pose proof (half_range _ Hh) as My.
  assert (Hnn : notNull (doorOf dir (Room.doors r)) = true) by (rewrite Hd; reflexivity).
  assert (Hdir : In (offset dir) floodDirs)
    by (destruct dir; simpl; try tauto; discriminate Hd).
  destruct dir; cbn [doorOf] in Hnn; [| | | | discriminate Hd].
  - apply (canReach_to b i r (offset hitTop) _ _ (Room.height r / 2) Hr Hdir ltac:(lia) Hc);
      cbn [fst snd offset doorTile]; [f_equal; lia |].
    intros k Hk. destruct (Z.eq_dec k (Room.height r / 2)) as [-> | Hne].
    + apply (Laid_border _ _ _ L); [lia | lia | |].
      * unfold isBorder. replace (Room.height r / 2 + Room.height r / 2 * -1) with 0 by lia.
        rewrite Z.eqb_refl, !orb_true_r. reflexivity.
      * unfold isDoorTile. rewrite Hnn.
        replace (Room.height r / 2 + Room.height r / 2 * -1) with 0 by lia.
        replace (Room.width r / 2 + Room.height r / 2 * 0) with (Room.width r / 2) by lia.
        rewrite !Z.eqb_refl. cbn [andb orb]. apply orb_true_r.
    + apply (Laid_safe _ _ _ L); [lia | lia |]. apply isSafe_spec.
      right. left. split; [exact Hnn | lia].
  - apply (canReach_to b i r (offset hitBottom) _ _ (Room.height r - 1 - Room.height r / 2)
             Hr Hdir ltac:(lia) Hc);
      cbn [fst snd offset doorTile]; [f_equal; lia |].
    intros k Hk. destruct (Z.eq_dec k (Room.height r - 1 - Room.height r / 2)) as [-> | Hne].
    + apply (Laid_border _ _ _ L); [lia | lia | |].
      * unfold isBorder.
        replace (Room.height r / 2 + (Room.height r - 1 - Room.height r / 2) * 1)
          with (Room.height r - 1) by lia.
        rewrite Z.eqb_refl, !orb_true_r. reflexivity.
      * unfold isDoorTile. rewrite Hnn.
        replace (Room.height r / 2 + (Room.height r - 1 - Room.height r / 2) * 1)
          with (Room.height r - 1) by lia.
        replace (Room.width r / 2 + (Room.height r - 1 - Room.height r / 2) * 0)
          with (Room.width r / 2) by lia.
        rewrite !Z.eqb_refl. cbn [andb orb]. rewrite !orb_true_r. reflexivity.
    + apply (Laid_safe _ _ _ L); [lia | lia |]. apply isSafe_spec.
      right. right. left. split; [exact Hnn | lia].
  - apply (canReach_to b i r (offset hitLeft) _ _ (Room.width r / 2) Hr Hdir ltac:(lia) Hc);
      cbn [fst snd offset doorTile]; [f_equal; lia |].
    intros k Hk. destruct (Z.eq_dec k (Room.width r / 2)) as [-> | Hne].
    + apply (Laid_border _ _ _ L); [lia | lia | |].
      * unfold isBorder. replace (Room.width r / 2 + Room.width r / 2 * -1) with 0 by lia.
        rewrite Z.eqb_refl. reflexivity.
      * unfold isDoorTile. rewrite Hnn.
        replace (Room.width r / 2 + Room.width r / 2 * -1) with 0 by lia.
        replace (Room.height r / 2 + Room.width r / 2 * 0) with (Room.height r / 2) by lia.
        rewrite !Z.eqb_refl. cbn [andb orb]. rewrite !orb_true_r. reflexivity.
    + apply (Laid_safe _ _ _ L); [lia | lia |]. apply isSafe_spec.
      do 3 right. left. split; [exact Hnn | lia].
  - apply (canReach_to b i r (offset hitRight) _ _ (Room.width r - 1 - Room.width r / 2)
             Hr Hdir ltac:(lia) Hc);
      cbn [fst snd offset doorTile]; [f_equal; lia |].
    intros k Hk. destruct (Z.eq_dec k (Room.width r - 1 - Room.width r / 2)) as [-> | Hne].
    + apply (Laid_border _ _ _ L); [lia | lia | |].
      * unfold isBorder.
        replace (Room.width r / 2 + (Room.width r - 1 - Room.width r / 2) * 1)
          with (Room.width r - 1) by lia.
        rewrite Z.eqb_refl, !orb_true_r. reflexivity.
      * unfold isDoorTile. rewrite Hnn.
        replace (Room.width r / 2 + (Room.width r - 1 - Room.width r / 2) * 1)
          with (Room.width r - 1) by lia.
        replace (Room.height r / 2 + (Room.width r - 1 - Room.width r / 2) * 0)
          with (Room.height r / 2) by lia.
        rewrite !Z.eqb_refl. cbn [andb orb]. rewrite !orb_true_r. reflexivity.
    + apply (Laid_safe _ _ _ L); [lia | lia |]. apply isSafe_spec.
      do 4 right. left. split; [exact Hnn | lia].
Qed.
Ltac sized L Hw Hh :=
  let H := fresh "H" in
  pose proof (ld_size _ L) as H; simpl in H;
  destruct H as [H | [H | [H | [H | []]]]]; injection H as Hw Hh.

(** With the player's square centred on the tile of a door,
    [checkDoorCollision] answers with that door. *)
Lemma door_fires (r : Room.t) (dir : DoorHit) (v : Z) :
  Laid r -> doorOf dir (Room.doors r) = Some v ->
  checkDoorCollision (onTile (fst (doorTile dir r))) (onTile (snd (doorTile dir r))) r
  = Some dir.
Proof.
  intros L Hd. unfold checkDoorCollision, doorTile.
  sized L Hw Hh; rewrite <- Hw, <- Hh;
    destruct (Room.doors r) as [[t |] [ri |] [bo |] [le |]];
    destruct dir; try discriminate Hd; vm_compute; reflexivity.
Qed.

(** In a boss room, with the player's square centred on the tile of the
    exit, [checkDoorCollision] answers [boss]. *)
Lemma exit_fires (r : Room.t) :
  Laid r -> Room.type r = boss ->
  checkDoorCollision (onTile (fst (doorTile hitBoss r))) (onTile (snd (doorTile hitBoss r))) r
  = Some hitBoss.
Proof.
  intros L Hb. unfold checkDoorCollision, doorTile. rewrite Hb.
  sized L Hw Hh; rewrite <- Hw, <- Hh;
    destruct (Room.doors r) as [[t |] [ri |] [bo |] [le |]];
    vm_compute; reflexivity.
Qed.

(** From where [transitionRoom] puts the player the corridor of the
    door behind leads to the centre of the room. *)
Lemma landing_to_centre (b : Building.t) (j : Z) (next : Room.t) (dir : DoorHit) (i : Z)
    (p : Player.t) :
  Laid next -> findRoom b j = Some next ->
  doorOf (opposite dir) (Room.doors next) = Some i ->
  canReach b j (tileOf (Player.x (arrive dir next p)), tileOf (Player.y (arrive dir next p))) ->
  canReach b j (Room.width next / 2, Room.height next / 2).
Proof.
  intros L Hr Hd Hc. destruct (Laid_dims next L) as [Hw Hh].
  pose proof (half_range _ Hw) as Mx. pose proof (half_range _ Hh) as My.
  assert (Hnn : notNull (doorOf (opposite dir) (Room.doors next)) = true)
    by (rewrite Hd; reflexivity).
  assert (Hdir : In (offset dir) floodDirs)
    by (destruct dir; simpl; try tauto; discriminate Hd).
  pose proof (arrive_tile dir next p) as T. cbv zeta in T.
  destruct dir; cbn [opposite doorOf] in Hnn; [| | | | discriminate Hd];
    destruct T as [T1 T2]; rewrite T1, T2 in Hc.
  - apply (canReach_to b j next (offset hitTop) _ _ (Room.height next - 2 - Room.height next / 2)
             Hr Hdir ltac:(lia) Hc);
      cbn [fst snd offset]; [f_equal; lia |].
    intros k Hk. apply (Laid_safe _ _ _ L); [lia | lia |]. apply isSafe_spec.
    destruct (Z.eq_dec k (Room.height next - 2 - Room.height next / 2)) as [-> | Hne].
    + left. split; lia.
    + right. right. left. split; [exact Hnn | lia].
  - apply (canReach_to b j next (offset hitBottom) _ _ (Room.height next / 2 - 1)
             Hr Hdir ltac:(lia) Hc);
      cbn [fst snd offset]; [f_equal; lia |].
    intros k Hk. apply (Laid_safe _ _ _ L); [lia | lia |]. apply isSafe_spec.
    destruct (Z.eq_dec k (Room.height next / 2 - 1)) as [-> | Hne].
    + left. split; lia.
    + right. left. split; [exact Hnn | lia].
  - apply (canReach_to b j next (offset hitLeft) _ _ (Room.width next - 2 - Room.width next / 2)
             Hr Hdir ltac:(lia) Hc);
      cbn [fst snd offset]; [f_equal; lia |].
    intros k Hk. apply (Laid_safe _ _ _ L); [lia | lia |]. apply isSafe_spec.
    destruct (Z.eq_dec k (Room.width next - 2 - Room.width next / 2)) as [-> | Hne].
    + left. split; lia.
    + do 4 right. left. split; [exact Hnn | lia].
  - apply (canReach_to b j next (offset hitRight) _ _ (Room.width next / 2 - 1)
             Hr Hdir ltac:(lia) Hc);
      cbn [fst snd offset]; [f_equal; lia |].
    intros k Hk. apply (Laid_safe _ _ _ L); [lia | lia |]. apply isSafe_spec.
    destruct (Z.eq_dec k (Room.width next / 2 - 1)) as [-> | Hne].
    + left. split; lia.
    + do 3 right. left. split; [exact Hnn | lia].
Qed.

(** In a boss room the corridor of the exit leads from the centre to
    the tile of the exit. *)
Lemma centre_to_exit (b : Building.t) (i : Z) (r : Room.t) :
  Laid r -> findRoom b i = Some r -> Room.type r = boss ->
  canReach b i (Room.width r / 2, Room.height r / 2) ->
  canReach b i (doorTile hitBoss r).
Proof.
  intros L Hr Hb Hc. destruct (Laid_dims r L) as [Hw Hh].
  pose proof (half_range _ Hw) as Mx. pose proof (half_range _ Hh) as My.
  assert (Hboss : isBossRoomType (Room.type r) = true) by (rewrite Hb; reflexivity).
  assert (H1 : canReach b i (Room.width r / 2 + 2, Room.height r / 2)).
  { apply (canReach_to b i r (1, 0) _ _ 2 Hr ltac:(simpl; tauto) ltac:(lia) Hc);
      cbn [fst snd]; [f_equal; lia |].
    intros k Hk. apply (Laid_safe _ _ _ L); [lia | lia |]. apply isSafe_spec.
    do 5 right. split; [exact Hboss |]. left. lia. }
  apply (canReach_to b i r (0, -1) _ _ (Room.height r / 2) Hr ltac:(simpl; tauto) ltac:(lia) H1);
    cbn [fst snd doorTile]; [f_equal; lia |].
  intros k Hk. destruct (Z.eq_dec k (Room.height r / 2)) as [-> | Hne].
  - apply (Laid_border _ _ _ L); [lia | lia | |].
    + unfold isBorder. replace (Room.height r / 2 + Room.height r / 2 * -1) with 0 by lia.
      rewrite Z.eqb_refl, !orb_true_r. reflexivity.
    + rewrite Hboss.
      replace (Room.height r / 2 + Room.height r / 2 * -1) with 0 by lia.
      replace (Room.width r / 2 + 2 + Room.height r / 2 * 0) with (Room.width r / 2 + 2) by lia.
      rewrite !Z.eqb_refl. reflexivity.
  - apply (Laid_safe _ _ _ L); [lia | lia |]. apply isSafe_spec.
    do 5 right. split; [exact Hboss |]. right. lia.
Qed.
(** X22.  Every level can be walked to its end.  In the building that
    [generateBuilding] makes, for any arguments, the player put in the
    start room by [enterBuilding] can get to the centre tile of every
    room, and to a place in the boss room where [checkDoorCollision]
    answers [boss] (on which [update] calls [completeLevel]): by steps
    to neighbouring tiles that [checkWallCollision] lets pass, and
    through doors where [checkDoorCollision] answers with a door that
    leads to a room and [transitionRoom] puts the player in that room.
    The random walls of [generateRoomLayout] never cut a room off. *)
Theorem level_can_be_finished :
  forall (buildingId difficulty : Z) (theme : Theme) (rootSeed : Z)
         (assignedSpecialItems : list ItemType),
  exists b,
    generateBuilding buildingId difficulty theme rootSeed assignedSpecialItems = Some b /\
    (forall r, In r (Building.rooms b) ->
       canReach b (Room.id r) (Room.width r / 2, Room.height r / 2)) /\
    exists r x y,
      In r (Building.rooms b) /\ Room.type r = boss /\
      canReach b (Room.id r) (tileOf x, tileOf y) /\
      checkDoorCollision x y r = Some hitBoss.
Proof.
  intros buildingId difficulty theme rootSeed items.
  set (p0 := Game.player (Session.g (initialSession 0 0))).
  destruct (generateBuilding_ok buildingId difficulty theme rootSeed items)
    as [b [g [ipr [E [I [F [Hs _]]]]]]].
  exists b. split; [exact E |].
  pose proof (rooms_ids _ ipr g _ I F) as Hids.
  assert (Hn : NoDup (map Room.id (Building.rooms b))) by (rewrite Hids; apply NoDup_upto).
  assert (HL : forall r, In r (Building.rooms b) -> Laid r).
  { intros r Hr. destruct (Forall2_In_r _ _ _ r F Hr) as [pos [_ M]].
    exact (MadeFrom_laid _ _ _ _ _ M). }
  assert (Hcentre : forall j, walk b 0 j ->
            forall r, In r (Building.rooms b) -> Room.id r = j ->
                      canReach b j (Room.width r / 2, Room.height r / 2)).
  { induction 1 as [| j k W IH [rj [Hrj [Ej Hk]]]]; intros r Hr Er.
    - pose proof (findRoom_of b r Hn Hr) as Fr. rewrite Er, <- Hs in Fr.
      pose proof (reach_start b r p0 Fr) as R.
      destruct (arriveAtStart_tile r p0) as [T1 T2].
      rewrite T1, T2, Hs in R. exact R.
    - destruct (in_doorList _ _ Hk) as [dir Hd].
      destruct (door_leads_back _ ipr g _ I F rj dir k Hrj Hd) as [q [Hq [Qid [_ [_ Qd]]]]].
      assert (Eq : q = r).
      { pose proof (findRoom_of b q Hn Hq) as F1. pose proof (findRoom_of b r Hn Hr) as F2.
        rewrite Qid in F1. rewrite Er in F2. congruence. }
      subst q.
      pose proof (findRoom_of b rj Hn Hrj) as Fj. rewrite Ej in Fj.
      pose proof (findRoom_of b r Hn Hr) as Fr. rewrite Er in Fr.
      pose proof (centre_to_door b j rj dir k (HL rj Hrj) Fj Hd (IH rj Hrj Ej)) as D.
      apply (landing_to_centre b k r dir (Room.id rj) p0 (HL r Hr) Fr Qd).
      apply (reach_door b j rj (doorTile dir rj)
               (onTile (fst (doorTile dir rj))) (onTile (snd (doorTile dir rj)))
               dir k r p0 D Fj);
        [apply onTile_tile | apply onTile_tile
        | apply (door_fires rj dir k (HL rj Hrj) Hd) | exact Hd | exact Fr]. }
  split.
  - intros r Hr. apply Hcentre; [| exact Hr | reflexivity].
    destruct (Forall2_In_r _ _ _ r F Hr) as [pos [Hpos M]].
    destruct (MadeFrom_fields _ _ _ _ _ M) as [Rid _]. rewrite Rid.
    pose proof (pos_id_range _ g pos I Hpos) as R.
    apply (walk_to_id _ g ipr b I F (S (Z.to_nat (Pos.id pos)))); lia.
  - pose proof (numRoomsOf_ge2 difficulty) as Hge.
    assert (Hlast : In (numRoomsOf difficulty - 1) (map Room.id (Building.rooms b)))
      by (rewrite Hids; apply in_upto; lia).
    apply in_map_iff in Hlast. destruct Hlast as [r [Er Hr]].
    destruct (Forall2_In_r _ _ _ r F Hr) as [pos [Hpos M]].
    destruct (MadeFrom_fields _ _ _ _ _ M) as [Rid [_ [_ [_ [Rt _]]]]].
    rewrite <- Rid, Er, Z.eqb_refl in Rt.
    pose proof (findRoom_of b r Hn Hr) as Fr.
    assert (W : walk b 0 (Room.id r))
      by (rewrite Er; apply (walk_to_id _ g ipr b I F (S (Z.to_nat (numRoomsOf difficulty)))); lia).
    pose proof (centre_to_exit b (Room.id r) r (HL r Hr) Fr Rt (Hcentre _ W r Hr eq_refl)) as X.
    exists r, (onTile (fst (doorTile hitBoss r))), (onTile (snd (doorTile hitBoss r))).
    split; [exact Hr |]. split; [exact Rt |].
    split; [rewrite !onTile_tile; destruct (doorTile hitBoss r); exact X |].
    apply (exit_fires r (HL r Hr) Rt).
Qed.

Lemma Kept_refl (s : Session.t) : Kept s s.
Proof. unfold Kept, StatsKept. repeat split; lia. Qed.

Lemma Kept_trans (s1 s2 s3 : Session.t) : Kept s1 s2 -> Kept s2 s3 -> Kept s1 s3.
Proof. unfold Kept, StatsKept. intros A B. repeat split; lia. Qed.

Ltac kept := unfold Kept, StatsKept; cbn; repeat split; try reflexivity; try lia.

Lemma stepPlayer_kept (input : Input.t) (room : Room.t) (s s1 : Session.t) :
  stepPlayer input room s = Ok s1 -> Kept s s1.
Proof.
  unfold stepPlayer. cbv zeta.
  destruct (checkWallCollision _ _ room) as [hitX |]; cbn [defined andThen]; [| discriminate].
  destruct (checkWallCollision _ _ room) as [hitY |]; cbn [defined andThen]; [| discriminate].
  intros H. inversion H; subst s1. kept.
Qed.

Lemma fire_kept (aim : Q -> Q -> Q * Q) (input : Input.t) (s : Session.t) :
  Kept s (fire aim input s).
Proof.
  unfold fire. cbv zeta.
  destruct (Input.fire input && negb (Qltb 0 (Player.cooldown (Game.player (Session.g s)))));
    kept.
Qed.

Lemma createParticles_kept {A} (l : list A) (s : Session.t) :
  Kept s (fold_left (fun acc _ => createParticles acc) l s).
Proof.
  revert s. induction l as [| v l IH]; intros s; [apply Kept_refl |].
  cbn [fold_left]. eapply Kept_trans; [| apply IH]. kept.
Qed.

Lemma bombAttack_kept (input : Input.t) (s : Session.t) : Kept s (bombAttack input s).
Proof.
  unfold bombAttack. cbv zeta.
  destruct (Input.bomb input && (Player.bombCooldown (Game.player (Session.g s)) <=? 0));
    [| apply Kept_refl].
  destruct (Stats.mp (Session.seenStats s) >=? BOMB_COST); [| apply Kept_refl].
  eapply Kept_trans; [| apply createParticles_kept]. kept.
Qed.

Lemma bombTick_kept (s : Session.t) : Kept s (bombTick s).
Proof. kept. Qed.

Lemma stepProjectile_kept (room : Room.t) (p : Projectile.t) (done d1 : list Projectile.t)
    (s s1 : Session.t) :
  stepProjectile room (Ok (done, s)) p = Ok (d1, s1) -> Kept s s1.
Proof.
  unfold stepProjectile. cbn [andThen]. cbv zeta.
  destruct (checkWallCollision _ _ room) as [hit |]; cbn [defined andThen]; [| discriminate].
  destruct (hitEnemies _ _ _) as [[p2 es] hits].
  intros H. inversion H; subst. kept.
Qed.

Lemma fold_stepProjectile_kept (room : Room.t) (live : list Projectile.t) :
  forall done s d1 s1,
    fold_left (stepProjectile room) live (Ok (done, s)) = Ok (d1, s1) -> Kept s s1.
Proof.
  induction live as [| p live IH]; intros done s d1 s1; cbn [fold_left].
  - intros H. inversion H; subst. apply Kept_refl.
  - destruct (stepProjectile room (Ok (done, s)) p) as [[d2 s2] | |] eqn:E.
    + intros H. eapply Kept_trans; [apply (stepProjectile_kept _ _ _ _ _ _ E) |].
      apply (IH _ _ _ _ H).
    + intros H. exfalso. revert H. apply fold_stepProjectile_stuck. discriminate.
    + intros H. exfalso. revert H. apply fold_stepProjectile_stuck. discriminate.
Qed.

Lemma stepProjectiles_kept (room : Room.t) (s s1 : Session.t) :
  stepProjectiles room s = Ok s1 -> Kept s s1.
Proof.
  unfold stepProjectiles. cbv zeta.
  destruct (fold_left _ _ _) as [[d2 s2] | |] eqn:E; cbn [andThen fst snd];
    [| discriminate | discriminate].
  intros H. inversion H; subst s1.
  eapply Kept_trans; [apply (fold_stepProjectile_kept _ _ _ _ _ _ E) |]. kept.
Qed.

Lemma checkDeaths_kept (s : Session.t) : Kept s (checkDeaths s).
Proof.
  unfold checkDeaths. cbv zeta.
  destruct (len _ >? 0) eqn:El; [| kept].
  apply Z.gtb_lt in El.
  destruct (len _ =? 0); [| kept].
  cbn [setPlayerStats withStats Session.g Game.building].
  destruct (Game.building (Session.g s)); kept.
Qed.

Lemma takeDamage_kept (s : Session.t) : Kept s (takeDamage s).
Proof.
  unfold takeDamage, saveScore. cbv zeta.
  destruct (Stats.hp (Session.playerStats s) - 1 <=? 0); [| kept].
  destruct (Stats.score (Session.playerStats s) >? Session.highScore s) eqn:Eh; [| kept].
  apply Z.gtb_lt in Eh. kept.
Qed.

Lemma stepEnemy_kept (aim : Q -> Q -> Q * Q) (room : Room.t) (e : Enemy.t)
    (done d1 : list Enemy.t) (s s1 : Session.t) :
  stepEnemy aim room (Ok (done, s)) e = Ok (d1, s1) -> Kept s s1.
Proof.
  unfold stepEnemy. cbn [andThen]. cbv zeta.
  destruct (Enemy.state e).
  - destruct (distLt _ _ _ _ 40).
    + intros H. inversion H; subst. apply Kept_refl.
    + destruct (checkWallCollision _ _ room) as [hitX |]; cbn [defined andThen];
        [| discriminate].
      destruct (checkWallCollision _ _ room) as [hitY |]; cbn [defined andThen];
        [| discriminate].
      intros H. inversion H; subst. apply Kept_refl.
  - destruct (Enemy.timer e - 1 <=? 0).
    + destruct (distLt _ _ _ _ 50); intros H; inversion H; subst;
        [apply takeDamage_kept | apply Kept_refl].
    + intros H. inversion H; subst. apply Kept_refl.
  - intros H. inversion H; subst. apply Kept_refl.
  - intros H. inversion H; subst. apply Kept_refl.
Qed.

Lemma fold_stepEnemy_kept (aim : Q -> Q -> Q * Q) (room : Room.t) (es : list Enemy.t) :
  forall done s d1 s1,
    fold_left (stepEnemy aim room) es (Ok (done, s)) = Ok (d1, s1) -> Kept s s1.
Proof.
  induction es as [| e es IH]; intros done s d1 s1; cbn [fold_left].
  - intros H. inversion H; subst. apply Kept_refl.
  - destruct (stepEnemy aim room (Ok (done, s)) e) as [[d2 s2] | |] eqn:E.
    + intros H. eapply Kept_trans; [apply (stepEnemy_kept _ _ _ _ _ _ _ E) |].
      apply (IH _ _ _ _ H).
    + intros H. exfalso. revert H. apply fold_stepEnemy_stuck. discriminate.
    + intros H. exfalso. revert H. apply fold_stepEnemy_stuck. discriminate.
Qed.

Lemma stepEnemies_kept (aim : Q -> Q -> Q * Q) (room : Room.t) (s s1 : Session.t) :
  stepEnemies aim room s = Ok s1 -> Kept s s1.
Proof.
  unfold stepEnemies.
  destruct (fold_left _ _ _) as [[d2 s2] | |] eqn:E; cbn [andThen fst snd];
    [| discriminate | discriminate].
  intros H. inversion H; subst s1.
  eapply Kept_trans; [apply (fold_stepEnemy_kept _ _ _ _ _ _ _ E) |]. kept.
Qed.

Lemma itemEffect_kept (seen : Stats.t) (ty : ItemType) (f : Stats.t -> Stats.t) (st : Stats.t) :
  itemEffect seen ty = Some f -> StatsKept st (f st).
Proof.
  intros E. destruct ty; cbn [itemEffect] in E;
    try (destruct (_ <? _); [| discriminate E]);
    inversion E; subst f; unfold StatsKept; cbn; repeat split; lia.
Qed.

Lemma consume_kept (item : Item.t) (seen : Stats.t) (f : Stats.t -> Stats.t) (s : Session.t) :
  itemEffect seen (Item.type item) = Some f -> Kept s (consume item f s).
Proof.
  intros E. pose proof (itemEffect_kept _ _ _ (Session.playerStats s) E) as K.
  unfold consume. cbv zeta.
  cbn [createParticles setPlayerStats withStats withRandomCalls withCollected
       Session.g Game.building].
  destruct (Game.building (Session.g s)); unfold Kept; cbn; (split; [exact K | lia]).
Qed.

Lemma stepItem_kept (kept : list Item.t) (s : Session.t) (item : Item.t) :
  Kept s (snd (stepItem (kept, s) item)).
Proof.
  unfold stepItem.
  destruct (checkCollision _ _); [| apply Kept_refl].
  destruct (itemEffect (Session.seenStats s) (Item.type item)) as [f |] eqn:E;
    [| apply Kept_refl].
  cbn [snd]. exact (consume_kept item _ f s E).
Qed.

Lemma fold_stepItem_kept (items : list Item.t) :
  forall kept s, Kept s (snd (fold_left stepItem items (kept, s))).
Proof.
  induction items as [| item items IH]; intros kept s; cbn [fold_left].
  - apply Kept_refl.
  - pose proof (stepItem_kept kept s item) as S1.
    destruct (stepItem (kept, s) item) as [k1 s1]. cbn [snd] in S1.
    eapply Kept_trans; [exact S1 | apply IH].
Qed.

Lemma stepItems_kept (s : Session.t) : Kept s (stepItems s).
Proof.
  unfold stepItems. cbv zeta.
  eapply Kept_trans; [apply (fold_stepItem_kept (Game.items (Session.g s)) [] s) |].
  kept.
Qed.

Lemma setupRoom_kept (random : Oracle) (fuel : nat) (cb roomId : Z) (s s' : Session.t) :
  setupRoom random fuel cb roomId s = Ok s' -> Kept s s'.
Proof.
  unfold setupRoom.
  destruct (Game.building (Session.g s)) as [b |]; cbn [defined andThen]; [| discriminate].
  destruct (findRoom b roomId) as [room |]; cbn [defined andThen]; [| discriminate].
  destruct (findNode (Session.worldMap s) cb) as [node |]; cbn [defined andThen];
    [| discriminate].
  cbv zeta. destruct (_ && _ && _).
  - destruct (spawnEnemies _ _ _ _ _ _ _ _) as [[es1 c1] | |]; cbn [andThen fst snd];
      [| discriminate | discriminate].
    intros H. inversion H; subst s'. kept.
  - intros H. inversion H; subst s'. kept.
Qed.

Lemma transitionRoom_kept (random : Oracle) (fuel : nat) (direction : DoorHit)
    (nextRoomId : Z) (s s' : Session.t) :
  transitionRoom random fuel direction nextRoomId s = Ok s' -> Kept s s'.
Proof.
  unfold transitionRoom.
  destruct (Game.building (Session.g s)) as [b |]; cbn [defined andThen]; [| discriminate].
  destruct (findRoom b nextRoomId) as [next |]; cbn [defined andThen]; [| discriminate].
  cbv zeta. intros H. apply setupRoom_kept in H.
  eapply Kept_trans; [| exact H]. kept.
Qed.

Lemma continue_kept (aim : Q -> Q -> Q * Q) (input : Input.t) (room : Room.t)
    (s1 s5 : Session.t) :
  (s3 <! stepProjectiles room (bombTick (bombAttack input (fire aim input s1))) ;;
   s4 <! stepEnemies aim room (checkDeaths s3) ;;
   Ok (stepItems s4)) = Ok s5 ->
  Kept s1 s5.
Proof.
  destruct (stepProjectiles room _) as [s3 | |] eqn:E3; cbn [andThen];
    [| discriminate | discriminate].
  destruct (stepEnemies aim room _) as [s4 | |] eqn:E4; cbn [andThen];
    [| discriminate | discriminate].
  intros H. inversion H; subst s5.
  apply stepProjectiles_kept in E3. apply stepEnemies_kept in E4.
  eapply Kept_trans; [apply fire_kept |].
  eapply Kept_trans; [apply bombAttack_kept |].
  eapply Kept_trans; [apply bombTick_kept |].
  eapply Kept_trans; [exact E3 |].
  eapply Kept_trans; [apply checkDeaths_kept |].
  eapply Kept_trans; [exact E4 |].
  apply stepItems_kept.
Qed.

Lemma completeLevel_kept (s r : Session.t) : completeLevel s = Ok r -> Kept s r.
Proof.
  unfold completeLevel. cbv zeta.
  destruct (findNode _ _) as [n0 |]; cbn [defined andThen]; [| discriminate].
  destruct (Node.id n0 =? 0).
  - intros H. inversion H; subst r. kept.
  - unfold saveScore. destruct (Node.column n0 =? _).
    + destruct (_ >? _) eqn:Eh; intros H; inversion H; subst r; [| kept].
      apply Z.gtb_lt in Eh. cbn in Eh. kept.
    + intros H. inversion H; subst r. kept.
Qed.

Lemma rerender_kept (s r : Session.t) : Kept r (rerender s r).
Proof. unfold rerender. destruct (_ && _); kept. Qed.

(** A frame takes nothing away. *)
Lemma update_kept (aim : Q -> Q -> Q * Q) (random : Oracle) (fuel : nat) (input : Input.t)
    (s s' : Session.t) :
  update aim random fuel input s = Ok s' -> Kept s s'.
Proof.
  unfold update.
  destruct (GameState_eqb (Session.gameState s) PLAYING); cbn [negb].
  2:{ intros H. inversion H; subst s'. apply Kept_refl. }
  destruct (Game.building (Session.g s)) as [b |]; cbn [defined andThen]; [| discriminate].
  destruct (findRoom b (Session.activeRoomId s)) as [room |]; cbn [defined andThen];
    [| discriminate].
  destruct (stepPlayer input room s) as [s1 | |] eqn:E1; cbn [andThen];
    [| discriminate | discriminate].
  pose proof (stepPlayer_kept _ _ _ _ E1) as S1.
  assert (Hdone : forall r, Kept s1 r -> Kept s (rerender s r)).
  { intros r K. eapply Kept_trans; [exact S1 |].
    eapply Kept_trans; [exact K | apply rerender_kept]. }
  cbv zeta.
  match goal with
  | |- andThen ?m _ = _ -> _ =>
      assert (Hm : forall r, m = Ok r -> Kept s1 r);
      [| destruct m as [r | |]; cbn [andThen]; [| discriminate | discriminate];
         intros H; inversion H; subst s'; apply Hdone; apply Hm; reflexivity]
  end.
  intros r.
  destruct (checkDoorCollision _ _ room) as [[] |];
    try (destruct (doorOf _ _));
    first [apply transitionRoom_kept | apply completeLevel_kept | apply continue_kept].
Qed.

Lemma enterBuilding_kept (random : Oracle) (fuel : nat) (buildingId : Z) (s s' : Session.t) :
  enterBuilding random fuel buildingId s = Ok s' -> Kept s s'.
Proof.
  unfold enterBuilding.
  destruct (findNode _ _) as [node |]; cbn [defined andThen]; [| discriminate].
  destruct (generateBuilding _ _ _ _ _) as [gen |]; cbn [defined andThen]; [| discriminate].
  cbv zeta.
  destruct (findRoom _ _) as [start |]; cbn [defined andThen]; [| discriminate].
  destruct (setupRoom _ _ _ _ _) as [s1 | |] eqn:E; cbn [andThen];
    [| discriminate | discriminate].
  intros H. inversion H; subst s'. apply setupRoom_kept in E.
  eapply Kept_trans; [| apply rerender_kept].
  eapply Kept_trans; [| eapply Kept_trans; [exact E |]]; kept.
Qed.

Lemma onSession_kept (app app' : App.t) (r : Result Session.t) :
  (forall s, r = Ok s -> Kept (App.session app) s) ->
  onSession app r = Ok app' -> Kept (App.session app) (App.session app').
Proof.
  intros Hr. unfold onSession. destruct r as [s | |]; cbn [andThen];
    [| discriminate | discriminate].
  intros H. inversion H; subst app'. cbn [App.session].
  eapply Kept_trans; [apply Hr; reflexivity | apply rerender_kept].
Qed.

(** An event takes nothing away, unless it begins a new game; and the
    high score it never lowers. *)
Lemma dispatch_kept (aim : Q -> Q -> Q * Q) (random : Oracle) (fuel : nat) (e : Event)
    (app app' : App.t) :
  dispatch aim random fuel e app = Ok app' ->
  Session.highScore (App.session app) <= Session.highScore (App.session app') /\
  (beginsGame e = false -> Kept (App.session app) (App.session app')).
Proof.
  assert (Hsame : forall a, Ok app = Ok a ->
            Session.highScore (App.session app) <= Session.highScore (App.session a) /\
            (beginsGame e = false -> Kept (App.session app) (App.session a))).
  { intros a H. inversion H; subst a. split; [lia | intros _; apply Kept_refl]. }
  assert (Hk : forall a, Kept (App.session app) (App.session a) ->
            Session.highScore (App.session app) <= Session.highScore (App.session a) /\
            (beginsGame e = false -> Kept (App.session app) (App.session a))).
  { intros a K. split; [exact (proj2 K) | intros _; exact K]. }
  unfold dispatch. cbv zeta. destruct e.
  - destruct (GameState_eqb _ START); [| apply Hsame].
    intros H. apply Hk. revert H. apply onSession_kept.
    intros s H. inversion H; subst s. kept.
  - destruct (GameState_eqb _ CHAR_SELECT); [| apply Hsame].
    destruct (nth_error CHARACTERS i); [| apply Hsame].
    intros H. apply Hk. revert H. apply onSession_kept.
    intros s H. inversion H; subst s. kept.
  - destruct (GameState_eqb _ CHAR_SELECT); [| apply Hsame].
    unfold onSession, startGame.
    destruct (generateWorldMap _ _) as [[m |] c]; cbn [andThen]; [| discriminate].
    intros H. inversion H; subst app'. cbn [App.session beginsGame].
    split; [| discriminate]. unfold rerender. destruct (_ && _); cbn; lia.
  - destruct (GameState_eqb _ MAP); [| apply Hsame].
    destruct (nth_error _ i) as [node |]; [| apply Hsame].
    destruct (_ || _); [apply Hsame |].
    intros H. apply Hk. revert H. apply onSession_kept.
    intros s. apply enterBuilding_kept.
  - destruct (update _ _ _ _ _) as [s1 | |] eqn:E; cbn [andThen];
      [| discriminate | discriminate].
    intros H. inversion H; subst app'. apply Hk. cbn [App.session].
    apply (update_kept _ _ _ _ _ _ E).
  - destruct (GameState_eqb _ GAMEOVER); [| apply Hsame].
    intros H. apply Hk. revert H. apply onSession_kept.
    intros s H. inversion H; subst s. kept.
  - destruct (GameState_eqb _ MESSAGE); [| apply Hsame].
    intros H. apply Hk. revert H. apply onSession_kept.
    intros s H. inversion H; subst s. kept.
  - destruct (GameState_eqb _ ENDING); [| apply Hsame].
    destruct (getEndingContent _ _ _) as [content |]; [| apply Hsame].
    destruct (endingClick _ _ _) as [page |].
    + intros H. inversion H; subst app'. apply Hk. apply Kept_refl.
    + intros H. apply Hk. revert H. apply onSession_kept.
      intros s H. inversion H; subst s. kept.
Qed.

(** X23.  What the player has gained stays.  Over any events of a session,
    from any state, the high score never goes down; and as long as no
    new game is begun (no click on the button that calls [startGame]),
    neither do the score, the keys, the files, the sizes of the health
    and energy bars, the speed and the damage of the player: frames,
    hits, bombs, room changes, entering a building and finishing one
    take away health and energy only. *)
Theorem gains_are_kept :
  forall (aim : Q -> Q -> Q * Q) (random : Oracle) (fuel : nat)
         (events : list Event) (app app' : App.t),
    run aim random fuel events app = Ok app' ->
    Session.highScore (App.session app) <= Session.highScore (App.session app') /\
    (forallb (fun e => negb (beginsGame e)) events = true ->
     StatsKept (Session.playerStats (App.session app))
               (Session.playerStats (App.session app'))).
Proof.
  intros aim random fuel events.
  induction events as [| e events IH]; intros app app' H; cbn [run] in H.
  - inversion H; subst app'. split; [lia |].
    intros _. exact (proj1 (Kept_refl _)).
  - destruct (dispatch aim random fuel e app) as [app1 | |] eqn:E; cbn [andThen] in H;
      [| discriminate | discriminate].
    destruct (dispatch_kept _ _ _ _ _ _ E) as [D1 D2].
    destruct (IH _ _ H) as [I1 I2].
    split; [lia |].
    cbn [forallb]. intros F. apply andb_true_iff in F. destruct F as [F1 F2].
    apply negb_true_iff in F1.
    exact (proj1 (Kept_trans _ _ _ (D2 F1) (conj (I2 F2) I1))).
Qed.
Lemma gains_are_kept_witness :
  exists app0 app,
    run (fun dx dy => ((if Qltb 0 dx then 1 else -1)%Q, (if Qltb 0 dy then 1 else -1)%Q))
        (fun c => Z.of_nat c * 1125899906842624 + 562949953421312) 20
        [ClickBegin; ClickEnterIsland 1; ClickNode 0] (initialApp 1 0) = Ok app0 /\
    run (fun dx dy => ((if Qltb 0 dx then 1 else -1)%Q, (if Qltb 0 dy then 1 else -1)%Q))
        (fun c => Z.of_nat c * 1125899906842624 + 562949953421312) 20
        (repeat (Tick {| Input.x := 0; Input.y := -1; Input.fire := true;
                         Input.bomb := false |}) 100
         ++ repeat (Tick {| Input.x := 0; Input.y := 0; Input.fire := true;
                            Input.bomb := true |}) 100)
        app0 = Ok app /\
    Stats.score (Session.playerStats (App.session app0)) = 0 /\
    Stats.score (Session.playerStats (App.session app)) = 200 /\
    Session.highScore (App.session app0) <= Session.highScore (App.session app) /\
    StatsKept (Session.playerStats (App.session app0)) (Session.playerStats (App.session app)).
Proof.
  assert (F : match run (fun dx dy => ((if Qltb 0 dx then 1 else -1)%Q,
                                       (if Qltb 0 dy then 1 else -1)%Q))
                    (fun c => Z.of_nat c * 1125899906842624 + 562949953421312) 20
                    [ClickBegin; ClickEnterIsland 1; ClickNode 0] (initialApp 1 0) with
              | Ok app0 =>
                  match run (fun dx dy => ((if Qltb 0 dx then 1 else -1)%Q,
                                           (if Qltb 0 dy then 1 else -1)%Q))
                            (fun c => Z.of_nat c * 1125899906842624 + 562949953421312) 20
                            (repeat (Tick {| Input.x := 0; Input.y := -1; Input.fire := true;
                                             Input.bomb := false |}) 100
                             ++ repeat (Tick {| Input.x := 0; Input.y := 0; Input.fire := true;
                                                Input.bomb := true |}) 100)
                            app0 with
                  | Ok app => Stats.score (Session.playerStats (App.session app0)) = 0 /\
                              Stats.score (Session.playerStats (App.session app)) = 200
                  | _ => False
                  end
              | _ => False
              end) by (vm_compute; split; reflexivity).
  destruct (run _ _ _ [ClickBegin; ClickEnterIsland 1; ClickNode 0] _) as [app0 | |];
    [| destruct F | destruct F].
  destruct (run _ _ _ _ app0) as [app | |] eqn:E; [| destruct F | destruct F].
  destruct F as [F0 F1].
  exists app0, app. split; [reflexivity |]. split; [exact E |].
  split; [exact F0 |]. split; [exact F1 |].
  destruct (gains_are_kept _ _ _ _ _ _ E) as [H K].
  split; [exact H |]. apply K. vm_compute. reflexivity.
Defined.
